(* ===== verification/_CoqProject ===== *)
-Q . S2P
Prelude.v
Abi.v
PacketParser.v
ParserFacts.v
Frames.v
Dissector.v
Language.v
TelemetryTypes.v
TcObserver.v
Samples.v
Tests.v
ObserverFacts.v
Accounting.v
Flows.v
ObserverTheorems.v
HostObserver.v
MapTypes.v
ActiveTc.v
PolicyRuns.v
Xdp.v
XdpRuns.v
SpscQueue.v
SpscConcurrent.v
QueueTest.v
EbpfTelemetry.v
TelemetryConcurrent.v
Pipeline.v
RuntimeConfig.v
Cli.v
TcAttachment.v
EbpfObject.v
PcapReceiver.v
ElephantShrew.v
RedisPacketStore.v
RedisShutdown.v
Recording.v
ServiceShutdown.v
Lifetime.v
Supervisor.v
ThreadPool.v
Executor.v
Endpoints.v
