(* ===== verification/Prelude.v ===== *)
(** * ElephantShrew: a verified model

    ElephantShrew observes and forwards network traffic on Linux.  It has two
    halves.  In the kernel, eBPF programs (under [src/bpf/]) parse each frame,
    count it, keep a flow table and publish sampled events to a ring buffer;
    other programs apply a policy or forward XDP frames.  In user space, C++
    code (under [src/inc/], [src/int/], [src/src/]) loads and attaches these
    programs, drains the ring into a queue, captures packets with PcapPlusPlus,
    forwards them between interfaces, records them in Redis, and runs all this
    under a supervisor configured by a JSON file and the command line.

    Every definition is a translation of the C or C++ it names.  An unsigned
    integer is a [Z] with its wrap-around written out ([wrap]); an operation
    that may throw is a [result], one that also changes a state an [effect];
    an access out of bounds is a fault ([None]), so that a theorem that gives
    a result also excludes faults.  Code that is not in the repository
    (kernel helpers, libbpf, the JSON library, PcapPlusPlus, Boost.Redis, the
    generated skeletons) is a class or an argument; what is relied on is
    stated as the laws of a second class ([...Ok]) or as a hypothesis, and
    instances show that it can hold.

    ** The files, in dependency order

    - [Prelude]: machine integers, bytes, C++ exceptions, the [effect] monad
      with its Hoare triples, codecs (the byte image of a C object), automation.
    - [Abi]: [elephantshrew_shared.h] and [elephantshrew_policy_shared.h]:
      constants, structs and their byte images as codecs, of the sizes the
      header asserts.
    - [PacketParser]: [es_parse] of [packet_parser.bpf.h], on a parser monad
      whose state is the prefix, the tuple and the VLAN count.
      [ParserFacts]: memory safety, contract, monotonicity in the prefix, flag
      discipline.  [Frames]: a grammar of well-formed frames with an emitter,
      and that parsing undoes emission.  [Dissector]: a reference parser that
      consumes bytes layer by layer, and that [es_parse] is it.  [Language]:
      exactly which packets are accepted, and with which tuple.
    - [TelemetryTypes]: [DecodeEvent], and that it accepts exactly the images
      of well-formed events.
    - [Tests]: the repository's parser and decoder tests and its fuzz target,
      run on the model or proved never to fail.
    - [TcObserver]: [es_observe] of [elephantshrew_tc.bpf.c] on one CPU's view
      of its maps.  [Samples]: concrete packets and kernel helpers for the
      witnesses.  [ObserverFacts], [Accounting], [Flows]: what one step does to
      counters, events and flows; an abstract accounting machine.
      [ObserverTheorems]: the refinement and its consequences for whole runs
      (counter identities, events that decode, the flow table).
      [HostObserver]: both programs on every CPU of a host - per-CPU maps, one
      ring - and that each hook of each CPU follows its own specification.
      [MapTypes]: what the maps hold stays well typed, wrap-around included.
    - [ActiveTc], [Xdp]: the policy program and the two XDP programs.
      [PolicyRuns]: the policy over packets and published rule tables.
      [XdpRuns]: the XDP forwarder over frames, CPUs and changes of its port.
    - [SpscQueue]: [SpscQueue.hpp] as sequential code, refined to a bounded
      FIFO.  [SpscConcurrent]: the same code as the steps of a producer and a
      consumer whose acquire loads may be stale; an [Inductive] step relation
      and an invariant by induction on runs.  [QueueTest]: the queue's stress
      test as a program of two threads over these steps.
    - [EbpfTelemetry]: [EbpfTelemetry.cpp]: callbacks, sources, poller, drain
      and shutdown; uses [TelemetryTypes] and [SpscQueue].  [TelemetryConcurrent]:
      the same code as the steps of the poller, of the thread that shuts down and
      of the sink, on the queue of [SpscConcurrent].  [Pipeline]: hosts,
      their rings and one receiver in one system, from packets to records.
    - [RuntimeConfig]: [RuntimeConfig.hpp], [RuntimeConfig.cpp].  [Cli]: the
      command line and the effective configuration, the first half of
      [ElephantShrewMain.cpp].
    - [TcAttachment]: [TcAttachment.hpp] against a kernel of filter slots.
      [EbpfObject]: [EbpfObject.cpp] as the sequence of calls it makes.
    - [PcapReceiver]: [PcapReceiver.cpp] and the interface [Pcap] to the
      devices, which is also the interface of [ElephantShrew]:
      [ElephantShrew.cpp] and [Bootstrapper.cpp], who owns which device when.
    - [RedisPacketStore]: [RedisPacketStore.cpp] as the atomic steps of the
      capture threads, the I/O thread, the destructor and Redis, for every
      interleaving; who sleeps on the condition variable [pending_cv_] is part of
      the state, who wakes them part of the operations.
      [RedisShutdown]: the destructor's timed wait and what it leaves behind.
      [Recording]: receivers and store together, from captured packets to the
      commands issued.  [ServiceShutdown]: the destructor of the service above
      them: receivers one after the other, then the store.
    - [Lifetime]: [RunCaptureService] of [ElephantShrewMain.cpp], an attempt of
      the supervisor with everything that runs in it - the receivers [Init] has
      started, the store it has made - to the end of its teardown, if that ends.
      [Supervisor]: the service loop and [main] over such attempts.
    - [ThreadPool]: [ThreadPool.cpp], the constructor, and every interleaving of
      workers, [Post], the destructor and spurious wake-ups.  [Executor]: [Executor.hpp] on top of it: packaged tasks,
      promises and futures as a heap of cells that are settled once.
    - [Endpoints]: the handlers, the UDP endpoints, [ElephantShrewSuper], the
      interface scanner, the Redis sample and the capability probe: small, and tied to the rest
      only through the interfaces they implement.

    ** What the theorems show

    - Safety: the parser reads and writes in bounds on every input
      ([ParserFacts.es_parse_safe]); the queue has no data race
      ([SpscConcurrent.SpscQueue_concurrent]) and its two producers are never in
      it at once ([TelemetryConcurrent.telemetry_concurrent]); attachments never remove another
      owner's filter ([TcAttachment.Detach_owned]); the policy never sends back
      to the ingress interface ([ActiveTc.es_active_safe]); no future is settled twice
      ([Executor.futures_settle]); an attempt of the supervisor that returns leaves no
      device open, and no thread uses the store when it is destroyed
      ([Lifetime.attempt_records]); no wake-up of the packet store is lost
      ([RedisPacketStore.Store_progress]).
    - Types: the maps hold images of their C types for any number of packets
      ([MapTypes.host_maps_typed]).
    - Function: the parser is a reference dissector on every input
      ([Dissector.es_parse_dissect]) and accepts exactly the language of a grammar
      ([Language.es_parse_language]); the observer
      implements its accounting machine ([ObserverTheorems.es_observe_refines]);
      the decoder, the configuration loader and the command line accept exactly
      the stated inputs; a started service has exactly the configured receivers;
      the program prints, logs and returns what [Supervisor.main_exit_code] says.
    - Conservation: packets, XDP frames, events, flows, telemetry records, pending
      writes and policy verdicts are all accounted for ([ObserverTheorems.observer_totals],
      [XdpRuns.xdp_accounting], [PolicyRuns.policy_accounting], [EbpfTelemetry.telemetry_conservation], [RedisPacketStore.Store_accounting]),
      over all CPUs of a host ([HostObserver.host_accounting]).
    - Composition: records received in user space are, in ring order and without
      duplicates, descriptions of the packets they name
      ([Pipeline.pipeline_end_to_end]); the commands issued for a device decode to
      what was captured on it ([Recording.recorded_stream]), in every attempt of the
      supervisor, from [Init] to the end of the destructors, and so do those that
      Redis acknowledges ([Lifetime.attempt_records]).
    - Termination and progress: of every loop ([es_parse] needs no fuel beyond
      its constant loop bounds), of the poller and the drain,
      of every run of the receiver's shutdown whatever its threads are doing
      ([TelemetryConcurrent.telemetry_finishes]), of the queue's test
      ([QueueTest.queue_test_passes]),
      of the packet store's pipeline, as far as it is the store's own and not
      Redis's ([RedisPacketStore.Store_progress]), and of its destructor
      ([RedisShutdown.Store_destructor]); exactly when the thread pool's
      destructor returns ([ThreadPool.ThreadPool_joins]); on what the
      service's destructor depends ([ServiceShutdown.service_stops]), and that
      the service loop ends exactly if the teardowns of its attempts do
      ([Supervisor.service_loop_supervises]).

    Fuel appears where the code loops on an outside condition: [sleep_loop] runs
    on the delay itself, each turn sleeping at least one millisecond;
    [WaitUntilStopRequested] and [service_loop] run on a number of flag checks,
    and suffice as soon as it reaches the check that sees the stop; [poller]
    and [drain] run on the list of turns the environment takes; [wait_for] runs
    on the steps other threads take until the time-out, [RunCaptureService] on
    the steps they take while the attempt lasts, and says how far these get.

    Behaviours of the code that look unintended are recorded where they are
    evaluated: [ThreadPool.hang_pool_sleeps] (a lost wake-up in the destructor),
    [ThreadPool.second_thread_fails] (a constructor that terminates the program),
    [ServiceShutdown.service_stops] and [Supervisor.loop_hangs] (the service cannot
    stop while a full store waits for Redis), [TcAttachment.Detach_race] (a filter
    replaced between query and detach is removed), [Executor.throwing_value_terminates],
    [Cli.route_to_itself], [Supervisor.huge_delay_is_no_delay],
    [RuntimeConfig.shipped_config_routes] and [Endpoints.scan_type].

    ** What is not modelled

    Logging, but for [Scan] and the critical lines of [main], whose standard
    output is modelled; the clock, except as an input; the LRU replacement policy,
    which may evict anything at any time; devices that come or go while the
    service runs.  A time-out is the end of the sequence of steps the others take
    meanwhile.  A [notify_all] is one step with the critical section before it;
    who goes to sleep between the two is woken without need, as by a spurious
    wake-up, which is a step.  [stopCapture] is taken to join the capture thread,
    as PcapPlusPlus does: [PcapReceiver.Stop] and [ElephantShrew.destroy] are what
    is left when it has returned, and whether it does is [ServiceShutdown]'s and
    [Lifetime]'s matter.  An acknowledged XADD is one whose completion carries no
    error; what Redis does with one that carries an error is not said.  [Detach]
    queries and detaches in one state of the kernel; [Detach_while] puts others'
    steps in between.  A store to an atomic becomes visible to another thread at
    some step; that it does is a hypothesis where it matters
    ([TelemetryConcurrent.abort_visible]).  A record that is
    reserved in the ring is submitted in the same step, so that the ring's
    busy records are not modelled; [Pipeline] runs the receiver as sequential
    code, [TelemetryConcurrent] in the steps of its threads.  The copy of
    the thread pool under [#if 0] in [ThreadPool.cpp] is no code; the static
    assertions of [abi_cpp.cpp] are about C++ types.  Nothing in the repository
    connects the observer's attachment with the telemetry receiver yet:
    [EbpfManager], [EbpfPolicyManager], [XdpAttachment] and [AfXdpReceiver] are
    empty files. *)
From Stdlib Require Export ZArith Lia.
From stdpp Require Export prelude gmap strings list numbers.

Open Scope Z_scope.

(** ** Machine integers

    A [w]-bit unsigned integer of the C and C++ sources is a [Z]; [wrap w]
    is the reduction modulo 2^w that every assignment to such a variable
    performs. *)
Definition wrap (w z : Z) : Z := z mod 2 ^ w.

Abbreviation u8 := (wrap 8).
Abbreviation u16 := (wrap 16).
Abbreviation u32 := (wrap 32).
Abbreviation u64 := (wrap 64).

(** Conversion of an unsigned 64-bit value to a signed 64-bit one (two's
    complement, as C++20 defines it). *)
Definition s64 (z : Z) : Z := (z + 2 ^ 63) mod 2 ^ 64 - 2 ^ 63.

Create HintDb es discriminated.
Create Rewrite HintDb es_rw.

Lemma wrap_range w z : 0 <= w -> 0 <= wrap w z < 2 ^ w.
Proof. intros. apply Z.mod_pos_bound. lia. Qed.

Lemma wrap_small w z : 0 <= z < 2 ^ w -> wrap w z = z.
Proof. apply Z.mod_small. Qed.

Lemma wrap_wrap w z : wrap w (wrap w z) = wrap w z.
Proof. apply Zmod_mod. Qed.

Lemma wrap_add_l w a b : wrap w (wrap w a + b) = wrap w (a + b).
Proof. apply Zplus_mod_idemp_l. Qed.

Lemma s64_small z : - 2 ^ 63 <= z < 2 ^ 63 -> s64 z = z.
Proof. intros. unfold s64. rewrite Z.mod_small; lia. Qed.

#[export] Hint Resolve wrap_range : es.
#[export] Hint Rewrite wrap_wrap wrap_add_l : es_rw.

(** ** Bytes *)
Definition is_byte (z : Z) : Prop := 0 <= z < 256.

Abbreviation bytes := (list Z).

Definition bytes_ok (bs : bytes) : Prop := Forall is_byte bs.

#[export] Instance is_byte_dec z : Decision (is_byte z).
Proof. unfold is_byte. apply _. Defined.

#[export] Instance bytes_ok_dec bs : Decision (bytes_ok bs).
Proof. unfold bytes_ok. apply _. Defined.

Lemma bytes_ok_app a b : bytes_ok (a ++ b) <-> bytes_ok a /\ bytes_ok b.
Proof. apply Forall_app. Qed.

Lemma bytes_ok_take n a : bytes_ok a -> bytes_ok (take n a).
Proof. apply Forall_take. Qed.

Lemma bytes_ok_drop n a : bytes_ok a -> bytes_ok (drop n a).
Proof. apply Forall_drop. Qed.

Lemma bytes_ok_zeros n : bytes_ok (replicate n 0).
Proof. apply Forall_replicate. unfold is_byte. lia. Qed.

Lemma bytes_ok_lookup bs i b : bytes_ok bs -> bs !! i = Some b -> is_byte b.
Proof. intros H Hi. by eapply Forall_lookup_1. Qed.

#[export] Hint Resolve bytes_ok_take bytes_ok_drop bytes_ok_zeros : es.

(** A value masked with [2^n - 1] is below [2^n]. *)
Lemma land_ones_range n a : 0 <= n -> 0 <= Z.land a (Z.ones n) < 2 ^ n.
Proof. intros. rewrite Z.land_ones by lia. apply Z.mod_pos_bound. lia. Qed.

Lemma shiftr_range n k a : 0 <= n <= k -> 0 <= a < 2 ^ k -> 0 <= Z.shiftr a n < 2 ^ (k - n).
Proof.
  intros Hn Ha. rewrite Z.shiftr_div_pow2 by lia. split.
  - apply Z.div_pos; lia.
  - apply Z.div_lt_upper_bound; [lia|]. rewrite <- Z.pow_add_r by lia.
    replace (n + (k - n)) with k by lia. lia.
Qed.

(** Bits placed above a value that fits below them: [lor] is addition. *)
Lemma lor_shiftl_add n a b : 0 <= n -> 0 <= b < 2 ^ n -> Z.lor (Z.shiftl a n) b = a * 2 ^ n + b.
Proof.
  intros Hn Hb. rewrite <- Z.shiftl_mul_pow2 by lia. symmetry. apply Z.add_nocarry_lor.
  apply Z.bits_inj'. intros k Hk. rewrite Z.land_spec, Z.bits_0.
  destruct (Z.ltb_spec k n).
  - by rewrite Z.shiftl_spec_low by lia.
  - rewrite <- (Z.mod_small b (2 ^ n)), Z.mod_pow2_bits_high by lia. apply andb_false_r.
Qed.

(** ** C++ exceptions

    A C++ operation that may throw returns a [result]; [exn] keeps the
    standard exception class and, for [system_error], the errno. *)
Inductive exn :=
  | runtime_error (what : string)
  | invalid_argument (what : string)
  | logic_error (what : string)
  | system_error (code : Z) (what : string)
  | other_exception.

Inductive result (A : Type) :=
  | Ok (a : A)
  | Throw (e : exn).
Arguments Ok {A} a.
Arguments Throw {A} e.

#[export] Instance exn_eq_dec : EqDecision exn.
Proof. solve_decision. Defined.

#[export] Instance result_eq_dec {A} `{EqDecision A} : EqDecision (result A).
Proof. solve_decision. Defined.

#[export] Instance result_ret : MRet result := @Ok.
#[export] Instance result_bind : MBind result := fun A B k m =>
  match m with Ok a => k a | Throw e => Throw e end.

Definition throw_when (b : bool) (e : exn) : result unit :=
  if b then Throw e else Ok tt.

Lemma result_bind_Ok {A B} (m : result A) (k : A -> result B) b :
  m ≫= k = Ok b <-> exists a, m = Ok a /\ k a = Ok b.
Proof.
  destruct m as [a|e]; simpl.
  - split; [by exists a | by intros (? & [= ->] & ?)].
  - split; [done | by intros (? & ? & _)].
Qed.

Lemma throw_when_Ok b e u : throw_when b e = Ok u <-> b = false.
Proof. by destruct b, u. Qed.

#[export] Hint Rewrite @result_bind_Ok throw_when_Ok : es_rw.

(** Code that also changes a state: what it did before an exception stays. *)
Definition effect (S A : Type) : Type := S -> result A * S.

#[export] Instance effect_ret {S} : MRet (effect S) := fun A a s => (Ok a, s).
#[export] Instance effect_bind {S} : MBind (effect S) := fun A B k m s =>
  match m s with
  | (Ok a, s) => k a s
  | (Throw e, s) => (Throw e, s)
  end.

Definition raise {S A} (e : exn) : effect S A := fun s => (Throw e, s).
Definition raise_when {S} (b : bool) (e : exn) : effect S unit := if b then raise e else mret tt.
Definition get_state {S} : effect S S := fun s => (Ok s, s).
Definition update {S} (f : S -> S) : effect S unit := fun s => (Ok tt, f s).

(** [hoare P m Q R]: from states in [P], [m] ends in [Q] with a value or in
    [R] with an exception. *)
Definition hoare {S A} (P : S -> Prop) (m : effect S A) (Q : A -> S -> Prop) (R : exn -> S -> Prop) : Prop :=
  forall s, P s -> match m s with (Ok a, s') => Q a s' | (Throw e, s') => R e s' end.

Lemma hoare_bind {S A B} P (m : effect S A) (k : A -> effect S B) Q Q' R :
  hoare P m Q R -> (forall a, hoare (Q a) (k a) Q' R) -> hoare P (m ≫= k) Q' R.
Proof.
  intros Hm Hk s Hs. specialize (Hm s Hs). unfold mbind, effect_bind.
  destruct (m s) as [[a|e] s']; [by apply Hk|done].
Qed.

Lemma hoare_ret {S A} (P : S -> Prop) (a : A) (Q : A -> S -> Prop) R :
  (forall s, P s -> Q a s) -> hoare P (mret a) Q R.
Proof. done. Qed.

Lemma hoare_raise {S A} (P : S -> Prop) e (Q : A -> S -> Prop) (R : exn -> S -> Prop) :
  (forall s, P s -> R e s) -> hoare P (raise e) Q R.
Proof. done. Qed.

Lemma hoare_raise_when {S} (P : S -> Prop) b e (Q : unit -> S -> Prop) (R : exn -> S -> Prop) :
  (forall s, P s -> b = true -> R e s) -> (forall s, P s -> b = false -> Q tt s) ->
  hoare P (raise_when b e) Q R.
Proof. intros HR HQ s Hs. destruct b; simpl; auto. Qed.

Lemma hoare_update {S} (P : S -> Prop) f (Q : unit -> S -> Prop) R :
  (forall s, P s -> Q tt (f s)) -> hoare P (update f) Q R.
Proof. done. Qed.

Lemma hoare_get {S} (P : S -> Prop) (Q : S -> S -> Prop) R :
  (forall s, P s -> Q s s) -> hoare P get_state Q R.
Proof. done. Qed.

Lemma hoare_conseq {S A} (P P' : S -> Prop) (m : effect S A) (Q Q' : A -> S -> Prop) (R R' : exn -> S -> Prop) :
  hoare P m Q R -> (forall s, P' s -> P s) -> (forall a s, Q a s -> Q' a s) ->
  (forall e s, R e s -> R' e s) -> hoare P' m Q' R'.
Proof.
  intros H HP HQ HR s Hs. specialize (H s (HP s Hs)). destruct (m s) as [[a|e] s']; auto.
Qed.

(** [assert(b)]: the rest runs only if [b] holds. *)
Definition assert_ (b : bool) : option unit := if b then Some tt else None.

(** ** Lists *)
Lemma take_app_exact {A} (a b : list A) n : length a = n -> take n (a ++ b) = a.
Proof. intros <-. apply take_app_length. Qed.

Lemma drop_app_exact {A} (a b : list A) n : length a = n -> drop n (a ++ b) = b.
Proof. intros <-. apply drop_app_length. Qed.

(** ** Codecs

    The memory image of a C object: [c_enc] is the byte image of a value,
    [c_dec] the value of a byte image ([memcpy] in the two directions), on
    the values [c_ok] that the C type can hold. *)
Record codec (A : Type) := Codec {
  c_size : nat;
  c_enc : A -> bytes;
  c_dec : bytes -> A;
  c_ok : A -> Prop;
  c_enc_length a : c_ok a -> length (c_enc a) = c_size;
  c_enc_bytes a : c_ok a -> bytes_ok (c_enc a);
  c_dec_enc a : c_ok a -> c_dec (c_enc a) = a;
  c_dec_ok bs : bytes_ok bs -> length bs = c_size -> c_ok (c_dec bs);
  c_enc_dec bs : bytes_ok bs -> length bs = c_size -> c_enc (c_dec bs) = bs;
}.
Arguments c_size {A} _.
Arguments c_enc {A} _ _.
Arguments c_dec {A} _ _.
Arguments c_ok {A} _ _.
Arguments c_enc_length {A} _ _ _.
Arguments c_enc_bytes {A} _ _ _.
Arguments c_dec_enc {A} _ _ _.
Arguments c_dec_ok {A} _ _ _ _.
Arguments c_enc_dec {A} _ _ _ _.
#[export] Hint Resolve c_enc_length c_enc_bytes c_dec_ok : es.

(** The byte order of the host: kernel object and user space agree on it. *)
Class Host := host_big_endian : bool.

Fixpoint le_bytes (n : nat) (z : Z) : bytes :=
  match n with
  | O => []
  | S n => z mod 256 :: le_bytes n (z / 256)
  end.

Fixpoint le_value (bs : bytes) : Z :=
  match bs with
  | [] => 0
  | b :: bs => b + 256 * le_value bs
  end.

Lemma le_bytes_length n z : length (le_bytes n z) = n.
Proof. revert z. induction n; intros; simpl; auto. Qed.

Lemma le_bytes_ok n z : bytes_ok (le_bytes n z).
Proof.
  revert z. induction n; intros; simpl; constructor; [|apply IHn].
  apply Z.mod_pos_bound. lia.
Qed.

Lemma le_value_range bs : bytes_ok bs -> 0 <= le_value bs < 256 ^ Z.of_nat (length bs).
Proof.
  induction 1 as [|b bs Hb _ IH]; [done|]. unfold is_byte in Hb. simpl le_value.
  rewrite length_cons, Nat2Z.inj_succ, Z.pow_succ_r by lia. lia.
Qed.

Lemma le_value_bytes n z : 0 <= z < 256 ^ Z.of_nat n -> le_value (le_bytes n z) = z.
Proof.
  revert z. induction n as [|n IH]; intros z Hz; [change (256 ^ Z.of_nat 0) with 1 in Hz; simpl; lia|].
  rewrite Nat2Z.inj_succ, Z.pow_succ_r in Hz by lia. simpl.
  rewrite IH; [pose proof (Z.div_mod z 256); lia|].
  split; [apply Z.div_pos | apply Z.div_lt_upper_bound]; lia.
Qed.

Lemma le_bytes_value bs : bytes_ok bs -> le_bytes (length bs) (le_value bs) = bs.
Proof.
  induction 1 as [|b bs Hb _ IH]; [done|]. unfold is_byte in Hb. simpl.
  rewrite (Z.mul_comm 256), Z.mod_add, Z.div_add, Z.mod_small, Z.div_small by lia.
  by rewrite Z.add_0_l, IH.
Qed.

Definition host_order `{Host} (bs : bytes) : bytes := if host_big_endian then rev bs else bs.

Lemma host_order_length `{Host} bs : length (host_order bs) = length bs.
Proof. unfold host_order. destruct host_big_endian; [apply length_rev|done]. Qed.

Lemma host_order_ok `{Host} bs : bytes_ok bs -> bytes_ok (host_order bs).
Proof. unfold host_order, bytes_ok. destruct host_big_endian; [|done]. by apply Forall_rev. Qed.

Lemma host_order_involutive `{Host} bs : host_order (host_order bs) = bs.
Proof. unfold host_order. destruct host_big_endian; [apply rev_involutive|done]. Qed.

(** An unsigned integer of [n] bytes. *)
Program Definition uint_codec `{Host} (n : nat) : codec Z := {|
  c_size := n;
  c_enc z := host_order (le_bytes n z);
  c_dec bs := le_value (host_order bs);
  c_ok z := 0 <= z < 256 ^ Z.of_nat n;
|}.
Next Obligation. intros. simpl. by rewrite host_order_length, le_bytes_length. Qed.
Next Obligation. intros. apply host_order_ok, le_bytes_ok. Qed.
Next Obligation. intros. simpl. rewrite host_order_involutive. by apply le_value_bytes. Qed.
Next Obligation.
  intros ? n bs Hb Hn. simpl. rewrite <- Hn, <- (host_order_length bs).
  by apply le_value_range, host_order_ok.
Qed.
Next Obligation.
  intros ? n bs Hb Hn. simpl. rewrite <- Hn, <- (host_order_length bs), le_bytes_value.
  - apply host_order_involutive.
  - by apply host_order_ok.
Qed.

(** A byte array of [n] elements. *)
Program Definition raw_codec (n : nat) : codec bytes := {|
  c_size := n;
  c_enc bs := bs;
  c_dec bs := bs;
  c_ok bs := length bs = n /\ bytes_ok bs;
|}.
Solve All Obligations with (simpl; tauto).

(** Two fields laid out one after the other. *)
Program Definition pair_codec {A B} (ca : codec A) (cb : codec B) : codec (A * B) := {|
  c_size := c_size ca + c_size cb;
  c_enc p := c_enc ca p.1 ++ c_enc cb p.2;
  c_dec bs := (c_dec ca (take (c_size ca) bs), c_dec cb (drop (c_size ca) bs));
  c_ok p := c_ok ca p.1 /\ c_ok cb p.2;
|}.
Next Obligation. intros A B ca cb a [H1 H2]. rewrite length_app. by rewrite !c_enc_length. Qed.
Next Obligation. intros A B ca cb a [H1 H2]. apply bytes_ok_app. auto with es. Qed.
Next Obligation.
  intros A B ca cb [a b] [H1 H2]. simpl in *.
  rewrite take_app_exact, drop_app_exact by auto with es. by rewrite !c_dec_enc.
Qed.
Next Obligation.
  intros A B ca cb bs Hb Hl. simpl. split; apply c_dec_ok; auto with es.
  - rewrite length_take. lia.
  - rewrite length_drop. lia.
Qed.
Next Obligation.
  intros A B ca cb bs Hb Hl. simpl.
  rewrite !c_enc_dec; auto with es; [apply take_drop| |].
  - rewrite length_drop. lia.
  - rewrite length_take. lia.
Qed.

(** The same image read as a struct: [f] and [g] are the struct's
    constructor and its fields. *)
Program Definition iso_codec {A B} (c : codec A) (f : A -> B) (g : B -> A)
    (fg : forall b, f (g b) = b) (gf : forall a, g (f a) = a) : codec B := {|
  c_size := c_size c;
  c_enc b := c_enc c (g b);
  c_dec bs := f (c_dec c bs);
  c_ok b := c_ok c (g b);
|}.
Next Obligation. simpl. auto with es. Qed.
Next Obligation. simpl. auto with es. Qed.
Next Obligation. intros. simpl. by rewrite c_dec_enc. Qed.
Next Obligation. intros. simpl. rewrite gf. auto with es. Qed.
Next Obligation. intros. simpl. rewrite gf. by apply c_enc_dec. Qed.

(** An array of [n] elements. *)
Fixpoint array_dec {A} (c : codec A) (n : nat) (bs : bytes) : list A :=
  match n with
  | O => []
  | S n => c_dec c (take (c_size c) bs) :: array_dec c n (drop (c_size c) bs)
  end.

Program Definition array_codec {A} (c : codec A) (n : nat) : codec (list A) := {|
  c_size := n * c_size c;
  c_enc l := l ≫= c_enc c;
  c_dec := array_dec c n;
  c_ok l := length l = n /\ Forall (c_ok c) l;
|}.
Next Obligation.
  intros A c n l [<- Hl]. induction Hl; simpl; [done|].
  rewrite length_app, c_enc_length; auto with es.
Qed.
Next Obligation.
  intros A c n l [_ Hl]. induction Hl; simpl; [constructor|].
  apply bytes_ok_app. auto with es.
Qed.
Next Obligation.
  intros A c n l [<- Hl]. induction Hl; simpl; [done|].
  rewrite take_app_exact, drop_app_exact by auto with es. f_equal; [by apply c_dec_enc|done].
Qed.
Next Obligation.
  intros A c n. induction n as [|n IH]; intros bs Hb Hl; simpl in *; [done|].
  destruct (IH (drop (c_size c) bs)) as [H1 H2]; [auto with es| |].
  { rewrite length_drop. lia. }
  split; [by rewrite H1|]. constructor; [|done]. apply c_dec_ok; [auto with es|].
  rewrite length_take. lia.
Qed.
Next Obligation.
  intros A c n. induction n as [|n IH]; intros bs Hb Hl; simpl in *.
  { by destruct bs. }
  rewrite IH; [|auto with es|rewrite length_drop; lia].
  rewrite c_enc_dec; [apply take_drop|auto with es|]. rewrite length_take. lia.
Qed.

(** ** Automation *)

(** Splits the conjunctions and existentials of the context. *)
Ltac split_hyps :=
  repeat match goal with
  | H : _ /\ _ |- _ => destruct H
  | H : exists _, _ |- _ => destruct H
  end.
