(* ===== verification/Abi.v ===== *)
(** * The kernel/user ABI ([bpf/elephantshrew_shared.h],
    [bpf/elephantshrew_policy_shared.h])

    The constants, enumerations and structs that the eBPF programs and the
    C++ process share, with the memory image of every struct that crosses
    the boundary as a [codec].  Integers other than addresses and ports use
    the host's byte order (class [Host] of the prelude). *)
From S2P Require Import Prelude.

(** ** Constants and enumerations *)
Definition ES_ABI_VERSION : Z := 2.
Definition ES_PARSE_BYTES : Z := 128.
Definition ES_SNAPSHOT_MAX : Z := 128.
Definition ES_LINKTYPE_ETHERNET : Z := 1.
Definition ES_TC_NEXT : Z := -1.
Definition ES_TC_DROP : Z := 2.
Definition ES_TC_REDIRECT : Z := 7.

Definition ES_INGRESS : Z := 0.
Definition ES_EGRESS : Z := 1.
Definition ES_DIRECTIONS : Z := 2.

Definition ES_HOOK_TC : Z := 1.
Definition ES_HOOK_XDP : Z := 2.

Definition ES_PARSE_OK : Z := 0.
Definition ES_PARSE_TRUNCATED : Z := 1.
Definition ES_PARSE_UNSUPPORTED : Z := 2.
Definition ES_PARSE_MALFORMED : Z := 3.
Definition ES_PARSE_FRAGMENT : Z := 4.
Definition ES_PARSE_SKIPPED : Z := 5.

Definition ES_T_L2_VALID : Z := Z.shiftl 1 0.
Definition ES_T_ADDR_VALID : Z := Z.shiftl 1 1.
Definition ES_T_PORTS_VALID : Z := Z.shiftl 1 2.
Definition ES_T_FRAGMENT : Z := Z.shiftl 1 3.

Definition ES_E_PREFIX_TRUNCATED : Z := Z.shiftl 1 0.
Definition ES_E_COPY_FAILED : Z := Z.shiftl 1 1.
Definition ES_E_VLAN_STRIPPED : Z := Z.shiftl 1 2.

(** [enum es_counter_id], and its position in [struct es_counters]. *)
Inductive es_counter_id :=
  | ES_C_PACKETS | ES_C_BYTES | ES_C_SELECTED | ES_C_EVENTS | ES_C_RING_LOST
  | ES_C_PARSE_PARTIAL | ES_C_PARSE_MALFORMED | ES_C_SNAPSHOT_FAILED
  | ES_C_FLOW_UPDATE_FAILED | ES_C_POLICY_DROP | ES_C_MIRROR_ATTEMPT
  | ES_C_MIRROR_ERROR | ES_C_REDIRECT_ATTEMPT.

Definition counter_index (c : es_counter_id) : nat :=
  match c with
  | ES_C_PACKETS => 0 | ES_C_BYTES => 1 | ES_C_SELECTED => 2 | ES_C_EVENTS => 3
  | ES_C_RING_LOST => 4 | ES_C_PARSE_PARTIAL => 5 | ES_C_PARSE_MALFORMED => 6
  | ES_C_SNAPSHOT_FAILED => 7 | ES_C_FLOW_UPDATE_FAILED => 8 | ES_C_POLICY_DROP => 9
  | ES_C_MIRROR_ATTEMPT => 10 | ES_C_MIRROR_ERROR => 11 | ES_C_REDIRECT_ATTEMPT => 12
  end.

Definition ES_C_MAX : nat := 13.

#[export] Instance es_counter_id_eq_dec : EqDecision es_counter_id.
Proof. solve_decision. Defined.

(** [enum es_policy_action]. *)
Definition ES_POLICY_NEXT : Z := 0.
Definition ES_POLICY_DROP : Z := 1.
Definition ES_POLICY_MIRROR : Z := 2.
Definition ES_POLICY_REDIRECT : Z := 3.

(** ** Structs

    Addresses and ports are kept as their bytes in memory (network order). *)
Record es_tuple := mk_tuple {
  t_src : bytes;           (* __u8 src[16] *)
  t_dst : bytes;           (* __u8 dst[16] *)
  t_sport : bytes;         (* __be16, its two bytes *)
  t_dport : bytes;
  t_ethertype : Z;
  t_vlan : list Z;         (* __u16 vlan[2] *)
  t_ip_version : Z;
  t_l4_proto : Z;
  t_flags : Z;
  t_vlan_count : Z;
  t_reserved : Z;
}.

Record es_event := mk_event {
  e_timestamp_mono_ns : Z;
  e_sequence : Z;
  e_ifindex : Z;
  e_original_len : Z;
  e_cpu : Z;
  e_abi_version : Z;
  e_record_size : Z;
  e_captured_len : Z;
  e_link_type : Z;
  e_direction : Z;
  e_hook : Z;
  e_parse_status : Z;
  e_flags : Z;
  e_tuple : es_tuple;
  e_prefix : bytes;        (* __u8 prefix[ES_SNAPSHOT_MAX] *)
}.

Record es_flow_key := mk_flow_key {
  k_tuple : es_tuple;
  k_ifindex : Z;
  k_direction : Z;
  k_reserved : bytes;      (* __u8 reserved[3] *)
}.

Record es_flow_value := mk_flow_value {
  f_first_ns : Z;
  f_last_ns : Z;
  f_packets : Z;
  f_bytes : Z;
}.

Record es_policy_key := mk_policy_key {
  p_flow : es_flow_key;
  p_kind : Z;
  p_reserved : Z;
}.

Record es_rule := mk_rule {
  r_action : Z;
  r_out_ifindex : Z;
  r_generation : Z;
}.

#[export] Instance es_tuple_eq_dec : EqDecision es_tuple.
Proof. solve_decision. Defined.
#[export] Instance es_event_eq_dec : EqDecision es_event.
Proof. solve_decision. Defined.
#[export] Instance es_flow_key_eq_dec : EqDecision es_flow_key.
Proof. solve_decision. Defined.
#[export] Instance es_flow_value_eq_dec : EqDecision es_flow_value.
Proof. solve_decision. Defined.
#[export] Instance es_policy_key_eq_dec : EqDecision es_policy_key.
Proof. solve_decision. Defined.

(** Keys of the kernel's hash maps, countable by the list of their fields. *)
Definition tuple_fields (t : es_tuple) : list (list Z) :=
  [t_src t; t_dst t; t_sport t; t_dport t; [t_ethertype t]; t_vlan t;
   [t_ip_version t; t_l4_proto t; t_flags t; t_vlan_count t; t_reserved t]].

Definition tuple_of_fields (l : list (list Z)) : option es_tuple :=
  match l with
  | [a; b; c; d; [e]; f; [g; h; i; j; k]] => Some (mk_tuple a b c d e f g h i j k)
  | _ => None
  end.

#[export] Instance es_tuple_countable : Countable es_tuple.
Proof. refine (inj_countable tuple_fields tuple_of_fields _). by intros []. Defined.

#[export] Instance es_flow_key_countable : Countable es_flow_key.
Proof.
  refine (inj_countable
    (fun k => [k_ifindex k; k_direction k] :: k_reserved k :: tuple_fields (k_tuple k))
    (fun l => match l with
              | [b; c] :: d :: l => (fun a => mk_flow_key a b c d) <$> tuple_of_fields l
              | _ => None
              end) _).
  by intros [[]].
Defined.

#[export] Instance es_policy_key_countable : Countable es_policy_key.
Proof.
  refine (inj_countable' (fun k => (p_flow k, [p_kind k; p_reserved k]))
    (fun '(a, l) => mk_policy_key a (nth 0 l 0) (nth 1 l 0)) _).
  by intros [].
Defined.

(** [{}] initialisers and [memset(.., 0, ..)]. *)
Definition zero_tuple : es_tuple :=
  mk_tuple (replicate 16 0) (replicate 16 0) [0; 0] [0; 0] 0 [0; 0] 0 0 0 0 0.

Definition zero_event : es_event :=
  mk_event 0 0 0 0 0 0 0 0 0 0 0 0 0 zero_tuple (replicate (Z.to_nat ES_SNAPSHOT_MAX) 0).

Definition zero_flow_key : es_flow_key := mk_flow_key zero_tuple 0 0 [0; 0; 0].
Definition zero_flow_value : es_flow_value := mk_flow_value 0 0 0 0.
Definition zero_policy_key : es_policy_key := mk_policy_key zero_flow_key 0 0.

(** Assignments to one field. *)
Definition set_src x t := mk_tuple x (t_dst t) (t_sport t) (t_dport t) (t_ethertype t) (t_vlan t)
  (t_ip_version t) (t_l4_proto t) (t_flags t) (t_vlan_count t) (t_reserved t).
Definition set_dst x t := mk_tuple (t_src t) x (t_sport t) (t_dport t) (t_ethertype t) (t_vlan t)
  (t_ip_version t) (t_l4_proto t) (t_flags t) (t_vlan_count t) (t_reserved t).
Definition set_sport x t := mk_tuple (t_src t) (t_dst t) x (t_dport t) (t_ethertype t) (t_vlan t)
  (t_ip_version t) (t_l4_proto t) (t_flags t) (t_vlan_count t) (t_reserved t).
Definition set_dport x t := mk_tuple (t_src t) (t_dst t) (t_sport t) x (t_ethertype t) (t_vlan t)
  (t_ip_version t) (t_l4_proto t) (t_flags t) (t_vlan_count t) (t_reserved t).
Definition set_ethertype x t := mk_tuple (t_src t) (t_dst t) (t_sport t) (t_dport t) x (t_vlan t)
  (t_ip_version t) (t_l4_proto t) (t_flags t) (t_vlan_count t) (t_reserved t).
Definition set_ip_version x t := mk_tuple (t_src t) (t_dst t) (t_sport t) (t_dport t)
  (t_ethertype t) (t_vlan t) x (t_l4_proto t) (t_flags t) (t_vlan_count t) (t_reserved t).
Definition set_l4_proto x t := mk_tuple (t_src t) (t_dst t) (t_sport t) (t_dport t)
  (t_ethertype t) (t_vlan t) (t_ip_version t) x (t_flags t) (t_vlan_count t) (t_reserved t).
Definition set_flags x t := mk_tuple (t_src t) (t_dst t) (t_sport t) (t_dport t)
  (t_ethertype t) (t_vlan t) (t_ip_version t) (t_l4_proto t) x (t_vlan_count t) (t_reserved t).

(** [t->flags |= x] on the [__u8] field. *)
Definition or_flags x t := set_flags (u8 (Z.lor (t_flags t) x)) t.

(** [t->vlan[t->vlan_count++] = v]: [None] when the index is outside the
    two-element array. *)
Definition push_vlan (v : Z) (t : es_tuple) : option es_tuple :=
  if decide (0 <= t_vlan_count t < 2) then
    Some (mk_tuple (t_src t) (t_dst t) (t_sport t) (t_dport t) (t_ethertype t)
            (<[Z.to_nat (t_vlan_count t) := u16 v]> (t_vlan t))
            (t_ip_version t) (t_l4_proto t) (t_flags t) (u8 (t_vlan_count t + 1)) (t_reserved t))
  else None.

(** ** Memory images *)
Section Images.
Context `{Host}.

Definition u8_codec := uint_codec 1.
Definition u16_codec := uint_codec 2.
Definition u32_codec := uint_codec 4.
Definition u64_codec := uint_codec 8.

Definition tuple_codec : codec es_tuple :=
  iso_codec
    (pair_codec (raw_codec 16) (pair_codec (raw_codec 16) (pair_codec (raw_codec 2)
    (pair_codec (raw_codec 2) (pair_codec u16_codec (pair_codec (array_codec u16_codec 2)
    (pair_codec u8_codec (pair_codec u8_codec (pair_codec u8_codec
    (pair_codec u8_codec u16_codec))))))))))
    (fun '(a, (b, (c, (d, (e, (f, (g, (h, (i, (j, k)))))))))) => mk_tuple a b c d e f g h i j k)
    (fun t => (t_src t, (t_dst t, (t_sport t, (t_dport t, (t_ethertype t, (t_vlan t,
      (t_ip_version t, (t_l4_proto t, (t_flags t, (t_vlan_count t, t_reserved t)))))))))))
    ltac:(by intros []) ltac:(by intros (?&?&?&?&?&?&?&?&?&?&?)).

Definition event_codec : codec es_event :=
  iso_codec
    (pair_codec u64_codec (pair_codec u64_codec (pair_codec u32_codec (pair_codec u32_codec
    (pair_codec u32_codec (pair_codec u16_codec (pair_codec u16_codec (pair_codec u16_codec
    (pair_codec u16_codec (pair_codec u8_codec (pair_codec u8_codec (pair_codec u8_codec
    (pair_codec u8_codec (pair_codec tuple_codec
      (raw_codec (Z.to_nat ES_SNAPSHOT_MAX))))))))))))))))
    (fun '(a, (b, (c, (d, (e, (f, (g, (h, (i, (j, (k, (l, (m, (n, o)))))))))))))) =>
       mk_event a b c d e f g h i j k l m n o)
    (fun e => (e_timestamp_mono_ns e, (e_sequence e, (e_ifindex e, (e_original_len e,
      (e_cpu e, (e_abi_version e, (e_record_size e, (e_captured_len e, (e_link_type e,
      (e_direction e, (e_hook e, (e_parse_status e, (e_flags e,
      (e_tuple e, e_prefix e)))))))))))))))
    ltac:(by intros []) ltac:(by intros (?&?&?&?&?&?&?&?&?&?&?&?&?&?&?)).

Definition flow_key_codec : codec es_flow_key :=
  iso_codec (pair_codec tuple_codec (pair_codec u32_codec (pair_codec u8_codec (raw_codec 3))))
    (fun '(a, (b, (c, d))) => mk_flow_key a b c d)
    (fun k => (k_tuple k, (k_ifindex k, (k_direction k, k_reserved k))))
    ltac:(by intros []) ltac:(by intros (?&?&?&?)).

Definition flow_value_codec : codec es_flow_value :=
  iso_codec (pair_codec u64_codec (pair_codec u64_codec (pair_codec u64_codec u64_codec)))
    (fun '(a, (b, (c, d))) => mk_flow_value a b c d)
    (fun f => (f_first_ns f, (f_last_ns f, (f_packets f, f_bytes f))))
    ltac:(by intros []) ltac:(by intros (?&?&?&?)).

(** [struct es_counters]. *)
Definition counters_codec : codec (list Z) := array_codec u64_codec ES_C_MAX.

(** [sizeof(struct es_event)]. *)
Definition sizeof_es_event : Z := Z.of_nat (c_size event_codec).

End Images.

(** ** Well-formed values: what the C types can hold, field by field. *)
Definition in_width (w z : Z) : Prop := 0 <= z < 2 ^ w.

Record tuple_ok (t : es_tuple) : Prop := {
  ok_src : length (t_src t) = 16%nat /\ bytes_ok (t_src t);
  ok_dst : length (t_dst t) = 16%nat /\ bytes_ok (t_dst t);
  ok_sport : length (t_sport t) = 2%nat /\ bytes_ok (t_sport t);
  ok_dport : length (t_dport t) = 2%nat /\ bytes_ok (t_dport t);
  ok_ethertype : in_width 16 (t_ethertype t);
  ok_vlan : length (t_vlan t) = 2%nat /\ Forall (in_width 16) (t_vlan t);
  ok_ip_version : in_width 8 (t_ip_version t);
  ok_l4_proto : in_width 8 (t_l4_proto t);
  ok_flags : in_width 8 (t_flags t);
  ok_vlan_count : in_width 8 (t_vlan_count t);
  ok_reserved : in_width 16 (t_reserved t);
}.

Lemma tuple_codec_ok `{Host} t : c_ok tuple_codec t <-> tuple_ok t.
Proof.
  split.
  - intros (?&?&?&?&?&?&?&?&?&?&?). by constructor.
  - intros [H1 H2 H3 H4 H5 H6 H7 H8 H9 H10 H11].
    exact (conj H1 (conj H2 (conj H3 (conj H4 (conj H5 (conj H6 (conj H7 (conj H8
      (conj H9 (conj H10 H11)))))))))).
Qed.

(** The values an event can hold, field by field. *)
Lemma event_codec_ok `{Host} e :
  in_width 64 (e_timestamp_mono_ns e) -> in_width 64 (e_sequence e) ->
  in_width 32 (e_ifindex e) -> in_width 32 (e_original_len e) -> in_width 32 (e_cpu e) ->
  in_width 16 (e_abi_version e) -> in_width 16 (e_record_size e) ->
  in_width 16 (e_captured_len e) -> in_width 16 (e_link_type e) -> in_width 8 (e_direction e) ->
  in_width 8 (e_hook e) -> in_width 8 (e_parse_status e) -> in_width 8 (e_flags e) ->
  tuple_ok (e_tuple e) -> length (e_prefix e) = 128%nat -> bytes_ok (e_prefix e) ->
  c_ok event_codec e.
Proof.
  intros H1 H2 H3 H4 H5 H6 H7 H8 H9 H10 H11 H12 H13 H14%tuple_codec_ok H15 H16.
  exact (conj H1 (conj H2 (conj H3 (conj H4 (conj H5 (conj H6 (conj H7 (conj H8 (conj H9
    (conj H10 (conj H11 (conj H12 (conj H13 (conj H14 (conj H15 H16))))))))))))))).
Qed.

Lemma zero_tuple_ok : tuple_ok zero_tuple.
Proof.
  constructor; simpl; unfold in_width; try lia; split; try done;
    repeat constructor; unfold is_byte; lia.
Qed.

(** The sizes and offsets that [elephantshrew_shared.h] asserts. *)
Lemma sizeof_es_tuple `{Host} : c_size tuple_codec = 48%nat.
Proof. done. Qed.

Lemma sizeof_es_event_216 `{Host} : c_size event_codec = 216%nat.
Proof. done. Qed.

Lemma sizeof_es_flow_key `{Host} : c_size flow_key_codec = 56%nat.
Proof. done. Qed.

Lemma sizeof_es_flow_value `{Host} : c_size flow_value_codec = 32%nat.
Proof. done. Qed.

Lemma sizeof_es_counters `{Host} : c_size counters_codec = (ES_C_MAX * 8)%nat.
Proof. done. Qed.

(** Reading one field of an image: the bytes from the field's offset on. *)
Lemma pair_enc_skip `{Host} {A B} (ca : codec A) (cb : codec B) a b n :
  c_ok ca a -> (c_size ca <= n)%nat ->
  drop n (c_enc (pair_codec ca cb) (a, b)) = drop (n - c_size ca) (c_enc cb b).
Proof.
  intros Ha Hn. simpl. rewrite drop_app, c_enc_length by done.
  rewrite drop_ge by (rewrite c_enc_length; done). done.
Qed.

Lemma event_image_tuple `{Host} e : c_ok event_codec e ->
  take 48 (drop 40 (c_enc event_codec e)) = c_enc tuple_codec (e_tuple e) /\
  drop 88 (c_enc event_codec e) = e_prefix e.
Proof.
  intros (H1&H2&H3&H4&H5&H6&H7&H8&H9&H10&H11&H12&H13&H14&H15).
  assert (E : drop 40 (c_enc event_codec e) = c_enc tuple_codec (e_tuple e) ++ e_prefix e).
  { unfold event_codec. cbn [iso_codec c_enc].
    by do 13 (rewrite pair_enc_skip; [|eassumption|vm_compute; lia]). }
  assert (L : length (c_enc tuple_codec (e_tuple e)) = 48%nat) by (apply c_enc_length; done).
  replace 88%nat with (40 + 48)%nat by done. rewrite <- drop_drop, E.
  split; [by apply take_app_exact | by apply drop_app_exact].
Qed.
