(* ===== verification/PacketParser.v ===== *)
(** * The packet parser ([bpf/packet_parser.bpf.h])

    [es_parse] walks an Ethernet frame prefix and fills an [es_tuple].  The
    C function returns early from many places while it mutates [*t]; here it
    runs in a small monad whose outcomes are a fault (a read outside the
    bytes it was given, or a write outside [t->vlan]), an early return of a
    status, or a value to continue with.  All offsets are [__u32] and wrap. *)
From S2P Require Import Prelude Abi.

(** ** The parser monad *)
Inductive outcome (A : Type) :=
  | Fault
  | Return (rc : Z) (t : es_tuple)
  | Next (a : A) (t : es_tuple).
Arguments Fault {A}.
Arguments Return {A} rc t.
Arguments Next {A} a t.

Definition parser (A : Type) : Type := es_tuple -> outcome A.

#[export] Instance parser_ret : MRet parser := fun A a t => Next a t.
#[export] Instance parser_bind : MBind parser := fun A B k m t =>
  match m t with
  | Fault => Fault
  | Return rc t' => Return rc t'
  | Next a t' => k a t'
  end.

Definition get_tuple : parser es_tuple := fun t => Next t t.
Definition modify (f : es_tuple -> es_tuple) : parser unit := fun t => Next tt (f t).
(** [return rc;] *)
Definition stop {A} (rc : Z) : parser A := fun t => Return rc t.
(** [if (b) return rc;] *)
Definition stop_if (b : bool) (rc : Z) : parser unit := if b then stop rc else mret tt.
(** [t->vlan[t->vlan_count++] = v;] *)
Definition store_vlan (v : Z) : parser unit := fun t =>
  match push_vlan v t with Some t' => Next tt t' | None => Fault end.

(** ** The parser *)
Definition es_need (off n cap endp : Z) : Z :=
  if (endp <? off) || (u32 (endp - off) <? n) then ES_PARSE_MALFORMED
  else if (cap <? off) || (u32 (cap - off) <? n) then ES_PARSE_TRUNCATED
  else ES_PARSE_OK.

Definition es_vlan (type : Z) : bool := (type =? 0x8100) || (type =? 0x88a8).

Definition es_ext (next : Z) : bool :=
  (next =? 0) || (next =? 43) || (next =? 60) || (next =? 51) || (next =? 44).

(** [rc = es_need(...); if (rc) return rc;] *)
Definition need (off n cap endp : Z) : parser unit :=
  let rc := es_need off n cap endp in stop_if (negb (rc =? 0)) rc.

Section Parse.
Variable p : bytes.

(** [p[i]]. *)
Definition rd (i : Z) : parser Z := fun t =>
  if decide (0 <= i) then
    match p !! Z.to_nat i with Some b => Next b t | None => Fault end
  else Fault.

(** [n] bytes from [p + i] on, as [__builtin_memcpy] reads them. *)
Fixpoint rd_bytes (i : Z) (n : nat) : parser bytes :=
  match n with
  | O => mret []
  | S n => b ← rd i; bs ← rd_bytes (i + 1) n; mret (b :: bs)
  end.

(** [es_be16(p + i)]. *)
Definition es_be16 (i : Z) : parser Z :=
  b0 ← rd i;
  b1 ← rd (i + 1);
  mret (u16 (Z.lor (Z.shiftl (u16 b0) 8) b1)).

(** The VLAN loop, at most [n] more iterations: the offset and the type it
    leaves. *)
Fixpoint es_parse_vlans (n : nat) (cap endp off type : Z) : parser (Z * Z) :=
  match n with
  | O => mret (off, type)
  | S n =>
    if negb (es_vlan type) then mret (off, type)
    else
      t ← get_tuple;
      stop_if (2 <=? t_vlan_count t) ES_PARSE_UNSUPPORTED;;
      need off 4 cap endp;;
      v ← es_be16 off;
      store_vlan (Z.land v 0x0fff);;
      type ← es_be16 (off + 2);
      es_parse_vlans n cap endp (u32 (off + 4)) type
  end.

(** Ethernet/IPv4 ARP. *)
Definition es_parse_arp {A} (cap endp off : Z) : parser A :=
  need off 28 cap endp;;
  htype ← es_be16 off;
  stop_if (negb (htype =? 1)) ES_PARSE_UNSUPPORTED;;
  ptype ← es_be16 (off + 2);
  stop_if (negb (ptype =? 0x0800)) ES_PARSE_UNSUPPORTED;;
  hlen ← rd (u32 (off + 4));
  stop_if (negb (hlen =? 6)) ES_PARSE_UNSUPPORTED;;
  plen ← rd (u32 (off + 5));
  stop_if (negb (plen =? 4)) ES_PARSE_UNSUPPORTED;;
  a ← rd_bytes (off + 14) 4;
  modify (fun t => set_src (a ++ drop 4 (t_src t)) t);;
  a ← rd_bytes (off + 24) 4;
  modify (fun t => set_dst (a ++ drop 4 (t_dst t)) t);;
  modify (set_ip_version 4);;
  modify (or_flags ES_T_ADDR_VALID);;
  stop ES_PARSE_OK.

(** IPv4: the transport offset and the end that the total length gives. *)
Definition es_parse_ipv4 (cap endp off : Z) : parser (Z * Z) :=
  need off 20 cap endp;;
  b0 ← rd off;
  stop_if (negb (Z.shiftr b0 4 =? 4)) ES_PARSE_MALFORMED;;
  b0 ← rd off;
  let ihl := u32 (Z.land b0 0x0f * 4) in
  total ← es_be16 (off + 2);
  stop_if ((ihl <? 20) || (total <? ihl) || (u32 (endp - off) <? total)) ES_PARSE_MALFORMED;;
  let endp := u32 (off + total) in
  need off ihl cap endp;;
  modify (set_ip_version 4);;
  proto ← rd (u32 (off + 9));
  modify (set_l4_proto proto);;
  a ← rd_bytes (off + 12) 4;
  modify (fun t => set_src (a ++ drop 4 (t_src t)) t);;
  a ← rd_bytes (off + 16) 4;
  modify (fun t => set_dst (a ++ drop 4 (t_dst t)) t);;
  modify (or_flags ES_T_ADDR_VALID);;
  frag ← es_be16 (off + 6);
  (if negb (Z.land frag 0x3fff =? 0) then
     modify (or_flags ES_T_FRAGMENT);;
     stop ES_PARSE_FRAGMENT
   else mret (u32 (off + ihl), endp)).

(** The IPv6 extension header loop, at most [n] more iterations: the offset
    and the next header it leaves. *)
Fixpoint es_parse_exts (n : nat) (cap endp off next : Z) : parser (Z * Z) :=
  match n with
  | O => mret (off, next)
  | S n =>
    if negb (es_ext next) then mret (off, next)
    else
      need off 2 cap endp;;
      (if next =? 44 then
         need off 8 cap endp;;
         b ← rd off;
         modify (set_l4_proto b);;
         modify (or_flags ES_T_FRAGMENT);;
         stop ES_PARSE_FRAGMENT
       else mret tt);;
      l ← rd (u32 (off + 1));
      let ext_len := if next =? 51 then u32 (u32 (l + 2) * 4) else u32 (u32 (l + 1) * 8) in
      stop_if (ext_len <? 8) ES_PARSE_MALFORMED;;
      need off ext_len cap endp;;
      next ← rd off;
      es_parse_exts n cap endp (u32 (off + ext_len)) next
  end.

(** IPv6: the transport offset and the end that the payload length gives. *)
Definition es_parse_ipv6 (cap endp off : Z) : parser (Z * Z) :=
  need off 40 cap endp;;
  b0 ← rd off;
  stop_if (negb (Z.shiftr b0 4 =? 6)) ES_PARSE_MALFORMED;;
  payload ← es_be16 (off + 4);
  stop_if (payload =? 0) ES_PARSE_UNSUPPORTED;;
  stop_if (u32 (u32 (endp - off) - 40) <? payload) ES_PARSE_MALFORMED;;
  let endp := u32 (u32 (off + 40) + payload) in
  next ← rd (u32 (off + 6));
  modify (set_ip_version 6);;
  a ← rd_bytes (off + 8) 16;
  modify (set_src a);;
  a ← rd_bytes (off + 24) 16;
  modify (set_dst a);;
  modify (or_flags ES_T_ADDR_VALID);;
  '(off, next) ← es_parse_exts 4 cap endp (u32 (off + 40)) next;
  modify (set_l4_proto next);;
  stop_if (es_ext next || (next =? 50)) ES_PARSE_UNSUPPORTED;;
  mret (off, endp).

(** The transport header at [l4]. *)
Definition es_parse_l4 {A} (cap endp l4 : Z) : parser A :=
  t ← get_tuple;
  (if t_l4_proto t =? 6 then
     need l4 20 cap endp;;
     b ← rd (u32 (l4 + 12));
     let hlen := u32 (Z.shiftr b 4 * 4) in
     stop_if ((hlen <? 20) || (u32 (endp - l4) <? hlen)) ES_PARSE_MALFORMED
   else if t_l4_proto t =? 17 then
     need l4 8 cap endp;;
     ulen ← es_be16 (l4 + 4);
     stop_if ((ulen <? 8) || (u32 (endp - l4) <? ulen)) ES_PARSE_MALFORMED
   else stop ES_PARSE_OK);;
  a ← rd_bytes l4 2;
  modify (set_sport a);;
  a ← rd_bytes (l4 + 2) 2;
  modify (set_dport a);;
  modify (or_flags ES_T_PORTS_VALID);;
  stop ES_PARSE_OK.

(** From the network layer on, with the VLAN tags consumed. *)
Definition es_parse_network (cap endp off type : Z) : parser False :=
  modify (set_ethertype type);;
  stop_if (es_vlan type) ES_PARSE_UNSUPPORTED;;
  if type =? 0x0806 then es_parse_arp cap endp off
  else
    '(l4, endp) ←
      (if type =? 0x0800 then es_parse_ipv4 cap endp off
       else if type =? 0x86dd then es_parse_ipv6 cap endp off
       else stop ES_PARSE_UNSUPPORTED);
    es_parse_l4 cap endp l4.

(** The body of [es_parse] after [cap] has been clamped. *)
Definition es_parse_frame (cap endp : Z) (stripped_vlan : bool) (stripped_vid : Z) : parser False :=
  need 0 14 cap endp;;
  type ← es_be16 12;
  modify (set_flags ES_T_L2_VALID);;
  (if stripped_vlan then store_vlan (Z.land stripped_vid 0x0fff) else mret tt);;
  '(off, type) ← es_parse_vlans 2 cap endp 14 type;
  es_parse_network cap endp off type.

Definition clamp_cap (cap original_len : Z) : Z :=
  let cap := if ES_PARSE_BYTES <? cap then ES_PARSE_BYTES else cap in
  if original_len <? cap then original_len else cap.

(** [es_parse(p, cap, original_len, stripped_vlan, stripped_vid, t)]: the
    status and [*t], [None] for an access outside [p] or [t->vlan]. *)
Definition es_parse (cap original_len : Z) (stripped_vlan : bool) (stripped_vid : Z)
    : option (Z * es_tuple) :=
  match es_parse_frame (clamp_cap cap original_len) original_len stripped_vlan stripped_vid
          zero_tuple with
  | Fault => None
  | Return rc t => Some (rc, t)
  | Next f _ => match f with end
  end.

End Parse.
