(* ===== verification/ParserFacts.v ===== *)
(** * Correctness of the packet parser

    A weakest-precondition calculus for the parser monad ([wp]); memory
    safety and the status/tuple contract; what capping the prefix can and
    cannot change; and the frames the parser accepts. *)
From S2P Require Import Prelude Abi PacketParser.

(** ** Weakest preconditions

    [wp m Q R t]: from [*t = t] the run of [m] makes no faulting access; if
    it goes on with a value then [Q] holds, if it returns early then [R]. *)
Definition wp {A} (m : parser A) (Q : A -> es_tuple -> Prop) (R : Z -> es_tuple -> Prop)
    (t : es_tuple) : Prop :=
  match m t with
  | Fault => False
  | Return rc t' => R rc t'
  | Next a t' => Q a t'
  end.

Lemma wp_bind {A B} (m : parser A) (k : A -> parser B) Q R t :
  wp m (fun a t' => wp (k a) Q R t') R t -> wp (m ≫= k) Q R t.
Proof. unfold wp, mbind, parser_bind. by destruct (m t). Qed.

Lemma wp_ret {A} (a : A) (Q : A -> es_tuple -> Prop) R t : Q a t -> wp (mret a) Q R t.
Proof. done. Qed.

Lemma wp_conseq {A} (m : parser A) (Q Q' : A -> es_tuple -> Prop) (R R' : Z -> es_tuple -> Prop) t :
  wp m Q R t -> (forall a t', Q a t' -> Q' a t') -> (forall rc t', R rc t' -> R' rc t') ->
  wp m Q' R' t.
Proof. unfold wp. destruct (m t); naive_solver. Qed.

Lemma wp_get Q R t : Q t t -> wp get_tuple Q R t.
Proof. done. Qed.

Lemma wp_modify f (Q : unit -> es_tuple -> Prop) R t : Q tt (f t) -> wp (modify f) Q R t.
Proof. done. Qed.

Lemma wp_stop {A} rc (Q : A -> es_tuple -> Prop) (R : Z -> es_tuple -> Prop) t :
  R rc t -> wp (stop rc) Q R t.
Proof. done. Qed.

Lemma wp_stop_if b rc (Q : unit -> es_tuple -> Prop) (R : Z -> es_tuple -> Prop) t :
  (b = true -> R rc t) -> (b = false -> Q tt t) -> wp (stop_if b rc) Q R t.
Proof. destruct b; unfold wp; simpl; auto. Qed.

(** [es_need] succeeds exactly when the [n] bytes at [off] lie in both
    bounds, and blames the packet before the prefix. *)
Lemma es_need_cases off n cap endp :
  0 <= off -> 0 <= n -> in_width 32 cap -> in_width 32 endp ->
  (endp < off + n /\ es_need off n cap endp = ES_PARSE_MALFORMED) \/
  (off + n <= endp /\ cap < off + n /\ es_need off n cap endp = ES_PARSE_TRUNCATED) \/
  (off + n <= endp /\ off + n <= cap /\ es_need off n cap endp = ES_PARSE_OK).
Proof.
  unfold in_width, es_need. intros.
  assert (forall x, off <= x -> 0 <= x < 2 ^ 32 -> u32 (x - off) = x - off) as E
    by (intros; apply wrap_small; lia).
  destruct (Z.ltb_spec endp off); [left; split; [lia|done]|]. rewrite E by lia.
  destruct (Z.ltb_spec (endp - off) n); [left; split; [lia|done]|].
  destruct (Z.ltb_spec cap off); [right; left; split; [lia|split; [lia|done]]|]. rewrite E by lia.
  destruct (Z.ltb_spec (cap - off) n); simpl; [right; left|right; right]; repeat split; lia.
Qed.

Create HintDb pinv.

Section WithBytes.
Variable p : bytes.
Hypothesis p_ok : bytes_ok p.

(** The bounds every call site has established: the prefix lies in [p]. *)
Record bounds (cap endp : Z) : Prop := {
  b_cap : 0 <= cap <= ES_PARSE_BYTES;
  b_len : cap <= Z.of_nat (length p);
  b_end : in_width 32 endp;
}.

Lemma bounds_end cap endp e : bounds cap endp -> in_width 32 e -> bounds cap e.
Proof. by intros [] ?. Qed.

Lemma u32_width z : in_width 32 (u32 z).
Proof. apply wrap_range. lia. Qed.

Lemma wp_need off n cap endp (Q : unit -> es_tuple -> Prop) (R : Z -> es_tuple -> Prop) t :
  bounds cap endp -> 0 <= off -> 0 <= n ->
  R ES_PARSE_MALFORMED t -> R ES_PARSE_TRUNCATED t ->
  (off + n <= cap -> off + n <= endp -> Q tt t) ->
  wp (need off n cap endp) Q R t.
Proof.
  intros [Hc Hl He] Ho Hn RM RT HQ. unfold need. apply wp_stop_if.
  - destruct (es_need_cases off n cap endp) as [[_ ->]|[(_&_&->)|(_&_&->)]]; auto.
    unfold in_width, ES_PARSE_BYTES in *. lia. done.
  - destruct (es_need_cases off n cap endp) as [[_ ->]|[(_&_&->)|(?&?&->)]]; auto; try done.
    unfold in_width, ES_PARSE_BYTES in *. lia.
Qed.

Lemma wp_rd i (Q : Z -> es_tuple -> Prop) R t :
  0 <= i < Z.of_nat (length p) -> (forall b, is_byte b -> Q b t) -> wp (rd p i) Q R t.
Proof.
  intros Hi HQ. unfold wp, rd. rewrite decide_True by lia.
  destruct (lookup_lt_is_Some_2 p (Z.to_nat i)) as [b Hb]; [lia|].
  rewrite Hb. apply HQ. by eapply bytes_ok_lookup.
Qed.

Lemma wp_rd_bytes n : forall i (Q : bytes -> es_tuple -> Prop) R t,
  0 <= i -> i + Z.of_nat n <= Z.of_nat (length p) ->
  (forall bs, length bs = n -> bytes_ok bs -> Q bs t) -> wp (rd_bytes p i n) Q R t.
Proof.
  induction n as [|n IH]; intros i Q R t Hi Hn HQ; simpl.
  - apply wp_ret, HQ; [done|constructor].
  - apply wp_bind, wp_rd; [lia|]. intros b Hb. apply wp_bind, IH; [lia..|].
    intros bs Hl Hbs. apply wp_ret, HQ; [simpl; lia|by constructor].
Qed.

Lemma be16_value b0 b1 : is_byte b0 -> is_byte b1 ->
  u16 (Z.lor (Z.shiftl (u16 b0) 8) b1) = b0 * 256 + b1.
Proof.
  unfold is_byte. intros. rewrite (wrap_small 16 b0) by lia.
  rewrite lor_shiftl_add by lia. apply wrap_small. lia.
Qed.

Lemma wp_be16 i (Q : Z -> es_tuple -> Prop) R t :
  0 <= i -> i + 2 <= Z.of_nat (length p) ->
  (forall v, in_width 16 v -> Q v t) -> wp (es_be16 p i) Q R t.
Proof.
  intros Hi Hl HQ. unfold es_be16. apply wp_bind, wp_rd; [lia|]. intros b0 H0.
  apply wp_bind, wp_rd; [lia|]. intros b1 H1. apply wp_ret, HQ. rewrite be16_value by done.
  unfold is_byte, in_width in *. lia.
Qed.

(** ** The invariant of the tuple under construction

    Well-formed, with IP version [v] and flag bits [fl], at most two VLAN
    IDs of 12 bits. *)
Record pinv (v fl : Z) (t : es_tuple) : Prop := {
  pinv_ok : tuple_ok t;
  pinv_version : t_ip_version t = v;
  pinv_flags : t_flags t = fl;
  pinv_count : 0 <= t_vlan_count t <= 2;
  pinv_vlan : Forall (in_width 12) (t_vlan t);
  pinv_reserved : t_reserved t = 0;
}.

Ltac pinv_field := intros; match goal with H : pinv _ _ _ |- _ => destruct H as [[] ? ? ? ? ?] end;
  constructor; [constructor|..]; simpl in *; unfold in_width, is_byte in *;
  first [done | split; done | lia | idtac].

Lemma pinv_zero : pinv 0 0 zero_tuple.
Proof.
  constructor; simpl; auto using zero_tuple_ok; [lia|].
  repeat constructor; lia.
Qed.

Lemma pinv_set_src v fl t x : length x = 16%nat -> bytes_ok x -> pinv v fl t -> pinv v fl (set_src x t).
Proof. pinv_field. Qed.
Lemma pinv_set_dst v fl t x : length x = 16%nat -> bytes_ok x -> pinv v fl t -> pinv v fl (set_dst x t).
Proof. pinv_field. Qed.
Lemma pinv_set_sport v fl t x : length x = 2%nat -> bytes_ok x -> pinv v fl t -> pinv v fl (set_sport x t).
Proof. pinv_field. Qed.
Lemma pinv_set_dport v fl t x : length x = 2%nat -> bytes_ok x -> pinv v fl t -> pinv v fl (set_dport x t).
Proof. pinv_field. Qed.
Lemma pinv_set_ethertype v fl t x : in_width 16 x -> pinv v fl t -> pinv v fl (set_ethertype x t).
Proof. pinv_field. Qed.
Lemma pinv_set_ip_version v fl t x : in_width 8 x -> pinv v fl t -> pinv x fl (set_ip_version x t).
Proof. pinv_field. Qed.
Lemma pinv_set_l4_proto v fl t x : is_byte x -> pinv v fl t -> pinv v fl (set_l4_proto x t).
Proof. pinv_field. Qed.
Lemma pinv_set_flags v fl t x : in_width 8 x -> pinv v fl t -> pinv v x (set_flags x t).
Proof. pinv_field. Qed.

Lemma pinv_or_flags v fl t x y : pinv v fl t -> u8 (Z.lor fl x) = y -> pinv v y (or_flags x t).
Proof.
  intros HI <-. pose proof (pinv_flags _ _ _ HI) as <-. eapply pinv_set_flags; [|done].
  unfold in_width. apply wrap_range. lia.
Qed.

(** The four bytes of an IPv4 address over a 16-byte field. *)
Lemma patch4_length (a b : bytes) : length a = 4%nat -> length b = 16%nat ->
  length (a ++ drop 4 b) = 16%nat.
Proof. intros. rewrite length_app, length_drop. lia. Qed.

Lemma pinv_patch_src v fl t a : length a = 4%nat -> bytes_ok a -> pinv v fl t ->
  pinv v fl (set_src (a ++ drop 4 (t_src t)) t).
Proof.
  intros ? ? HI. destruct (ok_src _ (pinv_ok _ _ _ HI)).
  apply pinv_set_src; [by apply patch4_length| |done].
  apply bytes_ok_app. auto with es.
Qed.
Lemma pinv_patch_dst v fl t a : length a = 4%nat -> bytes_ok a -> pinv v fl t ->
  pinv v fl (set_dst (a ++ drop 4 (t_dst t)) t).
Proof.
  intros ? ? HI. destruct (ok_dst _ (pinv_ok _ _ _ HI)).
  apply pinv_set_dst; [by apply patch4_length| |done].
  apply bytes_ok_app. auto with es.
Qed.

Lemma wp_store_vlan v fl t x (Q : unit -> es_tuple -> Prop) R :
  pinv v fl t -> t_vlan_count t < 2 ->
  (forall t', pinv v fl t' -> Q tt t') -> wp (store_vlan (Z.land x 0x0fff)) Q R t.
Proof.
  intros HI Hc HQ. assert (Hx : in_width 12 (Z.land x 0xfff)) by (apply (land_ones_range 12); lia).
  unfold wp, store_vlan, push_vlan.
  pose proof (pinv_count _ _ _ HI). rewrite decide_True by lia. apply HQ.
  rewrite (wrap_small 16) by (unfold in_width in Hx; lia).
  rewrite (wrap_small 8) by lia. revert Hx. generalize (Z.land x 0xfff). intros y Hy.
  pinv_field.
  - split_hyps. split; [by rewrite length_insert | by apply Forall_insert; [|lia]].
  - by apply Forall_insert.
Qed.

#[local] Hint Resolve pinv_set_src pinv_set_dst pinv_set_sport pinv_set_dport pinv_set_ethertype
  pinv_set_ip_version pinv_set_l4_proto pinv_set_flags pinv_or_flags pinv_patch_src
  pinv_patch_dst : pinv.
#[local] Hint Extern 1 (in_width 8 _) => (unfold in_width; lia) : pinv.

(** ** The contract of [es_parse]

    What each status promises about the tuple. *)
Inductive es_contract : Z -> es_tuple -> Prop :=
  | contract_nothing rc t :
      rc = ES_PARSE_TRUNCATED \/ rc = ES_PARSE_MALFORMED -> pinv 0 0 t -> es_contract rc t
  | contract_l2 rc v t :
      rc = ES_PARSE_TRUNCATED \/ rc = ES_PARSE_UNSUPPORTED \/ rc = ES_PARSE_MALFORMED ->
      v = 0 \/ v = 4 \/ v = 6 ->
      pinv v ES_T_L2_VALID t -> es_contract rc t
  | contract_addr rc v t :
      rc = ES_PARSE_OK \/ rc = ES_PARSE_TRUNCATED \/ rc = ES_PARSE_UNSUPPORTED \/
        rc = ES_PARSE_MALFORMED ->
      v = 4 \/ v = 6 ->
      pinv v (Z.lor ES_T_L2_VALID ES_T_ADDR_VALID) t -> es_contract rc t
  | contract_fragment v t :
      v = 4 \/ v = 6 ->
      pinv v (Z.lor (Z.lor ES_T_L2_VALID ES_T_ADDR_VALID) ES_T_FRAGMENT) t ->
      es_contract ES_PARSE_FRAGMENT t
  | contract_ports v t :
      v = 4 \/ v = 6 -> t_l4_proto t = 6 \/ t_l4_proto t = 17 ->
      pinv v (Z.lor (Z.lor ES_T_L2_VALID ES_T_ADDR_VALID) ES_T_PORTS_VALID) t ->
      es_contract ES_PARSE_OK t.

(** ** Stage by stage *)

(** One step of a symbolic run: every read is in bounds, every assignment
    keeps the invariant. *)
Ltac wp_step :=
  lazymatch goal with
  | |- wp (_ ≫= _) _ _ _ => apply wp_bind
  | |- wp (mret _) _ _ _ => apply wp_ret
  | |- wp get_tuple _ _ _ => apply wp_get
  | |- wp (modify _) _ _ _ => apply wp_modify
  | |- wp (stop _) _ _ _ => apply wp_stop
  | |- wp (stop_if _ _) _ _ _ => apply wp_stop_if; intros
  | |- wp (rd _ _) _ _ _ => apply wp_rd; [|intros]
  | |- wp (rd_bytes _ _ _) _ _ _ => apply wp_rd_bytes; [| |intros]
  | |- wp (es_be16 _ _) _ _ _ => apply wp_be16; [| |intros]
  | |- wp (need _ _ _ _) _ _ _ => apply wp_need; [by eauto using bounds_end, u32_width| | | | |intros]
  | |- wp (if ?b then _ else _) _ _ _ => destruct b eqn:?
  end.

Section Stages.
Context (cap endp : Z) (HB : bounds cap endp).

(** Offsets below [cap <= 128] do not wrap. *)
Ltac arith :=
  lazymatch goal with |- wp _ _ _ _ => fail | |- es_contract _ _ => fail | |- _ => idtac end;
  pose proof (b_cap _ _ HB); pose proof (b_len _ _ HB);
  unfold ES_PARSE_BYTES, in_width, is_byte in *; rewrite ?(wrap_small 32) by lia;
  first [lia | apply wrap_range; lia].

Ltac contract :=
  lazymatch goal with |- es_contract _ _ => idtac end;
  solve
  [ eapply contract_l2; [| |eauto 20 with pinv]; auto
  | eapply contract_addr; [| |eauto 20 with pinv]; auto
  | eapply contract_fragment; [|eauto 20 with pinv]; auto
  | eapply contract_ports; [| |eauto 20 with pinv]; simpl; auto
  | eapply contract_nothing; [|eauto 20 with pinv]; auto ].

Lemma wp_parse_arp {A} off t (Q : A -> es_tuple -> Prop) :
  0 <= off -> pinv 0 ES_T_L2_VALID t -> wp (es_parse_arp p cap endp off) Q es_contract t.
Proof.
  intros Ho HI. unfold es_parse_arp. repeat (wp_step; try contract; try arith).
Qed.

(** After the network layer: the tuple has its addresses. *)
Definition after_l3 (r : Z * Z) (t : es_tuple) : Prop :=
  exists v, (v = 4 \/ v = 6) /\ pinv v (Z.lor ES_T_L2_VALID ES_T_ADDR_VALID) t /\
  0 <= r.1 <= ES_PARSE_BYTES /\ in_width 32 r.2.

Lemma wp_parse_ipv4 off t :
  0 <= off -> pinv 0 ES_T_L2_VALID t -> wp (es_parse_ipv4 p cap endp off) after_l3 es_contract t.
Proof.
  intros Ho HI. unfold es_parse_ipv4. repeat (wp_step; try contract; try arith).
  pose proof (u32_width (Z.land b0 15 * 4)).
  exists 4. split; [auto|split; [eauto 20 with pinv|]]. split; [simpl; arith|apply u32_width].
Qed.

(** The length of an extension header. *)
Lemma ext_len_range b next : is_byte b ->
  0 <= (if next =? 51 then u32 (u32 (b + 2) * 4) else u32 (u32 (b + 1) * 8)) < 2 ^ 32.
Proof. intros. destruct (next =? 51); apply wrap_range; lia. Qed.

Lemma wp_parse_exts n : forall e off next t,
  bounds cap e -> 0 <= off -> is_byte next -> pinv 6 (Z.lor ES_T_L2_VALID ES_T_ADDR_VALID) t ->
  wp (es_parse_exts p n cap e off next)
    (fun r t' => t' = t /\ 0 <= r.1 /\ (r.1 = off \/ r.1 <= cap) /\ is_byte r.2) es_contract t.
Proof.
  induction n as [|n IH]; intros e off next t He Ho Hn HI; cbn [es_parse_exts].
  { wp_step. split_and!; simpl; auto; lia. }
  do 2 wp_step; [split_and!; simpl; auto; lia|].
  repeat (wp_step; try contract; try arith).
  all: match goal with H : is_byte ?b |- context [u32 (u32 (?b + 2) * 4)] =>
    pose proof (ext_len_range b next H); generalize dependent
      (if next =? 51 then u32 (u32 (b + 2) * 4) else u32 (u32 (b + 1) * 8)); intros l ? end; try arith.
  intros. eapply wp_conseq; [apply IH; [done|arith|done|done]| |done].
  intros r t' (-> & ? & ? & ?). split_and!; try done.
  pose proof (b_cap _ _ HB). unfold ES_PARSE_BYTES in *.
  rewrite wrap_small in * by lia. lia.
Qed.

Lemma wp_parse_ipv6 off t :
  0 <= off -> pinv 0 ES_T_L2_VALID t -> wp (es_parse_ipv6 p cap endp off) after_l3 es_contract t.
Proof.
  intros Ho HI. unfold es_parse_ipv6. repeat (wp_step; try contract; try arith).
  pose proof (b_cap _ _ HB). unfold ES_PARSE_BYTES in *.
  eapply wp_conseq; [apply wp_parse_exts| |done].
  - eauto using bounds_end, u32_width.
  - arith.
  - done.
  - eauto 20 with pinv.
  - intros [off' next'] t' (-> & ? & Hr & ?). simpl in *. rewrite wrap_small in Hr by lia.
    repeat (wp_step; try contract).
    exists 6. split; [auto|split; [eauto 20 with pinv|]].
    split; [unfold ES_PARSE_BYTES; simpl; lia|apply u32_width].
Qed.

Lemma wp_parse_l4 {A} e l4 v t (Q : A -> es_tuple -> Prop) :
  bounds cap e -> 0 <= l4 -> v = 4 \/ v = 6 -> pinv v (Z.lor ES_T_L2_VALID ES_T_ADDR_VALID) t ->
  wp (es_parse_l4 p cap e l4) Q es_contract t.
Proof.
  intros He Ho Hv HI. unfold es_parse_l4. repeat (wp_step; try contract; try arith).
  all: eapply contract_ports; [| |eauto 20 with pinv]; simpl; auto; lia.
Qed.

Lemma wp_parse_vlans n : forall off type t,
  0 <= off -> in_width 16 type -> pinv 0 ES_T_L2_VALID t ->
  wp (es_parse_vlans p n cap endp off type)
    (fun r t' => pinv 0 ES_T_L2_VALID t' /\ 0 <= r.1 /\ in_width 16 r.2) es_contract t.
Proof.
  induction n as [|n IH]; intros off type t Ho Ht HI; cbn [es_parse_vlans].
  { wp_step. done. }
  repeat (wp_step; try contract; try arith); [done|].
  eapply wp_store_vlan; [done|lia|]. intros t' HI'.
  repeat (wp_step; try arith). apply IH; [arith|done|done].
Qed.

Lemma wp_parse_network off type t (Q : False -> es_tuple -> Prop) :
  0 <= off -> in_width 16 type -> pinv 0 ES_T_L2_VALID t ->
  wp (es_parse_network p cap endp off type) Q es_contract t.
Proof.
  intros Ho Ht HI. unfold es_parse_network. do 3 wp_step.
  assert (HI' : pinv 0 ES_T_L2_VALID (set_ethertype type t)) by eauto with pinv.
  repeat (wp_step; try contract); [by apply wp_parse_arp|..].
  all: eapply wp_conseq; [first [apply wp_parse_ipv4|apply wp_parse_ipv6]; done| |done].
  all: intros [l4 e] t' (v & Hv & HI2 & ? & ?);
    eapply wp_parse_l4; eauto using bounds_end; simpl in *; lia.
Qed.

Lemma wp_parse_frame sv vid (Q : False -> es_tuple -> Prop) :
  wp (es_parse_frame p cap endp sv vid) Q es_contract zero_tuple.
Proof.
  pose proof pinv_zero as HI. unfold es_parse_frame.
  assert (HI' : pinv 0 ES_T_L2_VALID (set_flags ES_T_L2_VALID zero_tuple))
    by (eapply pinv_set_flags; [done|exact HI]).
  repeat (wp_step; try contract; try arith); [eapply wp_store_vlan; [exact HI'|simpl; lia|intros t' Ht']|].
  all: try wp_step; eapply wp_conseq; [apply wp_parse_vlans; (lia || eassumption)| |done].
  all: intros [off type] t'' (? & ? & ?); by apply wp_parse_network.
Qed.
End Stages.
End WithBytes.

(** ** Memory safety and contract *)
Lemma clamp_cap_bounds p cap original_len :
  0 <= cap -> cap <= Z.of_nat (length p) -> in_width 32 original_len ->
  bounds p (clamp_cap cap original_len) original_len.
Proof.
  unfold in_width. intros. constructor; [| |done]; unfold clamp_cap, ES_PARSE_BYTES;
    repeat case_match; lia.
Qed.

Lemma es_parse_run p cap original_len sv vid :
  bytes_ok p -> 0 <= cap <= Z.of_nat (length p) -> in_width 32 original_len ->
  exists rc t, es_parse p cap original_len sv vid = Some (rc, t) /\ es_contract rc t.
Proof.
  intros Hp [Hc Hl] Ho. unfold es_parse.
  pose proof (wp_parse_frame p Hp _ _ (clamp_cap_bounds p cap original_len Hc Hl Ho) sv vid
                (fun _ _ => False)) as W.
  unfold wp in W. destruct (es_parse_frame _ _ _ _ _ _) as [|rc t|[]]; [done|eauto].
Qed.

(** C1: memory safety and contract of [es_parse].  For any prefix of [cap] valid bytes, any
    claimed packet length and VLAN metadata, the parser never reads outside the prefix nor
    writes outside [vlan], and its status and tuple satisfy [es_contract]. *)
Theorem es_parse_safe p cap original_len sv vid :
  bytes_ok p -> 0 <= cap <= Z.of_nat (length p) -> in_width 32 original_len ->
  exists rc t, es_parse p cap original_len sv vid = Some (rc, t) /\ es_contract rc t.
Proof. apply es_parse_run. Qed.

(** What the flag bits of the result promise: the assertions of the parser
    fuzz test, and the statuses that set them. *)
Definition has_flag (f : Z) (t : es_tuple) : bool := negb (Z.land (t_flags t) f =? 0).

(** Flag discipline of [es_parse]: at most two VLAN IDs; ports are valid only on status OK,
    with valid addresses, outside fragments and for TCP or UDP; the fragment bit is set exactly
    on status FRAGMENT; addresses are valid only for IP version 4 or 6. *)
Theorem es_parse_flags p cap original_len sv vid rc t :
  bytes_ok p -> 0 <= cap <= Z.of_nat (length p) -> in_width 32 original_len ->
  es_parse p cap original_len sv vid = Some (rc, t) ->
  ES_PARSE_OK <= rc <= ES_PARSE_FRAGMENT /\ 0 <= t_vlan_count t <= 2 /\
  Forall (in_width 12) (t_vlan t) /\ t_reserved t = 0 /\
  Z.land (t_flags t) (Z.lnot 15) = 0 /\
  (has_flag ES_T_PORTS_VALID t = true ->
     rc = ES_PARSE_OK /\ has_flag ES_T_ADDR_VALID t = true /\ has_flag ES_T_FRAGMENT t = false /\
     (t_l4_proto t = 6 \/ t_l4_proto t = 17)) /\
  (has_flag ES_T_FRAGMENT t = true <-> rc = ES_PARSE_FRAGMENT) /\
  (has_flag ES_T_ADDR_VALID t = true -> t_ip_version t = 4 \/ t_ip_version t = 6) /\
  (rc = ES_PARSE_OK -> has_flag ES_T_L2_VALID t = true /\ has_flag ES_T_ADDR_VALID t = true).
Proof.
  intros Hp Hc Ho E. destruct (es_parse_run p cap original_len sv vid Hp Hc Ho)
    as (rc' & t' & E' & HC). rewrite E in E'. injection E' as <- <-. unfold has_flag.
  destruct HC as [? ? Hrc HI|? ? ? Hrc ? HI|? ? ? Hrc ? HI|? ? ? HI|? ? ? ? HI];
    destruct HI as [_ Hv -> ? ? ?]; try (clear E; destruct_or! Hrc; subst);
    (split; [done|]); (split; [lia|]); do 3 (split; [done|]); cbn.
  all: repeat split; intros; try discriminate; auto.
  all: lia.
Qed.

(** ** What a longer prefix can change

    [sub Q m1 m2]: [m1] (on the shorter prefix) faults, or is stopped as
    truncated, or agrees with [m2] (on the longer one); values it goes on
    with satisfy [Q]. *)
Definition sub {A} (tr : bool) (Q : A -> Prop) (m1 m2 : parser A) : Prop :=
  forall t, m1 t = Fault \/ (tr = true /\ exists t', m1 t = Return ES_PARSE_TRUNCATED t') \/
    (m1 t = m2 t /\ forall a t', m1 t = Next a t' -> Q a).

Lemma sub_refl {A} tr (m : parser A) : sub tr (fun _ => True) m m.
Proof. intros t. auto. Qed.

Lemma sub_stop {A} tr (Q : A -> Prop) rc : sub tr Q (stop rc) (stop rc).
Proof. intros t. right; right. by split. Qed.

Lemma sub_bind {A B} tr (Q : A -> Prop) (Q' : B -> Prop) m1 m2 k1 k2 :
  sub tr Q m1 m2 -> (forall a, Q a -> sub tr Q' (k1 a) (k2 a)) ->
  sub tr Q' (m1 ≫= k1) (m2 ≫= k2).
Proof.
  intros Hm Hk t. unfold mbind, parser_bind.
  destruct (Hm t) as [->|[[-> [t' ->]]|[E HQ]]]; [by left|by right; left; eauto|].
  rewrite <- E. destruct (m1 t) as [|rc t'|a t'] eqn:E1; [by left| |].
  - right; right. split; [done|]. discriminate.
  - by apply Hk, (HQ a t').
Qed.

Lemma sub_weaken {A} tr (Q Q' : A -> Prop) m1 m2 :
  sub tr Q m1 m2 -> (forall a, Q a -> Q' a) -> sub tr Q' m1 m2.
Proof.
  intros H HQ t. destruct (H t) as [?|[?|[E HQ1]]]; [by left|by right; left|].
  right; right. split; [done|]. intros a t' Ea. eapply HQ, HQ1, Ea.
Qed.

Lemma sub_ret {A} tr (Q : A -> Prop) a : Q a -> sub tr Q (mret a) (mret a).
Proof. intros H t. right; right. split; [done|]. by intros ? ? [= <- _]. Qed.

Section Prefixes.
Context (p q : bytes) (tr : bool) (cap1 cap2 : Z).
Hypothesis Hpq : p `prefix_of` q.
Hypothesis Hcap : 0 <= cap1 <= cap2 /\ cap2 < 2 ^ 32 /\ (tr = false -> cap1 = cap2).

Lemma sub_rd i : sub tr (fun _ => True) (rd p i) (rd q i).
Proof.
  intros t. unfold rd. case_decide; [|by auto].
  destruct (p !! Z.to_nat i) eqn:E; [|by auto].
  rewrite (prefix_lookup_Some p q _ _ E Hpq). auto.
Qed.

Lemma sub_need off n endp : 0 <= off ->
  sub tr (fun _ => True) (need off n cap1 endp) (need off n cap2 endp).
Proof.
  intros Ho t. unfold need, es_need, stop_if.
  destruct ((endp <? off) || _); [by right; right|].
  destruct tr eqn:Et.
  - destruct (Z.ltb_spec cap1 off); simpl; [by right; left; eauto|].
    destruct (Z.ltb_spec cap2 off); [lia|].
    rewrite !wrap_small by lia.
    destruct (Z.ltb_spec (cap1 - off) n); simpl; [by right; left; eauto|].
    destruct (Z.ltb_spec (cap2 - off) n); [lia|]. by right; right.
  - rewrite (proj2 (proj2 Hcap) eq_refl). by right; right.
Qed.

Lemma sub_rd_bytes n : forall i, sub tr (fun _ => True) (rd_bytes p i n) (rd_bytes q i n).
Proof.
  induction n as [|n IH]; intros i; simpl; [apply sub_refl|].
  eapply sub_bind; [apply sub_rd|]. intros b _.
  eapply sub_bind; [apply IH|]. intros. by apply sub_ret.
Qed.

Lemma sub_be16 i : sub tr (fun _ => True) (es_be16 p i) (es_be16 q i).
Proof.
  unfold es_be16. eapply sub_bind; [apply sub_rd|]. intros b _.
  eapply sub_bind; [apply sub_rd|]. intros. by apply sub_ret.
Qed.

(** Both runs take the same branch and read the same bytes. *)
Ltac sub_step :=
  lazymatch goal with
  | |- sub _ _ (_ ≫= _) (_ ≫= _) => eapply sub_bind; [|let a := fresh "a" in let H := fresh "Ha" in intros a H;
        lazymatch type of a with (_ * _)%type => destruct a as [? ?]; simpl in H | _ => idtac end;
        try done]
  | |- sub _ _ (mret _) (mret _) => first [apply sub_refl|apply sub_ret]
  | |- sub _ _ (rd _ _) _ => apply sub_rd
  | |- sub _ _ (rd_bytes _ _ _) _ => apply sub_rd_bytes
  | |- sub _ _ (es_be16 _ _) _ => apply sub_be16
  | |- sub _ _ (need _ _ _ _) _ => apply sub_need
  | |- sub _ _ (if ?b then _ else _) _ => destruct b
  | |- sub _ _ (stop _) _ => apply sub_stop
  | |- sub _ _ ?m ?m => apply sub_refl
  end.

Lemma u32_nonneg z : 0 <= u32 z.
Proof. apply wrap_range. lia. Qed.

Lemma sub_parse_arp {A} endp off Q : 0 <= off ->
  sub tr Q (es_parse_arp (A:=A) p cap1 endp off) (es_parse_arp q cap2 endp off).
Proof. intros. unfold es_parse_arp. by repeat sub_step. Qed.

Lemma sub_parse_ipv4 endp off : 0 <= off ->
  sub tr (fun r => 0 <= r.1) (es_parse_ipv4 p cap1 endp off) (es_parse_ipv4 q cap2 endp off).
Proof. intros. unfold es_parse_ipv4. repeat sub_step; try done. apply u32_nonneg. Qed.

Lemma sub_parse_exts n : forall endp off next, 0 <= off ->
  sub tr (fun r => 0 <= r.1) (es_parse_exts p n cap1 endp off next)
    (es_parse_exts q n cap2 endp off next).
Proof.
  induction n as [|n IH]; intros endp off next Ho; cbn [es_parse_exts]; repeat sub_step; try done.
  apply IH, u32_nonneg.
Qed.

Lemma sub_parse_ipv6 endp off : 0 <= off ->
  sub tr (fun r => 0 <= r.1) (es_parse_ipv6 p cap1 endp off) (es_parse_ipv6 q cap2 endp off).
Proof.
  intros. unfold es_parse_ipv6. repeat sub_step; try done.
  - apply sub_parse_exts, u32_nonneg.
  - simpl in *. done.
Qed.

Lemma sub_parse_l4 {A} endp l4 Q : 0 <= l4 ->
  sub tr Q (es_parse_l4 (A:=A) p cap1 endp l4) (es_parse_l4 q cap2 endp l4).
Proof. intros. unfold es_parse_l4. by repeat sub_step. Qed.

Lemma sub_parse_vlans n : forall endp off type, 0 <= off ->
  sub tr (fun r => 0 <= r.1) (es_parse_vlans p n cap1 endp off type)
    (es_parse_vlans q n cap2 endp off type).
Proof.
  induction n as [|n IH]; intros endp off type Ho; cbn [es_parse_vlans]; repeat sub_step; try done.
  apply IH, u32_nonneg.
Qed.

Lemma sub_parse_network endp off type Q : 0 <= off ->
  sub tr Q (es_parse_network p cap1 endp off type) (es_parse_network q cap2 endp off type).
Proof.
  intros. unfold es_parse_network. repeat sub_step; [by apply sub_parse_arp|..].
  - by apply sub_parse_ipv4.
  - by apply sub_parse_ipv6.
  - simpl in *. by apply sub_parse_l4.
Qed.

Lemma sub_parse_frame endp sv vid :
  sub tr (fun _ => True) (es_parse_frame p cap1 endp sv vid) (es_parse_frame q cap2 endp sv vid).
Proof.
  unfold es_parse_frame. repeat sub_step; [lia|apply sub_parse_vlans; lia|].
  simpl in *. by apply sub_parse_network.
Qed.
End Prefixes.

Lemma clamp_cap_mono cap1 cap2 original_len :
  0 <= cap1 <= cap2 -> in_width 32 original_len ->
  0 <= clamp_cap cap1 original_len <= clamp_cap cap2 original_len /\
  clamp_cap cap2 original_len < 2 ^ 32.
Proof. unfold in_width, clamp_cap, ES_PARSE_BYTES. intros. repeat case_match; lia. Qed.

(** C9: a longer prefix never changes a verdict.  If [p] is a prefix of [q], the result on [p] is
    either TRUNCATED or exactly the result on [q]: truncation is the only thing that capping the
    observed bytes can do, and every other status and tuple is that of the whole packet. *)
Theorem es_parse_prefix p q cap1 cap2 original_len sv vid rc t :
  p `prefix_of` q -> bytes_ok p -> 0 <= cap1 <= Z.of_nat (length p) -> cap1 <= cap2 ->
  in_width 32 original_len ->
  es_parse p cap1 original_len sv vid = Some (rc, t) -> rc <> ES_PARSE_TRUNCATED ->
  es_parse q cap2 original_len sv vid = Some (rc, t).
Proof.
  intros Hpq Hp Hc Hcc Ho E Hrc. unfold es_parse in *.
  destruct (clamp_cap_mono cap1 cap2 original_len) as [Hm1 Hm2]; [lia|done|].
  assert (Ht : true = false -> clamp_cap cap1 original_len = clamp_cap cap2 original_len) by done.
  destruct (sub_parse_frame p q true _ _ Hpq (conj Hm1 (conj Hm2 Ht)) original_len sv vid zero_tuple)
    as [F|[(_ & t' & F)|[F _]]].
  - by rewrite F in E.
  - rewrite F in E. congruence.
  - by rewrite <- F.
Qed.

Lemma es_parse_agree p q cap original_len sv vid :
  bytes_ok p -> 0 <= cap <= Z.of_nat (length p) -> in_width 32 original_len ->
  take (Z.to_nat cap) p `prefix_of` q ->
  es_parse q cap original_len sv vid = es_parse p cap original_len sv vid.
Proof.
  intros Hp Hc Ho Hpq. set (r := take (Z.to_nat cap) p) in *.
  assert (Hr : bytes_ok r) by (subst r; auto with es).
  assert (Hl : 0 <= cap <= Z.of_nat (length r)) by (subst r; rewrite length_take; lia).
  destruct (clamp_cap_mono cap cap original_len) as [Hm1 Hm2]; [lia|done|].
  destruct (es_parse_run r cap original_len sv vid Hr Hl Ho) as (rc & t & E & _).
  assert (H : forall s, r `prefix_of` s -> es_parse s cap original_len sv vid = Some (rc, t)).
  { intros s Hs. revert E. unfold es_parse.
    destruct (sub_parse_frame r s false _ _ Hs (conj Hm1 (conj Hm2 (fun _ => eq_refl)))
                original_len sv vid zero_tuple) as [->|[(? & _)|[-> _]]]; done. }
  rewrite !H; [done| |done]. subst r. apply prefix_take.
Qed.

(** The parser observes only the prefix.  Two buffers that agree on their first [cap] bytes
    give the same status and tuple, whatever follows. *)
Theorem es_parse_reads_prefix p q cap original_len sv vid :
  bytes_ok p -> 0 <= cap <= Z.of_nat (length p) -> in_width 32 original_len ->
  take (Z.to_nat cap) p `prefix_of` q ->
  es_parse q cap original_len sv vid = es_parse p cap original_len sv vid.
Proof. apply es_parse_agree. Qed.
