(* ===== verification/Frames.v ===== *)
(** * Well-formed frames and the parser

    A grammar of Ethernet frames (up to two VLAN tags, IPv4 with options or
    IPv6 with extension headers, TCP, UDP or another transport, link-layer
    padding) with its serialiser [emit], the tuple [tuple_of] such a frame
    describes, and the theorem that [es_parse] recovers it. *)
From S2P Require Import Prelude Abi PacketParser ParserFacts.

(** ** The grammar *)
Definition be16 (v : Z) : bytes := [v / 256; v mod 256].

(** A transport header: its first bytes, then the rest of the segment. *)
Inductive transport :=
  | Udp (sport dport ulen : Z) (csum : Z) (data : bytes)
  | Tcp (sport dport : Z) (seq_ack : bytes) (doff_byte : Z) (rest : bytes)
  | Other (proto : Z) (data : bytes).

Definition transport_bytes (x : transport) : bytes :=
  match x with
  | Udp sport dport ulen csum data => be16 sport ++ be16 dport ++ be16 ulen ++ be16 csum ++ data
  | Tcp sport dport seq_ack doff_byte rest =>
      be16 sport ++ be16 dport ++ seq_ack ++ doff_byte :: rest
  | Other _ data => data
  end.

Definition transport_proto (x : transport) : Z :=
  match x with Udp _ _ _ _ _ => 17 | Tcp _ _ _ _ _ => 6 | Other proto _ => proto end.

(** The bytes the parser must see of it. *)
Definition transport_need (x : transport) : Z :=
  match x with Udp _ _ _ _ _ => 8 | Tcp _ _ _ _ _ => 20 | Other _ _ => 0 end.

Definition transport_ok (x : transport) : Prop :=
  match x with
  | Udp sport dport ulen csum data =>
      in_width 16 sport /\ in_width 16 dport /\ in_width 16 ulen /\
      8 <= ulen <= 8 + Z.of_nat (length data)
  | Tcp sport dport seq_ack doff_byte rest =>
      in_width 16 sport /\ in_width 16 dport /\ length seq_ack = 8%nat /\ is_byte doff_byte /\
      20 <= Z.shiftr doff_byte 4 * 4 <= 13 + Z.of_nat (length rest)
  | Other proto data => is_byte proto /\ proto <> 6 /\ proto <> 17
  end.

(** An extension header: type, length byte, and what follows the two first
    bytes.  [next] is the type of what comes after the list. *)
Abbreviation ext := (Z * Z * bytes)%type.

Definition ext_size (type len : Z) : Z := if type =? 51 then (len + 2) * 4 else (len + 1) * 8.

Definition ext_first (exts : list ext) (next : Z) : Z :=
  match exts with [] => next | (type, _, _) :: _ => type end.

Fixpoint ext_bytes (exts : list ext) (next : Z) : bytes :=
  match exts with
  | [] => []
  | (_, len, body) :: exts => ext_first exts next :: len :: body ++ ext_bytes exts next
  end.

Definition ext_ok (e : ext) : Prop :=
  let '(type, len, body) := e in
  (type = 0 \/ type = 43 \/ type = 60 \/ type = 51) /\ is_byte len /\
  2 + Z.of_nat (length body) = ext_size type len.

Inductive network :=
  | Ipv4 (tos id frag ttl csum : Z) (src dst options : bytes)
  | Ipv6 (tc_low : Z) (flow : bytes) (hop : Z) (src dst : bytes) (exts : list ext).

Definition network_type (n : network) : Z :=
  match n with Ipv4 _ _ _ _ _ _ _ _ => 0x0800 | Ipv6 _ _ _ _ _ _ => 0x86dd end.

Definition network_bytes (n : network) (x : transport) : bytes :=
  match n with
  | Ipv4 tos id frag ttl csum src dst options =>
      (69 + Z.of_nat (length options) / 4) :: tos ::
      be16 (20 + Z.of_nat (length options) + Z.of_nat (length (transport_bytes x))) ++
      be16 id ++ be16 frag ++ ttl :: transport_proto x :: be16 csum ++
      src ++ dst ++ options ++ transport_bytes x
  | Ipv6 tc_low flow hop src dst exts =>
      (96 + tc_low) :: flow ++
      be16 (Z.of_nat (length (ext_bytes exts (transport_proto x))) +
            Z.of_nat (length (transport_bytes x))) ++
      ext_first exts (transport_proto x) :: hop :: src ++ dst ++
      ext_bytes exts (transport_proto x) ++ transport_bytes x
  end.

(** The size of the network headers, before the transport. *)
Definition network_need (n : network) (x : transport) : Z :=
  match n with
  | Ipv4 _ _ _ _ _ _ _ options => 20 + Z.of_nat (length options)
  | Ipv6 _ _ _ _ _ exts => 40 + Z.of_nat (length (ext_bytes exts (transport_proto x)))
  end.

Definition network_ok (n : network) (x : transport) : Prop :=
  match n with
  | Ipv4 tos id frag ttl csum src dst options =>
      in_width 16 frag /\ Z.land frag 0x3fff = 0 /\ length src = 4%nat /\ length dst = 4%nat /\
      (exists k, (k <= 10)%nat /\ length options = (4 * k)%nat) /\
      in_width 16 (20 + Z.of_nat (length options) + Z.of_nat (length (transport_bytes x)))
  | Ipv6 tc_low flow hop src dst exts =>
      0 <= tc_low < 16 /\ length flow = 3%nat /\ length src = 16%nat /\ length dst = 16%nat /\
      Forall ext_ok exts /\ (length exts <= 4)%nat /\
      es_ext (transport_proto x) = false /\ transport_proto x <> 50 /\
      0 < Z.of_nat (length (ext_bytes exts (transport_proto x))) +
          Z.of_nat (length (transport_bytes x)) < 2 ^ 16
  end.

(** A VLAN tag: TPID and TCI. *)
Abbreviation vlan_tag := (Z * Z)%type.

Definition tag_ok (tag : vlan_tag) : Prop :=
  (tag.1 = 0x8100 \/ tag.1 = 0x88a8) /\ in_width 16 tag.2.

Definition tag_first (tags : list vlan_tag) (type : Z) : Z :=
  match tags with [] => type | (tpid, _) :: _ => tpid end.

(** The bytes after the first type field. *)
Fixpoint tag_bytes (tags : list vlan_tag) (type : Z) (payload : bytes) : bytes :=
  match tags with
  | [] => payload
  | (_, tci) :: tags => be16 tci ++ be16 (tag_first tags type) ++ tag_bytes tags type payload
  end.

Record frame := mk_frame {
  fr_macs : bytes;
  fr_tags : list vlan_tag;
  fr_network : network;
  fr_transport : transport;
  fr_padding : bytes;
}.

Definition emit (f : frame) : bytes :=
  let type := network_type (fr_network f) in
  fr_macs f ++ be16 (tag_first (fr_tags f) type) ++
  tag_bytes (fr_tags f) type (network_bytes (fr_network f) (fr_transport f) ++ fr_padding f).

(** The length of the headers the parser reads. *)
Definition header_need (f : frame) : Z :=
  14 + 4 * Z.of_nat (length (fr_tags f)) + network_need (fr_network f) (fr_transport f) +
  transport_need (fr_transport f).

Definition frame_ok (f : frame) : Prop :=
  length (fr_macs f) = 12%nat /\ Forall tag_ok (fr_tags f) /\
  network_ok (fr_network f) (fr_transport f) /\ transport_ok (fr_transport f) /\
  bytes_ok (emit f) /\ Z.of_nat (length (emit f)) < 2 ^ 32.

(** ** The tuple of a frame *)
Definition tag_ids (tags : list vlan_tag) (sv : bool) (vid : Z) : list Z :=
  (if sv then [Z.land vid 0xfff] else []) ++ map (fun tag => Z.land tag.2 0xfff) tags.

Definition vlan_ids (f : frame) (sv : bool) (vid : Z) : list Z := tag_ids (fr_tags f) sv vid.

Definition tuple_addrs (n : network) : bytes * bytes * Z :=
  match n with
  | Ipv4 _ _ _ _ _ src dst _ => (src ++ replicate 12 0, dst ++ replicate 12 0, 4)
  | Ipv6 _ _ _ src dst _ => (src, dst, 6)
  end.

Definition tuple_ports (x : transport) : bytes * bytes * Z :=
  match x with
  | Udp sport dport _ _ _ | Tcp sport dport _ _ _ => (be16 sport, be16 dport, 7)
  | Other _ _ => ([0; 0], [0; 0], 3)
  end.

Definition tuple_of (f : frame) (sv : bool) (vid : Z) : es_tuple :=
  let ids := vlan_ids f sv vid in
  let '(src, dst, version) := tuple_addrs (fr_network f) in
  let '(sport, dport, flags) := tuple_ports (fr_transport f) in
  mk_tuple src dst sport dport (network_type (fr_network f)) (take 2 (ids ++ [0; 0]))
    version (transport_proto (fr_transport f)) flags (Z.of_nat (length ids)) 0.

(** ** Running the parser on known bytes *)
Lemma be16_join v : in_width 16 v -> v / 256 * 256 + v mod 256 = v.
Proof. intros _. pose proof (Z.div_mod v 256). lia. Qed.

Lemma be16_ok v : in_width 16 v -> bytes_ok (be16 v).
Proof.
  unfold in_width. intros. repeat constructor; try (apply Z.mod_pos_bound; lia).
  - apply Z.div_pos; lia.
  - apply Z.div_lt_upper_bound; lia.
Qed.

Lemma bind_next {A B} (m : parser A) (k : A -> parser B) t a t' :
  m t = Next a t' -> (m ≫= k) t = k a t'.
Proof. intros E. unfold mbind, parser_bind. by rewrite E. Qed.

Lemma need_next off n cap endp t :
  0 <= off -> 0 <= n -> in_width 32 cap -> in_width 32 endp ->
  off + n <= cap -> off + n <= endp -> need off n cap endp t = Next tt t.
Proof.
  intros. unfold need.
  destruct (es_need_cases off n cap endp) as [[? _]|[(_ & ? & _)|(_ & _ & ->)]]; try done; lia.
Qed.

Lemma stop_if_next (b : bool) rc t : b = false -> stop_if b rc t = Next tt t.
Proof. by intros ->. Qed.

(** [at_off p off q]: the bytes of [p] from [off] on are [q]. *)
Definition at_off (p : bytes) (off : Z) (q : bytes) : Prop :=
  exists pre, p = pre ++ q /\ Z.of_nat (length pre) = off.

Lemma at_off_skip p off q0 a q off' :
  at_off p off q0 -> q0 = a ++ q -> off' = off + Z.of_nat (length a) -> at_off p off' q.
Proof.
  intros (pre & -> & <-) -> ->. exists (pre ++ a). rewrite length_app, Nat2Z.inj_add. split; [|done].
  apply app_assoc.
Qed.

Lemma rd_next p off q k b t :
  at_off p off q -> q !! k = Some b -> rd p (off + Z.of_nat k) t = Next b t.
Proof.
  intros (pre & -> & <-) Hk. unfold rd. rewrite decide_True by lia.
  rewrite lookup_app_r by lia.
  by replace (Z.to_nat (Z.of_nat (length pre) + Z.of_nat k) - length pre)%nat with k by lia;
    rewrite Hk.
Qed.

Lemma be16_next p off q k v rest t :
  at_off p off q -> drop k q = be16 v ++ rest -> in_width 16 v ->
  es_be16 p (off + Z.of_nat k) t = Next v t.
Proof.
  intros Ha Hd Hv. pose proof (be16_ok v Hv) as Hb.
  assert (H0 : q !! k = Some (v / 256)) by (rewrite <- (Nat.add_0_r k), <- lookup_drop, Hd; done).
  assert (H1 : q !! S k = Some (v mod 256))
    by (rewrite <- (Nat.add_1_r k), <- lookup_drop, Hd; done).
  unfold es_be16. erewrite bind_next by (eapply rd_next; eauto).
  rewrite <- Z.add_assoc. replace (Z.of_nat k + 1) with (Z.of_nat (S k)) by lia.
  erewrite bind_next by (eapply rd_next; eauto).
  inversion Hb as [|? ? ? Hb']; subst. inversion Hb'; subst.
  rewrite be16_value by done. by rewrite be16_join.
Qed.

Lemma rd_bytes_next p off q a n k rest t :
  at_off p off q -> drop k q = a ++ rest -> length a = n ->
  rd_bytes p (off + Z.of_nat k) n t = Next a t.
Proof.
  intros Ha Hd <-. revert k Hd. induction a as [|b a IH]; intros k Hd; [done|]. cbn [length rd_bytes].
  assert (H0 : q !! k = Some b) by (rewrite <- (Nat.add_0_r k), <- lookup_drop, Hd; done).
  erewrite bind_next by (eapply rd_next; eauto).
  rewrite <- Z.add_assoc. replace (Z.of_nat k + 1) with (Z.of_nat (S k)) by lia.
  erewrite bind_next; [done|]. eapply IH.
  rewrite <- (Nat.add_1_r k), <- drop_drop, Hd. done.
Qed.

(** Replaces the index of the read in the goal by an offset into the bytes
    that [Ha] describes. *)
Ltac index Ha k :=
  lazymatch type of Ha with at_off _ ?off _ =>
    lazymatch goal with
    | |- rd _ ?i _ = _ => replace i with (off + Z.of_nat k) by (rewrite ?(wrap_small 32) by lia; lia)
    | |- es_be16 _ ?i _ = _ =>
        replace i with (off + Z.of_nat k) by (rewrite ?(wrap_small 32) by lia; lia)
    | |- rd_bytes _ ?i _ _ = _ =>
        replace i with (off + Z.of_nat k) by (rewrite ?(wrap_small 32) by lia; lia)
    end
  end.

(** Steps of a symbolic run: the next command reads the byte, the 16-bit
    value or the block at index [k], or is an assignment or a passed check. *)
Ltac run_rd Ha k := erewrite bind_next; [|index Ha k; eapply rd_next; [exact Ha|try reflexivity]].
Ltac run_be16 Ha k := erewrite bind_next; [|index Ha k; eapply be16_next; [exact Ha|try reflexivity|try done]].
Ltac run_bytes Ha k a :=
  erewrite bind_next; [|index Ha k; eapply (rd_bytes_next _ _ _ a); [exact Ha|try reflexivity|try done]].
Ltac run_set := erewrite bind_next; [|reflexivity].
Ltac run_check := erewrite bind_next; [|apply stop_if_next]; swap 1 2.
Ltac run_need := erewrite bind_next; [|apply need_next; unfold in_width; lia].

Definition set_ports (x : transport) (t : es_tuple) : es_tuple :=
  match x with
  | Udp sport dport _ _ _ | Tcp sport dport _ _ _ =>
      or_flags ES_T_PORTS_VALID (set_dport (be16 dport) (set_sport (be16 sport) t))
  | Other _ _ => t
  end.

Lemma parse_l4_run {A} p cap l4 x rest t :
  at_off p l4 (transport_bytes x ++ rest) -> transport_ok x ->
  0 <= l4 -> 0 <= cap < 2 ^ 32 -> l4 + transport_need x <= cap ->
  l4 + Z.of_nat (length (transport_bytes x)) < 2 ^ 32 ->
  t_l4_proto t = transport_proto x ->
  es_parse_l4 (A:=A) p cap (l4 + Z.of_nat (length (transport_bytes x))) l4 t =
    Return ES_PARSE_OK (set_ports x t).
Proof.
  intros Ha Hx Hl Hc Hn He Hp. unfold es_parse_l4. run_set. rewrite Hp.
  destruct x as [sport dport ulen csum data|sport dport sa doff more|proto data];
    cbn [transport_proto transport_need] in *; cbn [Z.eqb Pos.eqb].
  - destruct Hx as (Hs & Hd & Hu & Hul).
    assert (Hlen : Z.of_nat (length (transport_bytes (Udp sport dport ulen csum data))) =
                   8 + Z.of_nat (length data)) by (simpl; lia).
    rewrite Hlen in *. erewrite bind_next; [|run_need; run_be16 Ha 4%nat].
    2: { apply stop_if_next. rewrite wrap_small by lia. lia. }
    run_bytes Ha 0%nat (be16 sport). run_set. run_bytes Ha 2%nat (be16 dport). by run_set.
  - destruct Hx as (Hs & Hd & Hsa & Hb & Hh).
    assert (Hlen : Z.of_nat (length (transport_bytes (Tcp sport dport sa doff more))) =
                   13 + Z.of_nat (length more))
      by (simpl; rewrite length_app; simpl; lia).
    do 8 (destruct sa as [|? sa]; [done|]). destruct sa; [|done].
    rewrite Hlen in *. erewrite bind_next; [|run_need; run_rd Ha 12%nat].
    2: { apply stop_if_next. rewrite !wrap_small by lia. lia. }
    run_bytes Ha 0%nat (be16 sport). run_set. run_bytes Ha 2%nat (be16 dport). by run_set.
  - destruct Hx as (_ & H6 & H17).
    destruct (Z.eqb_spec proto 6); [done|]. by destruct (Z.eqb_spec proto 17).
Qed.

Lemma ext_size_pos type len : 0 <= len -> 8 <= ext_size type len.
Proof. unfold ext_size. case_match; lia. Qed.

Lemma ext_size_u32 type len : is_byte len ->
  (if type =? 51 then u32 (u32 (len + 2) * 4) else u32 (u32 (len + 1) * 8)) = ext_size type len.
Proof.
  unfold is_byte, ext_size. intros. case_match; rewrite (wrap_small 32 (len + _)) by lia;
    apply wrap_small; lia.
Qed.

Lemma parse_exts_run p cap endp next rest t exts : forall n off,
  at_off p off (ext_bytes exts next ++ rest) -> Forall ext_ok exts -> (length exts <= n)%nat ->
  es_ext next = false -> 0 <= off -> 0 <= cap < 2 ^ 32 -> 0 <= endp < 2 ^ 32 ->
  off + Z.of_nat (length (ext_bytes exts next)) <= cap ->
  off + Z.of_nat (length (ext_bytes exts next)) <= endp ->
  es_parse_exts p n cap endp off (ext_first exts next) t =
    Next (off + Z.of_nat (length (ext_bytes exts next)), next) t.
Proof.
  induction exts as [|[[type len] body] exts IH]; intros n off Ha Hok Hn Hnext Ho Hc He Hlc Hle.
  { cbn. rewrite Z.add_0_r. destruct n; cbn; [done|]. by rewrite Hnext. }
  destruct n as [|n]; [simpl in Hn; lia|]. apply Forall_cons_1 in Hok as [(Ht & Hl & Hb) Hok].
  assert (Hsz : Z.of_nat (length (ext_bytes ((type, len, body) :: exts) next)) =
    ext_size type len + Z.of_nat (length (ext_bytes exts next)))
    by (rewrite <- Hb; cbn; rewrite length_app; lia).
  unfold is_byte in Hl. pose proof (ext_size_pos type len (proj1 Hl)) as Hpos.
  rewrite Hsz in Hlc, Hle |- *. cbn [es_parse_exts ext_first].
  assert (Hext : es_ext type = true) by (destruct Ht as [->|[->|[->| ->]]]; done).
  assert (H44 : (type =? 44) = false) by (destruct Ht as [->|[->|[->| ->]]]; done).
  rewrite Hext, H44. cbn [negb]. run_need. run_set. run_rd Ha 1%nat.
  rewrite ext_size_u32 by done. run_check; [lia|]. run_need.
  run_rd Ha 0%nat. rewrite wrap_small by lia.
  rewrite Z.add_assoc. apply IH; try done; try lia; [|simpl in Hn; lia].
  eapply (at_off_skip _ _ _ (ext_first exts next :: len :: body)); [exact Ha| |simpl; lia].
  cbn. by rewrite <- app_assoc.
Qed.

Lemma patch16 (a : bytes) : length a = 4%nat -> a ++ drop 4 (replicate 16 0) = a ++ replicate 12 0.
Proof. done. Qed.

(** The tuple after the network layer. *)
Definition set_network (n : network) (x : transport) (t : es_tuple) : es_tuple :=
  match n with
  | Ipv4 _ _ _ _ _ src dst _ =>
      let t := set_l4_proto (transport_proto x) (set_ip_version 4 t) in
      let t := set_src (src ++ drop 4 (t_src t)) t in
      or_flags ES_T_ADDR_VALID (set_dst (dst ++ drop 4 (t_dst t)) t)
  | Ipv6 _ _ _ src dst _ =>
      set_l4_proto (transport_proto x)
        (or_flags ES_T_ADDR_VALID (set_dst dst (set_src src (set_ip_version 6 t))))
  end.

Lemma parse_ipv6_run p cap endp off tc_low flow hop src dst exts x pad t :
  let n := Ipv6 tc_low flow hop src dst exts in
  at_off p off (network_bytes n x ++ pad) -> network_ok n x -> is_byte (transport_proto x) ->
  0 <= off -> 0 <= cap < 2 ^ 32 -> 0 <= endp < 2 ^ 32 ->
  off + network_need n x <= cap ->
  off + network_need n x + Z.of_nat (length (transport_bytes x)) <= endp ->
  es_parse_ipv6 p cap endp off t =
    Next (off + network_need n x,
          off + network_need n x + Z.of_nat (length (transport_bytes x))) (set_network n x t).
Proof.
  cbn zeta. intros Ha (Htc & Hfl & Hsl & Hdl & Hex & Hel & Hpx & H50 & Hpl) Hp Ho Hc He Hnc Hne.
  cbn [network_need] in *. unfold es_parse_ipv6.
  set (el := Z.of_nat (length (ext_bytes exts (transport_proto x)))) in *.
  set (xl := Z.of_nat (length (transport_bytes x))) in *.
  do 3 (destruct flow as [|? flow]; [done|]). destruct flow; [|done].
  run_need. run_rd Ha 0%nat. run_check.
  { assert (Z.shiftr (96 + tc_low) 4 = 6) as ->; [|done].
    rewrite Z.shiftr_div_pow2 by lia. symmetry. apply (Z.div_unique _ _ _ tc_low); lia. }
  run_be16 Ha 4%nat; [|unfold in_width; subst el xl; lia]. run_check; [subst el xl; lia|].
  run_check; [rewrite !wrap_small; subst el xl; rewrite ?wrap_small; lia|].
  run_rd Ha 6%nat. run_set.
  assert (Hs : at_off p (off + 8) (src ++ dst ++ ext_bytes exts (transport_proto x) ++
                                   transport_bytes x ++ pad)).
  { eapply (at_off_skip _ _ _ [96 + tc_low; z; z0; z1; _; _; _; hop]); [exact Ha| |done].
    cbn. by rewrite <- !app_assoc. }
  assert (Hd : at_off p (off + 24) (dst ++ ext_bytes exts (transport_proto x) ++
                                    transport_bytes x ++ pad))
    by (eapply at_off_skip; [exact Hs|done|lia]).
  assert (He' : at_off p (off + 40) (ext_bytes exts (transport_proto x) ++ transport_bytes x ++ pad))
    by (eapply at_off_skip; [exact Hd|done|lia]).
  run_bytes Hs 0%nat src. run_set. run_bytes Hd 0%nat dst. run_set. run_set.
  rewrite !(wrap_small 32 (off + 40)) by lia. rewrite wrap_small by (subst el xl; lia).
  erewrite bind_next; [|eapply parse_exts_run; try exact He'; try done; subst el xl; lia].
  cbv iota beta. run_set. run_check; [by rewrite Hpx; apply Z.eqb_neq|].
  unfold mret, parser_ret. subst el xl. f_equal. f_equal; lia.
Qed.

Lemma parse_ipv4_run p cap endp off tos id frag ttl csum src dst options x pad t :
  let n := Ipv4 tos id frag ttl csum src dst options in
  at_off p off (network_bytes n x ++ pad) -> network_ok n x -> is_byte (transport_proto x) ->
  0 <= off -> 0 <= cap < 2 ^ 32 -> 0 <= endp < 2 ^ 32 ->
  off + network_need n x <= cap ->
  off + network_need n x + Z.of_nat (length (transport_bytes x)) <= endp ->
  es_parse_ipv4 p cap endp off t =
    Next (off + network_need n x,
          off + network_need n x + Z.of_nat (length (transport_bytes x))) (set_network n x t).
Proof.
  cbn zeta. intros Ha (Hfr & Hfr0 & Hsl & Hdl & (k & Hk & Hol) & Hto) Hp Ho Hc He Hnc Hne.
  cbn [network_need] in *. unfold es_parse_ipv4.
  set (xl := Z.of_nat (length (transport_bytes x))) in *.
  assert (Hdiv : Z.of_nat (length options) / 4 = Z.of_nat k)
    by (rewrite Hol; symmetry; apply (Z.div_unique _ _ _ 0); lia).
  cbn [network_bytes] in Ha. rewrite Hdiv in Ha. unfold in_width in Hto.
  run_need. run_rd Ha 0%nat. run_check.
  { assert (Z.shiftr (69 + Z.of_nat k) 4 = 4) as ->; [|done].
    rewrite Z.shiftr_div_pow2 by lia. symmetry. apply (Z.div_unique _ _ _ (5 + Z.of_nat k)); lia. }
  run_rd Ha 0%nat.
  assert (Z.land (69 + Z.of_nat k) 15 = 5 + Z.of_nat k) as ->.
  { rewrite (Z.land_ones _ 4) by lia. symmetry. apply (Z.mod_unique _ _ 4); lia. }
  run_be16 Ha 2%nat. cbv zeta. rewrite !(wrap_small 32 ((5 + Z.of_nat k) * 4)) by lia.
  run_check; [rewrite wrap_small by lia; lia|].
  fold xl. rewrite !(wrap_small 32 (off + (20 + _ + _))) by lia.
  run_need. run_set. run_rd Ha 9%nat. run_set.
  assert (Hs : at_off p (off + 12) (src ++ dst ++ options ++ transport_bytes x ++ pad)).
  { eapply (at_off_skip _ _ _ [_; _; _; _; _; _; _; _; _; _; _; _]); [exact Ha| |done].
    cbn. by rewrite <- !app_assoc. }
  assert (Hd : at_off p (off + 16) (dst ++ options ++ transport_bytes x ++ pad))
    by (eapply at_off_skip; [exact Hs|done|lia]).
  run_bytes Hs 0%nat src. run_set. run_bytes Hd 0%nat dst. run_set. run_set.
  run_be16 Ha 6%nat. rewrite Hfr0. cbn [Z.eqb negb].
  unfold mret, parser_ret. rewrite wrap_small by lia. f_equal. f_equal; lia.
Qed.

(** The transport starts where the network headers end. *)
Lemma network_bytes_split n x : network_ok n x ->
  exists a, network_bytes n x = a ++ transport_bytes x /\
            Z.of_nat (length a) = network_need n x.
Proof.
  destruct n as [tos id frag ttl csum src dst options|tc flow hop src dst exts]; intros Hn.
  - destruct Hn as (_ & _ & Hs & Hd & _ & _).
    eexists ((_ :: _ :: be16 _ ++ be16 _ ++ be16 _ ++ _ :: _ :: be16 _ ++ src ++ dst ++ options)).
    split; [cbn; by rewrite <- !app_assoc|]. cbn. rewrite !length_app. lia.
  - destruct Hn as (_ & Hf & Hs & Hd & _).
    eexists ((_ :: flow ++ be16 _ ++ _ :: _ :: src ++ dst ++ ext_bytes exts _)).
    split; [cbn; rewrite <- !app_assoc; cbn; by rewrite <- !app_assoc|].
    cbn. rewrite !length_app. cbn. rewrite !length_app. lia.
Qed.

(** Both network layers at once. *)
Lemma parse_network_run p cap endp off n x pad t :
  at_off p off (network_bytes n x ++ pad) -> network_ok n x -> transport_ok x ->
  is_byte (transport_proto x) -> 0 <= off -> 0 <= cap < 2 ^ 32 -> 0 <= endp < 2 ^ 32 ->
  off + network_need n x + transport_need x <= cap ->
  off + network_need n x + Z.of_nat (length (transport_bytes x)) <= endp ->
  es_parse_network p cap endp off (network_type n) t =
    Return ES_PARSE_OK (set_ports x (set_network n x (set_ethertype (network_type n) t))).
Proof.
  intros Ha Hn Hx Hp Ho Hc He Hnc Hne. unfold es_parse_network. run_set.
  assert (Hneed : 0 <= transport_need x) by (destruct x; simpl; lia).
  destruct (network_bytes_split n x Hn) as (a & Hpre & Hla).
  assert (Hat : at_off p (off + network_need n x) (transport_bytes x ++ pad)).
  { eapply (at_off_skip _ _ _ a); [exact Ha| |lia]. by rewrite Hpre, <- app_assoc. }
  assert (Hlast : forall t', t_l4_proto t' = transport_proto x ->
    es_parse_l4 (A := False) p cap (off + network_need n x + Z.of_nat (length (transport_bytes x)))
      (off + network_need n x) t' = Return ES_PARSE_OK (set_ports x t')).
  { intros. eapply parse_l4_run; eauto; lia. }
  destruct n as [tos id frag ttl csum src dst options|tc flow hop src dst exts];
    cbn [network_type] in *; (run_check; [done|]); cbn [Z.eqb Pos.eqb].
  - erewrite bind_next; [|eapply parse_ipv4_run; eauto; lia]. by apply Hlast.
  - erewrite bind_next; [|eapply parse_ipv6_run; eauto; lia]. by apply Hlast.
Qed.

(** *** VLAN tags *)
Definition add_vlan (v : Z) (t : es_tuple) : es_tuple := default t (push_vlan v t).

Lemma store_vlan_next v t : 0 <= t_vlan_count t < 2 ->
  store_vlan v t = Next tt (add_vlan v t) /\ t_vlan_count (add_vlan v t) = t_vlan_count t + 1.
Proof.
  intros H. unfold store_vlan, add_vlan, push_vlan. rewrite decide_True by done. simpl.
  split; [done|]. apply wrap_small. lia.
Qed.

Lemma parse_vlans_run p cap endp type payload tags : forall n off t,
  at_off p off (tag_bytes tags type payload) -> Forall tag_ok tags -> (length tags <= n)%nat ->
  es_vlan type = false -> in_width 16 type -> 0 <= t_vlan_count t ->
  t_vlan_count t + Z.of_nat (length tags) <= 2 ->
  0 <= off -> 0 <= cap < 2 ^ 32 -> 0 <= endp < 2 ^ 32 ->
  off + 4 * Z.of_nat (length tags) <= cap -> off + 4 * Z.of_nat (length tags) <= endp ->
  es_parse_vlans p n cap endp off (tag_first tags type) t =
    Next (off + 4 * Z.of_nat (length tags), type)
      (foldl (fun t tag => add_vlan (Z.land tag.2 0xfff) t) t tags).
Proof.
  induction tags as [|[tpid tci] tags IH];
    intros n off t Ha Hok Hn Hty Htw Hc0 Hc2 Ho Hc He Hlc Hle.
  { cbn [length]. rewrite Z.add_0_r. destruct n; cbn; [done|]. by rewrite Hty. }
  destruct n as [|n]; [simpl in Hn; lia|]. apply Forall_cons_1 in Hok as [[Htp Hti] Hok].
  cbn [length] in *. simpl in Htp, Hti. cbn [es_parse_vlans tag_first].
  assert (Htv : es_vlan tpid = true) by (destruct Htp as [->| ->]; done).
  assert (Hnext : in_width 16 (tag_first tags type)).
  { destruct tags as [|[tpid' ?] ?]; [done|]. apply Forall_cons_1 in Hok as [[[E|E] _] _];
      simpl in *; subst; done. }
  rewrite Htv. cbn [negb]. run_set. run_check; [lia|]. run_need. run_be16 Ha 0%nat.
  destruct (store_vlan_next (Z.land tci 0xfff) t) as [Es Ec]; [lia|].
  erewrite bind_next by exact Es. run_be16 Ha 2%nat. rewrite wrap_small by lia.
  erewrite (IH n (off + 4)); try done; try lia.
  - cbn [foldl]. f_equal. f_equal. lia.
  - eapply (at_off_skip _ _ _ (be16 tci ++ be16 (tag_first tags type))); [exact Ha| |done]. done.
Qed.

Lemma land_4095 v : u16 (Z.land v 0xfff) = Z.land v 0xfff.
Proof. apply wrap_small. pose proof (land_ones_range 12 v) as H. change (Z.ones 12) with 0xfff in H. lia. Qed.

(** The tuple after the tags. *)
Definition tagged_tuple (ids : list Z) : es_tuple :=
  mk_tuple (replicate 16 0) (replicate 16 0) [0; 0] [0; 0] 0 (take 2 (ids ++ [0; 0]))
    0 0 1 (Z.of_nat (length ids)) 0.

Lemma vlans_build tags (sv : bool) vid : (length (tag_ids tags sv vid) <= 2)%nat ->
  foldl (fun t tag => add_vlan (Z.land tag.2 0xfff) t)
    (if sv then add_vlan (Z.land vid 0xfff) (set_flags ES_T_L2_VALID zero_tuple)
     else set_flags ES_T_L2_VALID zero_tuple) tags = tagged_tuple (tag_ids tags sv vid).
Proof.
  unfold tag_ids. intros Hl.
  destruct sv, tags as [|[? ?] [|[? ?] [|]]]; simpl in Hl; try lia;
    cbn -[Z.land]; unfold add_vlan, push_vlan; cbn -[Z.land wrap]; rewrite ?land_4095; done.
Qed.

(** The tuple the parser builds is the one the frame describes. *)
Lemma tuple_of_build f (sv : bool) vid n x :
  fr_network f = n -> fr_transport f = x -> network_ok n x ->
  set_ports x (set_network n x (set_ethertype (network_type n) (tagged_tuple (vlan_ids f sv vid)))) =
    tuple_of f sv vid.
Proof.
  intros Hn Hx Hok. unfold tuple_of. rewrite Hn, Hx.
  by destruct n, x.
Qed.

Lemma transport_need_length x : transport_ok x ->
  0 <= transport_need x <= Z.of_nat (length (transport_bytes x)).
Proof.
  destruct x as [? ? ? ? data|? ? sa ? rest|? data]; simpl; intros H; split_hyps;
    rewrite ?length_app; simpl; lia.
Qed.

(** The payload starts after the tags. *)
Lemma tag_bytes_split tags type payload :
  exists a, tag_bytes tags type payload = a ++ payload /\
            Z.of_nat (length a) = 4 * Z.of_nat (length tags).
Proof.
  induction tags as [|[? tci] tags (a & E & Hl)]; [by exists []|].
  exists (be16 tci ++ be16 (tag_first tags type) ++ a). cbn [tag_bytes]. rewrite E.
  split; [by rewrite <- !app_assoc|]. cbn. lia.
Qed.

(** A frame with these tags and what follows them. *)
Definition tagged_bytes (macs : bytes) (tags : list vlan_tag) (type : Z) (payload : bytes) : bytes :=
  macs ++ be16 (tag_first tags type) ++ tag_bytes tags type payload.

(** Where the parts of it lie. *)
Lemma tagged_layout macs tags type payload : length macs = 12%nat ->
  let p := tagged_bytes macs tags type payload in
  at_off p 12 (be16 (tag_first tags type) ++ tag_bytes tags type payload) /\
  at_off p 14 (tag_bytes tags type payload) /\
  at_off p (14 + 4 * Z.of_nat (length tags)) payload /\
  Z.of_nat (length p) = 14 + 4 * Z.of_nat (length tags) + Z.of_nat (length payload).
Proof.
  intros Hm p. destruct (tag_bytes_split tags type payload) as (b & Hb & Hlb).
  assert (H12 : at_off p 12 (be16 (tag_first tags type) ++ tag_bytes tags type payload))
    by (exists macs; split; [done|lia]).
  assert (H14 : at_off p 14 (tag_bytes tags type payload)) by (eapply at_off_skip; [exact H12|done|done]).
  split_and!; [done|done|eapply at_off_skip; [exact H14|exact Hb|lia]|].
  subst p. unfold tagged_bytes. rewrite Hb, !length_app, Hm. cbn. lia.
Qed.

Lemma tag_first_width tags type : in_width 16 type -> Forall tag_ok tags -> in_width 16 (tag_first tags type).
Proof.
  intros Hty H. destruct tags as [|[tpid tci] tags]; [done|].
  apply Forall_cons_1 in H as [[[E|E] _] _]; simpl in *; by subst.
Qed.

(** The parser reaches the network layer of it. *)
Lemma parse_tagged_run macs tags type payload cap endp (sv : bool) vid :
  length macs = 12%nat -> Forall tag_ok tags -> es_vlan type = false -> in_width 16 type ->
  (length (tag_ids tags sv vid) <= 2)%nat ->
  14 + 4 * Z.of_nat (length tags) <= cap < 2 ^ 32 -> 14 + 4 * Z.of_nat (length tags) <= endp < 2 ^ 32 ->
  let p := tagged_bytes macs tags type payload in
  es_parse_frame p cap endp sv vid zero_tuple =
    es_parse_network p cap endp (14 + 4 * Z.of_nat (length tags)) type (tagged_tuple (tag_ids tags sv vid)).
Proof.
  intros Hm Ht Hty Htw Hids Hc He p.
  destruct (tagged_layout macs tags type payload Hm) as (H12 & H14 & _ & _). fold p in H12, H14.
  unfold es_parse_frame. run_need. run_be16 H12 0%nat; [|by apply tag_first_width]. run_set.
  set (t0 := if sv then add_vlan (Z.land vid 0xfff) (set_flags ES_T_L2_VALID zero_tuple)
             else set_flags ES_T_L2_VALID zero_tuple).
  assert (Hcount : 0 <= t_vlan_count t0 /\ t_vlan_count t0 + Z.of_nat (length tags) <= 2).
  { unfold tag_ids in Hids. rewrite length_app, length_map in Hids.
    subst t0; destruct sv; [|simpl in Hids |- *; lia].
    destruct (store_vlan_next (Z.land vid 0xfff) (set_flags ES_T_L2_VALID zero_tuple)) as [_ ->];
      simpl in Hids |- *; lia. }
  erewrite (bind_next _ _ _ tt t0) by (subst t0; destruct sv; done).
  erewrite bind_next by (eapply parse_vlans_run; try exact H14; try done; lia).
  cbv beta iota. subst t0. by rewrite vlans_build.
Qed.

Lemma network_type_facts n : es_vlan (network_type n) = false /\ in_width 16 (network_type n).
Proof. by destruct n. Qed.

(** Where the network layer lies in an emitted frame, and its length. *)
Lemma emit_layout f : frame_ok f ->
  let rest := network_bytes (fr_network f) (fr_transport f) ++ fr_padding f in
  emit f = tagged_bytes (fr_macs f) (fr_tags f) (network_type (fr_network f)) rest /\
  at_off (emit f) (14 + 4 * Z.of_nat (length (fr_tags f))) rest /\
  Z.of_nat (length (emit f)) = 14 + 4 * Z.of_nat (length (fr_tags f)) +
    network_need (fr_network f) (fr_transport f) +
    Z.of_nat (length (transport_bytes (fr_transport f))) + Z.of_nat (length (fr_padding f)).
Proof.
  intros (Hm & _ & Hn & _) rest.
  destruct (network_bytes_split _ _ Hn) as (a & Ha & Hla).
  destruct (tagged_layout (fr_macs f) (fr_tags f) (network_type (fr_network f)) rest Hm)
    as (_ & _ & Hnet & Hlen).
  split_and!; [done|exact Hnet|]. unfold emit. fold rest. unfold tagged_bytes in Hlen. rewrite Hlen.
  subst rest. rewrite Ha, !length_app. lia.
Qed.

Lemma header_need_length f : frame_ok f -> 14 <= header_need f <= Z.of_nat (length (emit f)).
Proof.
  intros Hf. destruct (emit_layout f Hf) as (_ & _ & ->).
  destruct Hf as (_ & _ & Hn & Hx & _). pose proof (transport_need_length _ Hx).
  assert (0 <= network_need (fr_network f) (fr_transport f)) by (destruct (fr_network f); simpl; lia).
  assert (0 <= transport_need (fr_transport f)) by (destruct (fr_transport f); simpl; lia).
  unfold header_need. lia.
Qed.

Lemma es_parse_emitted f cap (sv : bool) vid :
  frame_ok f -> is_byte (transport_proto (fr_transport f)) ->
  (length (vlan_ids f sv vid) <= 2)%nat ->
  header_need f <= ES_PARSE_BYTES -> header_need f <= cap ->
  es_parse (emit f) cap (Z.of_nat (length (emit f))) sv vid = Some (ES_PARSE_OK, tuple_of f sv vid).
Proof.
  intros Hf Hp Hids Hh Hcap. destruct (emit_layout f Hf) as (Hemit & Hnet & Hlen).
  destruct Hf as (Hm & Ht & Hn & Hx & Hb & Hmax).
  pose proof (transport_need_length _ Hx) as Htn.
  destruct (network_type_facts (fr_network f)) as [Hty Htw].
  assert (Hnn : 0 <= network_need (fr_network f) (fr_transport f))
    by (destruct (fr_network f); simpl; lia).
  unfold header_need in *. unfold es_parse.
  assert (Hc : 14 + 4 * Z.of_nat (length (fr_tags f)) +
    network_need (fr_network f) (fr_transport f) + transport_need (fr_transport f)
    <= clamp_cap cap (Z.of_nat (length (emit f))) <= 128)
    by (unfold clamp_cap, ES_PARSE_BYTES in *; repeat case_match; lia).
  revert Hc. generalize (clamp_cap cap (Z.of_nat (length (emit f)))). intros c Hc.
  rewrite Hemit at 1. rewrite parse_tagged_run by (done || lia). rewrite <- Hemit.
  erewrite parse_network_run; try exact Hnet; try done; try lia.
  f_equal. f_equal. by apply tuple_of_build.
Qed.

(** Round trip.  Every well-formed frame of the grammar whose headers fit in the observed
    prefix, with at most two VLAN tags counting a stripped one, is parsed to status OK and
    exactly the tuple it describes, whatever its options, extension headers, payload and padding. *)
Theorem es_parse_emit f cap (sv : bool) vid :
  frame_ok f -> is_byte (transport_proto (fr_transport f)) ->
  (length (vlan_ids f sv vid) <= 2)%nat ->
  header_need f <= ES_PARSE_BYTES -> header_need f <= cap ->
  es_parse (emit f) cap (Z.of_nat (length (emit f))) sv vid = Some (ES_PARSE_OK, tuple_of f sv vid).
Proof. apply es_parse_emitted. Qed.
