(* ===== verification/Dissector.v ===== *)
(** * A reference parser

    What [es_parse] computes, said without offsets, ends and wrap-around: a
    dissector consumes the captured bytes from the front, layer by layer, keeps
    count of the bytes that the current layer still has on the wire, and logs
    the fields it finds.  The theorem is that [es_parse] is this dissector, on
    every input and in every outcome. *)
From S2P Require Import Prelude Abi PacketParser ParserFacts Frames.

(** ** Dissectors *)

(** What has been found, in the order of the packet. *)
Inductive field :=
  | L2
  | Vlan (id : Z)
  | Type_ (ethertype : Z)
  | Addr (version : Z) (src dst : bytes)
  | Proto (p : Z)
  | Fragment
  | Ports (sport dport : bytes).

Definition pad16 (a : bytes) : bytes := a ++ replicate (16 - length a) 0.

Definition set_field (t : es_tuple) (f : field) : es_tuple :=
  match f with
  | L2 => set_flags ES_T_L2_VALID t
  | Vlan id => add_vlan id t
  | Type_ ty => set_ethertype ty t
  | Addr v src dst => or_flags ES_T_ADDR_VALID (set_dst (pad16 dst) (set_src (pad16 src) (set_ip_version v t)))
  | Proto p => set_l4_proto p t
  | Fragment => or_flags ES_T_FRAGMENT t
  | Ports s d => or_flags ES_T_PORTS_VALID (set_dport d (set_sport s t))
  end.

(** The bytes left: on the wire in the current layer, and those captured. *)
Record cursor := mk_cursor {
  left_ : Z;
  rest_ : bytes;
}.

(** A dissector ends with a status or goes on with a value. *)
Definition dissector (A : Type) : Type := cursor -> list field * (Z + A * cursor).

#[export] Instance dissector_ret : MRet dissector := fun A a c => ([], inr (a, c)).
#[export] Instance dissector_bind : MBind dissector := fun A B k d c =>
  match d c with
  | (l, inl rc) => (l, inl rc)
  | (l, inr (a, c)) => let '(l', r) := k a c in (l ++ l', r)
  end.

Definition found (f : field) : dissector unit := fun c => ([f], inr (tt, c)).
Definition verdict {A} (rc : Z) : dissector A := fun c => ([], inl rc).
Definition verdict_if (b : bool) (rc : Z) : dissector unit := if b then verdict rc else mret tt.
Definition room : dissector Z := fun c => ([], inr (left_ c, c)).
(** The layer ends after [n] more bytes; what follows is padding. *)
Definition limit (n : Z) : dissector unit := fun c => ([], inr (tt, mk_cursor n (rest_ c))).

(** The next [n] bytes. *)
Definition chunk (n : Z) : dissector bytes := fun c =>
  if left_ c <? n then ([], inl ES_PARSE_MALFORMED)
  else if Z.of_nat (length (rest_ c)) <? n then ([], inl ES_PARSE_TRUNCATED)
  else ([], inr (take (Z.to_nat n) (rest_ c), mk_cursor (left_ c - n) (drop (Z.to_nat n) (rest_ c)))).

(** Fields of a chunk. *)
Definition byte (i : nat) (b : bytes) : Z := nth i b 0.
Definition word (i : nat) (b : bytes) : Z := byte i b * 256 + byte (S i) b.
Definition slice (i n : nat) (b : bytes) : bytes := take n (drop i b).

(** ** The layers *)
Fixpoint dissect_tags (n : nat) (have type : Z) : dissector Z :=
  match n with
  | O => mret type
  | S n =>
    if negb (es_vlan type) then mret type
    else
      verdict_if (2 <=? have) ES_PARSE_UNSUPPORTED;;
      tag ← chunk 4;
      found (Vlan (word 0 tag mod 4096));;
      dissect_tags n (have + 1) (word 2 tag)
  end.

(** Ethernet/IPv4 only: hardware type 1, protocol 0x0800, sizes 6 and 4. *)
Definition dissect_arp {A} : dissector A :=
  b ← chunk 28;
  verdict_if (negb (bool_decide (slice 0 6 b = [0; 1; 8; 0; 6; 4]))) ES_PARSE_UNSUPPORTED;;
  found (Addr 4 (slice 14 4 b) (slice 24 4 b));;
  verdict ES_PARSE_OK.

Definition dissect_ipv4 : dissector Z :=
  b ← chunk 20;
  verdict_if (negb (byte 0 b / 16 =? 4)) ES_PARSE_MALFORMED;;
  let header := byte 0 b mod 16 * 4 in
  let total := word 2 b in
  left ← room;
  verdict_if ((header <? 20) || (total <? header) || (left <? total - 20)) ES_PARSE_MALFORMED;;
  limit (total - 20);;
  chunk (header - 20);;
  found (Addr 4 (slice 12 4 b) (slice 16 4 b));;
  found (Proto (byte 9 b));;
  (if word 6 b mod 16384 =? 0 then mret (byte 9 b)
   else found Fragment;; verdict ES_PARSE_FRAGMENT).

Fixpoint dissect_exts (n : nat) (next : Z) : dissector Z :=
  match n with
  | O => mret next
  | S n =>
    if negb (es_ext next) then mret next
    else
      b ← chunk 2;
      if next =? 44 then
        chunk 6;;
        found (Proto (byte 0 b));;
        found Fragment;;
        verdict ES_PARSE_FRAGMENT
      else
        chunk (ext_size next (byte 1 b) - 2);;
        dissect_exts n (byte 0 b)
  end.

Definition dissect_ipv6 : dissector Z :=
  b ← chunk 40;
  verdict_if (negb (byte 0 b / 16 =? 6)) ES_PARSE_MALFORMED;;
  let payload := word 4 b in
  verdict_if (payload =? 0) ES_PARSE_UNSUPPORTED;;
  left ← room;
  verdict_if (left <? payload) ES_PARSE_MALFORMED;;
  limit payload;;
  found (Addr 6 (slice 8 16 b) (slice 24 16 b));;
  next ← dissect_exts 4 (byte 6 b);
  found (Proto next);;
  verdict_if (es_ext next || (next =? 50)) ES_PARSE_UNSUPPORTED;;
  mret next.

(** The transport header: the declared length must fit in the layer. *)
Definition dissect_l4 {A} (proto : Z) : dissector A :=
  if proto =? 6 then
    b ← chunk 20;
    left ← room;
    let header := byte 12 b / 16 * 4 in
    verdict_if ((header <? 20) || (left + 20 <? header)) ES_PARSE_MALFORMED;;
    found (Ports (slice 0 2 b) (slice 2 2 b));;
    verdict ES_PARSE_OK
  else if proto =? 17 then
    b ← chunk 8;
    left ← room;
    let size := word 4 b in
    verdict_if ((size <? 8) || (left + 8 <? size)) ES_PARSE_MALFORMED;;
    found (Ports (slice 0 2 b) (slice 2 2 b));;
    verdict ES_PARSE_OK
  else verdict ES_PARSE_OK.

Definition dissect_network (type : Z) : dissector False :=
  found (Type_ type);;
  verdict_if (es_vlan type) ES_PARSE_UNSUPPORTED;;
  if type =? 0x0806 then dissect_arp
  else
    proto ← (if type =? 0x0800 then dissect_ipv4
             else if type =? 0x86dd then dissect_ipv6
             else verdict ES_PARSE_UNSUPPORTED);
    dissect_l4 proto.

Definition dissect_frame (stripped_vlan : bool) (stripped_vid : Z) : dissector False :=
  header ← chunk 14;
  found L2;;
  (if stripped_vlan then found (Vlan (stripped_vid mod 4096)) else mret tt);;
  type ← dissect_tags 2 (if stripped_vlan then 1 else 0) (word 12 header);
  dissect_network type.

(** Status and tuple of a packet of [original_len] bytes of which [captured]
    has been captured. *)
Definition dissect (captured : bytes) (original_len : Z) (stripped_vlan : bool) (stripped_vid : Z)
    : Z * es_tuple :=
  match dissect_frame stripped_vlan stripped_vid (mk_cursor original_len captured) with
  | (l, inl rc) => (rc, foldl set_field zero_tuple l)
  | (_, inr (f, _)) => match f with end
  end.

(** ** Fields of a chunk *)
Lemma byte_lookup i (b : bytes) : (i < length b)%nat -> b !! i = Some (byte i b).
Proof. intros Hi. unfold byte. rewrite nth_lookup. by destruct (lookup_lt_is_Some_2 _ _ Hi) as [x ->]. Qed.

Lemma byte_ok i (b : bytes) : bytes_ok b -> is_byte (byte i b).
Proof.
  intros Hb. destruct (decide (i < length b)%nat) as [Hi|Hi].
  - by eapply bytes_ok_lookup; [|apply byte_lookup].
  - unfold byte. rewrite nth_overflow by lia. unfold is_byte. lia.
Qed.

Lemma word_width i (b : bytes) : bytes_ok b -> in_width 16 (word i b).
Proof.
  intros Hb. pose proof (byte_ok i b Hb). pose proof (byte_ok (S i) b Hb). unfold word, is_byte, in_width in *. lia.
Qed.

Lemma shiftr_4 b : Z.shiftr b 4 = b / 16.
Proof. by rewrite Z.shiftr_div_pow2. Qed.

Lemma land_15 b : Z.land b 15 = b mod 16.
Proof. by apply (Z.land_ones b 4). Qed.

Lemma land_4095_mod v : Z.land v 0xfff = v mod 4096.
Proof. by apply (Z.land_ones v 12). Qed.

Lemma land_16383 v : Z.land v 0x3fff = v mod 16384.
Proof. by apply (Z.land_ones v 14). Qed.

Lemma nibbles b : is_byte b -> 0 <= b / 16 < 16 /\ 0 <= b mod 16 < 16.
Proof.
  unfold is_byte. intros. split; [split; [apply Z.div_pos|apply Z.div_lt_upper_bound]|apply Z.mod_pos_bound]; lia.
Qed.

Lemma arp_checks b : (6 <= length b)%nat -> bytes_ok b ->
  negb (bool_decide (slice 0 6 b = [0; 1; 8; 0; 6; 4])) =
  negb (word 0 b =? 1) || (negb (word 2 b =? 0x0800) || (negb (byte 4 b =? 6) || negb (byte 5 b =? 4))).
Proof.
  intros Hl Hb. do 6 (destruct b as [|? b]; [simpl in Hl; lia|]).
  do 6 (let H := fresh in apply Forall_cons_1 in Hb as [H Hb]). unfold slice, word, byte, is_byte in *. cbn [nth drop].
  case_bool_decide as E; [by injection E as -> -> -> -> -> ->|]. cbn [take negb] in *. symmetry.
  rewrite <- !negb_andb. apply negb_true_iff, not_true_iff_false. intros Hall. apply E.
  rewrite !andb_true_iff in Hall. repeat f_equal; lia.
Qed.

Lemma addr4 (a : bytes) : length a = 4%nat -> pad16 a = a ++ drop 4 (replicate 16 0).
Proof. intros H. unfold pad16. by rewrite H. Qed.

Lemma length_slice i n b : (i + n <= length b)%nat -> length (slice i n b) = n.
Proof. intros. unfold slice. rewrite length_take, length_drop. lia. Qed.

Lemma pad16_id (a : bytes) : length a = 16%nat -> pad16 a = a.
Proof. intros H. unfold pad16. rewrite H. apply app_nil_r. Qed.

(** ** The parser runs the dissector

    [runs m t d s c R]: from tuple [t], the parser does what the dissector does
    from cursor [c], where [s] is the tuple of the fields found so far; [R]
    relates what they go on with. *)
Section Runs.
Context (p : bytes) (p_ok : bytes_ok p).
Context (cap : Z) (cap_le : cap <= Z.of_nat (length p)) (cap_max : cap <= ES_PARSE_BYTES).

Definition runs {A B} (m : parser A) (t : es_tuple) (d : dissector B) (s : es_tuple) (c : cursor)
    (R : A -> es_tuple -> B -> es_tuple -> cursor -> Prop) : Prop :=
  match d c with
  | (l, inl rc) => m t = Return rc (foldl set_field s l)
  | (l, inr (b, c')) => exists a t', m t = Next a t' /\ R a t' b (foldl set_field s l) c'
  end.

Lemma runs_bind {A B A' B'} (m : parser A) (k : A -> parser A') (d : dissector B) (k' : B -> dissector B') t s c R R' :
  runs m t d s c R ->
  (forall a t' b s' c', R a t' b s' c' -> runs (k a) t' (k' b) s' c' R') ->
  runs (m ≫= k) t (d ≫= k') s c R'.
Proof.
  unfold runs, mbind, parser_bind, dissector_bind. intros Hm Hk.
  destruct (d c) as [l [rc|[b c']]]; [by rewrite Hm|]. destruct Hm as (a & t' & -> & HR).
  specialize (Hk _ _ _ _ _ HR). destruct (k' b c') as [l' [rc|[b' c'']]]; by rewrite foldl_app.
Qed.

(** A command of one side only. *)
Lemma runs_left {A A' B} (m : parser A) (k : A -> parser A') (d : dissector B) t t' a s c R :
  m t = Next a t' -> runs (k a) t' d s c R -> runs (m ≫= k) t d s c R.
Proof. unfold runs, mbind, parser_bind. by intros ->. Qed.

Lemma runs_right {A B B'} (m : parser A) (d : dissector B) (k' : B -> dissector B') t s s' b c c' l R :
  d c = (l, inr (b, c')) -> s' = foldl set_field s l -> runs m t (k' b) s' c' R -> runs m t (d ≫= k') s c R.
Proof.
  unfold runs, mbind, dissector_bind. intros -> ->.
  destruct (k' b c') as [l' [rc|[b' c'']]]; by rewrite foldl_app.
Qed.

Lemma runs_found {A B} (m : parser A) (k' : unit -> dissector B) f t s c R :
  runs m t (k' tt) (set_field s f) c R -> runs m t (found f ≫= k') s c R.
Proof. intros H. by eapply runs_right. Qed.

Lemma runs_room {A B} (m : parser A) (k' : Z -> dissector B) t s c R :
  runs m t (k' (left_ c)) s c R -> runs m t (room ≫= k') s c R.
Proof. intros H. by eapply runs_right. Qed.

Lemma runs_limit {A B} (m : parser A) (k' : unit -> dissector B) n t s c R :
  runs m t (k' tt) s (mk_cursor n (rest_ c)) R -> runs m t (limit n ≫= k') s c R.
Proof. intros H. by eapply runs_right. Qed.

Lemma runs_ret {A B} (a : A) (b : B) t s c (R : A -> es_tuple -> B -> es_tuple -> cursor -> Prop) :
  R a t b s c -> runs (mret a) t (mret b) s c R.
Proof. intros H. by exists a, t. Qed.

Lemma runs_stop {A B} rc t c R : runs (stop (A := A) rc) t (verdict (A := B) rc) t c R.
Proof. done. Qed.

Lemma runs_stop_if {A B} b b' rc (k : unit -> parser A) (k' : unit -> dissector B) t c R :
  b = b' -> (b' = false -> runs (k tt) t (k' tt) t c R) ->
  runs (stop_if b rc ≫= k) t (verdict_if b' rc ≫= k') t c R.
Proof.
  intros -> Hk. destruct b'; [done|]. eapply runs_left; [done|]. eapply runs_right; [done|done|]. by apply Hk.
Qed.

(** *** Cursors and offsets *)
Record at_cursor (endp off : Z) (c : cursor) : Prop := {
  ac_off : 0 <= off <= endp;
  ac_end : endp < 2 ^ 32;
  ac_cap : off <= cap;
  ac_left : left_ c = endp - off;
  ac_rest : rest_ c = drop (Z.to_nat off) (take (Z.to_nat cap) p);
}.

(** A chunk of [p]: what the parser reads there. *)
Record chunk_at (off : Z) (b : bytes) : Prop := {
  ch_at : exists q, at_off p off (b ++ q);
  ch_ok : bytes_ok b;
}.

Lemma chunk_rd off b i k t : chunk_at off b -> (k < length b)%nat -> i = off + Z.of_nat k ->
  rd p i t = Next (byte k b) t.
Proof.
  intros [[q Ha] _] Hk ->. eapply rd_next; [exact Ha|]. rewrite lookup_app_l by done. by apply byte_lookup.
Qed.

Lemma chunk_be16 off b i k t : chunk_at off b -> (S k < length b)%nat -> i = off + Z.of_nat k ->
  es_be16 p i t = Next (word k b) t.
Proof.
  intros Hc Hk ->. unfold es_be16. erewrite bind_next by (eapply (chunk_rd _ _ _ k); [exact Hc|lia|done]).
  erewrite bind_next by (eapply (chunk_rd _ _ _ (S k)); [exact Hc|lia|lia]).
  by rewrite be16_value by (apply byte_ok, Hc).
Qed.

Lemma chunk_bytes off b i k n t : chunk_at off b -> (k + n <= length b)%nat -> i = off + Z.of_nat k ->
  rd_bytes p i n t = Next (slice k n b) t.
Proof.
  intros [[q Ha] _] Hk ->. eapply (rd_bytes_next _ _ _ _ _ _ (drop n (drop k b) ++ q)); [exact Ha| |].
  - unfold slice. by rewrite app_assoc, take_drop, drop_app_le by lia.
  - unfold slice. rewrite length_take, length_drop. lia.
Qed.

(** A passed [es_need] is a chunk; a failed one ends both sides alike. *)
Lemma runs_need {A B} endp off off0 n0 n (k : unit -> parser A) (k' : bytes -> dissector B) t c R :
  at_cursor endp off c -> 0 <= off0 -> 0 <= n0 -> 0 <= n -> off0 + n0 = off + n ->
  (forall b, Z.of_nat (length b) = n -> chunk_at off b -> off + n <= endp -> off + n <= cap ->
     at_cursor endp (off + n) (mk_cursor (left_ c - n) (drop (Z.to_nat n) (rest_ c))) ->
     runs (k tt) t (k' b) t (mk_cursor (left_ c - n) (drop (Z.to_nat n) (rest_ c))) R) ->
  runs (need off0 n0 cap endp ≫= k) t (chunk n ≫= k') t c R.
Proof.
  intros [Ho He Hc Hl Hr] Ho0 Hn0 Hn E Hk. unfold ES_PARSE_BYTES in cap_max.
  assert (Hlen : Z.of_nat (length (rest_ c)) = cap - off).
  { rewrite Hr, length_drop, length_take. lia. }
  unfold runs in *. unfold mbind at 2, dissector_bind at 1. unfold chunk.
  unfold mbind, parser_bind, need, stop_if.
  destruct (es_need_cases off0 n0 cap endp) as [[Hlt ->]|[(Hle & Hlt & ->)|(Hle & Hle' & ->)]]; unfold in_width; try lia.
  - by rewrite (proj2 (Z.ltb_lt _ _)) by lia.
  - rewrite (proj2 (Z.ltb_ge _ _)) by lia. by rewrite (proj2 (Z.ltb_lt _ _)) by lia.
  - rewrite (proj2 (Z.ltb_ge (left_ c) _)) by lia. rewrite (proj2 (Z.ltb_ge (Z.of_nat _) _)) by lia.
    assert (Hrest : rest_ c ++ drop (Z.to_nat cap) p = drop (Z.to_nat off) p).
    { rewrite Hr, <- drop_app_le, take_drop; [done|]. rewrite length_take. lia. }
    assert (Hch : chunk_at off (take (Z.to_nat n) (rest_ c))).
    { split; [|apply bytes_ok_take; rewrite Hr; by apply bytes_ok_drop, bytes_ok_take].
      exists (drop (Z.to_nat n) (rest_ c) ++ drop (Z.to_nat cap) p), (take (Z.to_nat off) p).
      rewrite (app_assoc (take (Z.to_nat n) _)), take_drop, Hrest, take_drop, length_take. split; [done|lia]. }
    assert (Hnext : at_cursor endp (off + n) (mk_cursor (left_ c - n) (drop (Z.to_nat n) (rest_ c)))).
    { constructor; cbn [left_ rest_]; try lia. rewrite Hr, drop_drop. f_equal. lia. }
    assert (Htake : Z.of_nat (length (take (Z.to_nat n) (rest_ c))) = n) by (rewrite length_take; lia).
    rewrite E in Hle, Hle'. specialize (Hk _ Htake Hch Hle Hle' Hnext). by destruct (k' _ _).
Qed.

(** One byte or 16-bit field of a chunk, an assignment. *)
Ltac here k Hch := eapply runs_left; [first [eapply (chunk_rd _ _ _ k); [exact Hch|lia|]
  |eapply (chunk_be16 _ _ _ k); [exact Hch|lia|]|eapply (chunk_bytes _ _ _ k); [exact Hch|lia|]];
  rewrite ?(wrap_small 32) by lia; lia|].
Ltac set_here := eapply runs_left; [reflexivity|].

(** *** The transport layer *)
Lemma runs_assoc {A A' A'' B} (m : parser A) (k : A -> parser A') (k' : A' -> parser A'') t (d : dissector B) s c R :
  runs (m ≫= (fun a => k a ≫= k')) t d s c R -> runs ((m ≫= k) ≫= k') t d s c R.
Proof. unfold runs, mbind, parser_bind. by destruct (m t). Qed.

(** The ports, and the end of the parse. *)
Lemma runs_ports {A B} l4 b t c R :
  chunk_at l4 b -> (4 <= length b)%nat ->
  runs (a ← rd_bytes p l4 2; modify (set_sport a);; a ← rd_bytes p (l4 + 2) 2; modify (set_dport a);;
        modify (or_flags ES_T_PORTS_VALID);; stop (A := A) ES_PARSE_OK) t
    (found (Ports (slice 0 2 b) (slice 2 2 b));; verdict (A := B) ES_PARSE_OK) t c R.
Proof.
  intros Hch Hl. apply runs_found. here 0%nat Hch. set_here. here 2%nat Hch. by do 2 set_here.
Qed.

Lemma runs_l4 {A B} endp l4 proto t c R :
  at_cursor endp l4 c -> t_l4_proto t = proto ->
  runs (es_parse_l4 (A := A) p cap endp l4) t (dissect_l4 (A := B) proto) t c R.
Proof.
  intros Hc <-. unfold es_parse_l4, dissect_l4. set_here. cbv beta.
  pose proof (ac_off _ _ _ Hc) as Ho. pose proof (ac_left _ _ _ Hc) as Hl. pose proof (ac_end _ _ _ Hc) as He.
  destruct (t_l4_proto t =? 6); [|destruct (t_l4_proto t =? 17)]; [| |done]; apply runs_assoc.
  - eapply runs_need; [exact Hc|lia..|]. intros b Hb Hch He' Hcap Hc'. apply runs_assoc. here 12%nat Hch.
    apply runs_room. cbn [left_]. pose proof (nibbles _ (byte_ok 12 b (ch_ok _ _ Hch))).
    rewrite shiftr_4, !(wrap_small 32) by lia.
    apply runs_stop_if; [f_equal; lia|]. intros _. eapply runs_ports; [exact Hch|lia].
  - eapply runs_need; [exact Hc|lia..|]. intros b Hb Hch He' Hcap Hc'. apply runs_assoc. here 4%nat Hch.
    apply runs_room. cbn [left_]. rewrite !(wrap_small 32) by lia.
    apply runs_stop_if; [f_equal; lia|]. intros _. eapply runs_ports; [exact Hch|lia].
Qed.

(** *** ARP *)
Definition fresh (t : es_tuple) : Prop := t_src t = replicate 16 0 /\ t_dst t = replicate 16 0.

Lemma runs_or {A B} (m : parser A) b1 b2 rc (k : unit -> dissector B) t c s R :
  runs m t (verdict_if b1 rc;; verdict_if b2 rc ≫= k) s c R -> runs m t (verdict_if (b1 || b2) rc ≫= k) s c R.
Proof.
  destruct b1; [done|]. unfold runs, verdict_if, mbind, dissector_bind. simpl. intros H.
  destruct b2; simpl in *; [done|]. by destruct (k tt c).
Qed.

Lemma runs_tuple {A B} (m : parser A) (d : dissector B) t s c R :
  t = s -> runs m s d s c R -> runs m t d s c R.
Proof. by intros ->. Qed.

Lemma runs_arp {A B} endp off t c R :
  at_cursor endp off c -> fresh t ->
  runs (es_parse_arp (A := A) p cap endp off) t (dissect_arp (A := B)) t c R.
Proof.
  intros Hc [Hs Hd]. unfold es_parse_arp, dissect_arp.
  pose proof (ac_off _ _ _ Hc) as Ho. pose proof (ac_end _ _ _ Hc) as He.
  eapply runs_need; [exact Hc|lia..|]. intros b Hb Hch He' Hcap Hc'.
  rewrite arp_checks by (first [lia|apply Hch]).
  here 0%nat Hch. apply runs_or, runs_stop_if; [done|intros _].
  here 2%nat Hch. apply runs_or, runs_stop_if; [done|intros _].
  here 4%nat Hch. apply runs_or, runs_stop_if; [done|intros _].
  here 5%nat Hch. apply runs_stop_if; [done|intros _].
  apply runs_found. here 14%nat Hch. set_here. here 24%nat Hch. do 3 set_here.
  apply runs_tuple; [|done]. cbn [set_field]. rewrite !addr4 by (apply length_slice; lia).
  cbn [t_src t_dst set_src]. by rewrite Hs, Hd.
Qed.

(** *** IPv4 *)

(** What the network layer leaves to the transport layer. *)
Definition at_l4 (r : Z * Z) (t : es_tuple) (proto : Z) (s : es_tuple) (c : cursor) : Prop :=
  t = s /\ t_l4_proto t = proto /\ at_cursor r.2 r.1 c.

Lemma runs_ipv4 endp off t c :
  at_cursor endp off c -> fresh t ->
  runs (es_parse_ipv4 p cap endp off) t dissect_ipv4 t c at_l4.
Proof.
  intros Hc [Hs Hd]. unfold es_parse_ipv4, dissect_ipv4.
  pose proof (ac_off _ _ _ Hc) as Ho. pose proof (ac_end _ _ _ Hc) as He. pose proof (ac_left _ _ _ Hc) as Hleft.
  unfold ES_PARSE_BYTES in cap_max.
  eapply runs_need; [exact Hc|lia..|]. intros b Hb Hch He' Hcap Hc'.
  pose proof (nibbles _ (byte_ok 0 b (ch_ok _ _ Hch))) as [_ Hih].
  pose proof (word_width 2 b (ch_ok _ _ Hch)) as Htot.
  here 0%nat Hch. rewrite shiftr_4. apply runs_stop_if; [done|intros _]. here 0%nat Hch. here 2%nat Hch.
  apply runs_room. cbv zeta. rewrite land_15. cbn [left_].
  rewrite !(wrap_small 32 (byte 0 b mod 16 * 4)), (wrap_small 32 (endp - off)) by lia.
  apply runs_stop_if; [f_equal; lia|]. intros Hok. apply runs_limit. cbn [rest_].
  rewrite (wrap_small 32 (off + word 2 b)) by lia.
  assert (Hc2 : at_cursor (off + word 2 b) (off + 20) (mk_cursor (word 2 b - 20) (drop (Z.to_nat 20) (rest_ c)))).
  { destruct Hc'. constructor; cbn [left_ rest_] in *; lia || done. }
  eapply runs_need; [exact Hc2|lia..|]. intros b' _ _ He2 Hcap2 Hc3.
  do 2 apply runs_found. set_here. here 9%nat Hch. set_here. here 12%nat Hch. set_here. here 16%nat Hch. do 2 set_here.
  here 6%nat Hch. rewrite land_16383. apply runs_tuple.
  { cbn [set_field]. rewrite !addr4 by (apply length_slice; lia). cbn [t_src t_dst set_src set_l4_proto set_ip_version].
    by rewrite Hs, Hd. }
  destruct (word 6 b mod 16384 =? 0); [|by apply runs_found; set_here].
  apply runs_ret. split; [done|]. split; [done|]. cbn [fst snd].
  by replace (u32 (off + byte 0 b mod 16 * 4)) with (off + 20 + (byte 0 b mod 16 * 4 - 20)) by (rewrite wrap_small; lia).
Qed.

(** *** IPv6 and its extension headers *)
Lemma runs_exts n : forall endp off next t c,
  at_cursor endp off c ->
  runs (es_parse_exts p n cap endp off next) t (dissect_exts n next) t c
    (fun r t' next' s c' => r.2 = next' /\ t' = t /\ s = t /\ at_cursor endp r.1 c').
Proof.
  induction n as [|n IH]; intros endp off next t c Hc; cbn [es_parse_exts dissect_exts]; [by apply runs_ret|].
  destruct (es_ext next); cbn [negb]; [|by apply runs_ret].
  pose proof (ac_off _ _ _ Hc) as Ho. pose proof (ac_end _ _ _ Hc) as He.
  unfold ES_PARSE_BYTES in cap_max.
  eapply runs_need; [exact Hc|lia..|]. intros b Hb Hch He' Hcap Hc'.
  destruct (next =? 44).
  - apply runs_assoc. eapply runs_need; [exact Hc'|lia..|]. intros b' _ _ He2 Hcap2 Hc2. apply runs_assoc.
    here 0%nat Hch. do 2 apply runs_found. by do 2 (apply runs_assoc; set_here).
  - set_here. here 1%nat Hch. cbv zeta. pose proof (byte_ok 1 b (ch_ok _ _ Hch)) as H1.
    rewrite ext_size_u32 by done. pose proof (ext_size_pos next (byte 1 b) (proj1 H1)) as Hpos.
    eapply runs_left; [apply stop_if_next; lia|].
    eapply runs_need; [exact Hc'|lia..|]. intros b' _ _ He2 Hcap2 Hc2. here 0%nat Hch.
    replace (u32 (off + ext_size next (byte 1 b))) with (off + 2 + (ext_size next (byte 1 b) - 2))
      by (rewrite wrap_small; lia). by apply IH.
Qed.

Lemma runs_ipv6 endp off t c :
  at_cursor endp off c -> runs (es_parse_ipv6 p cap endp off) t dissect_ipv6 t c at_l4.
Proof.
  intros Hc. unfold es_parse_ipv6, dissect_ipv6.
  pose proof (ac_off _ _ _ Hc) as Ho. pose proof (ac_end _ _ _ Hc) as He. pose proof (ac_left _ _ _ Hc) as Hleft.
  unfold ES_PARSE_BYTES in cap_max.
  eapply runs_need; [exact Hc|lia..|]. intros b Hb Hch He' Hcap Hc'.
  pose proof (word_width 4 b (ch_ok _ _ Hch)) as Hpl. unfold in_width in Hpl.
  here 0%nat Hch. rewrite shiftr_4. apply runs_stop_if; [done|intros _].
  here 4%nat Hch. cbv zeta. apply runs_stop_if; [done|intros H0]. apply runs_room. cbn [left_].
  rewrite (wrap_small 32 (endp - off)), (wrap_small 32 (endp - off - 40)) by lia.
  apply runs_stop_if; [f_equal; lia|]. intros Hok. apply runs_limit. cbn [rest_].
  rewrite (wrap_small 32 (off + 40)), (wrap_small 32 (off + 40 + word 4 b)) by lia.
  assert (Hc2 : at_cursor (off + 40 + word 4 b) (off + 40) (mk_cursor (word 4 b) (drop (Z.to_nat 40) (rest_ c)))).
  { destruct Hc'. constructor; cbn [left_ rest_] in *; lia || done. }
  apply runs_found. here 6%nat Hch. set_here. here 8%nat Hch. set_here. here 24%nat Hch. do 2 set_here.
  apply runs_tuple; [by cbn [set_field]; rewrite !pad16_id by (apply length_slice; lia)|].
  eapply runs_bind; [by apply runs_exts|]. intros [l4 next] ? ? ? c4 (Hn & -> & -> & Hc4). cbn [fst snd] in *. subst next.
  apply runs_found. set_here. apply runs_stop_if; [done|intros _]. by apply runs_ret.
Qed.

(** *** VLAN tags, and the whole frame *)
Lemma fresh_add_vlan v t : fresh t -> fresh (add_vlan v t).
Proof. unfold add_vlan, push_vlan. by case_decide. Qed.

Lemma runs_tags n : forall endp off type t c,
  at_cursor endp off c -> fresh t -> 0 <= t_vlan_count t ->
  runs (es_parse_vlans p n cap endp off type) t (dissect_tags n (t_vlan_count t) type) t c
    (fun r t' type' s c' => r.2 = type' /\ t' = s /\ fresh s /\ at_cursor endp r.1 c').
Proof.
  induction n as [|n IH]; intros endp off type t c Hc Hf Hn; cbn [es_parse_vlans dissect_tags]; [by apply runs_ret|].
  destruct (es_vlan type); cbn [negb]; [|by apply runs_ret].
  set_here. apply runs_stop_if; [done|intros Hlt].
  pose proof (ac_off _ _ _ Hc) as Ho. pose proof (ac_end _ _ _ Hc) as He.
  eapply runs_need; [exact Hc|lia..|]. intros b Hb Hch He' Hcap Hc'.
  here 0%nat Hch. rewrite land_4095_mod. apply runs_found. cbn [set_field].
  destruct (store_vlan_next (word 0 b mod 4096) t) as [Hst Hcount]; [lia|].
  eapply runs_left; [exact Hst|]. here 2%nat Hch. rewrite <- Hcount, wrap_small by lia.
  apply IH; [done|by apply fresh_add_vlan|lia].
Qed.

Lemma runs_network {R} endp off type t c :
  at_cursor endp off c -> fresh t ->
  runs (es_parse_network p cap endp off type) t (dissect_network type) t c R.
Proof.
  intros Hc Hf. unfold es_parse_network, dissect_network. apply runs_found. set_here.
  apply runs_stop_if; [done|intros _]. cbn [set_field]. assert (Hf' : fresh (set_ethertype type t)) by done.
  destruct (type =? 0x0806); [by apply runs_arp|].
  apply (runs_bind _ _ _ _ _ _ _ at_l4).
  - destruct (type =? 0x0800); [by apply runs_ipv4|]. destruct (type =? 0x86dd); [by apply runs_ipv6|done].
  - intros [l4 e] t' proto s c' (-> & Hp & Hc'). by apply runs_l4.
Qed.

Lemma runs_frame {R} endp (sv : bool) vid c :
  at_cursor endp 0 c -> runs (es_parse_frame p cap endp sv vid) zero_tuple (dissect_frame sv vid) zero_tuple c R.
Proof.
  intros Hc. unfold es_parse_frame, dissect_frame. pose proof (ac_end _ _ _ Hc) as He.
  eapply runs_need; [exact Hc|lia..|]. intros b Hb Hch He' Hcap Hc'.
  here 12%nat Hch. apply runs_found. set_here.
  apply (runs_bind _ _ _ _ _ _ _ (fun _ t _ s c' => t = s /\ fresh s /\ at_cursor endp 14 c' /\
    t_vlan_count s = if sv then 1 else 0)).
  - destruct sv; [|by apply runs_ret]. rewrite land_4095_mod.
    destruct (store_vlan_next (vid mod 4096) (set_flags ES_T_L2_VALID zero_tuple)) as [Hst Hcount]; [done|].
    unfold runs, found. eexists _, _. split; [exact Hst|]. cbn [foldl set_field]. by split_and!.
  - intros _ t _ s c' (-> & Hf & Hc2 & Hcount). rewrite <- Hcount.
    eapply runs_bind; [apply runs_tags; [done..|rewrite Hcount; by destruct sv]|].
    intros [off type] t' type' s' c2 (Hty & -> & Hf' & Hc3). simpl in *. subst type'. by apply runs_network.
Qed.

End Runs.

Lemma es_parse_is_dissect p cap original_len sv vid :
  bytes_ok p -> 0 <= cap <= Z.of_nat (length p) -> in_width 32 original_len ->
  es_parse p cap original_len sv vid =
  Some (dissect (take (Z.to_nat (clamp_cap cap original_len)) p) original_len sv vid).
Proof.
  intros Hp [Hc Hl] Ho. destruct (clamp_cap_bounds p cap original_len Hc Hl Ho) as [[Hc0 Hc1] Hc2 [Ho0 Ho1]].
  assert (Hle : clamp_cap cap original_len <= original_len) by (unfold clamp_cap; repeat case_match; lia).
  unfold es_parse, dissect.
  pose proof (runs_frame p Hp _ Hc2 Hc1 (R := fun _ _ _ _ _ => True) original_len sv vid
    (mk_cursor original_len (take (Z.to_nat (clamp_cap cap original_len)) p))) as H.
  lapply H; [clear H; intros H|constructor; cbn [left_ rest_]; lia || done].
  unfold runs in H. destruct (dissect_frame _ _ _) as [l [rc|[[] ?]]]. by rewrite H.
Qed.

(** C2: [es_parse] is the reference dissector.  On every input - any prefix, claimed length and
    VLAN metadata - and in every outcome, errors included, the offset-and-wrap-around parser of
    the eBPF program returns the status and the tuple that the layer-by-layer dissector returns
    on the bytes it may look at: the first 128 at most, and not more than the packet has. *)
Theorem es_parse_dissect p cap original_len sv vid :
  bytes_ok p -> 0 <= cap <= Z.of_nat (length p) -> in_width 32 original_len ->
  es_parse p cap original_len sv vid =
  Some (dissect (take (Z.to_nat (clamp_cap cap original_len)) p) original_len sv vid).
Proof. apply es_parse_is_dissect. Qed.
