(* ===== verification/Language.v ===== *)
(** * The language of the packet parser

    Which packets [es_parse] accepts, exactly: the frames of the grammar of
    [Frames] and Ethernet/IPv4 ARP packets whose headers lie in the observed
    prefix, with at most two VLAN tags; and the tuple of each.  One direction
    runs the parser on an emitted packet; the other reads the frame off an
    accepting run of the reference dissector. *)
From S2P Require Import Prelude Abi PacketParser ParserFacts Frames Dissector.

(** ** ARP packets *)
Record arp := mk_arp {
  arp_op : bytes;
  arp_sha : bytes;
  arp_spa : bytes;
  arp_tha : bytes;
  arp_tpa : bytes;
}.

Definition arp_ok (a : arp) : Prop :=
  length (arp_op a) = 2%nat /\ length (arp_sha a) = 6%nat /\ length (arp_spa a) = 4%nat /\
  length (arp_tha a) = 6%nat /\ length (arp_tpa a) = 4%nat.

Definition arp_bytes (a : arp) : bytes :=
  be16 1 ++ be16 0x0800 ++ [6; 4] ++ arp_op a ++ arp_sha a ++ arp_spa a ++ arp_tha a ++ arp_tpa a.

Definition arp_tuple (a : arp) (ids : list Z) : es_tuple :=
  mk_tuple (arp_spa a ++ replicate 12 0) (arp_tpa a ++ replicate 12 0) [0; 0] [0; 0] 0x0806
    (take 2 (ids ++ [0; 0])) 4 0 3 (Z.of_nat (length ids)) 0.

(** ** The language

    [accepted sv vid p need t]: [p] is a packet of the language with [need]
    bytes of headers, and [t] is its tuple under the VLAN metadata. *)
Inductive accepted (sv : bool) (vid : Z) : bytes -> Z -> es_tuple -> Prop :=
  | accepted_ip f :
      frame_ok f -> (length (vlan_ids f sv vid) <= 2)%nat ->
      accepted sv vid (emit f) (header_need f) (tuple_of f sv vid)
  | accepted_arp macs tags a padding :
      length macs = 12%nat -> Forall tag_ok tags -> arp_ok a ->
      (length (tag_ids tags sv vid) <= 2)%nat ->
      accepted sv vid (tagged_bytes macs tags 0x0806 (arp_bytes a ++ padding))
        (14 + 4 * Z.of_nat (length tags) + 28) (arp_tuple a (tag_ids tags sv vid)).

(** ** Every packet of the language is accepted *)
Lemma parse_arp_run {A} p cap endp off a rest t :
  at_off p off (arp_bytes a ++ rest) -> arp_ok a -> 0 <= off ->
  off + 28 <= cap < 2 ^ 32 -> off + 28 <= endp < 2 ^ 32 ->
  es_parse_arp (A := A) p cap endp off t =
  Return ES_PARSE_OK (or_flags ES_T_ADDR_VALID (set_ip_version 4
    (set_dst (arp_tpa a ++ drop 4 (t_dst t)) (set_src (arp_spa a ++ drop 4 (t_src t)) t)))).
Proof.
  destruct a as [op sha spa tha tpa]. intros Ha (Hop & Hsha & Hspa & Htha & Htpa) Ho Hc He.
  cbn [arp_op arp_sha arp_spa arp_tha arp_tpa] in *. unfold arp_bytes in Ha. cbn [arp_op arp_sha arp_spa arp_tha arp_tpa] in Ha.
  rewrite <- !app_assoc in Ha.
  unfold es_parse_arp. run_need.
  run_be16 Ha 0%nat. run_check; [done|]. run_be16 Ha 2%nat. run_check; [done|].
  run_rd Ha 4%nat. run_check; [done|]. run_rd Ha 5%nat. run_check; [done|].
  assert (Hs : at_off p (off + 14) (spa ++ tha ++ tpa ++ rest)).
  { eapply (at_off_skip _ _ _ (be16 1 ++ be16 0x0800 ++ [6; 4] ++ op ++ sha)); [exact Ha|by rewrite <- !app_assoc|].
    rewrite !length_app, Hop, Hsha. done. }
  assert (Hd : at_off p (off + 24) (tpa ++ rest)).
  { eapply (at_off_skip _ _ _ (spa ++ tha)); [exact Hs|by rewrite <- !app_assoc|].
    rewrite !length_app, Hspa, Htha. lia. }
  run_bytes Hs 0%nat spa. run_set. run_bytes Hd 0%nat tpa. by do 3 run_set.
Qed.

Lemma arp_bytes_length a : arp_ok a -> length (arp_bytes a) = 28%nat.
Proof. intros (H1 & H2 & H3 & H4 & H5). unfold arp_bytes. rewrite !length_app, H1, H2, H3, H4, H5. done. Qed.

Lemma es_parse_arp_packet macs tags a padding cap (sv : bool) vid :
  length macs = 12%nat -> Forall tag_ok tags -> arp_ok a -> (length (tag_ids tags sv vid) <= 2)%nat ->
  let p := tagged_bytes macs tags 0x0806 (arp_bytes a ++ padding) in
  Z.of_nat (length p) < 2 ^ 32 -> 14 + 4 * Z.of_nat (length tags) + 28 <= ES_PARSE_BYTES ->
  14 + 4 * Z.of_nat (length tags) + 28 <= cap ->
  es_parse p cap (Z.of_nat (length p)) sv vid = Some (ES_PARSE_OK, arp_tuple a (tag_ids tags sv vid)).
Proof.
  intros Hm Ht Ha Hids p Hp Hn Hcap.
  destruct (tagged_layout macs tags 0x0806 (arp_bytes a ++ padding) Hm) as (_ & _ & Hat & Hlen). fold p in Hat, Hlen.
  rewrite length_app, arp_bytes_length in Hlen by done. unfold es_parse.
  assert (Hc : 14 + 4 * Z.of_nat (length tags) + 28 <= clamp_cap cap (Z.of_nat (length p)) <= 128)
    by (unfold clamp_cap, ES_PARSE_BYTES in *; repeat case_match; lia).
  revert Hc. generalize (clamp_cap cap (Z.of_nat (length p))). intros c Hc.
  subst p. rewrite parse_tagged_run by (done || lia). unfold es_parse_network. run_set. run_check; [done|].
  cbn [Z.eqb Pos.eqb]. by erewrite parse_arp_run by (done || lia).
Qed.

Lemma accepted_parsed p cap (sv : bool) vid need t :
  accepted sv vid p need t -> Z.of_nat (length p) < 2 ^ 32 -> need <= ES_PARSE_BYTES -> need <= cap ->
  es_parse p cap (Z.of_nat (length p)) sv vid = Some (ES_PARSE_OK, t).
Proof.
  intros [f Hf Hids|macs tags a padding Hm Ht Ha Hids] Hl Hn Hcap.
  - apply es_parse_emitted; try done. destruct Hf as (_ & _ & _ & Hx & _).
    destruct (fr_transport f); [done|done|apply Hx].
  - by apply es_parse_arp_packet.
Qed.

(** ** Reading a packet off an accepting run

    [yields d c Q R]: if [d] goes on from [c] then [Q] holds, if it ends with
    status OK then [R] does. *)
Definition yields {A} (d : dissector A) (c : cursor) (Q : A -> cursor -> Prop) (R : Prop) : Prop :=
  match (d c).2 with
  | inr (a, c') => Q a c'
  | inl rc => rc = ES_PARSE_OK -> R
  end.

Lemma yields_bind {A B} (d : dissector A) (k : A -> dissector B) c Q R :
  yields d c (fun a c' => yields (k a) c' Q R) R -> yields (d ≫= k) c Q R.
Proof.
  unfold yields, mbind, dissector_bind. destruct (d c) as [l [rc|[a c']]]; [done|]. cbn.
  by destruct (k a c').
Qed.

Lemma yields_ret {A} (a : A) c (Q : A -> cursor -> Prop) R : Q a c -> yields (mret a) c Q R.
Proof. done. Qed.

Lemma yields_then {A B} (d : dissector A) (k : A -> dissector B) a c c' l Q R :
  d c = (l, inr (a, c')) -> yields (k a) c' Q R -> yields (d ≫= k) c Q R.
Proof. intros E H. apply yields_bind. unfold yields at 1. by rewrite E. Qed.

Lemma yields_fail {A} rc c (Q : A -> cursor -> Prop) R : rc <> ES_PARSE_OK -> yields (verdict rc) c Q R.
Proof. by intros H ?. Qed.

Lemma yields_check {A} b rc (k : unit -> dissector A) c Q R :
  rc <> ES_PARSE_OK -> (b = false -> yields (k tt) c Q R) -> yields (verdict_if b rc ≫= k) c Q R.
Proof.
  intros Hrc H. destruct b; [by apply yields_bind, yields_fail|]. eapply yields_then; [done|]. by apply H.
Qed.

Lemma yields_conseq {A} (d : dissector A) c (Q Q' : A -> cursor -> Prop) R :
  yields d c Q R -> (forall a c', Q a c' -> Q' a c') -> yields d c Q' R.
Proof. unfold yields. destruct (d c).2 as [|[a c']]; auto. Qed.

(** The current layer has the bytes [w] left and then [pad]; [K] bytes from
    here on have been captured. *)
Record sees (w pad : bytes) (K : Z) (c : cursor) : Prop := {
  sees_left : left_ c = Z.of_nat (length w);
  sees_rest : rest_ c = take (Z.to_nat K) (w ++ pad);
  sees_ok : bytes_ok w;
  sees_nonneg : 0 <= K;
}.

Lemma yields_chunk {A} n w pad K c (k : bytes -> dissector A) Q R :
  sees w pad K c -> 0 <= n ->
  (forall b w' c', w = b ++ w' -> Z.of_nat (length b) = n -> bytes_ok b -> n <= K ->
     sees w' pad (K - n) c' -> yields (k b) c' Q R) ->
  yields (chunk n ≫= k) c Q R.
Proof.
  intros [Hl Hr Hok HK] Hn Hk. apply yields_bind. unfold chunk, yields at 1.
  destruct (Z.ltb_spec (left_ c) n); [done|]. destruct (Z.ltb_spec (Z.of_nat (length (rest_ c))) n) as [|Hrn]; [done|].
  cbn. rewrite Hr, length_take in Hrn.
  assert (Hb : take (Z.to_nat n) (rest_ c) = take (Z.to_nat n) w).
  { rewrite Hr, take_take, Nat.min_l, take_app_le by lia. done. }
  rewrite Hb. apply (Hk _ (drop (Z.to_nat n) w)).
  - by rewrite take_drop.
  - rewrite length_take. lia.
  - by apply bytes_ok_take.
  - lia.
  - constructor; cbn [left_ rest_]; [rewrite length_drop; lia| |by apply bytes_ok_drop|lia].
    rewrite Hr, <- drop_app_le, skipn_firstn_comm by lia. f_equal. lia.
Qed.

Lemma sees_limit n w pad K c : sees w pad K c -> 0 <= n <= Z.of_nat (length w) ->
  exists body rest, w = body ++ rest /\ Z.of_nat (length body) = n /\
  sees body (rest ++ pad) K (mk_cursor n (rest_ c)).
Proof.
  intros [Hl Hr Hok HK] Hn. exists (take (Z.to_nat n) w), (drop (Z.to_nat n) w). rewrite take_drop.
  assert (Hln : Z.of_nat (length (take (Z.to_nat n) w)) = n) by (rewrite length_take; lia).
  split; [done|]. split; [done|]. constructor; cbn [left_ rest_]; [done| |by apply bytes_ok_take|done].
  by rewrite app_assoc, take_drop.
Qed.

(** *** The pieces *)
Lemma be16_word a b : is_byte a -> is_byte b -> be16 (a * 256 + b) = [a; b].
Proof.
  unfold is_byte, be16. intros. rewrite Z.add_comm, Z_div_plus, Z_mod_plus, Z.div_small, Z.mod_small by lia. done.
Qed.

(** Names the bytes of a chunk of [n] bytes. *)
Tactic Notation "split_bytes" ident(b) integer(n) ident(Hlen) ident(Hok) :=
  do n (let H := fresh "Hbyte" in destruct b as [|? b]; [cbn [length] in Hlen; lia|];
        apply Forall_cons_1 in Hok as [H Hok]);
  destruct b; [|cbn [length] in Hlen; lia]; clear Hlen Hok.

Lemma yields_tags n : forall (have : Z) type w pad K c R,
  sees w pad K c -> have <= 2 -> in_width 16 type ->
  yields (dissect_tags n have type) c (fun type' c' => exists tags w',
    w = tag_bytes tags type' w' /\ tag_first tags type' = type /\ Forall tag_ok tags /\
    have + Z.of_nat (length tags) <= 2 /\ in_width 16 type' /\
    4 * Z.of_nat (length tags) <= K /\ sees w' pad (K - 4 * Z.of_nat (length tags)) c') R.
Proof.
  induction n as [|n IH]; intros have type w pad K c R Hc Hh Hty; cbn [dissect_tags];
    pose proof (sees_nonneg _ _ _ _ Hc) as HK.
  { apply yields_ret. exists [], w. cbn. rewrite Z.sub_0_r. split_and!; try done; lia. }
  destruct (es_vlan type) eqn:Ev; cbn [negb]; swap 1 2.
  { apply yields_ret. exists [], w. cbn. rewrite Z.sub_0_r. split_and!; try done; lia. }
  apply yields_check; [done|intros H2]. eapply yields_chunk; [exact Hc|lia|].
  intros b w' c' -> Hlen Hok Hk Hc'. eapply yields_then; [done|].
  split_bytes b 4 Hlen Hok. unfold word, byte. cbn [nth].
  pose proof (IH (have + 1) (z1 * 256 + z2) w' pad (K - 4) c' R Hc' ltac:(lia)) as H.
  unfold is_byte in *. unfold yields in H |- *. specialize (H ltac:(unfold in_width; lia)).
  destruct (dissect_tags n (have + 1) (z1 * 256 + z2) c').2 as [rc|[type' c'']]; [done|].
  destruct H as (tags & w'' & -> & Hf & Ht & Hn & Hw & HK' & Hs).
  exists ((type, z * 256 + z0) :: tags), w''. cbn [tag_bytes tag_first length].
  rewrite Hf, !be16_word by done. split_and!; try done; try lia.
  - constructor; [|done]. split; [|unfold in_width; cbn; lia]. unfold es_vlan in Ev. cbn. lia.
  - by replace (K - 4 * Z.of_nat (S (length tags))) with (K - 4 - 4 * Z.of_nat (length tags)) by lia.
Qed.

Lemma yields_arp {A} w pad K c (Q : A -> cursor -> Prop) R :
  sees w pad K c ->
  (forall a rest, arp_ok a -> w = arp_bytes a ++ rest -> 28 <= K -> R) ->
  yields dissect_arp c Q R.
Proof.
  intros Hc HR. unfold dissect_arp. eapply yields_chunk; [exact Hc|lia|].
  intros b rest c' -> Hlen Hok HK _. apply yields_check; [done|intros E].
  apply negb_false_iff, bool_decide_eq_true in E.
  eapply yields_then; [done|]. intros _. split_bytes b 28 Hlen Hok.
  unfold slice in E. cbn in E. injection E as -> -> -> -> -> ->.
  by eapply (HR (mk_arp [_; _] [_; _; _; _; _; _] [_; _; _; _] [_; _; _; _; _; _] [_; _; _; _])).
Qed.

Lemma yields_l4 {A} proto w pad K c (Q : A -> cursor -> Prop) R :
  sees w pad K c -> is_byte proto ->
  (forall x, transport_proto x = proto -> transport_bytes x = w -> transport_ok x -> transport_need x <= K -> R) ->
  yields (dissect_l4 proto) c Q R.
Proof.
  intros Hc Hp HR. unfold dissect_l4.
  destruct (Z.eqb_spec proto 6) as [->|H6]; [|destruct (Z.eqb_spec proto 17) as [->|H17]].
  - eapply yields_chunk; [exact Hc|lia|]. intros b rest c' -> Hlen Hok HK Hc'.
    eapply yields_then; [done|]. rewrite (sees_left _ _ _ _ Hc'). apply yields_check; [done|intros E].
    eapply yields_then; [done|]. intros _. split_bytes b 20 Hlen Hok. unfold byte in E. cbn [nth] in E.
    eapply (HR (Tcp (z * 256 + z0) (z1 * 256 + z2) [z3; z4; z5; z6; z7; z8; z9; z10] z11 (_ :: _ :: _ :: _ :: _ :: _ :: _ :: rest))).
    + done.
    + cbn [transport_bytes]. rewrite !be16_word by done. done.
    + cbn [transport_ok length]. rewrite shiftr_4. unfold in_width, is_byte in *. split_and!; lia.
    + done.
  - eapply yields_chunk; [exact Hc|lia|]. intros b rest c' -> Hlen Hok HK Hc'.
    eapply yields_then; [done|]. rewrite (sees_left _ _ _ _ Hc'). apply yields_check; [done|intros E].
    eapply yields_then; [done|]. intros _. split_bytes b 8 Hlen Hok. unfold word, byte in E. cbn [nth] in E.
    eapply (HR (Udp (z * 256 + z0) (z1 * 256 + z2) (z3 * 256 + z4) (z5 * 256 + z6) rest)).
    + done.
    + cbn [transport_bytes]. rewrite !be16_word by done. done.
    + unfold transport_ok, in_width, is_byte in *. split_and!; lia.
    + done.
  - intros _. by eapply (HR (Other proto w)); [..|apply Hc].
Qed.

(** What the network layer has read: headers [hdr] that, put before any
    transport of this protocol and these bytes, make a well-formed network
    layer. *)
Definition network_read (type : Z) (w pad : bytes) (K : Z) (proto : Z) (c : cursor) : Prop :=
  exists n hdr body padding,
    w = hdr ++ body ++ padding /\ network_type n = type /\ is_byte proto /\ Z.of_nat (length hdr) <= K /\
    sees body (padding ++ pad) (K - Z.of_nat (length hdr)) c /\
    forall x, transport_proto x = proto -> transport_bytes x = body ->
      network_bytes n x = hdr ++ body /\ network_ok n x /\ network_need n x = Z.of_nat (length hdr).

Lemma yields_ipv4 w pad K c R : sees w pad K c -> yields dissect_ipv4 c (network_read 0x0800 w pad K) R.
Proof.
  intros Hc. unfold dissect_ipv4. eapply yields_chunk; [exact Hc|lia|].
  intros b w' c' -> Hlen Hok HK Hc'. apply yields_check; [done|intros E4]. eapply yields_then; [done|].
  cbv zeta. rewrite (sees_left _ _ _ _ Hc'). pose proof (nibbles _ (byte_ok 0 b Hok)) as [Hhi Hlo].
  pose proof (Z.div_mod (byte 0 b) 16 ltac:(lia)) as Hdm.
  apply yields_check; [done|intros E]. eapply yields_then; [done|].
  destruct (sees_limit (word 2 b - 20) _ _ _ _ Hc') as (inner & padding & -> & Hinner & Hc2); [lia|].
  eapply yields_chunk; [exact Hc2|lia|]. intros options body c3 -> Hopt Hoptok HK3 Hc3.
  do 2 (eapply yields_then; [done|]).
  destruct (Z.eqb_spec (word 6 b mod 16384) 0) as [Hfrag|]; [|eapply yields_then; [done|]; by apply yields_fail].
  apply yields_ret. split_bytes b 20 Hlen Hok. unfold word, byte in *. cbn [nth] in *.
  exists (Ipv4 z0 (z3 * 256 + z4) (z5 * 256 + z6) z7 (z9 * 256 + z10) [z11; z12; z13; z14] [z15; z16; z17; z18] options),
    ([z; z0; z1; z2; z3; z4; z5; z6; z7; z8; z9; z10; z11; z12; z13; z14; z15; z16; z17; z18] ++ options), body, padding.
  rewrite length_app. cbn [length]. rewrite length_app in Hinner.
  split; [by rewrite <- !app_assoc|]. split; [done|]. split; [done|]. split; [lia|]. split.
  { by replace (K - Z.of_nat (20 + length options)) with (K - 20 - (z mod 16 * 4 - 20)) by lia. }
  intros x Hx Hb. cbn [network_bytes network_ok network_need]. rewrite Hb, Hx.
  assert (Hq : Z.of_nat (length options) / 4 = z mod 16 - 5)
    by (symmetry; apply (Z.div_unique _ _ _ 0); lia).
  replace (20 + Z.of_nat (length options) + Z.of_nat (length body)) with (z1 * 256 + z2) by lia.
  rewrite Hq, !be16_word by done. split; [|split; [|lia]].
  - replace (69 + (z mod 16 - 5)) with z by lia. cbn. done.
  - rewrite land_16383. unfold in_width, is_byte in *. split_and!; try done; try lia.
    exists (Z.to_nat (z mod 16 - 5)). lia.
Qed.

Lemma yields_exts n : forall next w pad K c R,
  sees w pad K c -> is_byte next ->
  yields (dissect_exts n next) c (fun next' c' => exists exts w',
    w = ext_bytes exts next' ++ w' /\ ext_first exts next' = next /\
    Forall ext_ok exts /\ (length exts <= n)%nat /\ is_byte next' /\
    Z.of_nat (length (ext_bytes exts next')) <= K /\
    sees w' pad (K - Z.of_nat (length (ext_bytes exts next'))) c') R.
Proof.
  induction n as [|n IH]; intros next w pad K c R Hc Hb; cbn [dissect_exts];
    pose proof (sees_nonneg _ _ _ _ Hc) as HK.
  { apply yields_ret. exists [], w. cbn. rewrite Z.sub_0_r. split_and!; try done; lia. }
  destruct (es_ext next) eqn:Ev; cbn [negb]; swap 1 2.
  { apply yields_ret. exists [], w. cbn. rewrite Z.sub_0_r. split_and!; try done; lia. }
  eapply yields_chunk; [exact Hc|lia|]. intros b w' c' -> Hlen Hok HK2 Hc'.
  destruct (Z.eqb_spec next 44) as [|H44].
  { eapply yields_chunk; [exact Hc'|lia|]. intros b' w'' c'' -> _ _ _ _.
    do 2 (eapply yields_then; [done|]). by apply yields_fail. }
  split_bytes b 2 Hlen Hok. unfold byte. cbn [nth].
  pose proof (ext_size_pos next z0 (proj1 Hbyte0)) as Hsz.
  eapply yields_chunk; [exact Hc'|lia|]. intros body w'' c'' -> Hlen _ HK3 Hc''.
  specialize (IH z w'' pad _ c'' R Hc'' Hbyte). unfold yields in *.
  destruct (dissect_exts n z c'').2 as [rc|[next' c3]]; [done|].
  destruct IH as (exts & w3 & Hw & Hf & He & Hn & Hb' & HK4 & Hs).
  exists ((next, z0, body) :: exts), w3. cbn [ext_bytes ext_first length]. rewrite length_app. split_and!; try done.
  - rewrite Hf, Hw. cbn. by rewrite <- !app_assoc.
  - constructor; [|done]. unfold es_ext in Ev. split_and!; try done; lia.
  - lia.
  - lia.
  - by replace (K - Z.of_nat (S (S (length body + length (ext_bytes exts next'))))) with
      (K - 2 - (ext_size next z0 - 2) - Z.of_nat (length (ext_bytes exts next'))) by lia.
Qed.

Lemma yields_ipv6 w pad K c R : sees w pad K c -> yields dissect_ipv6 c (network_read 0x86dd w pad K) R.
Proof.
  intros Hc. unfold dissect_ipv6. eapply yields_chunk; [exact Hc|lia|].
  intros b w' c' -> Hlen Hok HK Hc'. apply yields_check; [done|intros E6]. cbv zeta.
  apply yields_check; [done|intros E0]. eapply yields_then; [done|]. rewrite (sees_left _ _ _ _ Hc').
  pose proof (nibbles _ (byte_ok 0 b Hok)) as [Hhi Hlo]. pose proof (word_width 4 b Hok) as Hpl.
  pose proof (Z.div_mod (byte 0 b) 16 ltac:(lia)) as Hdm. unfold in_width in Hpl.
  apply yields_check; [done|intros E]. eapply yields_then; [done|].
  destruct (sees_limit (word 4 b) _ _ _ _ Hc') as (inner & padding & -> & Hinner & Hc2); [lia|].
  eapply yields_then; [done|].
  apply yields_bind. pose proof (yields_exts 4 (byte 6 b) inner _ _ _ R Hc2 (byte_ok 6 b Hok)) as H.
  unfold yields at 1 in H. unfold yields at 1.
  destruct (dissect_exts 4 (byte 6 b) _).2 as [rc|[next c3]]; [done|].
  destruct H as (exts & body & Hw & Hf & He & Hn & Hb' & HK3 & Hc3). subst inner.
  eapply yields_then; [done|]. apply yields_check; [done|intros Ep]. apply yields_ret.
  rewrite length_app in Hinner. split_bytes b 40 Hlen Hok. unfold word, byte in *. cbn [nth] in *.
  exists (Ipv6 (z mod 16) [z0; z1; z2] z6 [z7; z8; z9; z10; z11; z12; z13; z14; z15; z16; z17; z18; z19; z20; z21; z22]
      [z23; z24; z25; z26; z27; z28; z29; z30; z31; z32; z33; z34; z35; z36; z37; z38] exts),
    ([z; z0; z1; z2; z3; z4; z5; z6; z7; z8; z9; z10; z11; z12; z13; z14; z15; z16; z17; z18; z19; z20; z21; z22;
      z23; z24; z25; z26; z27; z28; z29; z30; z31; z32; z33; z34; z35; z36; z37; z38] ++ ext_bytes exts next), body, padding.
  rewrite length_app. cbn [length].
  split; [by rewrite <- !app_assoc|]. split; [done|]. split; [done|]. split; [lia|]. split.
  { by replace (K - Z.of_nat (40 + length (ext_bytes exts next))) with
      (K - 40 - Z.of_nat (length (ext_bytes exts next))) by lia. }
  intros x Hx Hb. cbn [network_bytes network_ok network_need]. rewrite Hb, Hx, Hf.
  replace (Z.of_nat (length (ext_bytes exts next)) + Z.of_nat (length body)) with (z3 * 256 + z4) by lia.
  rewrite !be16_word by done. split; [|split; [|lia]].
  - replace (96 + z mod 16) with z by lia. cbn. done.
  - apply orb_false_iff in Ep as [Ep Ep']. split_and!; try done; lia.
Qed.

(** *** Whole packets *)
Lemma accepted_parts macs header tags type w' (p : bytes) :
  header = macs ++ be16 (tag_first tags type) -> p = header ++ tag_bytes tags type w' ->
  p = tagged_bytes macs tags type w'.
Proof. intros -> ->. unfold tagged_bytes. by rewrite <- app_assoc. Qed.

(** The transport layer completes the frame. *)
Lemma accepting_l4 p K (sv : bool) vid macs tags type w proto c :
  bytes_ok p -> Z.of_nat (length p) < 2 ^ 32 -> p = tagged_bytes macs tags type w ->
  length macs = 12%nat -> Forall tag_ok tags -> (length (tag_ids tags sv vid) <= 2)%nat ->
  network_read type w [] (K - 4 * Z.of_nat (length tags)) proto c ->
  yields (dissect_l4 (A := False) proto) c (fun _ _ => True)
    (exists need t, accepted sv vid p need t /\ need <= K + 14).
Proof.
  intros Hok Hlt Hpt Hm Ht Hids (n & hdr & body & padding & -> & Hnt & Hpr & HKh & Hc & Hn').
  eapply yields_l4; [exact Hc|done|]. intros x Hx Hxb Hxok HKx.
  destruct (Hn' x Hx Hxb) as (Hnb & Hnok & Hneed). set (f := mk_frame macs tags n x padding).
  assert (He : emit f = p).
  { unfold emit, f. cbn [fr_macs fr_tags fr_network fr_transport fr_padding].
    by rewrite Hpt, Hnb, Hnt, <- app_assoc. }
  exists (header_need f), (tuple_of f sv vid).
  split; [|unfold header_need; cbn [f fr_tags fr_network fr_transport]; lia].
  rewrite <- He at 1. constructor; [|done]. unfold frame_ok. rewrite He. by split_and!.
Qed.

Lemma accepting_run p K (sv : bool) vid c :
  bytes_ok p -> Z.of_nat (length p) < 2 ^ 32 -> sees p [] K c ->
  yields (dissect_frame sv vid) c (fun _ _ => True) (exists need t, accepted sv vid p need t /\ need <= K).
Proof.
  intros Hok Hlt Hc. unfold dissect_frame. eapply yields_chunk; [exact Hc|lia|].
  intros header w c1 Hp Hlen Hhok HK Hc1. eapply yields_then; [done|].
  set (have := if sv then 1 else 0).
  apply yields_bind, (yields_conseq _ _ (fun _ c' => c' = c1)); [by destruct sv|intros _ ? ->].
  apply yields_bind.
  assert (Hh : exists macs, length macs = 12%nat /\ header = macs ++ be16 (word 12 header) /\ in_width 16 (word 12 header)).
  { exists (take 12 header). rewrite length_take. split; [lia|]. split; [|by apply word_width].
    split_bytes header 14 Hlen Hhok. unfold word, byte. cbn [nth]. by rewrite be16_word. }
  destruct Hh as (macs & Hm & Hh & Hty).
  pose proof (yields_tags 2 have _ w [] _ c1 (exists need t, accepted sv vid p need t /\ need <= K) Hc1
    ltac:(subst have; destruct sv; lia) Hty) as H. unfold yields at 1 in H. unfold yields at 1.
  destruct (dissect_tags 2 have (word 12 header) c1).2 as [rc|[type c2]]; [done|].
  destruct H as (tags & w2 & -> & Hf & Ht & Hn & Htw & HKt & Hc2).
  rewrite <- Hf in Hh. pose proof (accepted_parts _ _ _ _ _ _ Hh Hp) as Hpt. clear Hp.
  assert (Hids : (length (tag_ids tags sv vid) <= 2)%nat)
    by (unfold tag_ids; rewrite length_app, length_map; subst have; destruct sv; cbn in *; lia).
  unfold dissect_network. eapply yields_then; [done|]. apply yields_check; [done|intros Hv].
  destruct (Z.eqb_spec type 0x0806) as [->|_].
  { eapply yields_arp; [exact Hc2|]. intros a rest Ha -> HKa.
    exists (14 + 4 * Z.of_nat (length tags) + 28), (arp_tuple a (tag_ids tags sv vid)).
    split; [|lia]. rewrite Hpt. by constructor. }
  pose proof (fun proto c3 => accepting_l4 p (K - 14) sv vid macs tags type w2 proto c3 Hok Hlt Hpt Hm Ht Hids) as Hl4.
  rewrite Z.sub_add in Hl4.
  apply yields_bind. destruct (Z.eqb_spec type 0x0800) as [->|_]; [|destruct (Z.eqb_spec type 0x86dd) as [->|_]].
  - eapply (yields_conseq _ _ _ _ _ (yields_ipv4 _ _ _ _ _ Hc2)), Hl4.
  - eapply (yields_conseq _ _ _ _ _ (yields_ipv6 _ _ _ _ _ Hc2)), Hl4.
  - by apply yields_fail.
Qed.

(** C3: the language of the parser.  On a packet seen whole or in part, [es_parse] returns status
    OK and the tuple [t] if and only if the packet is a well-formed frame of the grammar, or an
    Ethernet/IPv4 ARP packet, with at most two VLAN tags counting a stripped one, whose headers lie
    within the first 128 bytes and within those captured, and [t] is the tuple of that frame. *)
Theorem es_parse_language p cap (sv : bool) vid t :
  bytes_ok p -> Z.of_nat (length p) < 2 ^ 32 -> 0 <= cap <= Z.of_nat (length p) ->
  es_parse p cap (Z.of_nat (length p)) sv vid = Some (ES_PARSE_OK, t) <->
  exists need, accepted sv vid p need t /\ need <= ES_PARSE_BYTES /\ need <= cap.
Proof.
  intros Hok Hlt Hcap. split; [|intros (need & Ha & Hn & Hc); by eapply accepted_parsed].
  intros E. pose proof E as E'. rewrite es_parse_is_dissect in E' by (done || unfold in_width; lia).
  assert (HK : 0 <= clamp_cap cap (Z.of_nat (length p)) <= ES_PARSE_BYTES /\ clamp_cap cap (Z.of_nat (length p)) <= cap)
    by (unfold clamp_cap, ES_PARSE_BYTES; repeat case_match; lia).
  revert E' HK. generalize (clamp_cap cap (Z.of_nat (length p))). intros K E' HK. unfold dissect in E'.
  pose proof (accepting_run p K sv vid (mk_cursor (Z.of_nat (length p)) (take (Z.to_nat K) p)) Hok Hlt) as H.
  lapply H; [clear H; intros H|constructor; [done|by rewrite app_nil_r|done|lia]].
  unfold yields in H. destruct (dissect_frame _ _ _) as [l [rc|[[] ?]]]. injection E' as -> _.
  destruct (H eq_refl) as (need & t' & Ha & Hneed). exists need.
  rewrite (accepted_parsed p cap sv vid need t' Ha Hlt) in E by lia. injection E as <-. split; [done|lia].
Qed.
