(* ===== verification/TelemetryTypes.v ===== *)
(** * Decoding ring-buffer events ([inc/TelemetryTypes.hpp])

    [DecodeEvent] takes the raw bytes that a ring-buffer callback hands over
    and either rejects them or copies out an [es_event].  The specification
    is [event_valid]; acceptance is equivalent to it. *)
From S2P Require Import Prelude Abi.

Record TelemetryRecord := mk_record {
  rec_event : es_event;
  rec_netns_inode : Z;
  rec_session_id : Z;
}.

(** [TelemetryLoss]. *)
Record TelemetryLoss := mk_telemetry_loss {
  lost_decode_errors : Z;
  lost_queue_dropped : Z;
  lost_shutdown_discarded : Z;
  lost_poll_error : Z;
}.

Section Decode.
Context `{Host}.

(** The three tests of [DecodeEvent] on the copied event. *)
Definition reject_fields (e : es_event) : bool :=
  let t := e_tuple e in
  negb (e_abi_version e =? ES_ABI_VERSION) || negb (e_record_size e =? sizeof_es_event) ||
  (e_ifindex e =? 0) || (ES_DIRECTIONS <=? e_direction e) ||
  (negb (e_hook e =? ES_HOOK_TC) && negb (e_hook e =? ES_HOOK_XDP)) ||
  negb (e_link_type e =? ES_LINKTYPE_ETHERNET) ||
  (ES_PARSE_SKIPPED <? e_parse_status e) ||
  (ES_SNAPSHOT_MAX <? e_captured_len e) || (e_original_len e <? e_captured_len e) ||
  (2 <? t_vlan_count t) || negb (t_reserved t =? 0) ||
  negb (Z.land (e_flags e)
          (Z.lnot (Z.lor (Z.lor ES_E_PREFIX_TRUNCATED ES_E_COPY_FAILED) ES_E_VLAN_STRIPPED)) =? 0) ||
  negb (Z.land (t_flags t)
          (Z.lnot (Z.lor (Z.lor (Z.lor ES_T_L2_VALID ES_T_ADDR_VALID) ES_T_PORTS_VALID)
                     ES_T_FRAGMENT)) =? 0).

Definition reject_copy (e : es_event) : bool :=
  negb (Z.land (e_flags e) ES_E_COPY_FAILED =? 0) && negb (e_captured_len e =? 0).

Definition reject_ports (e : es_event) : bool :=
  let t := e_tuple e in
  negb (Z.land (t_flags t) ES_T_PORTS_VALID =? 0) &&
  ((Z.land (t_flags t) ES_T_ADDR_VALID =? 0) || negb (Z.land (t_flags t) ES_T_FRAGMENT =? 0) ||
   (negb (t_l4_proto t =? 6) && negb (t_l4_proto t =? 17))).

(** [DecodeEvent(data, size, out)]: [None] when it returns false; [data] is
    [None] for a null pointer. *)
Definition DecodeEvent (data : option bytes) (size : Z) : option es_event :=
  match data with
  | None => None
  | Some data =>
    if negb (size =? sizeof_es_event) then None
    else
      let e := c_dec event_codec (take (Z.to_nat sizeof_es_event) data) in
      if reject_fields e then None
      else if reject_copy e then None
      else if reject_ports e then None
      else Some e
  end.

(** ** What an accepted event satisfies *)
Record event_valid (e : es_event) : Prop := {
  ev_abi : e_abi_version e = ES_ABI_VERSION;
  ev_size : e_record_size e = 216;
  ev_ifindex : e_ifindex e <> 0;
  ev_direction : e_direction e < ES_DIRECTIONS;
  ev_hook : e_hook e = ES_HOOK_TC \/ e_hook e = ES_HOOK_XDP;
  ev_link : e_link_type e = ES_LINKTYPE_ETHERNET;
  ev_status : e_parse_status e <= ES_PARSE_SKIPPED;
  ev_captured : e_captured_len e <= ES_SNAPSHOT_MAX /\ e_captured_len e <= e_original_len e;
  ev_vlans : t_vlan_count (e_tuple e) <= 2;
  ev_reserved : t_reserved (e_tuple e) = 0;
  ev_flags : Z.land (e_flags e) (Z.lnot 7) = 0;
  ev_tuple_flags : Z.land (t_flags (e_tuple e)) (Z.lnot 15) = 0;
  ev_copy_failed : Z.land (e_flags e) ES_E_COPY_FAILED <> 0 -> e_captured_len e = 0;
  ev_ports : Z.land (t_flags (e_tuple e)) ES_T_PORTS_VALID <> 0 ->
    Z.land (t_flags (e_tuple e)) ES_T_ADDR_VALID <> 0 /\
    Z.land (t_flags (e_tuple e)) ES_T_FRAGMENT = 0 /\
    (t_l4_proto (e_tuple e) = 6 \/ t_l4_proto (e_tuple e) = 17);
}.

Lemma or_else (P Q : Prop) `{Decision P} : (P \/ Q) <-> (~ P -> Q).
Proof. split; [tauto|]. destruct (decide P); tauto. Qed.

Lemma imp_bool (a b : bool) : negb a && b = false <-> (a = false -> b = false).
Proof. destruct a, b; simpl; intuition done. Qed.

Lemma rejects_valid e :
  reject_fields e || reject_copy e || reject_ports e = false <-> event_valid e.
Proof.
  unfold reject_fields, reject_copy, reject_ports. change sizeof_es_event with 216.
  rewrite !orb_false_iff, !imp_bool, !orb_false_iff, !imp_bool, !negb_false_iff, !Z.eqb_neq,
    !Z.leb_gt, !Z.ltb_ge, !Z.eqb_eq.
  split.
  - intros Hr. split_hyps. constructor; try done; rewrite ?or_else by apply _; try done.
    tauto.
  - intros [H1 H2 H3 H4 H5 H6 H7 [H8 H8'] H9 H10 H11 H12 H13 H14].
    rewrite or_else in H5 by apply _. rewrite or_else in H14 by apply _.
    split_and!; try done. intros Hp. destruct (H14 Hp) as (? & ? & ?). done.
Qed.

Lemma DecodeEvent_image data size e :
  bytes_ok data -> Z.of_nat (length data) = size ->
  DecodeEvent (Some data) size = Some e <->
  c_ok event_codec e /\ data = c_enc event_codec e /\ event_valid e.
Proof.
  intros Hd Hl. unfold DecodeEvent. change sizeof_es_event with 216.
  destruct (Z.eqb_spec size 216) as [->|Hne]; cbn [negb].
  2: { split; [done|]. intros (Hok & -> & _). rewrite c_enc_length in Hl by done.
       rewrite sizeof_es_event_216 in Hl. lia. }
  rewrite take_ge by lia.
  assert (Hsz : length data = c_size event_codec) by (rewrite sizeof_es_event_216; lia).
  pose proof (c_enc_dec event_codec data Hd Hsz) as Henc.
  pose proof (c_dec_ok event_codec data Hd Hsz) as Hok.
  pose proof (rejects_valid (c_dec event_codec data)) as Hr. rewrite !orb_false_iff in Hr.
  cbv zeta. split.
  - repeat case_match; try done. intros [= <-]. split; [done|split; [done|]]. by apply Hr.
  - intros (Hc & Hde & Hv). assert (Hdd : c_dec event_codec data = e) by (by rewrite Hde, c_dec_enc).
    rewrite Hdd in *. by destruct (proj2 Hr Hv) as [[-> ->] ->].
Qed.

(** C10: the decoder accepts exactly the images of valid events: for a buffer of [size] bytes,
    [DecodeEvent] yields [e] if and only if the buffer is the 216-byte memory image of [e] and [e]
    satisfies every ABI condition ([event_valid]). *)
Theorem DecodeEvent_accepts data size e :
  bytes_ok data -> Z.of_nat (length data) = size ->
  DecodeEvent (Some data) size = Some e <->
  c_ok event_codec e /\ data = c_enc event_codec e /\ event_valid e.
Proof. apply DecodeEvent_image. Qed.

(** A null pointer or any other size is rejected. *)
Lemma DecodeEvent_null size : DecodeEvent None size = None.
Proof. done. Qed.

End Decode.
