(* ===== verification/TcObserver.v ===== *)
(** * The passive TC observer ([bpf/elephantshrew_tc.bpf.c])

    [es_observe] is the whole body of the two TC programs: it counts the
    packet, classifies it with [es_parse], updates the flow table, selects a
    sample and publishes an event on the ring buffer.  The state is the view
    that one CPU has of the maps: both counter maps are per-CPU, so an
    invocation runs on a state no other CPU touches.  The kernel's helpers
    are the class [BpfHelpers]; what the code relies on of them is
    [BpfHelpersOk]. *)
From S2P Require Import Prelude Abi PacketParser ParserFacts TelemetryTypes.

(** The part of [struct __sk_buff] the programs read, with the packet. *)
Record sk_buff := mk_skb {
  skb_len : Z;
  skb_data : bytes;
  skb_ifindex : Z;
  skb_vlan_present : Z;
  skb_vlan_tci : Z;
}.

Record skb_ok (skb : sk_buff) : Prop := {
  skb_len_ok : in_width 32 (skb_len skb);
  skb_data_len : Z.of_nat (length (skb_data skb)) = skb_len skb;
  skb_data_ok : bytes_ok (skb_data skb);
  skb_ifindex_ok : in_width 32 (skb_ifindex skb) /\ skb_ifindex skb <> 0;
}.

(** Kernel code.  [bpf_skb_load_bytes skb off n] is the return value and
    what the [n] bytes of the destination hold afterwards.  The flow map is
    an LRU hash: an update may evict other entries and may fail. *)
Class BpfHelpers := {
  bpf_skb_load_bytes : sk_buff -> Z -> Z -> Z * bytes;
  flow_map : Type;
  flow_lookup : flow_map -> es_flow_key -> option es_flow_value;
  flow_update_noexist : flow_map -> es_flow_key -> es_flow_value -> flow_map;
  (** a store through the pointer a lookup returned *)
  flow_store : flow_map -> es_flow_key -> es_flow_value -> flow_map;
}.

Class BpfHelpersOk `{BpfHelpers} : Prop := {
  load_length skb off n : 0 <= n -> length (bpf_skb_load_bytes skb off n).2 = Z.to_nat n;
  load_success skb off n : 0 <= off -> 0 <= n -> (bpf_skb_load_bytes skb off n).1 = 0 ->
    (bpf_skb_load_bytes skb off n).2 = take (Z.to_nat n) (drop (Z.to_nat off) (skb_data skb)) /\
    off + n <= Z.of_nat (length (skb_data skb));
  flow_store_lookup m k v k' : is_Some (flow_lookup m k) ->
    flow_lookup (flow_store m k v) k' = if decide (k = k') then Some v else flow_lookup m k';
  flow_update_lookup m k v v' : flow_lookup m k = None ->
    flow_lookup (flow_update_noexist m k v) k = Some v' -> v' = v;
  flow_update_others m k v k' : k' <> k ->
    flow_lookup (flow_update_noexist m k v) k' = None \/
    flow_lookup (flow_update_noexist m k v) k' = flow_lookup m k';
}.

(** [const volatile] settings. *)
Record config := mk_config {
  sample_every : Z;
  snapshot_bytes : Z;
  classify : Z;
  flow_enabled : Z;
  select_l4_proto : Z;
}.

(** What an invocation reads from its environment: the clock, the CPU it
    runs on, and whether the ring buffer has room. *)
Record tick := mk_tick {
  ktime_ns : Z;
  cpu_id : Z;
  ring_has_room : bool;
}.

Section Observer.
Context `{BpfHelpers}.

Record obs_state := mk_obs {
  counters : gmap Z (list Z);      (* this CPU's values, by direction *)
  flows : flow_map;
  events : list es_event;          (* submitted to the ring, oldest first *)
}.

(** [__sync_fetch_and_add(&s->v[c], n)]; [counter_get] is what it returns. *)
Definition counter_get (key : Z) (c : es_counter_id) (st : obs_state) : Z :=
  nth (counter_index c) (default [] (counters st !! key)) 0.

Definition counter_add (key : Z) (c : es_counter_id) (n : Z) (st : obs_state) : obs_state :=
  mk_obs (alter (alter (fun v => u64 (v + n)) (counter_index c)) key (counters st))
    (flows st) (events st).

Definition es_count_flow (skb : sk_buff) (direction : Z) (tuple : es_tuple) (now : Z)
    (st : obs_state) : obs_state :=
  if Z.land (t_flags tuple) ES_T_PORTS_VALID =? 0 then st
  else
    let key := mk_flow_key tuple (skb_ifindex skb) (u8 direction) [0; 0; 0] in
    let m :=
      match flow_lookup (flows st) key with
      | Some _ => flows st
      | None => flow_update_noexist (flows st) key zero_flow_value
      end in
    match flow_lookup m key with
    | None => counter_add direction ES_C_FLOW_UPDATE_FAILED 1 (mk_obs (counters st) m (events st))
    | Some f =>
      let first := if f_packets f =? 0 then now else f_first_ns f in
      let f := mk_flow_value first now (u64 (f_packets f + 1)) (u64 (f_bytes f + skb_len skb)) in
      mk_obs (counters st) (flow_store m key f) (events st)
    end.

(** [if (cap > ES_PARSE_BYTES) cap = ES_PARSE_BYTES; if (cap &&
    bpf_skb_load_bytes(skb, 0, bytes, cap) == 0) status = es_parse(...)]. *)
Definition load_and_parse (skb : sk_buff) : option (Z * es_tuple) :=
  let cap := if ES_PARSE_BYTES <? skb_len skb then ES_PARSE_BYTES else skb_len skb in
  let '(rc, loaded) := bpf_skb_load_bytes skb 0 cap in
  if negb (cap =? 0) && (rc =? 0) then
    es_parse (loaded ++ replicate (Z.to_nat (ES_PARSE_BYTES - cap)) 0) cap (skb_len skb)
      (negb (skb_vlan_present skb =? 0)) (u16 (skb_vlan_tci skb))
  else Some (ES_PARSE_TRUNCATED, zero_tuple).

(** The snapshot of the packet in the event: the event and whether the
    copy failed. *)
Definition take_snapshot (cfg : config) (skb : sk_buff) (e : es_event) : es_event * bool :=
  let want := snapshot_bytes cfg in
  let want := if ES_SNAPSHOT_MAX <? want then ES_SNAPSHOT_MAX else want in
  let want := if skb_len skb <? want then skb_len skb else want in
  let set captured fl prefix :=
    mk_event (e_timestamp_mono_ns e) (e_sequence e) (e_ifindex e) (e_original_len e) (e_cpu e)
      (e_abi_version e) (e_record_size e) captured (e_link_type e) (e_direction e) (e_hook e)
      (e_parse_status e) fl (e_tuple e) prefix in
  if want =? 0 then (e, false)
  else
    let '(rc, loaded) := bpf_skb_load_bytes skb 0 want in
    if rc =? 0 then
      (set (u16 want)
         (if want <? skb_len skb then u8 (Z.lor (e_flags e) ES_E_PREFIX_TRUNCATED) else e_flags e)
         (loaded ++ drop (length loaded) (e_prefix e)), false)
    else
      (set (e_captured_len e) (u8 (Z.lor (e_flags e) ES_E_COPY_FAILED))
         (replicate (Z.to_nat ES_SNAPSHOT_MAX) 0), true).

(** The event before the snapshot. *)
Definition fill_event (skb : sk_buff) (direction : Z) (tk : tick) (seq now status : Z)
    (tuple : es_tuple) : es_event :=
  mk_event now seq (skb_ifindex skb) (skb_len skb) (cpu_id tk) ES_ABI_VERSION 216 0
    ES_LINKTYPE_ETHERNET (u8 direction) ES_HOOK_TC (u8 status)
    (if skb_vlan_present skb =? 0 then 0 else u8 (Z.lor 0 ES_E_VLAN_STRIPPED))
    tuple (replicate (Z.to_nat ES_SNAPSHOT_MAX) 0).

(** Selection, sampling and publication ([n = sample_every]). *)
Definition es_publish (cfg : config) (skb : sk_buff) (direction : Z) (tk : tick)
    (seq status : Z) (tuple : es_tuple) (st : obs_state) : Z * obs_state :=
  if negb (select_l4_proto cfg =? 0) &&
     (negb (status =? ES_PARSE_OK) || negb (t_l4_proto tuple =? select_l4_proto cfg))
  then (ES_TC_NEXT, st)
  else
    let selected := u64 (counter_get direction ES_C_SELECTED st + 1) in
    let st := counter_add direction ES_C_SELECTED 1 st in
    if (sample_every cfg =? 0) || negb (selected mod sample_every cfg =? 0) then (ES_TC_NEXT, st)
    else if negb (ring_has_room tk) then
      (ES_TC_NEXT, counter_add direction ES_C_RING_LOST 1 st)
    else
      let e := fill_event skb direction tk seq (ktime_ns tk) status tuple in
      let '(e, failed) := take_snapshot cfg skb e in
      let st := if failed : bool then counter_add direction ES_C_SNAPSHOT_FAILED 1 st else st in
      let st := mk_obs (counters st) (flows st) (events st ++ [e]) in
      (ES_TC_NEXT, counter_add direction ES_C_EVENTS 1 st).

(** [es_observe(skb, direction)]: the verdict and the state after, [None]
    if the parser made a faulting access. *)
Definition es_observe (cfg : config) (skb : sk_buff) (direction : Z) (tk : tick)
    (st : obs_state) : option (Z * obs_state) :=
  match counters st !! direction with
  | None => Some (ES_TC_NEXT, st)
  | Some _ =>
    let seq := u64 (counter_get direction ES_C_PACKETS st + 1) in
    let st := counter_add direction ES_C_PACKETS 1 st in
    let st := counter_add direction ES_C_BYTES (skb_len skb) st in
    let classified :=
      if negb (classify cfg =? 0) || negb (flow_enabled cfg =? 0) ||
         negb (select_l4_proto cfg =? 0)
      then
        '(status, tuple) ← load_and_parse skb;
        Some (status, tuple,
          if status =? ES_PARSE_MALFORMED then counter_add direction ES_C_PARSE_MALFORMED 1 st
          else if negb (status =? ES_PARSE_OK) then counter_add direction ES_C_PARSE_PARTIAL 1 st
          else st)
      else Some (ES_PARSE_SKIPPED, zero_tuple, st) in
    '(status, tuple, st) ← classified;
    let st :=
      if negb (flow_enabled cfg =? 0) && (status =? ES_PARSE_OK)
      then es_count_flow skb direction tuple (ktime_ns tk) st else st in
    Some (es_publish cfg skb direction tk seq status tuple st)
  end.

(** ** Runs

    The packets one CPU sees on one hook, in order. *)
Fixpoint observe_all (cfg : config) (direction : Z) (trace : list (sk_buff * tick))
    (st : obs_state) : option obs_state :=
  match trace with
  | [] => Some st
  | (skb, tk) :: trace =>
    '(_, st) ← es_observe cfg skb direction tk st;
    observe_all cfg direction trace st
  end.

Definition es_ingress cfg skb tk st := es_observe cfg skb ES_INGRESS tk st.
Definition es_egress cfg skb tk st := es_observe cfg skb ES_EGRESS tk st.

End Observer.
