(* ===== verification/Samples.v ===== *)
(** * Concrete inputs

    Frames, hosts and kernel helpers on which the theorems are instantiated:
    a little-endian host, helpers that copy in bounds, and an unbounded flow
    table. *)
From S2P Require Import Prelude Abi PacketParser ParserFacts Frames Dissector Language TelemetryTypes TcObserver.

Definition little_endian_host : Host := false.

(** An Ethernet/IPv4/UDP frame of 42 bytes: 192.0.2.1:1000 to 192.0.2.2:53. *)
Definition udp_frame : bytes :=
  [2; 0; 0; 0; 0; 1; 2; 0; 0; 0; 0; 2; 0x08; 0x00;
   0x45; 0; 0; 28; 0; 1; 0; 0; 64; 17; 0; 0; 192; 0; 2; 1; 192; 0; 2; 2;
   0x03; 0xe8; 0; 53; 0; 8; 0; 0].

Definition udp_tuple : es_tuple :=
  mk_tuple ([192; 0; 2; 1] ++ replicate 12 0) ([192; 0; 2; 2] ++ replicate 12 0)
    [0x03; 0xe8] [0; 53] 0x0800 [0; 0] 4 17 7 0 0.

Example udp_frame_parses : es_parse udp_frame 42 42 false 0 = Some (ES_PARSE_OK, udp_tuple).
Proof. vm_compute. reflexivity. Qed.

Lemma udp_frame_ok : bytes_ok udp_frame.
Proof. apply (bool_decide_unpack _). vm_compute. exact I. Qed.

(** ** The parser's theorems on this frame *)
Lemma es_parse_safe_witness :
  exists rc t, es_parse udp_frame 40 42 true 7 = Some (rc, t) /\ es_contract rc t.
Proof.
  apply es_parse_safe; [apply udp_frame_ok|simpl; lia|unfold in_width; lia].
Defined.

Lemma es_parse_flags_witness :
  has_flag ES_T_PORTS_VALID udp_tuple = true /\
  (t_l4_proto udp_tuple = 6 \/ t_l4_proto udp_tuple = 17).
Proof.
  split; [reflexivity|].
  destruct (es_parse_flags udp_frame 42 42 false 0 ES_PARSE_OK udp_tuple udp_frame_ok
    ltac:(simpl; lia) ltac:(unfold in_width; lia) udp_frame_parses) as (_ & _ & _ & _ & _ & Hp & _).
  apply Hp. reflexivity.
Defined.

Lemma es_parse_prefix_witness :
  es_parse (udp_frame ++ [9; 9]) 44 42 false 0 = Some (ES_PARSE_OK, udp_tuple).
Proof.
  apply (es_parse_prefix udp_frame (udp_frame ++ [9; 9]) 42 44 42 false 0);
    [by apply prefix_app_r|apply udp_frame_ok|simpl; lia|lia|unfold in_width; lia| |done].
  apply udp_frame_parses.
Defined.

Lemma es_parse_reads_prefix_witness :
  es_parse (take 42 udp_frame ++ [1; 2; 3]) 42 60 false 0 = es_parse udp_frame 42 60 false 0.
Proof.
  apply es_parse_reads_prefix; [apply udp_frame_ok|simpl; lia|unfold in_width; lia|].
  by apply prefix_app_r.
Defined.

(** A doubly tagged IPv6/TCP frame with one destination-options header. *)
Definition tcp6_frame : frame :=
  mk_frame (replicate 12 2) [(0x88a8, 0x2005); (0x8100, 0x3007)]
    (Ipv6 0 [0; 0; 0] 64 (replicate 16 1) (replicate 16 2) [(60, 0, [1; 4; 0; 0; 0; 0])])
    (Tcp 443 50000 (replicate 8 0) 0x50 (replicate 7 0)) [0; 0].

Lemma tcp6_frame_ok : frame_ok tcp6_frame.
Proof.
  split; [done|split; [|split; [|split; [|split]]]].
  - repeat constructor; simpl; unfold in_width; auto; lia.
  - split_and!; try done; try (simpl; lia).
    repeat constructor; unfold is_byte; simpl; auto; lia.
  - split_and!; unfold in_width, is_byte; try done; vm_compute; discriminate.
  - apply (bool_decide_unpack _). vm_compute. exact I.
  - vm_compute. reflexivity.
Qed.

Lemma es_parse_emit_witness :
  es_parse (emit tcp6_frame) 128 (Z.of_nat (length (emit tcp6_frame))) false 0 =
    Some (ES_PARSE_OK, tuple_of tcp6_frame false 0).
Proof.
  apply es_parse_emit; [apply tcp6_frame_ok|unfold is_byte; simpl; lia|simpl; lia|..];
    vm_compute; discriminate.
Defined.

(** A dissection that ends in an error: the same packet with its last 20 bytes not captured. *)
Lemma es_parse_dissect_witness :
  es_parse udp_frame 22 42 false 0 = Some (dissect (take 22 udp_frame) 42 false 0).
Proof.
  apply (es_parse_dissect udp_frame 22 42); [apply udp_frame_ok|simpl; lia|unfold in_width; lia].
Defined.

(** A request for 10.0.0.2 from 10.0.0.1 in VLAN 5, padded. *)
Definition arp_request : arp := mk_arp [0; 1] (replicate 6 2) [10; 0; 0; 1] (replicate 6 0) [10; 0; 0; 2].
Definition arp_packet : bytes :=
  tagged_bytes (replicate 12 2) [(0x8100, 5)] 0x0806 (arp_bytes arp_request ++ replicate 14 0).

Lemma es_parse_language_witness :
  es_parse arp_packet 46 60 false 0 = Some (ES_PARSE_OK, arp_tuple arp_request [5]) <->
  exists need, accepted false 0 arp_packet need (arp_tuple arp_request [5]) /\ need <= ES_PARSE_BYTES /\ need <= 46.
Proof.
  apply (es_parse_language arp_packet 46 false 0); [|vm_compute; reflexivity|vm_compute; split; discriminate].
  apply (bool_decide_unpack _). vm_compute. exact I.
Defined.

(** The witness is about an accepted packet; with one byte less it is not. *)
Example arp_packet_accepted :
  es_parse arp_packet 46 60 false 0 = Some (ES_PARSE_OK, arp_tuple arp_request [5]) /\
  (fst <$> es_parse arp_packet 45 60 false 0) = Some ES_PARSE_TRUNCATED.
Proof. by vm_compute. Qed.

Lemma udp_tuple_ok : tuple_ok udp_tuple.
Proof.
  constructor; simpl; unfold in_width; try lia; split; try done;
    first [apply (bool_decide_unpack _); vm_compute; exact I|repeat constructor; lia].
Qed.

(** A record a hook may have published, and its image. *)
Definition udp_event : es_event :=
  mk_event 5 1 3 42 0 2 216 0 1 0 1 0 0 udp_tuple (replicate 128 0).

Lemma udp_event_ok : c_ok (event_codec (H:=little_endian_host)) udp_event.
Proof.
  apply event_codec_ok; unfold in_width; try (simpl; lia); try done.
  - apply udp_tuple_ok.
  - apply bytes_ok_zeros with (n := 128%nat).
Qed.

Definition udp_image : bytes := c_enc (event_codec (H:=little_endian_host)) udp_event.

Lemma DecodeEvent_accepts_witness :
  DecodeEvent (H:=little_endian_host) (Some udp_image) 216 = Some udp_event.
Proof.
  apply (DecodeEvent_accepts (H:=little_endian_host)).
  - apply c_enc_bytes, udp_event_ok.
  - unfold udp_image. rewrite c_enc_length by apply udp_event_ok. reflexivity.
  - split; [apply udp_event_ok|split; [reflexivity|]].
    constructor; simpl; unfold ES_PARSE_SKIPPED, ES_DIRECTIONS, ES_SNAPSHOT_MAX; try lia; auto.
Defined.

(** A packet of these bytes on interface 3, without VLAN metadata. *)
Definition sample_skb : sk_buff := mk_skb 42 udp_frame 3 0 0.

Lemma sample_skb_ok : skb_ok sample_skb.
Proof. split; unfold in_width; simpl; [lia|done|apply udp_frame_ok|lia]. Qed.

Definition sample_tick : tick := mk_tick 1000 0 true.

(** In-bounds copies succeed, others fail and leave zeros; a [gmap] as the
    flow table. *)
#[global] Instance sample_helpers : BpfHelpers := {|
  bpf_skb_load_bytes skb off n :=
    if bool_decide (0 <= off /\ 0 <= n /\ off + n <= Z.of_nat (length (skb_data skb)))
    then (0, take (Z.to_nat n) (drop (Z.to_nat off) (skb_data skb)))
    else (-14, replicate (Z.to_nat n) 0);
  flow_map := gmap es_flow_key es_flow_value;
  flow_lookup m k := m !! k;
  flow_update_noexist m k v := match m !! k with Some _ => m | None => <[k := v]> m end;
  flow_store m k v := <[k := v]> m;
|}.

#[global] Instance sample_helpers_ok : BpfHelpersOk.
Proof.
  split; cbn [sample_helpers bpf_skb_load_bytes flow_lookup flow_update_noexist flow_store].
  - intros skb off n Hn. case_bool_decide; cbn [snd].
    + rewrite length_take, length_drop. lia.
    + apply length_replicate.
  - intros skb off n Ho Hn. case_bool_decide; cbn [fst snd]; [intros _; split; [done|lia]|done].
  - intros m k v k' _. destruct (decide (k = k')) as [->|].
    + by rewrite lookup_insert_eq.
    + by rewrite lookup_insert_ne.
  - intros m k v v' -> E. rewrite lookup_insert_eq in E. congruence.
  - intros m k v k' Hk. right. case_match; [reflexivity|]. by rewrite lookup_insert_ne.
Qed.

(** Sampling every packet, with snapshots and flow accounting. *)
Definition sample_config : config := mk_config 1 64 1 1 0.

Definition fresh_counters : gmap Z (list Z) :=
  {[ ES_INGRESS := replicate ES_C_MAX 0; ES_EGRESS := replicate ES_C_MAX 0 ]}.

Definition fresh_state : obs_state := mk_obs fresh_counters (empty : gmap es_flow_key es_flow_value) [].
