(* ===== verification/Tests.v ===== *)
(** * The repository's tests, on the model ([src/tests/ebpf])

    [parser_test.cpp] and [decoder_test.cpp] are run on the definitions, and
    [parser_fuzz.cpp] is proved never to fail, whatever the random numbers are.
    [None] is an assertion that fails, an exception or an access out of bounds. *)
From S2P Require Import Prelude Abi PacketParser ParserFacts TelemetryTypes Samples.

(** ** [abi_c.c]: the exit code *)
Definition abi_c_main : Z := if ES_ABI_VERSION =? 2 then 0 else 1.

Example abi_c_passes : abi_c_main = 0.
Proof. reflexivity. Qed.

(** ** [parser_test.cpp] *)

(** [b.at(i) = v]. *)
Definition at_ (i : nat) (v : Z) (b : bytes) : option bytes :=
  if decide (i < length b)%nat then Some (<[i := u8 v]> b) else None.

Definition U16 (i : nat) (v : Z) (b : bytes) : option bytes :=
  b ← at_ i (Z.shiftr v 8) b; at_ (i + 1) v b.

Definition V4 (tcp : bool) : option bytes :=
  b ← U16 12 0x0800 (replicate (if tcp then 54 else 42) 0);
  b ← at_ 14 0x45 b;
  b ← U16 16 (if tcp then 40 else 28) b; b ← at_ 23 (if tcp then 6 else 17) b;
  b ← at_ 26 192 b; b ← at_ 29 1 b; b ← at_ 30 192 b; b ← at_ 33 2 b;
  b ← U16 34 12345 b; b ← U16 36 443 b;
  if tcp then at_ 46 0x50 b else U16 38 8 b.

Definition V6 (extensions : nat) : option bytes :=
  b ← U16 12 0x86dd (replicate (62 + extensions * 8) 0);
  b ← at_ 14 0x60 b;
  b ← U16 18 (8 + Z.of_nat extensions * 8) b; b ← at_ 20 (if bool_decide (extensions = 0%nat) then 17 else 0) b;
  b ← at_ 22 0x20 b; b ← at_ 38 0x20 b;
  b ← foldl (fun b i => b ≫= at_ (54 + i * 8) (if bool_decide (i + 1 = extensions)%nat then 17 else 0))
        (Some b) (seq 0 extensions);
  let off := (54 + extensions * 8)%nat in
  b ← U16 off 12345 b; b ← U16 (off + 2) 443 b; U16 (off + 4) 8 b.

Definition Tagged (b : bytes) (n : nat) : bytes :=
  take 12 b ++ flat_map (fun i => [0x81; 0x00; 0x00; u8 (Z.of_nat i + 1)]) (seq 0 n) ++ drop 12 b.

Definition Parse (b : bytes) (stripped : bool) : option (Z * es_tuple) :=
  es_parse b (Z.of_nat (length b)) (Z.of_nat (length b)) stripped 7.

Definition flag (f : Z) (t : es_tuple) : bool := negb (Z.land (t_flags t) f =? 0).

(** [assert(Parse(b, t, stripped) == rc && f(t))]. *)
Definition expect (b : bytes) (stripped : bool) (rc : Z) (f : es_tuple -> bool) : option unit :=
  '(rc', t) ← Parse b stripped; assert_ ((rc' =? rc) && f t).

Definition any_tuple (t : es_tuple) : bool := true.

Definition parser_test : option unit :=
  v4 ← V4 false;
  expect v4 false ES_PARSE_OK (fun t => flag ES_T_PORTS_VALID t && bool_decide (t_sport t = [48; 57]) &&
    (t_ip_version t =? 4) && (t_l4_proto t =? 17));;
  b ← U16 20 0x4000 v4; expect b false ES_PARSE_OK any_tuple;;
  b ← U16 20 0x2000 v4; expect b false ES_PARSE_FRAGMENT (fun t => negb (flag ES_T_PORTS_VALID t));;
  b ← U16 20 1 v4; expect b false ES_PARSE_FRAGMENT any_tuple;;
  b ← at_ 14 0x44 v4; expect b false ES_PARSE_MALFORMED any_tuple;;
  b ← U16 16 1000 v4; expect b false ES_PARSE_MALFORMED any_tuple;;
  b ← U16 38 7 v4; expect b false ES_PARSE_MALFORMED any_tuple;;
  tcp ← V4 true;
  expect tcp false ES_PARSE_OK (fun t => t_l4_proto t =? 6);;
  b ← at_ 46 0x40 tcp; expect b false ES_PARSE_MALFORMED any_tuple;;
  foldl (fun r cap => r;; '(rc, _) ← es_parse v4 (Z.of_nat cap) 42 false 0; assert_ (rc =? ES_PARSE_TRUNCATED))
    (Some tt) (seq 0 42);;
  expect (replicate 4 0) false ES_PARSE_MALFORMED any_tuple;;
  foldl (fun r n => r;; expect (Tagged v4 n) false ES_PARSE_OK (fun t => t_vlan_count t =? Z.of_nat n))
    (Some tt) (seq 0 3);;
  expect (Tagged v4 3) false ES_PARSE_UNSUPPORTED any_tuple;;
  expect (Tagged v4 1) true ES_PARSE_OK (fun t => (t_vlan_count t =? 2) && (nth 0 (t_vlan t) 0 =? 7));;
  expect (Tagged v4 2) true ES_PARSE_UNSUPPORTED any_tuple;;
  foldl (fun r n => r;; b ← V6 n; expect b false ES_PARSE_OK (fun t => t_ip_version t =? 6)) (Some tt) (seq 0 5);;
  b ← V6 5; expect b false ES_PARSE_UNSUPPORTED any_tuple;;
  b ← V6 1; b ← at_ 20 44 b; expect b false ES_PARSE_FRAGMENT (fun t => negb (flag ES_T_PORTS_VALID t));;
  v6 ← V6 0;
  b ← at_ 20 50 v6; expect b false ES_PARSE_UNSUPPORTED any_tuple;;
  b ← U16 18 0 v6; expect b false ES_PARSE_UNSUPPORTED any_tuple;;
  b ← at_ 14 0x40 v6; expect b false ES_PARSE_MALFORMED any_tuple;;
  b ← U16 12 0x0806 (replicate 42 0); b ← U16 14 1 b; b ← U16 16 0x0800 b;
  b ← at_ 18 6 b; b ← at_ 19 4 b; b ← at_ 28 192 b; b ← at_ 38 192 b;
  expect b false ES_PARSE_OK (fun t => flag ES_T_ADDR_VALID t && negb (flag ES_T_PORTS_VALID t));;
  b ← U16 12 0x88b5 (replicate 14 0); expect b false ES_PARSE_UNSUPPORTED any_tuple.

Example parser_test_passes : parser_test = Some tt.
Proof. vm_compute. reflexivity. Qed.

(** ** [decoder_test.cpp] *)
Section Decoder.
Context `{Host}.

(** [Good()] with its header and tuple flags as given. *)
Definition event_with (abi size captured direction hook flags tuple_flags first : Z) : es_event :=
  mk_event 0 0 3 42 0 abi size captured ES_LINKTYPE_ETHERNET direction hook ES_PARSE_OK flags
    (set_flags tuple_flags zero_tuple) (first :: replicate 127 0).

Definition accepts (e : es_event) (size : Z) : bool :=
  bool_decide (is_Some (DecodeEvent (Some (c_enc event_codec e)) size)).

Definition decoder_test : option unit :=
  let n := sizeof_es_event in
  let ok := event_with ES_ABI_VERSION n 0 0 ES_HOOK_TC 0 0 0 in
  assert_ (accepts ok n);;
  assert_ (negb (bool_decide (is_Some (DecodeEvent None n))));;
  assert_ (negb (accepts ok (n - 1)));;
  assert_ (negb (accepts (event_with 1 n 0 0 ES_HOOK_TC 0 0 0) n));;
  assert_ (negb (accepts (event_with ES_ABI_VERSION 32 0 0 ES_HOOK_TC 0 0 0) n));;
  assert_ (negb (accepts (event_with ES_ABI_VERSION n 0 2 ES_HOOK_TC 0 0 0) n));;
  assert_ (negb (accepts (event_with ES_ABI_VERSION n 0 0 99 0 0 0) n));;
  assert_ (negb (accepts (event_with ES_ABI_VERSION n 43 0 ES_HOOK_TC 0 0 0) n));;
  assert_ (negb (accepts (event_with ES_ABI_VERSION n 1 0 ES_HOOK_TC ES_E_COPY_FAILED 0 0) n));;
  assert_ (negb (accepts (event_with ES_ABI_VERSION n 0 0 ES_HOOK_TC 0 ES_T_PORTS_VALID 0) n));;
  let e := event_with ES_ABI_VERSION n 4 0 ES_HOOK_TC 0 0 0x42 in
  out ← DecodeEvent (Some (drop 1 (0 :: c_enc event_codec e))) n;
  assert_ (nth 0 (e_prefix out) 0 =? 0x42).
End Decoder.

Example decoder_test_passes : forall big_endian : bool, decoder_test (H := big_endian) = Some tt.
Proof. intros []; vm_compute; reflexivity. Qed.

(** ** [parser_fuzz.cpp]

    [rng i] is the [i]-th number drawn; the loop threads the position. *)
Section Fuzz.
Context (rng : nat -> Z).

Definition fuzz_bytes (run : nat) (cap : Z) (i : nat) : bytes :=
  let b := map (fun k => u8 (rng (i + k))) (seq 0 (Z.to_nat cap)) in
  let b := if (14 <=? cap) && (run mod 2 =? 0)%nat then <[13%nat := 0x00]> (<[12%nat := 0x08]> b) else b in
  if (14 <=? cap) && (run mod 3 =? 0)%nat then <[13%nat := 0xdd]> (<[12%nat := 0x86]> b) else b.

Definition fuzz_run (run i : nat) : option nat :=
  let cap := rng i mod (ES_PARSE_BYTES + 1) in
  let b := fuzz_bytes run cap (S i) in
  let i := (S i + Z.to_nat cap)%nat in
  let original := u32 (cap + rng i mod 2048) in
  '(rc, t) ← es_parse b cap original (negb (rng (S i) mod 2 =? 0)) (Z.land (rng (S (S i))) 0xfff);
  assert_ ((ES_PARSE_OK <=? rc) && (rc <=? ES_PARSE_FRAGMENT));;
  assert_ (t_vlan_count t <=? 2);;
  (if flag ES_T_PORTS_VALID t then
     assert_ (flag ES_T_ADDR_VALID t && negb (flag ES_T_FRAGMENT t));;
     assert_ ((t_l4_proto t =? 6) || (t_l4_proto t =? 17))
   else Some tt);;
  Some (S (S (S i))).

Definition parser_fuzz (runs : nat) : option nat :=
  foldl (fun i run => i ≫= fuzz_run run) (Some 0%nat) (seq 0 runs).

Lemma fuzz_bytes_ok run cap i : 0 <= cap ->
  Z.of_nat (length (fuzz_bytes run cap i)) = cap /\ bytes_ok (fuzz_bytes run cap i).
Proof.
  intros Hc. unfold fuzz_bytes. set (b := map _ _).
  assert (Hb : Z.of_nat (length b) = cap /\ bytes_ok b).
  { subst b. rewrite length_map, length_seq. split; [lia|]. apply Forall_forall. intros x Hx.
    apply in_map_iff in Hx as (k & <- & _). apply wrap_range. lia. }
  assert (Hset : forall a x y, is_byte x -> is_byte y -> Z.of_nat (length a) = cap /\ bytes_ok a ->
    Z.of_nat (length (<[13%nat := y]> (<[12%nat := x]> a))) = cap /\ bytes_ok (<[13%nat := y]> (<[12%nat := x]> a))).
  { intros a x y Hx Hy [Hl Ha]. rewrite !length_insert. split; [done|]. by repeat apply Forall_insert. }
  cbv zeta. repeat case_match; repeat apply Hset; done || (unfold is_byte; lia).
Qed.

Lemma fuzz_run_passes run i : is_Some (fuzz_run run i).
Proof.
  unfold fuzz_run. cbv zeta. set (cap := rng i mod _).
  assert (Hc : 0 <= cap < ES_PARSE_BYTES + 1) by (apply Z.mod_pos_bound; unfold ES_PARSE_BYTES; lia).
  destruct (fuzz_bytes_ok run cap (S i) (proj1 Hc)) as [Hl Hb].
  set (original := u32 _). set (sv := negb _). set (vid := Z.land _ _).
  assert (Ho : in_width 32 original) by apply u32_width.
  destruct (es_parse_run (fuzz_bytes run cap (S i)) cap original sv vid Hb ltac:(lia) Ho) as (rc & t & -> & HC).
  cbn [mbind option_bind]. unfold flag.
  destruct HC as [? ? Hrc HI|? ? ? Hrc ? HI|? ? ? Hrc ? HI|? ? ? HI|? ? ? Hp HI]; destruct HI as [_ ? -> ? ? ?].
  1-3: destruct_or! Hrc; subst.
  all: cbn; rewrite (proj2 (Z.leb_le (t_vlan_count t) 2)) by lia; cbn; try by eexists.
  all: by destruct Hp as [-> | ->]; eexists.
Qed.

(** The fuzz target never fails, for any number of runs. *)
Theorem parser_fuzz_passes runs : is_Some (parser_fuzz runs).
Proof.
  unfold parser_fuzz. generalize 0%nat at 1. generalize (seq 0 runs). intros l.
  induction l as [|run l IH]; intros i; [by eexists|]. cbn.
  destruct (fuzz_run_passes run i) as [i' ->]. apply IH.
Qed.
End Fuzz.
