(* ===== verification/ObserverFacts.v ===== *)
(** * Correctness of the passive TC observer

    One invocation: it always passes the packet on, counts it, and publishes
    at most one event, whose content is [published].  A run over a sequence
    of packets: the accounting identities between the counters, and the
    decoder's acceptance of everything that was published. *)
From S2P Require Import Prelude Abi PacketParser ParserFacts TelemetryTypes TcObserver.

Record config_ok (cfg : config) : Prop := {
  cfg_sample : in_width 32 (sample_every cfg);
  cfg_snapshot : in_width 32 (snapshot_bytes cfg);
}.

Record tick_ok (tk : tick) : Prop := {
  tk_time : in_width 64 (ktime_ns tk);
  tk_cpu : in_width 32 (cpu_id tk);
}.

Section Facts.
Context `{HH : BpfHelpers, HK : !BpfHelpersOk, HE : Host}.

(** ** Counters *)
Definition has_counters (key : Z) (st : obs_state) : Prop :=
  exists v, counters st !! key = Some v /\ length v = ES_C_MAX.

Lemma has_counters_add key k c n st : has_counters key st -> has_counters key (counter_add k c n st).
Proof.
  intros (v & Hv & Hl). unfold has_counters, counter_add. cbn [counters].
  destruct (decide (k = key)) as [->|].
  - rewrite lookup_alter_eq, Hv. eexists. split; [done|]. by rewrite length_alter.
  - rewrite lookup_alter_ne by done. eauto.
Qed.

Lemma nth_alter (l : list Z) (f : Z -> Z) i j : (j < length l)%nat ->
  nth i (alter f j l) 0 = if decide (i = j) then f (nth i l 0) else nth i l 0.
Proof.
  intros Hj. rewrite !nth_lookup. case_decide as E.
  - subst. rewrite list_lookup_alter_eq. destruct (lookup_lt_is_Some_2 _ _ Hj) as [x ->]. done.
  - by rewrite list_lookup_alter_ne.
Qed.

Lemma counter_get_add key c c' n st : has_counters key st ->
  counter_get key c (counter_add key c' n st) =
    if decide (counter_index c = counter_index c') then u64 (counter_get key c st + n)
    else counter_get key c st.
Proof.
  intros (v & Hv & Hl). unfold counter_get, counter_add. simpl.
  rewrite lookup_alter_eq, Hv. simpl. apply nth_alter. rewrite Hl. unfold ES_C_MAX. destruct c'; simpl; lia.
Qed.

Lemma counter_get_add_other key k c c' n st : key <> k ->
  counter_get key c (counter_add k c' n st) = counter_get key c st.
Proof. intros Hk. unfold counter_get, counter_add. simpl. by rewrite lookup_alter_ne. Qed.

Lemma counter_get_maps key c st m es :
  counter_get key c (mk_obs (counters st) m es) = counter_get key c st.
Proof. done. Qed.

Lemma has_counters_maps key st m es :
  has_counters key st -> has_counters key (mk_obs (counters st) m es).
Proof. done. Qed.

Lemma events_add k c n st : events (counter_add k c n st) = events st.
Proof. done. Qed.

(** Evaluates counters after a sequence of additions. *)
Ltac counters_simpl :=
  repeat first
    [ rewrite counter_get_maps
    | rewrite counter_get_add by auto using has_counters_add, has_counters_maps;
      cbn [counter_index]; first [rewrite decide_True by done|rewrite decide_False by done] ].

(** What a change of state leaves alone: the ring, and every counter of [dir] but those [P]. *)
Definition kept (P : es_counter_id -> Prop) (dir : Z) (st st' : obs_state) : Prop :=
  has_counters dir st' /\ events st' = events st /\
  forall c, ~ P c -> counter_get dir c st' = counter_get dir c st.

Lemma kept_refl P dir st : has_counters dir st -> kept P dir st st.
Proof. intros Hc. unfold kept. auto. Qed.

Lemma kept_count_flow skb dir tuple now st : has_counters dir st ->
  kept (fun c => c = ES_C_FLOW_UPDATE_FAILED) dir st (es_count_flow skb dir tuple now st).
Proof.
  intros Hc. unfold es_count_flow. case_match; [by apply kept_refl|]. case_match; [unfold kept; auto|].
  unfold kept.
  split_and!; [by apply has_counters_add|done|]. intros c Hne.
  rewrite counter_get_add by done. rewrite decide_False; [done|]. by destruct c.
Qed.

(** ** Classification *)
Definition classifying (cfg : config) : bool :=
  negb (classify cfg =? 0) || negb (flow_enabled cfg =? 0) || negb (select_l4_proto cfg =? 0).

(** The status and tuple an invocation works with. *)
Definition classification (cfg : config) (skb : sk_buff) : option (Z * es_tuple) :=
  if classifying cfg then load_and_parse skb else Some (ES_PARSE_SKIPPED, zero_tuple).

Definition classified_ok (status : Z) (tuple : es_tuple) : Prop :=
  (status = ES_PARSE_SKIPPED /\ tuple = zero_tuple) \/ es_contract status tuple.

Lemma load_and_parse_ok skb : skb_ok skb ->
  exists status tuple, load_and_parse skb = Some (status, tuple) /\ es_contract status tuple.
Proof.
  intros [[Hl0 Hl1] Hd Hb _]. unfold load_and_parse, ES_PARSE_BYTES.
  set (cap := if 128 <? skb_len skb then 128 else skb_len skb).
  assert (Hcap : 0 <= cap <= 128) by (subst cap; case_match; lia).
  pose proof (load_length skb 0 cap) as Hll. pose proof (load_success skb 0 cap) as Hls.
  destruct (bpf_skb_load_bytes skb 0 cap) as [rc loaded]. simpl in *.
  destruct (negb (cap =? 0) && (rc =? 0)) eqn:E.
  - destruct (Hls ltac:(lia) ltac:(lia) ltac:(lia)) as [-> Hle]. apply es_parse_run.
    + apply bytes_ok_app. auto with es.
    + rewrite length_app, length_take, length_drop. lia.
    + split; lia.
  - eexists _, _. split; [done|]. apply contract_nothing; [auto|apply pinv_zero].
Qed.

Lemma classification_ok cfg skb : skb_ok skb ->
  exists status tuple, classification cfg skb = Some (status, tuple) /\ classified_ok status tuple.
Proof.
  intros Hs. unfold classification. case_match.
  - destruct (load_and_parse_ok skb Hs) as (status & tuple & E & HC). exists status, tuple.
    split; [done|by right].
  - eexists _, _. split; [done|by left].
Qed.

(** ** The phases before publication *)
Definition count_status (dir status : Z) (st : obs_state) : obs_state :=
  if status =? ES_PARSE_MALFORMED then counter_add dir ES_C_PARSE_MALFORMED 1 st
  else if (status =? ES_PARSE_OK) || (status =? ES_PARSE_SKIPPED) then st
  else counter_add dir ES_C_PARSE_PARTIAL 1 st.

Definition count_packet (dir len : Z) (st : obs_state) : obs_state :=
  counter_add dir ES_C_BYTES len (counter_add dir ES_C_PACKETS 1 st).

Definition count_flow_when (cfg : config) skb dir tk status tuple st : obs_state :=
  if negb (flow_enabled cfg =? 0) && (status =? ES_PARSE_OK)
  then es_count_flow skb dir tuple (ktime_ns tk) st else st.

Lemma es_observe_phases cfg skb dir tk st :
  skb_ok skb -> has_counters dir st ->
  exists status tuple,
    classification cfg skb = Some (status, tuple) /\ classified_ok status tuple /\
    es_observe cfg skb dir tk st =
      Some (es_publish cfg skb dir tk (u64 (counter_get dir ES_C_PACKETS st + 1)) status tuple
        (count_flow_when cfg skb dir tk status tuple
          (count_status dir status (count_packet dir (skb_len skb) st)))).
Proof.
  intros Hs (v & Hv & _). unfold es_observe, count_status. rewrite Hv.
  fold (classifying cfg). fold (count_packet dir (skb_len skb) st).
  destruct (classification_ok cfg skb Hs) as (status & tuple & E & HC). exists status, tuple.
  split; [done|split; [done|]]. revert E. unfold classification.
  destruct (classifying cfg).
  - intros E. rewrite E. simpl. unfold count_flow_when. do 3 f_equal.
    destruct (load_and_parse_ok skb Hs) as (rc & t & E' & HC'). rewrite E in E'.
    injection E' as <- <-. assert (Hne : status <> ES_PARSE_SKIPPED).
    { unfold ES_PARSE_SKIPPED. intros ->.
      by inversion HC'; subst; repeat match goal with H : _ \/ _ |- _ => destruct H end. }
    rewrite (proj2 (Z.eqb_neq _ _) Hne), orb_false_r. by destruct (status =? ES_PARSE_OK).
  - intros [= <- <-]. simpl. done.
Qed.

(** ** Publication *)

(** What a published event says of the packet it was taken from. *)
Record published (cfg : config) (skb : sk_buff) (dir : Z) (tk : tick) (e : es_event) : Prop := {
  pub_time : e_timestamp_mono_ns e = ktime_ns tk;
  pub_ifindex : e_ifindex e = skb_ifindex skb;
  pub_len : e_original_len e = skb_len skb;
  pub_dir : e_direction e = dir;
  pub_cpu : e_cpu e = cpu_id tk;
  pub_class : classification cfg skb = Some (e_parse_status e, e_tuple e);
  pub_captured : e_captured_len e = 0 \/
    e_captured_len e = Z.min (Z.min (snapshot_bytes cfg) ES_SNAPSHOT_MAX) (skb_len skb);
  pub_prefix : e_prefix e = take (Z.to_nat (e_captured_len e)) (skb_data skb) ++
    replicate (Z.to_nat (ES_SNAPSHOT_MAX - e_captured_len e)) 0;
  pub_truncated : Z.land (e_flags e) ES_E_PREFIX_TRUNCATED <> 0 <->
    0 < e_captured_len e < e_original_len e;
  pub_valid : event_valid e;
  pub_ok : c_ok event_codec e;
}.

Lemma contract_flags status tuple : classified_ok status tuple ->
  tuple_ok tuple /\ 0 <= status <= ES_PARSE_SKIPPED /\ t_vlan_count tuple <= 2 /\
  t_reserved tuple = 0 /\ Z.land (t_flags tuple) (Z.lnot 15) = 0 /\
  (Z.land (t_flags tuple) ES_T_PORTS_VALID <> 0 ->
    Z.land (t_flags tuple) ES_T_ADDR_VALID <> 0 /\ Z.land (t_flags tuple) ES_T_FRAGMENT = 0 /\
    (t_l4_proto tuple = 6 \/ t_l4_proto tuple = 17)).
Proof.
  intros [[-> ->]|HC].
  { split_and!; try done. apply zero_tuple_ok. }
  unfold ES_PARSE_SKIPPED.
  destruct HC as [? ? Hrc HI|? ? ? Hrc ? HI|? ? ? Hrc ? HI|? ? ? HI|? ? ? ? HI];
    destruct HI as [Hok Hv -> [_ Hc] ? Hr]; try destruct_or! Hrc; subst; (split; [done|]);
    (split; [done|]); (split; [done|]);
    cbn; (split; [done|]); intros; try done; auto.
Qed.

Definition base_flags (skb : sk_buff) : Z :=
  if skb_vlan_present skb =? 0 then 0 else ES_E_VLAN_STRIPPED.

Lemma base_flags_cases skb : base_flags skb = 0 \/ base_flags skb = 4.
Proof. unfold base_flags. destruct (skb_vlan_present skb =? 0); auto. Qed.

Definition event_with (skb : sk_buff) dir tk seq status tuple captured fl prefix : es_event :=
  mk_event (ktime_ns tk) seq (skb_ifindex skb) (skb_len skb) (cpu_id tk) ES_ABI_VERSION 216
    captured ES_LINKTYPE_ETHERNET (u8 dir) ES_HOOK_TC (u8 status) fl tuple prefix.

(** The three outcomes of the snapshot. *)
Lemma snapshot_spec cfg skb dir tk seq status tuple : config_ok cfg -> skb_ok skb ->
  let want := Z.min (Z.min (snapshot_bytes cfg) ES_SNAPSHOT_MAX) (skb_len skb) in
  exists captured fl failed,
    take_snapshot cfg skb (fill_event skb dir tk seq (ktime_ns tk) status tuple) =
      (event_with skb dir tk seq status tuple captured fl
         (take (Z.to_nat captured) (skb_data skb) ++
          replicate (Z.to_nat (ES_SNAPSHOT_MAX - captured)) 0), failed) /\
    ((captured = 0 /\ (fl = base_flags skb \/ fl = Z.lor (base_flags skb) ES_E_COPY_FAILED)) \/
     (captured = want /\ 0 < want /\
      fl = if want <? skb_len skb then Z.lor (base_flags skb) ES_E_PREFIX_TRUNCATED
           else base_flags skb)) /\
    failed = negb (want =? 0) && negb ((bpf_skb_load_bytes skb 0 want).1 =? 0).
Proof.
  intros [_ [Hs0 Hs1]] [[Hl0 Hl1] Hd Hb _] want. unfold take_snapshot, fill_event.
  cbn [e_flags e_prefix e_timestamp_mono_ns e_sequence e_ifindex e_original_len e_cpu e_abi_version
    e_record_size e_captured_len e_link_type e_direction e_hook e_parse_status e_tuple].
  set (w0 := if ES_SNAPSHOT_MAX <? snapshot_bytes cfg then ES_SNAPSHOT_MAX else snapshot_bytes cfg).
  assert (Ew : (if skb_len skb <? w0 then skb_len skb else w0) = want)
    by (subst w0 want; unfold ES_SNAPSHOT_MAX in *; repeat case_match; lia).
  rewrite Ew. assert (Hw : 0 <= want <= 128 /\ want <= skb_len skb)
    by (subst want; unfold ES_SNAPSHOT_MAX; lia).
  assert (Ebase : (if skb_vlan_present skb =? 0 then 0 else u8 (Z.lor 0 ES_E_VLAN_STRIPPED)) =
                  base_flags skb) by (unfold base_flags; by case_match).
  rewrite Ebase. assert (Hbase : base_flags skb = 0 \/ base_flags skb = 4)
    by (unfold base_flags; case_match; auto).
  destruct (Z.eqb_spec want 0) as [E0|E0].
  { exists 0, (base_flags skb), false. split; [done|]. rewrite E0. auto. }
  pose proof (load_success skb 0 want) as Hls.
  destruct (bpf_skb_load_bytes skb 0 want) as [rc loaded]. simpl in Hls.
  destruct (Z.eqb_spec rc 0) as [->|].
  - destruct Hls as [-> _]; [lia|lia|done|]. rewrite drop_0. eexists want, _, false.
    rewrite (wrap_small 16 want) by lia. split.
    + unfold event_with. f_equal. f_equal. rewrite length_take, drop_replicate. f_equal.
      unfold ES_SNAPSHOT_MAX. f_equal. lia.
    + split; [right|by rewrite andb_false_r]. split; [done|split; [lia|]].
      destruct (want <? skb_len skb); [|done]. by destruct Hbase as [->| ->].
  - exists 0, (Z.lor (base_flags skb) ES_E_COPY_FAILED), true. split; [|split; [auto|]].
    2: { cbn [fst]. rewrite (proj2 (Z.eqb_neq rc 0)) by done. done. }
    unfold event_with. f_equal. f_equal. by destruct Hbase as [->| ->].
Qed.

Lemma event_published cfg skb dir tk seq status tuple e failed :
  config_ok cfg -> skb_ok skb -> tick_ok tk -> dir = ES_INGRESS \/ dir = ES_EGRESS ->
  in_width 64 seq -> classification cfg skb = Some (status, tuple) -> classified_ok status tuple ->
  take_snapshot cfg skb (fill_event skb dir tk seq (ktime_ns tk) status tuple) = (e, failed) ->
  published cfg skb dir tk e /\ e_sequence e = seq.
Proof.
  intros Hcfg Hskb [Ht Hcpu] Hdir Hseq HCl HC E.
  destruct (snapshot_spec cfg skb dir tk seq status tuple Hcfg Hskb) as (cap & fl & f & E' & Hcase & _).
  rewrite E in E'. injection E' as -> ->. destruct Hcfg as [_ [Hs0 Hs1]].
  destruct Hskb as [[Hl0 Hl1] Hd Hb [Hi Hi0]].
  destruct (contract_flags _ _ HC) as (Hok & Hst & Hvc & Hres & Hfl & Hports).
  assert (Hdir8 : u8 dir = dir) by (destruct Hdir; by subst).
  assert (Hst8 : u8 status = status)
    by (apply wrap_small; unfold ES_PARSE_SKIPPED in Hst; lia).
  pose proof (base_flags_cases skb) as Hbase.
  assert (Hcap : 0 <= cap <= 128 /\ cap <= skb_len skb)
    by (unfold ES_SNAPSHOT_MAX in *; lia).
  assert (Hfl8 : 0 <= fl < 8 /\ (Z.land fl 2 <> 0 -> cap = 0) /\
                 (Z.land fl 1 <> 0 <-> 0 < cap < skb_len skb)).
  { unfold ES_SNAPSHOT_MAX, ES_E_COPY_FAILED, ES_E_PREFIX_TRUNCATED in *.
    destruct Hcase as [(-> & [->| ->])|(-> & Hw & ->)];
      [..|destruct (Z.ltb_spec (Z.min (Z.min (snapshot_bytes cfg) 128) (skb_len skb)) (skb_len skb))];
      destruct Hbase as [->| ->]; cbn; split_and!; try lia; try done; split; intros; try done; lia. }
  destruct Hfl8 as (Hf8 & Hf2 & Hf1).
  assert (Hfl7 : Z.land fl (Z.lnot 7) = 0).
  { assert (Hv : fl = 0 \/ fl = 1 \/ fl = 2 \/ fl = 3 \/ fl = 4 \/ fl = 5 \/ fl = 6 \/ fl = 7) by lia.
    destruct_or! Hv; by subst. }
  assert (Hdirs : 0 <= dir < ES_DIRECTIONS) by (unfold ES_DIRECTIONS; destruct Hdir; by subst).
  unfold ES_PARSE_SKIPPED, ES_SNAPSHOT_MAX, ES_DIRECTIONS in *. split; [|done].
  constructor; cbn [event_with e_timestamp_mono_ns e_sequence e_ifindex e_original_len e_cpu
    e_abi_version e_record_size e_captured_len e_link_type e_direction e_hook e_parse_status
    e_flags e_tuple e_prefix]; rewrite ?Hdir8, ?Hst8; try done.
  - destruct Hcase as [[? _]|[? _]]; auto.
  - constructor; cbn [event_with e_ifindex e_original_len e_abi_version e_record_size
      e_captured_len e_link_type e_direction e_hook e_parse_status e_flags e_tuple];
      rewrite ?Hdir8, ?Hst8; try done; first [by left|unfold ES_DIRECTIONS; lia|idtac].
    + unfold ES_PARSE_SKIPPED. lia.
    + unfold ES_SNAPSHOT_MAX. lia.
  - apply event_codec_ok; cbn [event_with e_timestamp_mono_ns e_sequence e_ifindex e_original_len
      e_cpu e_abi_version e_record_size e_captured_len e_link_type e_direction e_hook
      e_parse_status e_flags e_tuple e_prefix]; rewrite ?Hdir8, ?Hst8; try done;
      unfold in_width; try lia.
    + rewrite length_app, length_take, length_replicate. lia.
    + apply bytes_ok_app. auto with es.
Qed.
End Facts.
