(* ===== verification/Accounting.v ===== *)
(** * What the observer counts

    The abstract specification of a TC hook's statistics ([acct]), the
    refinement theorem that one invocation of [es_observe] implements it,
    and the consequences for the whole sequence of packets that a CPU sees:
    the identities between the counters, and the order and origin of the
    published events. *)
From Stdlib Require Import Sorting.Sorted.
From S2P Require Import Prelude Abi PacketParser ParserFacts TelemetryTypes TcObserver.
From S2P Require Import ObserverFacts.

(** ** Specification *)
Record acct := mk_acct {
  a_packets : Z;
  a_bytes : Z;
  a_malformed : Z;
  a_partial : Z;
  a_selected : Z;
  a_events : Z;
  a_lost : Z;
  a_failed : Z;
}.

(** What matters of one packet. *)
Record observation := mk_observation {
  o_len : Z;
  o_status : Z;
  o_selected : bool;
  o_room : bool;
  o_copy_fails : bool;
}.

Definition bump (b : bool) (z : Z) : Z := if b then u64 (z + 1) else z.

Definition is_partial (status : Z) : bool :=
  negb (status =? ES_PARSE_MALFORMED) && negb (status =? ES_PARSE_OK) &&
  negb (status =? ES_PARSE_SKIPPED).

(** Every [n]-th selected packet is sampled. *)
Definition samples (n : Z) (o : observation) (a : acct) : bool :=
  o_selected o && negb (n =? 0) && (u64 (a_selected a + 1) mod n =? 0).

Definition publishes (n : Z) (o : observation) (a : acct) : bool := samples n o a && o_room o.

Definition acct_step (n : Z) (o : observation) (a : acct) : acct :=
  mk_acct (u64 (a_packets a + 1)) (u64 (a_bytes a + o_len o))
    (bump (o_status o =? ES_PARSE_MALFORMED) (a_malformed a))
    (bump (is_partial (o_status o)) (a_partial a))
    (bump (o_selected o) (a_selected a))
    (bump (publishes n o a) (a_events a))
    (bump (samples n o a && negb (o_room o)) (a_lost a))
    (bump (publishes n o a && o_copy_fails o) (a_failed a)).

Definition zero_acct : acct := mk_acct 0 0 0 0 0 0 0 0.

Definition acct_run (n : Z) (os : list observation) : acct :=
  foldl (fun a o => acct_step n o a) zero_acct os.

(** The number of observations that satisfy [f], and the sum of lengths. *)
Definition count (f : observation -> bool) (os : list observation) : Z :=
  Z.of_nat (length (List.filter f os)).

Definition total_len (os : list observation) : Z := foldr (fun o z => o_len o + z) 0 os.

Definition full_samples (n selected : Z) : Z := if n =? 0 then 0 else selected / n.

Lemma count_snoc f os o : count f (os ++ [o]) = count f os + if f o then 1 else 0.
Proof. unfold count. rewrite List.filter_app, length_app. simpl. destruct (f o); simpl; lia. Qed.

Lemma total_len_snoc os o : total_len (os ++ [o]) = total_len os + o_len o.
Proof. induction os as [|x os IH]; simpl in *; lia. Qed.

Lemma count_range f os : 0 <= count f os <= Z.of_nat (length os).
Proof. unfold count. pose proof (List.filter_length_le f os). lia. Qed.

Lemma full_samples_succ n s : 0 <= n -> 0 <= s ->
  full_samples n (s + 1) =
    full_samples n s + if negb (n =? 0) && ((s + 1) mod n =? 0) then 1 else 0.
Proof.
  intros Hn Hs. unfold full_samples. destruct (Z.eqb_spec n 0); cbn [negb andb]; [lia|].
  destruct (Z.eqb_spec ((s + 1) mod n) 0) as [E|E].
  - assert (Hq : s + 1 = n * ((s + 1) / n)) by (pose proof (Z.div_mod (s + 1) n); lia).
    set (q := (s + 1) / n) in *. enough (s / n = q - 1) by lia. symmetry.
    apply (Z.div_unique s n (q - 1) (n - 1)); lia.
  - rewrite Z.add_0_r. pose proof (Z.div_mod (s + 1) n). pose proof (Z.mod_pos_bound (s + 1) n).
    apply (Z.div_unique s n ((s + 1) / n) ((s + 1) mod n - 1)); lia.
Qed.

Lemma bump_small b z : 0 <= z -> z + 1 < 2 ^ 64 -> bump b z = z + if b then 1 else 0.
Proof. intros. unfold bump. destruct b; [apply wrap_small|]; lia. Qed.

(** The totals of a run shorter than 2^64 packets. *)
Record totals (n : Z) (os : list observation) (a : acct) : Prop := {
  tot_packets : a_packets a = Z.of_nat (length os);
  tot_bytes : a_bytes a = u64 (total_len os);
  tot_malformed : a_malformed a = count (fun o => o_status o =? ES_PARSE_MALFORMED) os;
  tot_partial : a_partial a = count (fun o => is_partial (o_status o)) os;
  tot_selected : a_selected a = count o_selected os;
  tot_sampled : a_events a + a_lost a = full_samples n (a_selected a);
  tot_events : 0 <= a_failed a <= a_events a;
  tot_lost : 0 <= a_lost a;
}.

Lemma full_samples_le n s : 0 <= n -> 0 <= s -> full_samples n s <= s.
Proof.
  intros. unfold full_samples. destruct (Z.eqb_spec n 0); [lia|].
  apply Z.div_le_upper_bound; nia.
Qed.

Lemma acct_run_totals n os : 0 <= n -> Z.of_nat (length os) < 2 ^ 64 -> totals n os (acct_run n os).
Proof.
  intros Hn. unfold acct_run. induction os as [|o os IH] using rev_ind; intros Hl.
  { constructor; try done. unfold full_samples, zero_acct. simpl. by destruct (n =? 0). }
  rewrite length_app in Hl. simpl in Hl. rewrite foldl_snoc.
  destruct IH as [H1 H2 H3 H4 H5 H6 H7 H8]; [lia|].
  set (a := foldl _ _ os) in *. pose proof (count_range o_selected os).
  pose proof (count_range (fun o => o_status o =? ES_PARSE_MALFORMED) os).
  pose proof (count_range (fun o => is_partial (o_status o)) os).
  pose proof (full_samples_le n (a_selected a) Hn).
  pose proof (full_samples_succ n (a_selected a) Hn).
  constructor; unfold acct_step; cbn [a_packets a_bytes a_malformed a_partial a_selected a_events
    a_lost a_failed]; rewrite ?count_snoc, ?total_len_snoc, ?length_app, ?bump_small by (simpl; lia).
  - rewrite H1, wrap_small by lia. simpl. lia.
  - by rewrite H2, wrap_add_l.
  - by rewrite H3.
  - by rewrite H4.
  - by rewrite H5.
  - unfold publishes, samples. destruct (o_selected o); [|cbn; by rewrite !Z.add_0_r].
    rewrite (wrap_small 64) by lia.
    destruct (negb (n =? 0)), ((a_selected a + 1) mod n =? 0), (o_room o); simpl in *; lia.
  - destruct (publishes n o a), (o_copy_fails o); simpl; lia.
  - destruct (samples n o a && negb (o_room o)); lia.
Qed.

Section Accounting.
Context `{HH : BpfHelpers, HK : !BpfHelpersOk, HE : Host}.

(** ** The refinement *)
Definition acct_of (dir : Z) (st : obs_state) : acct :=
  mk_acct (counter_get dir ES_C_PACKETS st) (counter_get dir ES_C_BYTES st)
    (counter_get dir ES_C_PARSE_MALFORMED st) (counter_get dir ES_C_PARSE_PARTIAL st)
    (counter_get dir ES_C_SELECTED st) (counter_get dir ES_C_EVENTS st)
    (counter_get dir ES_C_RING_LOST st) (counter_get dir ES_C_SNAPSHOT_FAILED st).

Definition snapshot_want (cfg : config) (skb : sk_buff) : Z :=
  Z.min (Z.min (snapshot_bytes cfg) ES_SNAPSHOT_MAX) (skb_len skb).

(** What one invocation sees of its packet and environment. *)
Definition observed (cfg : config) (skb : sk_buff) (tk : tick) : observation :=
  let '(status, tuple) := default (0, zero_tuple) (classification cfg skb) in
  mk_observation (skb_len skb) status
    ((select_l4_proto cfg =? 0) ||
     ((status =? ES_PARSE_OK) && (t_l4_proto tuple =? select_l4_proto cfg)))
    (ring_has_room tk)
    (negb (snapshot_want cfg skb =? 0) &&
     negb ((bpf_skb_load_bytes skb 0 (snapshot_want cfg skb)).1 =? 0)).

Lemma counter_get_count_packet dir len st c : has_counters dir st ->
  counter_get dir c (count_packet dir len st) =
    if decide (c = ES_C_PACKETS) then u64 (counter_get dir c st + 1)
    else if decide (c = ES_C_BYTES) then u64 (counter_get dir c st + len)
    else counter_get dir c st.
Proof.
  intros Hc. unfold count_packet. rewrite !counter_get_add by auto using has_counters_add.
  by destruct c.
Qed.

Lemma counter_get_count_status dir status st c : has_counters dir st ->
  counter_get dir c (count_status dir status st) =
    if decide (c = ES_C_PARSE_MALFORMED)
    then bump (status =? ES_PARSE_MALFORMED) (counter_get dir c st)
    else if decide (c = ES_C_PARSE_PARTIAL) then bump (is_partial status) (counter_get dir c st)
    else counter_get dir c st.
Proof.
  intros Hc. unfold count_status, is_partial, bump.
  destruct (Z.eqb_spec status ES_PARSE_MALFORMED); cbn [negb andb].
  { rewrite counter_get_add by done. by destruct c. }
  destruct (status =? ES_PARSE_OK), (status =? ES_PARSE_SKIPPED); cbn [negb andb orb];
    rewrite ?counter_get_add by done; by destruct c.
Qed.

Lemma counter_get_count_flow cfg skb dir tk status tuple st c : has_counters dir st ->
  c <> ES_C_FLOW_UPDATE_FAILED ->
  counter_get dir c (count_flow_when cfg skb dir tk status tuple st) = counter_get dir c st.
Proof.
  intros Hc Hne. unfold count_flow_when. case_match; [|done].
  by apply (kept_count_flow skb dir tuple (ktime_ns tk) st Hc).
Qed.

(** The state in which publication starts. *)
Definition before_publish (cfg : config) skb dir tk status tuple st : obs_state :=
  count_flow_when cfg skb dir tk status tuple
    (count_status dir status (count_packet dir (skb_len skb) st)).

Lemma has_counters_status dir status st : has_counters dir st ->
  has_counters dir (count_status dir status st).
Proof. intros. unfold count_status. repeat case_match; auto using has_counters_add. Qed.

Lemma has_counters_packet dir len st : has_counters dir st -> has_counters dir (count_packet dir len st).
Proof. unfold count_packet. auto using has_counters_add. Qed.

Lemma before_publish_kept cfg skb dir tk status tuple st : has_counters dir st ->
  has_counters dir (before_publish cfg skb dir tk status tuple st) /\
  events (before_publish cfg skb dir tk status tuple st) = events st.
Proof.
  intros Hc. unfold before_publish, count_flow_when.
  assert (Hc' := has_counters_status dir status _ (has_counters_packet dir (skb_len skb) _ Hc)).
  assert (Ee : events (count_status dir status (count_packet dir (skb_len skb) st)) = events st)
    by (unfold count_status; by repeat case_match).
  case_match; [|done]. destruct (kept_count_flow skb dir tuple (ktime_ns tk) _ Hc') as (? & -> & _).
  done.
Qed.

Lemma before_publish_get cfg skb dir tk status tuple st c : has_counters dir st ->
  c <> ES_C_FLOW_UPDATE_FAILED ->
  counter_get dir c (before_publish cfg skb dir tk status tuple st) =
  counter_get dir c (count_status dir status (count_packet dir (skb_len skb) st)).
Proof.
  intros. apply counter_get_count_flow; auto using has_counters_status, has_counters_packet.
Qed.

(** Publication, as the specification describes it. *)
Lemma es_publish_spec cfg skb dir tk seq status tuple st :
  config_ok cfg -> skb_ok skb -> tick_ok tk -> dir = ES_INGRESS \/ dir = ES_EGRESS ->
  in_width 64 seq -> classification cfg skb = Some (status, tuple) -> classified_ok status tuple ->
  has_counters dir st ->
  let n := sample_every cfg in
  let o := observed cfg skb tk in
  exists st', es_publish cfg skb dir tk seq status tuple st = (ES_TC_NEXT, st') /\
    has_counters dir st' /\
    acct_of dir st' =
      mk_acct (a_packets (acct_of dir st)) (a_bytes (acct_of dir st)) (a_malformed (acct_of dir st))
        (a_partial (acct_of dir st)) (bump (o_selected o) (a_selected (acct_of dir st)))
        (bump (publishes n o (acct_of dir st)) (a_events (acct_of dir st)))
        (bump (samples n o (acct_of dir st) && negb (o_room o)) (a_lost (acct_of dir st)))
        (bump (publishes n o (acct_of dir st) && o_copy_fails o) (a_failed (acct_of dir st))) /\
    (if publishes n o (acct_of dir st)
     then exists e, events st' = events st ++ [e] /\ published cfg skb dir tk e /\ e_sequence e = seq
     else events st' = events st).
Proof.
  intros Hcfg Hskb Htk Hdir Hseq HCl HC Hc n o.
  destruct (snapshot_spec cfg skb dir tk seq status tuple Hcfg Hskb)
    as (cap & fl & failed & Esnap & _ & Hfail).
  pose proof (event_published cfg skb dir tk seq status tuple _ _ Hcfg Hskb Htk Hdir Hseq HCl HC Esnap)
    as Hpub.
  unfold es_publish, publishes, samples, acct_of. subst n o. unfold observed. rewrite HCl.
  cbn [from_option id o_selected o_room o_copy_fails a_selected a_packets a_bytes a_malformed a_partial
    a_events a_lost a_failed].
  set (sel := (select_l4_proto cfg =? 0) ||
    ((status =? ES_PARSE_OK) && (t_l4_proto tuple =? select_l4_proto cfg))).
  assert (Esel : negb (select_l4_proto cfg =? 0) &&
    (negb (status =? ES_PARSE_OK) || negb (t_l4_proto tuple =? select_l4_proto cfg)) = negb sel)
    by (subst sel; destruct (select_l4_proto cfg =? 0), (status =? ES_PARSE_OK),
      (t_l4_proto tuple =? select_l4_proto cfg); done).
  rewrite Esel. clear Esel.
  destruct sel; cbn [negb andb]; [|by eexists].
  destruct (Z.eqb_spec (sample_every cfg) 0); cbn [negb andb orb].
  { eexists. split; [done|]. split; [by apply has_counters_add|]. split; [|done].
    rewrite !counter_get_add by done. done. }
  destruct (Z.eqb_spec (u64 (counter_get dir ES_C_SELECTED st + 1) mod sample_every cfg) 0);
    cbn [negb andb].
  2: { eexists. split; [done|]. split; [by apply has_counters_add|]. split; [|done].
    rewrite !counter_get_add by done. done. }
  destruct (ring_has_room tk); cbn [negb andb].
  2: { eexists. split; [done|]. split; [by auto using has_counters_add|]. split; [|done].
    rewrite !counter_get_add by auto using has_counters_add. done. }
  rewrite Esnap. fold (snapshot_want cfg skb) in Hfail. rewrite <- Hfail.
  eexists. split; [done|]. split; [|split].
  - apply has_counters_add, has_counters_maps. destruct failed; auto using has_counters_add.
  - destruct failed; rewrite !counter_get_add, ?counter_get_maps by
      auto using has_counters_add, has_counters_maps;
      rewrite ?counter_get_add by auto using has_counters_add; done.
  - eexists. split; [|exact Hpub]. by destruct failed.
Qed.

Lemma other_counters_add k dir c n st : k <> dir ->
  counters (counter_add dir c n st) !! k = counters st !! k.
Proof. intros. unfold counter_add. simpl. by rewrite lookup_alter_ne. Qed.

Lemma observe_step cfg skb dir tk st :
  config_ok cfg -> skb_ok skb -> tick_ok tk -> dir = ES_INGRESS \/ dir = ES_EGRESS ->
  has_counters dir st ->
  let n := sample_every cfg in
  let o := observed cfg skb tk in
  exists st', es_observe cfg skb dir tk st = Some (ES_TC_NEXT, st') /\
    has_counters dir st' /\
    acct_of dir st' = acct_step n o (acct_of dir st) /\
    (if publishes n o (acct_of dir st)
     then exists e, events st' = events st ++ [e] /\ published cfg skb dir tk e /\
            e_sequence e = a_packets (acct_of dir st')
     else events st' = events st).
Proof.
  intros Hcfg Hskb Htk Hdir Hc n o.
  destruct (es_observe_phases cfg skb dir tk st Hskb Hc) as (status & tuple & HCl & HC & E).
  rewrite E. fold (before_publish cfg skb dir tk status tuple st).
  destruct (before_publish_kept cfg skb dir tk status tuple st Hc) as [Hc1 He1].
  destruct (es_publish_spec cfg skb dir tk (u64 (counter_get dir ES_C_PACKETS st + 1)) status tuple
    (before_publish cfg skb dir tk status tuple st)) as (st' & -> & Hc' & Ha & Hev); try done.
  { apply wrap_range. lia. }
  exists st'. rewrite He1 in Hev.
  assert (Ea : acct_of dir (before_publish cfg skb dir tk status tuple st) =
    mk_acct (u64 (counter_get dir ES_C_PACKETS st + 1))
      (u64 (counter_get dir ES_C_BYTES st + skb_len skb))
      (bump (status =? ES_PARSE_MALFORMED) (counter_get dir ES_C_PARSE_MALFORMED st))
      (bump (is_partial status) (counter_get dir ES_C_PARSE_PARTIAL st))
      (counter_get dir ES_C_SELECTED st) (counter_get dir ES_C_EVENTS st)
      (counter_get dir ES_C_RING_LOST st) (counter_get dir ES_C_SNAPSHOT_FAILED st)).
  { unfold acct_of. by rewrite !before_publish_get, !counter_get_count_status,
      !counter_get_count_packet by auto using has_counters_packet. }
  rewrite Ea in Ha, Hev. split; [done|split; [done|]].
  assert (Est : o_status o = status /\ o_len o = skb_len skb)
    by (subst o; unfold observed; by rewrite HCl).
  destruct Est as [Es El]. split.
  - rewrite Ha. unfold acct_step. by rewrite Es, El.
  - revert Hev. change (publishes (sample_every cfg) (observed cfg skb tk) _) with
      (publishes n o (acct_of dir st)). destruct (publishes n o (acct_of dir st)); [|done].
    intros (e & Hev & Hp & Hs). exists e. split; [done|split; [done|]]. by rewrite Hs, Ha.
Qed.

(** ** Runs *)
Definition trace_ok (trace : list (sk_buff * tick)) : Prop :=
  Forall (fun x => skb_ok x.1 /\ tick_ok x.2) trace.

Lemma observe_all_snoc cfg dir trace skb tk st :
  observe_all cfg dir (trace ++ [(skb, tk)]) st =
    (st' ← observe_all cfg dir trace st; '(_, st'') ← es_observe cfg skb dir tk st'; Some st'').
Proof.
  revert st. induction trace as [|[skb' tk'] trace IH]; intros st; simpl; [done|].
  destruct (es_observe cfg skb' dir tk' st) as [[rc st']|]; simpl; [apply IH|done].
Qed.

(** The origin of the event with sequence number [e_sequence e]. *)
Definition event_origin (cfg : config) (dir : Z) (trace : list (sk_buff * tick)) (e : es_event) : Prop :=
  exists skb tk, 0 < e_sequence e /\ trace !! Z.to_nat (e_sequence e - 1) = Some (skb, tk) /\
    o_selected (observed cfg skb tk) = true /\ published cfg skb dir tk e.

Abbreviation observations cfg := (map (fun x => observed cfg x.1 x.2)).

Record run_inv (cfg : config) (dir : Z) (trace : list (sk_buff * tick)) (st : obs_state) : Prop := {
  run_counters : has_counters dir st;
  run_acct : acct_of dir st = acct_run (sample_every cfg) (observations cfg trace);
  run_events : Z.of_nat (length (events st)) = a_events (acct_of dir st);
  run_sorted : StronglySorted (fun a b => e_sequence a < e_sequence b) (events st);
  run_origin : Forall (event_origin cfg dir trace) (events st);
}.

(** A state with all counters at zero and nothing published. *)
Record fresh (dir : Z) (st : obs_state) : Prop := {
  fresh_counters : counters st !! dir = Some (replicate ES_C_MAX 0);
  fresh_events : events st = [];
}.

Lemma fresh_inv cfg dir st : fresh dir st -> run_inv cfg dir [] st.
Proof.
  intros [Hc He]. constructor.
  - exists (replicate ES_C_MAX 0). done.
  - unfold acct_of, counter_get. by rewrite Hc.
  - unfold acct_of, counter_get. by rewrite Hc, He.
  - rewrite He. constructor.
  - rewrite He. constructor.
Qed.

Lemma event_origin_snoc cfg dir trace x e :
  event_origin cfg dir trace e -> event_origin cfg dir (trace ++ [x]) e.
Proof.
  intros (skb & tk & H0 & Hl & Hs & Hp). exists skb, tk. split_and!; try done.
  by apply lookup_app_l_Some.

Qed.

Lemma sorted_snoc {A} (R : A -> A -> Prop) l x :
  StronglySorted R l -> Forall (fun y => R y x) l -> StronglySorted R (l ++ [x]).
Proof.
  induction 1 as [|y l Hs IH Hy]; intros Hx; simpl; [repeat constructor|].
  apply Forall_cons_1 in Hx as [Hyx Hx]. constructor; [by apply IH|].
  apply Forall_app. auto.
Qed.

Lemma run_inv_step cfg dir trace skb tk st :
  config_ok cfg -> skb_ok skb -> tick_ok tk -> dir = ES_INGRESS \/ dir = ES_EGRESS ->
  Z.of_nat (length trace) + 1 < 2 ^ 64 -> run_inv cfg dir trace st ->
  exists st', es_observe cfg skb dir tk st = Some (ES_TC_NEXT, st') /\
    run_inv cfg dir (trace ++ [(skb, tk)]) st'.
Proof.
  intros Hcfg Hskb Htk Hdir Hlen [Hc Ha Hn Hs Ho].
  destruct (observe_step cfg skb dir tk st Hcfg Hskb Htk Hdir Hc) as (st' & E & Hc' & Ha' & Hev).
  exists st'. split; [done|].
  pose proof (acct_run_totals (sample_every cfg) (observations cfg trace)
    ltac:(destruct Hcfg as [[] _]; lia) ltac:(rewrite length_map; lia)) as T.
  rewrite <- Ha in T. pose proof (tot_packets _ _ _ T) as Hp. rewrite length_map in Hp.
  assert (Hsmall : 0 <= a_events (acct_of dir st) /\ a_events (acct_of dir st) + 1 < 2 ^ 64).
  { destruct T as [_ _ _ _ T5 T6 T7 T8]. pose proof (count_range o_selected (observations cfg trace)).
    rewrite length_map in *. destruct Hcfg as [[Hn0 _] _].
    pose proof (full_samples_le _ (a_selected (acct_of dir st)) Hn0). lia. }
  assert (Hnew : a_packets (acct_of dir st') = Z.of_nat (length trace) + 1)
    by (rewrite Ha'; unfold acct_step; cbn [a_packets]; rewrite Hp; apply wrap_small; lia).
  assert (Hold : Forall (event_origin cfg dir (trace ++ [(skb, tk)])) (events st))
    by (eapply List.Forall_impl; [|exact Ho]; eauto using event_origin_snoc).
  assert (Ha'' : acct_of dir st' = acct_run (sample_every cfg) (observations cfg (trace ++ [(skb, tk)])))
    by (rewrite Ha', Ha, map_app; unfold acct_run; cbn [map fst snd]; by rewrite foldl_snoc).
  assert (Hec : a_events (acct_of dir st') = a_events (acct_of dir st) +
      if publishes (sample_every cfg) (observed cfg skb tk) (acct_of dir st) then 1 else 0)
    by (rewrite Ha'; unfold acct_step; cbn [a_events]; by rewrite bump_small by lia).
  destruct (publishes _ _ (acct_of dir st)) eqn:Ep.
  - destruct Hev as (e & Hev & He & Hseq). rewrite Hnew in Hseq.
    constructor; rewrite ?Hev; try done.
    + rewrite length_app, Hec, <- Hn. cbn [length]. lia.
    + apply sorted_snoc; [done|]. eapply List.Forall_impl; [|exact Ho].
      intros e' (skb' & tk' & H0 & Hl & _). apply lookup_lt_Some in Hl. lia.
    + apply Forall_app. split; [done|]. constructor; [|constructor]. exists skb, tk.
      split_and!; [lia| | |done].
      * rewrite Hseq. rewrite lookup_app_r by lia.
        by replace (Z.to_nat _ - length trace)%nat with 0%nat by lia.
      * unfold publishes, samples in Ep. by destruct (o_selected (observed cfg skb tk)).
  - constructor; try done; rewrite Hev, ?Hec; try done. lia.
Qed.

Lemma observe_all_run cfg dir trace st :
  config_ok cfg -> dir = ES_INGRESS \/ dir = ES_EGRESS -> fresh dir st -> trace_ok trace ->
  Z.of_nat (length trace) < 2 ^ 64 ->
  exists st', observe_all cfg dir trace st = Some st' /\ run_inv cfg dir trace st'.
Proof.
  intros Hcfg Hdir Hf. induction trace as [|[skb tk] trace IH] using rev_ind; intros Ht Hl.
  { exists st. split; [done|]. by apply fresh_inv. }
  apply Forall_app in Ht as [Ht Hx]. inversion Hx as [|? ? [Hs Hk] _]. simpl in *.
  rewrite length_app in Hl. simpl in Hl.
  destruct IH as (st1 & E1 & H1); [done|lia|].
  destruct (run_inv_step cfg dir trace skb tk st1) as (st2 & E2 & H2); try done; [lia|].
  exists st2. rewrite observe_all_snoc, E1. simpl. by rewrite E2.
Qed.
End Accounting.

Abbreviation observations cfg := (map (fun x => observed cfg x.1 x.2)).
