(* ===== verification/Flows.v ===== *)
(** * Flow accounting

    What the observer's flow table says after a run.  The table is an LRU
    hash: an entry may be evicted by any insertion and recreated later, so an
    entry accounts for the flow's packets since it was last created, and for
    all of them while nothing is evicted. *)
From S2P Require Import Prelude Abi PacketParser ParserFacts TelemetryTypes TcObserver.
From S2P Require Import ObserverFacts Accounting.

(** The entry that a sequence of packets of one flow must have. *)
Definition flow_summary (ms : list (sk_buff * tick)) : option es_flow_value :=
  match ms with
  | [] => None
  | x :: _ =>
    Some (mk_flow_value (ktime_ns x.2) (from_option (fun y => ktime_ns y.2) 0 (list.last ms))
      (u64 (Z.of_nat (length ms))) (u64 (foldr (fun y z => skb_len y.1 + z) 0 ms)))
  end.

(** One packet accounted in an entry. *)
Definition flow_add (x : sk_buff * tick) (f : es_flow_value) : es_flow_value :=
  mk_flow_value (if f_packets f =? 0 then ktime_ns x.2 else f_first_ns f) (ktime_ns x.2)
    (u64 (f_packets f + 1)) (u64 (f_bytes f + skb_len x.1)).

Lemma sum_snoc (ms : list (sk_buff * tick)) x :
  foldr (fun y z => skb_len y.1 + z) 0 (ms ++ [x]) =
  foldr (fun y z => skb_len y.1 + z) 0 ms + skb_len x.1.
Proof. induction ms as [|y ms IH]; simpl in *; lia. Qed.

Lemma flow_summary_snoc ms x : Z.of_nat (length ms) < 2 ^ 64 ->
  flow_summary (ms ++ [x]) = Some (flow_add x (default zero_flow_value (flow_summary ms))).
Proof.
  intros Hl. destruct ms as [|y ms].
  { simpl. unfold flow_add. simpl. by rewrite Z.add_0_r. }
  unfold flow_summary. rewrite list.last_snoc, sum_snoc, length_app.
  change ((y :: ms) ++ [x]) with (y :: (ms ++ [x])). cbn [default from_option id].
  unfold flow_add. cbn [f_packets f_first_ns f_bytes].
  rewrite (wrap_small 64 (Z.of_nat (length (y :: ms)))) by lia.
  destruct (Z.eqb_spec (Z.of_nat (length (y :: ms))) 0) as [E|E]; [simpl in E; lia|].
  cbn [from_option]. f_equal. f_equal.
  - f_equal. cbn [length]. lia.
  - by rewrite wrap_add_l.
Qed.

Section Flows.
Context `{HH : BpfHelpers, HK : !BpfHelpersOk, HE : Host}.

(** The key under which an invocation accounts its packet, if it does. *)
Definition flow_key_of (cfg : config) (dir : Z) (skb : sk_buff) : option es_flow_key :=
  '(status, tuple) ← classification cfg skb;
  if negb (flow_enabled cfg =? 0) && (status =? ES_PARSE_OK) &&
     negb (Z.land (t_flags tuple) ES_T_PORTS_VALID =? 0)
  then Some (mk_flow_key tuple (skb_ifindex skb) (u8 dir) [0; 0; 0])
  else None.

Lemma flows_publish cfg skb dir tk seq status tuple st :
  flows (es_publish cfg skb dir tk seq status tuple st).2 = flows st.
Proof.
  unfold es_publish. repeat case_match; done.
Qed.

Lemma flows_status dir status st : flows (count_status dir status st) = flows st.
Proof. unfold count_status. by repeat case_match. Qed.

(** The table after [es_count_flow], entry by entry. *)
Lemma count_flow_lookup skb dir tuple now st k f :
  Z.land (t_flags tuple) ES_T_PORTS_VALID <> 0 ->
  flow_lookup (flows (es_count_flow skb dir tuple now st)) k = Some f ->
  let key := mk_flow_key tuple (skb_ifindex skb) (u8 dir) [0; 0; 0] in
  if decide (k = key)
  then exists tk, ktime_ns tk = now /\
         f = flow_add (skb, tk) (default zero_flow_value (flow_lookup (flows st) key))
  else flow_lookup (flows st) k = Some f.
Proof.
  intros Hp Hl key. unfold es_count_flow in Hl. rewrite (proj2 (Z.eqb_neq _ _) Hp) in Hl.
  fold key in Hl.
  destruct (flow_lookup (flows st) key) as [f0|] eqn:E0; cbn [default from_option id].
  - rewrite E0 in Hl. cbn [flows] in Hl. rewrite flow_store_lookup in Hl by (by rewrite E0).
    destruct (decide (key = k)) as [<-|Hne].
    + rewrite decide_True by done. injection Hl as <-. by exists (mk_tick now 0 false).
    + by rewrite decide_False by congruence.
  - assert (Hother : k <> key ->
      flow_lookup (flow_update_noexist (flows st) key zero_flow_value) k = Some f ->
      flow_lookup (flows st) k = Some f).
    { intros Hne Hk. destruct (flow_update_others (flows st) key zero_flow_value k Hne) as [Hn|Hs].
      - congruence.
      - by rewrite <- Hs. }
    destruct (flow_lookup (flow_update_noexist _ key _) key) as [f0|] eqn:E1; cbn [flows] in Hl.
    + pose proof (flow_update_lookup _ _ _ _ E0 E1) as ->.
      rewrite flow_store_lookup in Hl by (by rewrite E1).
      destruct (decide (key = k)) as [<-|Hne].
      * rewrite decide_True by done. injection Hl as <-. by exists (mk_tick now 0 false).
      * rewrite decide_False by congruence. by apply Hother.
    + cbn [counter_add flows] in Hl. destruct (decide (k = key)) as [->|Hne]; [congruence|].
      by apply Hother.
Qed.

Lemma observe_flows cfg skb dir tk st rc st' :
  skb_ok skb -> has_counters dir st -> es_observe cfg skb dir tk st = Some (rc, st') ->
  exists status tuple, classification cfg skb = Some (status, tuple) /\
    flows st' = flows (count_flow_when cfg skb dir tk status tuple
                         (count_status dir status (count_packet dir (skb_len skb) st))).
Proof.
  intros Hs Hc E. destruct (es_observe_phases cfg skb dir tk st Hs Hc) as (status & tuple & HCl & _ & E').
  rewrite E' in E. injection E as E. exists status, tuple. split; [done|].
  change st' with (rc, st').2. rewrite <- E. apply flows_publish.
Qed.

(** One invocation: only its own key's entry is brought up to date; other
    entries stay or are evicted. *)
Lemma observe_flow_step cfg skb dir tk st rc st' k f :
  skb_ok skb -> has_counters dir st -> es_observe cfg skb dir tk st = Some (rc, st') ->
  flow_lookup (flows st') k = Some f ->
  if decide (flow_key_of cfg dir skb = Some k)
  then f = flow_add (skb, tk) (default zero_flow_value (flow_lookup (flows st) k))
  else flow_lookup (flows st) k = Some f.
Proof.
  intros Hs Hc E Hl. destruct (observe_flows cfg skb dir tk st rc st' Hs Hc E)
    as (status & tuple & HCl & Hf).
  rewrite Hf in Hl. unfold flow_key_of, count_flow_when in *. rewrite HCl. simpl.
  assert (Hid : flows (count_status dir status (count_packet dir (skb_len skb) st)) = flows st)
    by (by rewrite flows_status).
  destruct (negb (flow_enabled cfg =? 0) && (status =? ES_PARSE_OK)); cbn [andb].
  2: { rewrite decide_False by done. by rewrite Hid in Hl. }
  destruct (Z.eqb_spec (Z.land (t_flags tuple) ES_T_PORTS_VALID) 0) as [E0|E0]; cbn [negb].
  { rewrite decide_False by done. unfold es_count_flow in Hl. rewrite E0 in Hl. simpl in Hl.
    by rewrite Hid in Hl. }
  apply count_flow_lookup in Hl; [|done]. rewrite Hid in Hl.
  destruct (decide (k = _)) as [->|Hne].
  - rewrite decide_True by done. destruct Hl as (tk' & Ht & ->).
    unfold flow_add. cbn [fst snd]. by rewrite Ht.
  - by rewrite decide_False by congruence.
Qed.

(** ** Runs *)
Definition flow_packets (cfg : config) (dir : Z) (k : es_flow_key) (trace : list (sk_buff * tick)) :=
  filter (fun x => flow_key_of cfg dir x.1 = Some k) trace.

Lemma flow_packets_snoc cfg dir k trace x :
  flow_packets cfg dir k (trace ++ [x]) =
  flow_packets cfg dir k trace ++ if decide (flow_key_of cfg dir x.1 = Some k) then [x] else [].
Proof. unfold flow_packets. by rewrite list.filter_app. Qed.

Lemma flow_packets_length cfg dir k trace :
  (length (flow_packets cfg dir k trace) <= length trace)%nat.
Proof. apply list.length_filter. Qed.

Lemma flows_since_created cfg dir trace st st' k f :
  config_ok cfg -> dir = ES_INGRESS \/ dir = ES_EGRESS -> fresh dir st -> trace_ok trace ->
  Z.of_nat (length trace) < 2 ^ 64 -> (forall k, flow_lookup (flows st) k = None) ->
  observe_all cfg dir trace st = Some st' -> flow_lookup (flows st') k = Some f ->
  exists old recent, trace = old ++ recent /\ flow_summary (flow_packets cfg dir k recent) = Some f.
Proof.
  intros Hcfg Hdir Hf. revert st' f. induction trace as [|[skb tk] trace IH] using rev_ind;
    intros st' f Ht Hl He E Hk.
  { injection E as <-. by rewrite He in Hk. }
  apply Forall_app in Ht as [Ht Hx]. inversion Hx as [|? ? [Hs Htk] _]. simpl in *.
  rewrite length_app in Hl. simpl in Hl. rewrite observe_all_snoc in E.
  destruct (observe_all_run cfg dir trace st) as (st1 & E1 & H1); try done; [lia|].
  rewrite E1 in E. simpl in E.
  destruct (es_observe cfg skb dir tk st1) as [[rc st2]|] eqn:E2; [|done]. injection E as ->.
  pose proof (observe_flow_step cfg skb dir tk st1 rc st' k f Hs (run_counters _ _ _ _ H1) E2 Hk) as Hstep.
  destruct (decide (flow_key_of cfg dir skb = Some k)) as [Hkey|Hkey].
  - destruct (flow_lookup (flows st1) k) as [f0|] eqn:E0; simpl in Hstep.
    + destruct (IH st1 f0 Ht ltac:(lia) He E1 E0) as (old & recent & -> & Hsum).
      exists old, (recent ++ [(skb, tk)]). split; [by rewrite app_assoc|].
      rewrite flow_packets_snoc, decide_True by done.
      rewrite flow_summary_snoc, Hsum, Hstep; [done|].
      pose proof (flow_packets_length cfg dir k recent). rewrite length_app in Hl. lia.
    + exists trace, [(skb, tk)]. split; [done|].
      change [(skb, tk)] with ([] ++ [(skb, tk)]). rewrite flow_packets_snoc, decide_True by done.
      rewrite flow_summary_snoc, Hstep by done. done.
  - destruct (IH st1 f Ht ltac:(lia) He E1 Hstep) as (old & recent & -> & Hsum).
    exists old, (recent ++ [(skb, tk)]). split; [by rewrite app_assoc|].
    rewrite flow_packets_snoc, decide_False, app_nil_r by done. done.
Qed.

(** ** Tables that evict nothing

    While the table has room an insertion succeeds and leaves the other
    entries alone. *)
Definition never_evicts : Prop :=
  (forall m k v, flow_lookup m k = None -> flow_lookup (flow_update_noexist m k v) k = Some v) /\
  (forall m k v k', k' <> k -> flow_lookup (flow_update_noexist m k v) k' = flow_lookup m k').

Lemma count_flow_exact skb dir tuple now st k : never_evicts ->
  let key := mk_flow_key tuple (skb_ifindex skb) (u8 dir) [0; 0; 0] in
  flow_lookup (flows (es_count_flow skb dir tuple now st)) k =
    if Z.land (t_flags tuple) ES_T_PORTS_VALID =? 0 then flow_lookup (flows st) k
    else if decide (k = key)
    then Some (flow_add (skb, mk_tick now 0 false)
                 (default zero_flow_value (flow_lookup (flows st) key)))
    else flow_lookup (flows st) k.
Proof.
  intros [Hins Hkeep] key. unfold es_count_flow. destruct (_ =? 0); [done|]. fold key.
  destruct (flow_lookup (flows st) key) as [f0|] eqn:E0.
  - rewrite E0. cbn [flows]. rewrite flow_store_lookup by (by rewrite E0).
    destruct (decide (key = k)) as [<-|]; [by rewrite decide_True|by rewrite decide_False by congruence].
  - rewrite Hins by done. cbn [flows]. rewrite flow_store_lookup by (by rewrite Hins).
    destruct (decide (key = k)) as [<-|]; [by rewrite decide_True|].
    rewrite decide_False by congruence. by rewrite Hkeep by congruence.
Qed.

Lemma observe_flow_exact cfg skb dir tk st rc st' k : never_evicts ->
  skb_ok skb -> has_counters dir st -> es_observe cfg skb dir tk st = Some (rc, st') ->
  flow_lookup (flows st') k =
    if decide (flow_key_of cfg dir skb = Some k)
    then Some (flow_add (skb, tk) (default zero_flow_value (flow_lookup (flows st) k)))
    else flow_lookup (flows st) k.
Proof.
  intros Hne Hs Hc E. destruct (observe_flows cfg skb dir tk st rc st' Hs Hc E)
    as (status & tuple & HCl & ->).
  unfold flow_key_of, count_flow_when. rewrite HCl. cbn [mbind option_bind].
  assert (Hid : flows (count_status dir status (count_packet dir (skb_len skb) st)) = flows st)
    by (by rewrite flows_status).
  destruct (negb (flow_enabled cfg =? 0) && (status =? ES_PARSE_OK)); cbn [andb].
  2: { by rewrite decide_False, Hid by done. }
  rewrite count_flow_exact, Hid by done.
  destruct (Z.land (t_flags tuple) ES_T_PORTS_VALID =? 0); cbn [negb].
  { by rewrite decide_False by done. }
  destruct (decide (k = _)) as [->|Hk].
  - by rewrite decide_True by done.
  - by rewrite decide_False by congruence.
Qed.

Lemma flows_all cfg dir trace st st' k :
  never_evicts -> config_ok cfg -> dir = ES_INGRESS \/ dir = ES_EGRESS -> fresh dir st ->
  trace_ok trace -> Z.of_nat (length trace) < 2 ^ 64 ->
  (forall k, flow_lookup (flows st) k = None) -> observe_all cfg dir trace st = Some st' ->
  flow_lookup (flows st') k = flow_summary (flow_packets cfg dir k trace).
Proof.
  intros Hne Hcfg Hdir Hf. revert st'. induction trace as [|[skb tk] trace IH] using rev_ind;
    intros st' Ht Hl He E.
  { injection E as <-. by rewrite He. }
  apply Forall_app in Ht as [Ht Hx]. inversion Hx as [|? ? [Hs Htk] _]. cbn [fst snd] in *.
  rewrite length_app in Hl. cbn [length] in Hl. rewrite observe_all_snoc in E.
  destruct (observe_all_run cfg dir trace st) as (st1 & E1 & H1); try done; [lia|].
  rewrite E1 in E. cbn [mbind option_bind] in E.
  destruct (es_observe cfg skb dir tk st1) as [[rc st2]|] eqn:E2; [|done]. injection E as ->.
  rewrite (observe_flow_exact cfg skb dir tk st1 rc st' k Hne Hs (run_counters _ _ _ _ H1) E2).
  rewrite flow_packets_snoc, (IH st1 Ht ltac:(lia) He E1). cbn [fst].
  destruct (decide _).
  - rewrite flow_summary_snoc; [done|]. pose proof (flow_packets_length cfg dir k trace). lia.
  - by rewrite app_nil_r.
Qed.
End Flows.
