(* ===== verification/ObserverTheorems.v ===== *)
(** * The observer's theorems

    Each is stated for any kernel helpers that satisfy [BpfHelpersOk], and
    instantiated on the sample helpers. *)
From Stdlib Require Import Sorting.Sorted.
From S2P Require Import Prelude Abi PacketParser ParserFacts TelemetryTypes TcObserver Samples.
From S2P Require Import ObserverFacts Accounting Flows.

Section Theorems.
Context `{HH : BpfHelpers, HK : !BpfHelpersOk, HE : Host}.

Lemma others_count_flow k cfg skb dir tk status tuple st : k <> dir ->
  counters (count_flow_when cfg skb dir tk status tuple st) !! k = counters st !! k.
Proof.
  intros Hk. unfold count_flow_when, es_count_flow. case_match; [|done].
  case_match; [done|]. cbv zeta. case_match; [done|]. by rewrite other_counters_add.
Qed.

Lemma others_publish k cfg skb dir tk seq status tuple st : k <> dir ->
  counters (es_publish cfg skb dir tk seq status tuple st).2 !! k = counters st !! k.
Proof.
  intros Hk. unfold es_publish. case_match; [done|]. case_match; [by apply other_counters_add|].
  case_match; cbn [snd]; [by rewrite !other_counters_add|].
  destruct (take_snapshot _ _ _) as [e []]; cbn [snd]; by rewrite ?other_counters_add by done;
    cbn [counters]; rewrite ?other_counters_add by done.
Qed.

Lemma others_observe k cfg skb dir tk st rc st' :
  skb_ok skb -> has_counters dir st -> k <> dir ->
  es_observe cfg skb dir tk st = Some (rc, st') -> counters st' !! k = counters st !! k.
Proof.
  intros Hs Hc Hk E. destruct (es_observe_phases cfg skb dir tk st Hs Hc) as (status & tuple & _ & _ & E').
  rewrite E' in E. injection E as E. change st' with (rc, st').2. rewrite <- E.
  rewrite others_publish, others_count_flow by done. unfold count_status, count_packet.
  repeat case_match; by rewrite ?other_counters_add by done.
Qed.

(** C4: one invocation of the observer refines its specification.  On any packet it terminates
    without a faulting access, lets the packet pass ([ES_TC_NEXT]), advances this hook's counters
    exactly as [acct_step] says, leaves the other hook's counters alone, and publishes either
    nothing or, when [acct_step] says so, one event that describes this packet and carries its
    sequence number. *)
Theorem es_observe_refines cfg skb dir tk st :
  config_ok cfg -> skb_ok skb -> tick_ok tk -> dir = ES_INGRESS \/ dir = ES_EGRESS ->
  has_counters dir st ->
  let n := sample_every cfg in
  let o := observed cfg skb tk in
  exists st', es_observe cfg skb dir tk st = Some (ES_TC_NEXT, st') /\
    has_counters dir st' /\
    acct_of dir st' = acct_step n o (acct_of dir st) /\
    (forall k, k <> dir -> counters st' !! k = counters st !! k) /\
    (if publishes n o (acct_of dir st)
     then exists e, events st' = events st ++ [e] /\ published cfg skb dir tk e /\
            e_sequence e = a_packets (acct_of dir st')
     else events st' = events st).
Proof.
  intros Hcfg Hs Htk Hdir Hc n o.
  destruct (observe_step cfg skb dir tk st Hcfg Hs Htk Hdir Hc) as (st' & E & Hc' & Ha & Hev).
  exists st'. split_and!; try done. intros k Hk. by eapply others_observe.
Qed.

(** C5: accounting over a run.  After any sequence of fewer than 2^64 packets from fresh
    counters: PACKETS is their number, BYTES the sum of their lengths mod 2^64, the parse
    counters and SELECTED are exact, EVENTS + RING_LOST is SELECTED divided by the sampling rate
    (nothing when the rate is 0), SNAPSHOT_FAILED is at most EVENTS, and EVENTS is the number of
    records submitted to the ring. *)
Theorem observer_totals cfg dir trace st :
  config_ok cfg -> dir = ES_INGRESS \/ dir = ES_EGRESS -> fresh dir st -> trace_ok trace ->
  Z.of_nat (length trace) < 2 ^ 64 ->
  exists st', observe_all cfg dir trace st = Some st' /\
    totals (sample_every cfg) (observations cfg trace) (acct_of dir st') /\
    Z.of_nat (length (events st')) = a_events (acct_of dir st').
Proof.
  intros Hcfg Hdir Hf Ht Hl. destruct (observe_all_run cfg dir trace st Hcfg Hdir Hf Ht Hl)
    as (st' & E & [Hc Ha Hn _ _]).
  exists st'. split_and!; try done. rewrite Ha. apply acct_run_totals; [|by rewrite length_map].
  destruct Hcfg as [[] _]; lia.
Qed.

(** C6: every published record reaches user space intact.  After any run of fewer than 2^64
    packets the records are in strictly increasing sequence order; the record with sequence
    number s describes the s-th packet of the run, a selected one; and [DecodeEvent] accepts its
    memory image and gives it back. *)
Theorem observer_events_decode cfg dir trace st st' :
  config_ok cfg -> dir = ES_INGRESS \/ dir = ES_EGRESS -> fresh dir st -> trace_ok trace ->
  Z.of_nat (length trace) < 2 ^ 64 -> observe_all cfg dir trace st = Some st' ->
  StronglySorted (fun a b => e_sequence a < e_sequence b) (events st') /\
  Forall (fun e => event_origin cfg dir trace e /\
            DecodeEvent (Some (c_enc event_codec e)) sizeof_es_event = Some e) (events st').
Proof.
  intros Hcfg Hdir Hf Ht Hl E. destruct (observe_all_run cfg dir trace st Hcfg Hdir Hf Ht Hl)
    as (st1 & E1 & [_ _ _ Hs Ho]).
  rewrite E in E1. injection E1 as <-. split; [done|]. eapply List.Forall_impl; [|exact Ho].
  intros e He. split; [done|]. destruct He as (skb & tk & _ & _ & _ & Hp).
  destruct Hp as [_ _ _ _ _ _ _ _ _ Hv Hok].
  apply DecodeEvent_image; [by apply c_enc_bytes| |done].
  by rewrite c_enc_length by done.
Qed.

(** C11: the flow table is exact while nothing is evicted: after a run from an empty table, the
    entry of every flow key holds the time of the first and of the last packet with that key, the
    number of such packets and the sum of their lengths; keys without packets have no entry. *)
Theorem flow_table_exact cfg dir trace st st' k :
  never_evicts -> config_ok cfg -> dir = ES_INGRESS \/ dir = ES_EGRESS -> fresh dir st ->
  trace_ok trace -> Z.of_nat (length trace) < 2 ^ 64 ->
  (forall k, flow_lookup (flows st) k = None) -> observe_all cfg dir trace st = Some st' ->
  flow_lookup (flows st') k = flow_summary (flow_packets cfg dir k trace).
Proof. apply flows_all. Qed.

(** The flow table never overcounts, whatever the LRU map evicts: an entry accounts for
    exactly the packets of its flow in some final part of the run, those since it was created. *)
Theorem flow_table_recent cfg dir trace st st' k f :
  config_ok cfg -> dir = ES_INGRESS \/ dir = ES_EGRESS -> fresh dir st -> trace_ok trace ->
  Z.of_nat (length trace) < 2 ^ 64 -> (forall k, flow_lookup (flows st) k = None) ->
  observe_all cfg dir trace st = Some st' -> flow_lookup (flows st') k = Some f ->
  exists old recent, trace = old ++ recent /\ flow_summary (flow_packets cfg dir k recent) = Some f.
Proof. apply flows_since_created. Qed.

End Theorems.

(** ** Instances *)
Definition sample_trace : list (sk_buff * tick) :=
  [(sample_skb, mk_tick 1000 0 true); (sample_skb, mk_tick 2500 0 true)].

Lemma sample_trace_ok : trace_ok sample_trace.
Proof. repeat constructor; try apply sample_skb_ok; unfold in_width; simpl; lia. Qed.

Lemma sample_config_ok : config_ok sample_config.
Proof. split; unfold in_width; simpl; lia. Qed.

Lemma fresh_state_fresh : fresh ES_INGRESS fresh_state.
Proof. split; reflexivity. Qed.

Lemma sample_never_evicts : never_evicts.
Proof.
  split; cbn [sample_helpers flow_lookup flow_update_noexist].
  - intros m k v E. rewrite E. by rewrite lookup_insert_eq.
  - intros m k v k' Hk. case_match; [reflexivity|]. by rewrite lookup_insert_ne.
Qed.

Definition sample_key : es_flow_key := mk_flow_key udp_tuple 3 0 [0; 0; 0].

Lemma es_observe_refines_witness :
  exists st', es_observe sample_config sample_skb ES_INGRESS sample_tick fresh_state =
                Some (ES_TC_NEXT, st') /\
    acct_of ES_INGRESS st' = mk_acct 1 42 0 0 1 1 0 0.
Proof.
  assert (Ht : tick_ok sample_tick) by (split; unfold in_width; simpl; lia).
  assert (Hc : has_counters ES_INGRESS fresh_state) by (exists (replicate ES_C_MAX 0); done).
  destruct (@es_observe_refines _ sample_helpers_ok little_endian_host sample_config sample_skb
    ES_INGRESS sample_tick fresh_state sample_config_ok sample_skb_ok Ht (or_introl eq_refl) Hc)
    as (st' & E & _ & Ha & _).
  exists st'. split; [exact E|]. rewrite Ha. vm_compute. reflexivity.
Defined.

Lemma observer_totals_witness :
  exists st', observe_all sample_config ES_INGRESS sample_trace fresh_state = Some st' /\
    counter_get ES_INGRESS ES_C_PACKETS st' = 2 /\ counter_get ES_INGRESS ES_C_BYTES st' = 84.
Proof.
  destruct (@observer_totals _ sample_helpers_ok little_endian_host sample_config ES_INGRESS
    sample_trace fresh_state sample_config_ok (or_introl eq_refl) fresh_state_fresh sample_trace_ok
    eq_refl) as (st' & E & [Hp Hb _ _ _ _ _ _] & _).
  exists st'. split; [exact E|]. split; [exact Hp|exact Hb].
Defined.

(** The run on the two sample packets, evaluated. *)
Definition sample_run : option obs_state := observe_all sample_config ES_INGRESS sample_trace fresh_state.

Definition sample_final : obs_state := default fresh_state sample_run.

Lemma sample_run_final : observe_all sample_config ES_INGRESS sample_trace fresh_state = Some sample_final.
Proof.
  destruct (@observe_all_run _ sample_helpers_ok little_endian_host sample_config ES_INGRESS
    sample_trace fresh_state sample_config_ok (or_introl eq_refl) fresh_state_fresh sample_trace_ok
    eq_refl) as (st' & E & _).
  unfold sample_final, sample_run. by rewrite E.
Qed.

Lemma fresh_flows k : flow_lookup (flows fresh_state) k = None.
Proof. apply lookup_empty. Qed.

Lemma observer_events_decode_witness :
  length (events sample_final) = 2%nat /\
  Forall (fun e => DecodeEvent (H:=little_endian_host)
                     (Some (c_enc (event_codec (H:=little_endian_host)) e)) 216 = Some e)
    (events sample_final).
Proof.
  split; [vm_compute; reflexivity|].
  destruct (@observer_events_decode _ sample_helpers_ok little_endian_host sample_config ES_INGRESS
    sample_trace fresh_state sample_final sample_config_ok (or_introl eq_refl) fresh_state_fresh
    sample_trace_ok eq_refl sample_run_final) as [_ Hd].
  eapply List.Forall_impl; [|exact Hd]. intros e [_ He]. exact He.
Defined.

Lemma flow_table_exact_witness :
  flow_lookup (flows sample_final) sample_key = Some (mk_flow_value 1000 2500 2 84).
Proof.
  rewrite (@flow_table_exact _ sample_helpers_ok little_endian_host sample_config ES_INGRESS
    sample_trace fresh_state sample_final sample_key sample_never_evicts sample_config_ok
    (or_introl eq_refl) fresh_state_fresh sample_trace_ok eq_refl fresh_flows sample_run_final).
  vm_compute. reflexivity.
Defined.

Lemma flow_table_recent_witness :
  exists old recent, sample_trace = old ++ recent /\
    flow_summary (flow_packets sample_config ES_INGRESS sample_key recent) =
      Some (mk_flow_value 1000 2500 2 84).
Proof.
  apply (@flow_table_recent _ sample_helpers_ok little_endian_host sample_config ES_INGRESS
    sample_trace fresh_state sample_final sample_key _ sample_config_ok
    (or_introl eq_refl) fresh_state_fresh sample_trace_ok eq_refl fresh_flows sample_run_final).
  vm_compute. reflexivity.
Defined.
