(* ===== verification/HostObserver.v ===== *)
(** * The observer on a whole host

    The two TC programs run on every CPU of the host.  The counter and flow
    maps are per-CPU, so each CPU has an [obs_state] of its own; the ring
    buffer is shared by all CPUs and both hooks, and keeps the records in the
    order in which they were reserved.  A packet is handled by one CPU on one
    hook; [host_run] handles packets in any interleaving. *)
From Stdlib Require Import Sorting.Sorted.
From S2P Require Import Prelude Abi PacketParser ParserFacts TelemetryTypes TcObserver.
From S2P Require Import Samples ObserverFacts Accounting ObserverTheorems.

Section Host.
Context `{HH : BpfHelpers}.

Record host := mk_host {
  cpus : gmap Z obs_state;
  host_ring : list es_event;
}.

(** A packet's hook and the CPU (in its tick) that handles it. *)
Record arrival := mk_arrival {
  ar_dir : Z;
  ar_skb : sk_buff;
  ar_tick : tick;
}.

Definition ar_cpu (a : arrival) : Z := cpu_id (ar_tick a).

(** The programs [es_ingress] and [es_egress] of the object. *)
Definition run_program (cfg : config) (a : arrival) (st : obs_state) : option (Z * obs_state) :=
  if ar_dir a =? ES_INGRESS then es_ingress cfg (ar_skb a) (ar_tick a) st
  else es_egress cfg (ar_skb a) (ar_tick a) st.

(** What the CPU submits is appended to the shared ring. *)
Definition host_observe (cfg : config) (a : arrival) (h : host) : option host :=
  st ← cpus h !! ar_cpu a;
  '(_, st') ← run_program cfg a st;
  Some (mk_host (<[ar_cpu a := st']> (cpus h)) (host_ring h ++ drop (length (events st)) (events st'))).

Fixpoint host_run (cfg : config) (arrivals : list arrival) (h : host) : option host :=
  match arrivals with
  | [] => Some h
  | a :: arrivals => h ← host_observe cfg a h; host_run cfg arrivals h
  end.

(** The packets that one CPU sees on one hook, and the records of a hook. *)
Definition on_hook (cpu dir : Z) (arrivals : list arrival) : list (sk_buff * tick) :=
  omap (fun a => if decide (ar_cpu a = cpu /\ ar_dir a = dir) then Some (ar_skb a, ar_tick a) else None)
    arrivals.

Definition of_hook (cpu dir : Z) (es : list es_event) : list es_event :=
  filter (fun e => e_cpu e = cpu /\ e_direction e = dir) es.

(** The identity of a record in user space. *)
Definition event_id (e : es_event) : Z * Z * Z := (e_cpu e, e_direction e, e_sequence e).

(** The value user space computes for a per-CPU counter: the sum over CPUs. *)
Definition host_counter (dir : Z) (c : es_counter_id) (h : host) : Z :=
  foldr Z.add 0 (counter_get dir c <$> (map_to_list (cpus h)).*2).

End Host.

(** ** The observer does not look at the ring *)
Section Frame.
Context `{HH : BpfHelpers}.

Definition with_events (es : list es_event) (st : obs_state) : obs_state :=
  mk_obs (counters st) (flows st) es.

Lemma frame_count_flow skb dir tuple now st es :
  es_count_flow skb dir tuple now (with_events es st) =
  with_events es (es_count_flow skb dir tuple now st).
Proof. unfold es_count_flow. cbn [flows with_events]. by repeat case_match. Qed.

Lemma frame_publish cfg skb dir tk seq status tuple st es :
  exists st' new, es_publish cfg skb dir tk seq status tuple st = (ES_TC_NEXT, with_events (events st ++ new) st') /\
    es_publish cfg skb dir tk seq status tuple (with_events es st) = (ES_TC_NEXT, with_events (es ++ new) st').
Proof.
  unfold es_publish. destruct (_ && _); [exists st, []; destruct st; by rewrite !app_nil_r|].
  change (counter_get dir ES_C_SELECTED (with_events es st)) with (counter_get dir ES_C_SELECTED st).
  destruct (_ || _).
  { exists (counter_add dir ES_C_SELECTED 1 st), []. by rewrite !app_nil_r. }
  destruct (negb (ring_has_room tk)).
  { exists (counter_add dir ES_C_RING_LOST 1 (counter_add dir ES_C_SELECTED 1 st)), []. by rewrite !app_nil_r. }
  destruct (take_snapshot _ _ _) as [e failed].
  eexists (counter_add dir ES_C_EVENTS 1
    (if failed then counter_add dir ES_C_SNAPSHOT_FAILED 1 (counter_add dir ES_C_SELECTED 1 st)
     else counter_add dir ES_C_SELECTED 1 st)), [e].
  by destruct failed.
Qed.

(** On two states that differ only in what has been submitted so far, an
    invocation does the same and submits the same. *)
Lemma es_observe_frame cfg skb dir tk st es rc st' :
  es_observe cfg skb dir tk st = Some (rc, st') ->
  exists new, events st' = events st ++ new /\
    es_observe cfg skb dir tk (with_events es st) = Some (rc, with_events (es ++ new) st').
Proof.
  unfold es_observe. cbn [counters with_events]. destruct (counters st !! dir) eqn:Ec.
  2: { intros [= <- <-]. exists []. by rewrite !app_nil_r. }
  change (counter_get dir ES_C_PACKETS (with_events es st)) with (counter_get dir ES_C_PACKETS st).
  set (s0 := counter_add dir ES_C_BYTES (skb_len skb) (counter_add dir ES_C_PACKETS 1 st)).
  change (counter_add dir ES_C_BYTES (skb_len skb) (counter_add dir ES_C_PACKETS 1 (with_events es st)))
    with (with_events es s0).
  assert (Hs0 : events s0 = events st) by done. rewrite <- Hs0. clearbody s0. clear Hs0 Ec l.
  assert (Hend : forall status tuple s1,
    Some (es_publish cfg skb dir tk (u64 (counter_get dir ES_C_PACKETS st + 1)) status tuple
      (if negb (flow_enabled cfg =? 0) && (status =? ES_PARSE_OK)
       then es_count_flow skb dir tuple (ktime_ns tk) s1 else s1)) = Some (rc, st') ->
    exists new, events st' = events s1 ++ new /\
    Some (es_publish cfg skb dir tk (u64 (counter_get dir ES_C_PACKETS st + 1)) status tuple
      (if negb (flow_enabled cfg =? 0) && (status =? ES_PARSE_OK)
       then es_count_flow skb dir tuple (ktime_ns tk) (with_events es s1) else with_events es s1)) =
      Some (rc, with_events (es ++ new) st')).
  { intros status tuple s1. rewrite frame_count_flow.
    set (s2 := if _ && _ then es_count_flow skb dir tuple (ktime_ns tk) s1 else s1).
    assert (E : (if negb (flow_enabled cfg =? 0) && (status =? ES_PARSE_OK)
       then with_events es (es_count_flow skb dir tuple (ktime_ns tk) s1) else with_events es s1) =
       with_events es s2) by (subst s2; by destruct (_ && _)).
    rewrite E. assert (Hs2 : events s2 = events s1).
    { subst s2. destruct (_ && _); [|done]. unfold es_count_flow. by repeat case_match. }
    rewrite <- Hs2. destruct (frame_publish cfg skb dir tk (u64 (counter_get dir ES_C_PACKETS st + 1))
      status tuple s2 es) as (s3 & new & -> & ->).
    intros [= <- <-]. by exists new. }
  destruct (_ || _); [|apply Hend].
  destruct (load_and_parse skb) as [[status tuple]|]; cbn [mbind option_bind]; [|done].
  intros Hr. destruct (Hend status tuple _ Hr) as (new & Hn & E). exists new.
  split; [rewrite Hn; by repeat case_match|].
  etrans; [|exact E]. by repeat case_match.
Qed.

End Frame.

(** ** Every hook of every CPU runs its own specification *)
Section Facts.
Context `{HH : BpfHelpers, HK : !BpfHelpersOk, HE : Host}.

Definition hook (dir : Z) : Prop := dir = ES_INGRESS \/ dir = ES_EGRESS.

(** A CPU's state with the records of one hook. *)
Definition hook_view (cpu dir : Z) (h : host) (st : obs_state) : obs_state :=
  with_events (of_hook cpu dir (host_ring h)) st.

Definition host_inv (cfg : config) (arrivals : list arrival) (h : host) : Prop :=
  (forall cpu st dir, cpus h !! cpu = Some st -> hook dir ->
     run_inv cfg dir (on_hook cpu dir arrivals) (hook_view cpu dir h st)) /\
  Forall (fun e => is_Some (cpus h !! e_cpu e) /\ hook (e_direction e)) (host_ring h).

Lemma run_program_hook cfg a st : hook (ar_dir a) ->
  run_program cfg a st = es_observe cfg (ar_skb a) (ar_dir a) (ar_tick a) st.
Proof. by unfold run_program, hook, es_ingress, es_egress; intros [-> | ->]. Qed.

Lemma run_inv_ext cfg dir trace st st' : counters st' !! dir = counters st !! dir ->
  events st' = events st -> run_inv cfg dir trace st -> run_inv cfg dir trace st'.
Proof.
  intros Hc He [H1 H2 H3 H4 H5].
  assert (Ha : acct_of dir st' = acct_of dir st) by (unfold acct_of, counter_get; by rewrite Hc).
  constructor; rewrite ?Ha, ?He; try done. destruct H1 as (v & Hv & Hl). exists v. by rewrite Hc.
Qed.

Lemma on_hook_snoc cpu dir arrivals a : on_hook cpu dir (arrivals ++ [a]) =
  on_hook cpu dir arrivals ++ if decide (ar_cpu a = cpu /\ ar_dir a = dir) then [(ar_skb a, ar_tick a)] else [].
Proof. unfold on_hook. rewrite omap_app. cbn [omap list_omap]. by case_decide. Qed.

Lemma on_hook_length cpu dir arrivals : (length (on_hook cpu dir arrivals) <= length arrivals)%nat.
Proof. unfold on_hook. induction arrivals as [|a l IH]; cbn; [lia|]. case_decide; cbn; lia. Qed.

Lemma on_hook_cpu cpu dir arrivals i skb tk : on_hook cpu dir arrivals !! i = Some (skb, tk) -> cpu_id tk = cpu.
Proof.
  intros H%list_elem_of_lookup_2. unfold on_hook in H. apply list_elem_of_omap in H as (a & _ & Ha).
  case_decide as Hd; [|done]. injection Ha as _ <-. apply Hd.
Qed.

(** A record of a hook comes from that hook's CPU. *)
Lemma origin_id cfg cpu dir arrivals e : event_origin cfg dir (on_hook cpu dir arrivals) e ->
  e_cpu e = cpu /\ e_direction e = dir.
Proof.
  intros (skb & tk & _ & Hl & _ & Hp). split; [|apply Hp].
  rewrite (pub_cpu _ _ _ _ _ Hp). by eapply on_hook_cpu.
Qed.

Lemma of_hook_app cpu dir a b : of_hook cpu dir (a ++ b) = of_hook cpu dir a ++ of_hook cpu dir b.
Proof. apply list.filter_app. Qed.

Lemma of_hook_all cpu dir es : Forall (fun e => e_cpu e = cpu /\ e_direction e = dir) es -> of_hook cpu dir es = es.
Proof.
  induction 1 as [|e es He _ IH]; [done|]. unfold of_hook in *. rewrite filter_cons_True by done. by rewrite IH.
Qed.

Lemma of_hook_none cpu dir cpu' dir' es : (cpu, dir) <> (cpu', dir') ->
  Forall (fun e => e_cpu e = cpu' /\ e_direction e = dir') es -> of_hook cpu dir es = [].
Proof.
  intros Hne. induction 1 as [|e es He _ IH]; [done|]. unfold of_hook in *.
  rewrite filter_cons_False; [done|]. intros [<- <-]. destruct He as [<- <-]. done.
Qed.

(** One packet, on a host on which every hook has followed its
    specification. *)
Lemma host_step cfg arrivals h a st :
  config_ok cfg -> skb_ok (ar_skb a) -> tick_ok (ar_tick a) -> hook (ar_dir a) ->
  Z.of_nat (length arrivals) + 1 < 2 ^ 64 -> host_inv cfg arrivals h -> cpus h !! ar_cpu a = Some st ->
  exists st' new, host_observe cfg a h = Some (mk_host (<[ar_cpu a := st']> (cpus h)) (host_ring h ++ new)) /\
    acct_of (ar_dir a) st' = acct_step (sample_every cfg) (observed cfg (ar_skb a) (ar_tick a))
                               (acct_of (ar_dir a) st) /\
    (forall k, k <> ar_dir a -> counters st' !! k = counters st !! k) /\
    host_inv cfg (arrivals ++ [a]) (mk_host (<[ar_cpu a := st']> (cpus h)) (host_ring h ++ new)).
Proof.
  intros Hcfg Hskb Htk Hdir Hlen [Hinv Hring] Hst.
  pose proof (Hinv _ _ _ Hst Hdir) as Hv.
  pose proof (on_hook_length (ar_cpu a) (ar_dir a) arrivals) as Hl.
  destruct (run_inv_step cfg (ar_dir a) (on_hook (ar_cpu a) (ar_dir a) arrivals) (ar_skb a) (ar_tick a) _ Hcfg Hskb Htk Hdir ltac:(lia) Hv)
    as (sv & Ev & Hv').
  destruct (observe_step cfg (ar_skb a) (ar_dir a) (ar_tick a) _ Hcfg Hskb Htk Hdir (run_counters _ _ _ _ Hv))
    as (sv2 & Ev2 & _ & Ha & _). rewrite Ev in Ev2. injection Ev2 as <-.
  destruct (es_observe_frame _ _ _ _ _ (events st) _ _ Ev) as (new & Hnew & E).
  change (with_events (events st) (hook_view (ar_cpu a) (ar_dir a) h st)) with (with_events (events st) st) in E.
  assert (Est : with_events (events st) st = st) by (by destruct st). rewrite Est in E.
  set (st' := with_events (events st ++ new) sv) in *.
  assert (Hother : forall k, k <> ar_dir a -> counters st' !! k = counters st !! k).
  { intros k Hk. eapply others_observe; [exact Hskb| |exact Hk|exact E]. apply (run_counters _ _ _ _ Hv). }
  assert (Hids : Forall (fun e => e_cpu e = ar_cpu a /\ e_direction e = ar_dir a) new).
  { pose proof (run_origin _ _ _ _ Hv') as Ho. rewrite Hnew in Ho. apply Forall_app in Ho as [_ Ho].
    eapply List.Forall_impl; [|exact Ho]. intros e He. apply (origin_id cfg _ _ (arrivals ++ [a])).
    rewrite on_hook_snoc, decide_True by done. exact He. }
  exists st', new. split; [|split; [exact Ha|split; [exact Hother|split]]].
  - unfold host_observe. rewrite Hst. cbn [mbind option_bind]. rewrite run_program_hook, E by done.
    cbn [mbind option_bind]. change (events st') with (events st ++ new). by rewrite drop_app_exact.
  - intros cpu s dir. cbn [cpus host_ring]. rewrite lookup_insert_Some.
    intros [[<- <-]|[Hne Hs]] Hd; unfold hook_view; cbn [host_ring]; rewrite of_hook_app, on_hook_snoc.
    + destruct (decide (dir = ar_dir a)) as [->|Hnd].
      * rewrite decide_True by done. apply run_inv_ext with (st := sv); [done| |exact Hv'].
        cbn [events with_events]. rewrite Hnew. by rewrite (of_hook_all _ _ new).
      * rewrite decide_False by (intros [_ ?]; congruence). rewrite app_nil_r.
        rewrite (of_hook_none _ _ (ar_cpu a) (ar_dir a) new), app_nil_r by (done || congruence).
        by apply run_inv_ext with (st := hook_view (ar_cpu a) dir h st); [exact (Hother dir Hnd)| |exact (Hinv _ _ _ Hst Hd)].
    + rewrite decide_False by (by intros [? _]). rewrite app_nil_r.
      rewrite (of_hook_none _ _ (ar_cpu a) (ar_dir a) new), app_nil_r by (done || congruence).
      exact (Hinv _ _ _ Hs Hd).
  - cbn [cpus host_ring]. apply Forall_app. split.
    + eapply List.Forall_impl; [|exact Hring]. intros e [[s Hs] He]. split; [|done].
      destruct (decide (ar_cpu a = e_cpu e)) as [->|]; [rewrite lookup_insert_eq|rewrite lookup_insert_ne by done]; eauto.
    + eapply List.Forall_impl; [|exact Hids]. intros e [-> ->]. rewrite lookup_insert_eq. by split; [eexists|].
Qed.

(** ** Runs *)
Definition arrival_ok (h : host) (a : arrival) : Prop :=
  skb_ok (ar_skb a) /\ tick_ok (ar_tick a) /\ hook (ar_dir a) /\ is_Some (cpus h !! ar_cpu a).

(** Fresh maps on every CPU, an empty ring. *)
Record fresh_host (h : host) : Prop := {
  fresh_cpus cpu st dir : cpus h !! cpu = Some st -> hook dir -> counters st !! dir = Some (replicate ES_C_MAX 0);
  fresh_ring : host_ring h = [];
}.

Lemma fresh_host_inv cfg h : fresh_host h -> host_inv cfg [] h.
Proof.
  intros [Hc Hr]. split; [|by rewrite Hr]. intros cpu st dir Hs Hd. apply fresh_inv.
  split; [exact (Hc cpu st dir Hs Hd)|]. cbn [hook_view events with_events]. by rewrite Hr.
Qed.

Lemma host_run_snoc cfg arrivals a h :
  host_run cfg (arrivals ++ [a]) h = (h' ← host_run cfg arrivals h; host_observe cfg a h').
Proof.
  revert h. induction arrivals as [|b l IH]; intros h; cbn [app host_run].
  - cbn [mbind option_bind]. by destruct (host_observe cfg a h).
  - destruct (host_observe cfg b h) as [h'|]; cbn [mbind option_bind]; [apply IH|done].
Qed.

Lemma host_run_inv cfg h arrivals :
  config_ok cfg -> fresh_host h -> Forall (arrival_ok h) arrivals -> Z.of_nat (length arrivals) < 2 ^ 64 ->
  exists h', host_run cfg arrivals h = Some h' /\ host_inv cfg arrivals h' /\ dom (cpus h') = dom (cpus h).
Proof.
  intros Hcfg Hf. induction arrivals as [|a arrivals IH] using rev_ind; intros Hok Hl.
  { exists h. split_and!; [done|by apply fresh_host_inv|done]. }
  apply Forall_app in Hok as [Hok (Hs & Ht & Hd & Hcpu)%Forall_cons_1%proj1].
  rewrite length_app in Hl. cbn [length] in Hl. destruct IH as (h1 & E1 & Hi & Hdom); [done|lia|].
  apply elem_of_dom in Hcpu. rewrite <- Hdom in Hcpu. apply elem_of_dom in Hcpu as [st Hst].
  destruct (host_step cfg arrivals h1 a st) as (st' & new & E & _ & _ & Hi'); try done; [lia|].
  eexists. split; [by rewrite host_run_snoc, E1|]. split; [exact Hi'|]. cbn [cpus].
  rewrite dom_insert_L, Hdom. apply elem_of_dom_2 in Hst. set_solver.
Qed.

(** *** Sums over the CPUs *)
Definition sumZ (l : list Z) : Z := foldr Z.add 0 l.

Lemma sumZ_add {A} (f g : A -> Z) l : sumZ ((fun x => f x + g x) <$> l) = sumZ (f <$> l) + sumZ (g <$> l).
Proof. unfold sumZ in *. induction l as [|x l IH]; cbn [fmap list_fmap foldr] in *; lia. Qed.

#[local] Abbreviation at_key k := (fun x : Z => if decide (k = x) then 1 else 0).

Lemma sumZ_cons (f : Z -> Z) x l : sumZ (f <$> x :: l) = f x + sumZ (f <$> l).
Proof. done. Qed.

Lemma sumZ_none (k : Z) keys : k ∉ keys -> sumZ (at_key k <$> keys) = 0.
Proof.
  induction keys as [|x l IH]; [done|]. intros [Hx Hl]%not_elem_of_cons.
  by rewrite sumZ_cons, decide_False, IH.
Qed.

Lemma sumZ_one (k : Z) keys : NoDup keys -> k ∈ keys -> sumZ (at_key k <$> keys) = 1.
Proof.
  induction keys as [|x l IH]; [by intros _ ?%elem_of_nil|].
  intros [Hx Hl]%list.NoDup_cons Hk. rewrite sumZ_cons. destruct (decide (k = x)) as [->|Hne].
  - by rewrite sumZ_none.
  - apply elem_of_cons in Hk as [->|Hk]; [done|]. by rewrite IH.
Qed.

(** A list is partitioned by the keys of its elements. *)
Lemma partition_length {A} (f : A -> Z) keys (l : list A) : NoDup keys -> Forall (fun x => f x ∈ keys) l ->
  sumZ ((fun k => Z.of_nat (length (filter (fun x => f x = k) l))) <$> keys) = Z.of_nat (length l).
Proof.
  intros Hk. induction 1 as [|x l Hx _ IH].
  - cbn. clear. by induction keys.
  - assert (E : forall k, Z.of_nat (length (filter (fun y => f y = k) (x :: l))) =
      (if decide (f x = k) then 1 else 0) + Z.of_nat (length (filter (fun y => f y = k) l))).
    { intros k. rewrite filter_cons. destruct (decide (f x = k)); cbn [length]; lia. }
    rewrite (list_fmap_ext _ (fun k => (if decide (f x = k) then 1 else 0) +
      Z.of_nat (length (filter (fun y => f y = k) l))) keys) by auto.
    rewrite sumZ_add, sumZ_one, IH by done. cbn [length]. lia.
Qed.

Lemma host_counter_sum dir c h g :
  (forall k st, cpus h !! k = Some st -> counter_get dir c st = g k) ->
  host_counter dir c h = sumZ (g <$> (map_to_list (cpus h)).*1).
Proof.
  intros Hg. unfold host_counter, sumZ. f_equal.
  assert (H : Forall (fun x => cpus h !! x.1 = Some x.2) (map_to_list (cpus h))).
  { apply Forall_forall. intros [k st] Hk%list_elem_of_In. by apply elem_of_map_to_list in Hk. }
  induction H as [|[k st] l Hx _ IH]; [done|]. cbn in *. f_equal; [by apply Hg|exact IH].
Qed.

Lemma cpu_keys h : NoDup (map_to_list (cpus h)).*1.
Proof. apply NoDup_fst_map_to_list. Qed.

Lemma in_cpu_keys h k : is_Some (cpus h !! k) -> k ∈ (map_to_list (cpus h)).*1.
Proof. intros [st Hs]. apply list_elem_of_fmap. exists (k, st). split; [done|]. by apply elem_of_map_to_list. Qed.

Lemma on_hook_filter cpu dir arrivals :
  length (on_hook cpu dir arrivals) =
  length (filter (fun a => ar_cpu a = cpu) (filter (fun a => ar_dir a = dir) arrivals)).
Proof.
  rewrite list_filter_filter. unfold on_hook. induction arrivals as [|a l IH]; [done|].
  cbn [omap list_omap]. rewrite filter_cons. destruct (decide _); cbn [length]; by rewrite IH.
Qed.

Lemma host_packets cfg h h' arrivals dir :
  config_ok cfg -> hook dir -> Forall (arrival_ok h) arrivals -> dom (cpus h') = dom (cpus h) ->
  Z.of_nat (length arrivals) < 2 ^ 64 -> host_inv cfg arrivals h' ->
  host_counter dir ES_C_PACKETS h' = Z.of_nat (length (filter (fun a => ar_dir a = dir) arrivals)).
Proof.
  intros Hcfg Hd Hok Hdom Hl [Hi _].
  rewrite (host_counter_sum dir _ h' (fun k => Z.of_nat (length
    (filter (fun a => ar_cpu a = k) (filter (fun a => ar_dir a = dir) arrivals))))).
  - apply partition_length; [apply cpu_keys|]. apply Forall_forall. intros a Ha%list_elem_of_In.
    apply list_elem_of_filter in Ha as [_ Ha%list_elem_of_In]. apply in_cpu_keys.
    rewrite Forall_forall in Hok. destruct (Hok a Ha) as (_ & _ & _ & Hc).
    apply elem_of_dom. rewrite Hdom. by apply elem_of_dom.
  - intros k st Hk. destruct (Hi k st dir Hk Hd) as [_ Ha _ _ _]. rewrite <- on_hook_filter.
    change (counter_get dir ES_C_PACKETS st) with (a_packets (acct_of dir (hook_view k dir h' st))).
    rewrite Ha. pose proof (on_hook_length k dir arrivals).
    rewrite (tot_packets _ _ _ (acct_run_totals (sample_every cfg) (observations cfg (on_hook k dir arrivals))
      ltac:(destruct Hcfg as [[] _]; lia) ltac:(rewrite length_map; lia))). by rewrite length_map.
Qed.

Lemma host_events cfg h' arrivals dir : hook dir -> host_inv cfg arrivals h' ->
  host_counter dir ES_C_EVENTS h' = Z.of_nat (length (filter (fun e => e_direction e = dir) (host_ring h'))).
Proof.
  intros Hd [Hi Hr].
  rewrite (host_counter_sum dir _ h' (fun k => Z.of_nat (length
    (filter (fun e => e_cpu e = k) (filter (fun e => e_direction e = dir) (host_ring h')))))).
  - apply partition_length; [apply cpu_keys|]. apply Forall_forall. intros e He%list_elem_of_In.
    apply list_elem_of_filter in He as [_ He%list_elem_of_In]. apply in_cpu_keys.
    rewrite Forall_forall in Hr. by apply Hr.
  - intros k st Hk. destruct (Hi k st dir Hk Hd) as [_ _ Hn _ _]. by rewrite list_filter_filter.
Qed.

(** Records that are in sequence order on each hook have distinct identities. *)
Lemma sorted_ids l :
  (forall e, e ∈ l -> StronglySorted (fun a b => e_sequence a < e_sequence b) (of_hook (e_cpu e) (e_direction e) l)) ->
  NoDup (event_id <$> l).
Proof.
  induction l as [|e l IH]; intros Hs; [constructor|]. cbn [fmap list_fmap]. apply list.NoDup_cons. split.
  - intros (e' & E & Hin)%list_elem_of_fmap. unfold event_id in E. injection E as Ec Ed Eq.
    pose proof (Hs e ltac:(left)) as H. unfold of_hook in H. rewrite filter_cons_True in H by done.
    apply StronglySorted_inv in H as [_ H]. rewrite Forall_forall in H.
    specialize (H e'). rewrite <- list_elem_of_In in H.
    enough (e_sequence e < e_sequence e') by lia. apply H, list_elem_of_filter. by split_and!.
  - apply IH. intros e' He'. specialize (Hs e' ltac:(by right)). unfold of_hook in Hs |- *.
    rewrite filter_cons in Hs. case_decide; [|done]. by apply StronglySorted_inv in Hs as [Hs _].
Qed.

Lemma host_inv_ids cfg arrivals h : host_inv cfg arrivals h ->
  NoDup (event_id <$> host_ring h) /\
  Forall (fun e => event_origin cfg (e_direction e) (on_hook (e_cpu e) (e_direction e) arrivals) e) (host_ring h).
Proof.
  intros [Hi Hr]. rewrite Forall_forall in Hr.
  assert (Hv : forall e, e ∈ host_ring h -> exists st, run_inv cfg (e_direction e) (on_hook (e_cpu e) (e_direction e) arrivals)
    (hook_view (e_cpu e) (e_direction e) h st)).
  { intros e He%list_elem_of_In. destruct (Hr e He) as [[st Hst] Hd]. exists st. by apply Hi. }
  split.
  - apply sorted_ids. intros e He. destruct (Hv e He) as [st [_ _ _ Hs _]]. exact Hs.
  - apply Forall_forall. intros e He%list_elem_of_In. destruct (Hv e He) as [st [_ _ _ _ Ho]].
    rewrite Forall_forall in Ho. apply Ho, list_elem_of_In, list_elem_of_filter. by split_and!.
Qed.

(** C8: the observer on all CPUs and both hooks.  After any interleaving of packets from fresh maps,
    every CPU's counters for each hook are the totals of the packets it saw there; the sums over the
    CPUs that user space reads are the number of packets of the direction and the number of its
    records in the ring; no two records of the ring share CPU, direction and sequence number; and
    each record describes the packet of its hook that this number names. *)
Theorem host_accounting cfg h arrivals :
  config_ok cfg -> fresh_host h -> Forall (arrival_ok h) arrivals -> Z.of_nat (length arrivals) < 2 ^ 64 ->
  exists h', host_run cfg arrivals h = Some h' /\
    (forall cpu st dir, cpus h' !! cpu = Some st -> hook dir ->
       totals (sample_every cfg) (observations cfg (on_hook cpu dir arrivals)) (acct_of dir st)) /\
    (forall dir, hook dir ->
       host_counter dir ES_C_PACKETS h' = Z.of_nat (length (filter (fun a => ar_dir a = dir) arrivals)) /\
       host_counter dir ES_C_EVENTS h' = Z.of_nat (length (filter (fun e => e_direction e = dir) (host_ring h')))) /\
    NoDup (event_id <$> host_ring h') /\
    Forall (fun e => event_origin cfg (e_direction e) (on_hook (e_cpu e) (e_direction e) arrivals) e) (host_ring h').
Proof.
  intros Hcfg Hf Hok Hl. destruct (host_run_inv cfg h arrivals Hcfg Hf Hok Hl) as (h' & E & Hi & Hdom).
  destruct (host_inv_ids _ _ _ Hi) as [Hn Ho]. exists h'. split_and!; try done.
  - intros cpu st dir Hs Hd. destruct Hi as [Hi _]. destruct (Hi cpu st dir Hs Hd) as [_ Ha _ _ _].
    change (acct_of dir st) with (acct_of dir (hook_view cpu dir h' st)). rewrite Ha.
    pose proof (on_hook_length cpu dir arrivals). apply acct_run_totals; [destruct Hcfg as [[] _]; lia|].
    rewrite length_map. lia.
  - intros dir Hd. split; [by eapply host_packets|by eapply host_events].
Qed.

End Facts.

(** ** A host of two CPUs *)
Definition two_cpus : host := mk_host {[ 0 := fresh_state; 1 := fresh_state ]} [].

Definition sample_arrivals : list arrival :=
  [mk_arrival ES_INGRESS sample_skb (mk_tick 10 0 true); mk_arrival ES_INGRESS sample_skb (mk_tick 20 1 true);
   mk_arrival ES_EGRESS sample_skb (mk_tick 30 0 true); mk_arrival ES_INGRESS sample_skb (mk_tick 40 0 true)].

Lemma two_cpus_fresh : fresh_host two_cpus.
Proof.
  split; [|done]. intros cpu st dir Hs Hd.
  assert (st = fresh_state) as ->.
  { cbn [two_cpus cpus] in Hs. apply lookup_insert_Some in Hs as [[_ <-]|[_ Hs]]; [done|].
    by apply lookup_singleton_Some in Hs as [_ <-]. }
  destruct Hd as [-> | ->]; reflexivity.
Qed.

Lemma sample_arrivals_ok : Forall (arrival_ok two_cpus) sample_arrivals.
Proof.
  repeat constructor; try apply sample_skb_ok; unfold in_width; cbn; try lia; try (by left); try (by right); by eexists.
Qed.

Lemma host_accounting_witness :
  exists h, host_run sample_config sample_arrivals two_cpus = Some h /\
    host_counter ES_INGRESS ES_C_PACKETS h = 3 /\ NoDup (event_id <$> host_ring h).
Proof.
  destruct (@host_accounting _ sample_helpers_ok little_endian_host sample_config two_cpus sample_arrivals
    sample_config_ok two_cpus_fresh sample_arrivals_ok eq_refl) as (h & E & _ & Hs & Hn & _).
  exists h. split; [exact E|]. split; [|exact Hn]. apply (Hs ES_INGRESS). by left.
Defined.
