(* ===== verification/MapTypes.v ===== *)
(** * What the observer's maps hold

    User space reads the counter and flow maps and the ring as C objects:
    [es_counters], [es_flow_key], [es_flow_value] and [es_event].  Whatever the
    maps hold stays the image of such objects, for any number of packets:
    the counters wrap around, and no field is ever out of its width. *)
From S2P Require Import Prelude Abi PacketParser ParserFacts TelemetryTypes TcObserver.
From S2P Require Import Samples ObserverFacts Accounting Flows ObserverTheorems HostObserver.

Section Types.
Context `{HH : BpfHelpers, HK : !BpfHelpersOk, HE : Host}.

(** The maps of one CPU. *)
Record maps_wt (st : obs_state) : Prop := {
  wt_counters dir v : counters st !! dir = Some v -> c_ok counters_codec v;
  wt_flows k f : flow_lookup (flows st) k = Some f -> c_ok flow_key_codec k /\ c_ok flow_value_codec f;
  wt_events : Forall (c_ok event_codec) (events st);
}.

Record host_wt (h : host) : Prop := {
  wt_cpus cpu st : cpus h !! cpu = Some st -> maps_wt st;
  wt_ring : Forall (c_ok event_codec) (host_ring h);
}.

Lemma u64_in_width z : in_width 64 (u64 z).
Proof. apply wrap_range. lia. Qed.

Lemma counters_alter (v : list Z) i n : c_ok counters_codec v -> c_ok counters_codec (alter (fun x => u64 (x + n)) i v).
Proof.
  intros [Hl Hv]. split; [by rewrite length_alter|]. apply Forall_alter; [exact Hv|]. intros x _ _. apply u64_in_width.
Qed.

Lemma counters_add_ok key c n st :
  (forall dir v, counters st !! dir = Some v -> c_ok counters_codec v) ->
  forall dir v, counters (counter_add key c n st) !! dir = Some v -> c_ok counters_codec v.
Proof.
  intros H1 dir v. cbn [counter_add counters]. destruct (decide (key = dir)) as [->|Hne].
  - rewrite lookup_alter_eq. intros (w & Hw & ->)%fmap_Some. apply counters_alter. by eapply H1.
  - rewrite lookup_alter_ne by done. apply H1.
Qed.

Lemma wt_counter_add key c n st : maps_wt st -> maps_wt (counter_add key c n st).
Proof. intros [H1 H2 H3]. constructor; try done. by apply counters_add_ok. Qed.

Lemma wt_with_events st es : maps_wt st -> Forall (c_ok event_codec) es -> maps_wt (mk_obs (counters st) (flows st) es).
Proof. by intros [H1 H2 _] He. Qed.

(** The key of a packet, and an entry with one more packet in it. *)
Lemma flow_key_ok skb dir tuple : skb_ok skb -> tuple_ok tuple ->
  c_ok flow_key_codec (mk_flow_key tuple (skb_ifindex skb) (u8 dir) [0; 0; 0]).
Proof.
  intros [_ _ _ [Hi _]] Ht%tuple_codec_ok. split; [done|]. split; [done|]. split; [apply wrap_range; lia|].
  split; [done|]. repeat constructor; unfold is_byte; lia.
Qed.

Lemma flow_add_ok x f : in_width 64 (ktime_ns x.2) -> c_ok flow_value_codec f -> c_ok flow_value_codec (flow_add x f).
Proof.
  intros Ht (Hf & _). unfold flow_add. split; [cbn; by case_match|]. split; [done|]. split; apply u64_in_width.
Qed.

Lemma wt_count_flow cfg skb dir tk status tuple st : skb_ok skb -> tick_ok tk -> tuple_ok tuple ->
  maps_wt st -> maps_wt (count_flow_when cfg skb dir tk status tuple st).
Proof.
  intros Hs [Ht _] Htu Hwt. unfold count_flow_when. destruct (_ && _); [|done].
  destruct (Z.eqb_spec (Z.land (t_flags tuple) ES_T_PORTS_VALID) 0) as [E|E].
  { unfold es_count_flow. by rewrite E, Z.eqb_refl. }
  constructor.
  - intros key v. unfold es_count_flow. rewrite (proj2 (Z.eqb_neq _ _) E). cbv zeta.
    repeat case_match; try apply (wt_counters _ Hwt). all: apply counters_add_ok, (wt_counters _ Hwt).
  - intros k f Hk. pose proof (count_flow_lookup skb dir tuple (ktime_ns tk) st k f E Hk) as Hc. cbv zeta in Hc.
    case_decide as Hd; [|by apply (wt_flows _ Hwt)]. subst k. split; [by apply flow_key_ok|].
    destruct Hc as (tk' & Hn & ->). apply flow_add_ok; [cbn; by rewrite Hn|].
    destruct (flow_lookup (flows st) _) as [f0|] eqn:E0; [by apply (wt_flows _ Hwt _ _ E0)|].
    repeat split; unfold in_width; cbn; lia.
  - unfold es_count_flow. rewrite (proj2 (Z.eqb_neq _ _) E). cbv zeta. repeat case_match; apply (wt_events _ Hwt).
Qed.

Lemma wt_publish cfg skb dir tk seq status tuple st : config_ok cfg -> skb_ok skb -> tick_ok tk -> hook dir ->
  in_width 64 seq -> classification cfg skb = Some (status, tuple) -> classified_ok status tuple ->
  maps_wt st -> maps_wt (es_publish cfg skb dir tk seq status tuple st).2.
Proof.
  intros Hcfg Hs Ht Hdir Hseq Hcl Hok Hwt. unfold es_publish. repeat (case_match; [by repeat apply wt_counter_add|]).
  destruct (take_snapshot _ _ _) as [e failed] eqn:Es. cbn [snd].
  destruct (event_published cfg skb dir tk seq status tuple e failed Hcfg Hs Ht Hdir Hseq Hcl Hok Es) as [Hp _].
  apply wt_counter_add, wt_with_events.
  - by destruct failed; repeat apply wt_counter_add.
  - apply Forall_app. split; [destruct failed; apply (wt_events _ Hwt)|]. apply Forall_singleton, (pub_ok _ _ _ _ _ Hp).
Qed.

Lemma wt_observe cfg skb dir tk st : config_ok cfg -> skb_ok skb -> tick_ok tk -> hook dir -> maps_wt st ->
  exists st', es_observe cfg skb dir tk st = Some (ES_TC_NEXT, st') /\ maps_wt st'.
Proof.
  intros Hcfg Hs Ht Hdir Hwt. destruct (counters st !! dir) as [v|] eqn:Ev.
  2: { exists st. unfold es_observe. by rewrite Ev. }
  assert (Hc : has_counters dir st) by (exists v; split; [done|apply (wt_counters _ Hwt _ _ Ev)]).
  destruct (es_observe_phases cfg skb dir tk st Hs Hc) as (status & tuple & Hcl & Hok & ->).
  destruct (contract_flags _ _ Hok) as [Htu _].
  set (st1 := count_flow_when cfg skb dir tk status tuple _).
  assert (Hwt1 : maps_wt st1).
  { apply wt_count_flow; try done. unfold count_status, count_packet. by repeat case_match; repeat apply wt_counter_add. }
  pose proof (wt_publish cfg skb dir tk (u64 (counter_get dir ES_C_PACKETS st + 1)) status tuple st1 Hcfg Hs Ht Hdir
    (u64_in_width _) Hcl Hok Hwt1) as Hp.
  destruct (frame_publish cfg skb dir tk (u64 (counter_get dir ES_C_PACKETS st + 1)) status tuple st1 [])
    as (st2 & new & E & _). rewrite E in *. by eexists.
Qed.

Lemma wt_host_observe cfg a h : config_ok cfg -> arrival_ok h a -> host_wt h ->
  exists h', host_observe cfg a h = Some h' /\ host_wt h' /\ dom (cpus h') = dom (cpus h).
Proof.
  intros Hcfg (Hs & Ht & Hdir & [st Hst]) [Hc Hr]. unfold host_observe. rewrite Hst. cbn [mbind option_bind].
  rewrite run_program_hook by done.
  destruct (wt_observe cfg (ar_skb a) (ar_dir a) (ar_tick a) st Hcfg Hs Ht Hdir (Hc _ _ Hst)) as (st' & E & Hwt).
  rewrite E. cbn [mbind option_bind]. eexists. split; [done|]. split.
  - constructor; cbn [cpus host_ring].
    + intros cpu st1 [(<- & <-)|(_ & H1)]%lookup_insert_Some; [done|by eapply Hc].
    + apply Forall_app. split; [done|]. apply Forall_drop, Hwt.
  - cbn [cpus]. rewrite dom_insert_L. apply elem_of_dom_2 in Hst. set_solver.
Qed.

(** C17: the maps never hold an ill-typed value.  On any host whose maps hold images of the C types,
    handling any number of packets, however large - the 64-bit counters may wrap around - leaves
    every counter array, flow key, flow entry and ring record a value of its C type, field by field,
    so that user space decodes exactly what was stored from each one's memory image. *)
Theorem host_maps_typed cfg arrivals h :
  config_ok cfg -> host_wt h -> Forall (arrival_ok h) arrivals ->
  exists h', host_run cfg arrivals h = Some h' /\ host_wt h' /\
    (forall cpu st dir v, cpus h' !! cpu = Some st -> counters st !! dir = Some v ->
       c_dec counters_codec (c_enc counters_codec v) = v) /\
    (forall cpu st k f, cpus h' !! cpu = Some st -> flow_lookup (flows st) k = Some f ->
       c_dec flow_key_codec (c_enc flow_key_codec k) = k /\ c_dec flow_value_codec (c_enc flow_value_codec f) = f) /\
    Forall (fun e => c_dec event_codec (c_enc event_codec e) = e) (host_ring h').
Proof.
  intros Hcfg Hwt Hok. assert (exists h', host_run cfg arrivals h = Some h' /\ host_wt h') as (h' & E & Hwt').
  { revert h Hwt Hok. induction arrivals as [|a l IH]; intros h Hwt Hok; [by exists h|].
    apply Forall_cons_1 in Hok as [Ha Hl]. cbn [host_run].
    destruct (wt_host_observe cfg a h Hcfg Ha Hwt) as (h1 & -> & Hwt1 & Hdom). cbn [mbind option_bind].
    apply IH; [done|]. eapply List.Forall_impl; [|exact Hl]. intros b (? & ? & ? & Hb). split_and!; try done.
    apply elem_of_dom. rewrite Hdom. by apply elem_of_dom. }
  exists h'. split_and!; try done.
  - intros cpu st dir v Hst Hv. apply c_dec_enc. by apply (wt_counters st (wt_cpus h' Hwt' _ _ Hst) dir).
  - intros cpu st k f Hst Hf. destruct (wt_flows st (wt_cpus h' Hwt' _ _ Hst) k f Hf). split; by apply c_dec_enc.
  - eapply List.Forall_impl; [|apply (wt_ring h' Hwt')]. intros e He. by apply c_dec_enc.
Qed.

End Types.

(** ** Wrap-around: a counter at its maximum *)
Definition full_state : obs_state := mk_obs {[ES_INGRESS := replicate ES_C_MAX (2 ^ 64 - 1)]} (flows fresh_state) [].

Definition full_host : host := mk_host {[0 := full_state]} [].

Lemma full_host_wt : host_wt (HE := little_endian_host) full_host.
Proof.
  constructor; cbn [cpus host_ring full_host]; [|done].
  intros cpu st [_ <-]%lookup_singleton_Some. constructor; cbn [counters flows events full_state]; try done.
  intros dir v [_ <-]%lookup_singleton_Some. split; [done|]. cbn [replicate ES_C_MAX]. repeat constructor; lia.
Qed.

Lemma host_maps_typed_witness :
  exists h, host_run (HH := sample_helpers) sample_config [mk_arrival ES_INGRESS sample_skb (mk_tick 10 0 true)] full_host = Some h /\
    host_wt (HE := little_endian_host) h.
Proof.
  destruct (@host_maps_typed _ sample_helpers_ok little_endian_host sample_config
    [mk_arrival ES_INGRESS sample_skb (mk_tick 10 0 true)] full_host sample_config_ok full_host_wt) as (h & E & Hwt & _).
  { repeat constructor; try apply sample_skb_ok; unfold in_width; cbn; try lia; by eexists. }
  by exists h.
Defined.
