(* ===== verification/ActiveTc.v ===== *)
(** * The active policy program ([bpf/elephantshrew_active_tc.bpf.c])

    [es_active_ingress] looks a packet up in the active rule table - by exact
    tuple first, then under the all-zero default key - and passes, drops,
    mirrors or redirects it.  The rule table is the inner map that the
    control plane publishes; the statistics are per-CPU. *)
From S2P Require Import Prelude Abi PacketParser ParserFacts Frames TcObserver Samples.
From S2P Require Import ObserverFacts.

(** [bpf_clone_redirect] and [bpf_redirect], to an interface, with flags 0. *)
Class RedirectHelpers := {
  bpf_clone_redirect : sk_buff -> Z -> Z;
  bpf_redirect : Z -> Z;
}.

(** The program's effects: its counters and the interfaces to which it
    cloned or redirected packets, in order. *)
Record pol_state := mk_pol {
  pol_counters : option (list Z);
  pol_cloned : list Z;
  pol_redirected : list Z;
}.

Section Active.
Context `{BpfHelpers, RedirectHelpers}.

(** [__sync_fetch_and_add(&s->v[c], 1)]. *)
Definition pol_count (c : es_counter_id) (st : pol_state) : pol_state :=
  mk_pol (alter (fun v => u64 (v + 1)) (counter_index c) <$> pol_counters st)
    (pol_cloned st) (pol_redirected st).

Definition pol_get (c : es_counter_id) (st : pol_state) : Z :=
  nth (counter_index c) (default [] (pol_counters st)) 0.

(** The key of an exact rule, when the packet has one. *)
Definition exact_key (skb : sk_buff) (status : Z) (tuple : es_tuple) : option es_policy_key :=
  if (status =? ES_PARSE_OK) && negb (Z.land (t_flags tuple) ES_T_PORTS_VALID =? 0)
  then Some (mk_policy_key (mk_flow_key tuple (skb_ifindex skb) ES_INGRESS [0; 0; 0]) 1 0)
  else None.

Definition select_rule (rules : gmap es_policy_key es_rule) (skb : sk_buff) (status : Z)
    (tuple : es_tuple) : option es_rule :=
  let r := key ← exact_key skb status tuple; rules !! key in
  match r with
  | Some r => Some r
  | None => rules !! zero_policy_key
  end.

(** What follows once a rule has been copied. *)
Definition apply_rule (skb : sk_buff) (selected : es_rule) (st : pol_state) : Z * pol_state :=
  if r_action selected =? ES_POLICY_NEXT then (ES_TC_NEXT, st)
  else if r_action selected =? ES_POLICY_DROP then (ES_TC_DROP, pol_count ES_C_POLICY_DROP st)
  else if (r_out_ifindex selected =? 0) || (r_out_ifindex selected =? skb_ifindex skb) then
    (ES_TC_DROP, pol_count ES_C_POLICY_DROP st)
  else if r_action selected =? ES_POLICY_MIRROR then
    let st := pol_count ES_C_MIRROR_ATTEMPT st in
    let rc := bpf_clone_redirect skb (r_out_ifindex selected) in
    let st := mk_pol (pol_counters st) (pol_cloned st ++ [r_out_ifindex selected])
                (pol_redirected st) in
    (ES_TC_NEXT, if rc <? 0 then pol_count ES_C_MIRROR_ERROR st else st)
  else if r_action selected =? ES_POLICY_REDIRECT then
    let st := pol_count ES_C_REDIRECT_ATTEMPT st in
    (bpf_redirect (r_out_ifindex selected),
     mk_pol (pol_counters st) (pol_cloned st) (pol_redirected st ++ [r_out_ifindex selected]))
  else (ES_TC_DROP, st).

(** [es_active_ingress(skb)]: [rules] is the published table, [None] if the
    lookup failed. *)
Definition es_active_ingress (rules : option (gmap es_policy_key es_rule)) (skb : sk_buff)
    (st : pol_state) : option (Z * pol_state) :=
  match rules, pol_counters st with
  | Some rules, Some _ =>
    '(status, tuple) ← load_and_parse skb;
    match select_rule rules skb status tuple with
    | None => Some (ES_TC_NEXT, st)
    | Some selected => Some (apply_rule skb selected st)
    end
  | _, _ => Some (ES_TC_NEXT, st)
  end.

End Active.

(** ** Specification *)
Inductive verdict := Pass | Drop | Mirror (out : Z) | Redirect (out : Z).

(** What a rule means for a packet that arrived on [ifindex]. *)
Definition rule_verdict (ifindex : Z) (r : option es_rule) : verdict :=
  match r with
  | None => Pass
  | Some r =>
    if r_action r =? ES_POLICY_NEXT then Pass
    else if (r_action r =? ES_POLICY_MIRROR) && negb (r_out_ifindex r =? 0) &&
            negb (r_out_ifindex r =? ifindex) then Mirror (r_out_ifindex r)
    else if (r_action r =? ES_POLICY_REDIRECT) && negb (r_out_ifindex r =? 0) &&
            negb (r_out_ifindex r =? ifindex) then Redirect (r_out_ifindex r)
    else Drop
  end.

Definition pol_ok (st : pol_state) : Prop :=
  exists v, pol_counters st = Some v /\ length v = ES_C_MAX.

Section Facts.
Context `{HH : BpfHelpers, HK : !BpfHelpersOk, HR : RedirectHelpers}.

(** What a verdict does to the packet, to the counters and to the recorded
    effects.  A drop is counted unless its rule's action is unknown. *)
Definition verdict_effect (skb : sk_buff) (v : verdict) (rc : Z) (st st' : pol_state) : Prop :=
  match v with
  | Pass => rc = ES_TC_NEXT /\ st' = st
  | Drop => rc = ES_TC_DROP /\ (st' = pol_count ES_C_POLICY_DROP st \/ st' = st)
  | Mirror out => rc = ES_TC_NEXT /\ pol_cloned st' = pol_cloned st ++ [out] /\
      pol_redirected st' = pol_redirected st /\
      pol_get ES_C_MIRROR_ATTEMPT st' = u64 (pol_get ES_C_MIRROR_ATTEMPT st + 1) /\
      pol_get ES_C_MIRROR_ERROR st' =
        (if bpf_clone_redirect skb out <? 0 then u64 (pol_get ES_C_MIRROR_ERROR st + 1)
         else pol_get ES_C_MIRROR_ERROR st)
  | Redirect out => rc = bpf_redirect out /\ pol_cloned st' = pol_cloned st /\
      pol_redirected st' = pol_redirected st ++ [out] /\
      pol_get ES_C_REDIRECT_ATTEMPT st' = u64 (pol_get ES_C_REDIRECT_ATTEMPT st + 1)
  end.

Lemma pol_get_count c c' st : pol_ok st ->
  pol_get c (pol_count c' st) = if decide (c = c') then u64 (pol_get c st + 1) else pol_get c st.
Proof.
  intros (v & Hv & Hl). unfold pol_get, pol_count. rewrite Hv. simpl.
  rewrite nth_alter by (rewrite Hl; unfold ES_C_MAX; destruct c'; simpl; lia).
  by destruct c, c'.
Qed.

Lemma pol_ok_count c st : pol_ok st -> pol_ok (pol_count c st).
Proof.
  intros (v & Hv & Hl). unfold pol_ok, pol_count. rewrite Hv. eexists. split; [done|].
  by rewrite length_alter.
Qed.

Lemma pol_get_effects c st cl re : pol_get c (mk_pol (pol_counters st) cl re) = pol_get c st.
Proof. done. Qed.

Lemma pol_ok_effects st cl re : pol_ok st -> pol_ok (mk_pol (pol_counters st) cl re).
Proof. done. Qed.

Lemma apply_rule_spec skb r st : pol_ok st ->
  verdict_effect skb (rule_verdict (skb_ifindex skb) (Some r)) (apply_rule skb r st).1 st
    (apply_rule skb r st).2.
Proof.
  intros Hok. unfold apply_rule, rule_verdict.
  destruct (Z.eqb_spec (r_action r) ES_POLICY_NEXT); [done|].
  destruct (Z.eqb_spec (r_action r) ES_POLICY_DROP) as [E|].
  { rewrite E. simpl. auto. }
  destruct (r_out_ifindex r =? 0), (r_out_ifindex r =? skb_ifindex skb); cbn [orb negb];
    rewrite ?andb_false_r; try (split; [done|by left]).
  rewrite !andb_true_r.
  destruct (r_action r =? ES_POLICY_MIRROR); cbn [fst snd verdict_effect].
  - destruct (bpf_clone_redirect skb (r_out_ifindex r) <? 0); split_and!; try done;
      rewrite ?pol_get_count, ?pol_get_effects by auto using pol_ok_count, pol_ok_effects;
      cbn [decide decide_rel]; rewrite ?pol_get_count by done; done.
  - destruct (r_action r =? ES_POLICY_REDIRECT); cbn [fst snd verdict_effect].
    + split_and!; try done. rewrite pol_get_effects. by rewrite pol_get_count.
    + split; [done|by right].
Qed.

(** ** The rule a packet meets *)
Definition default_rule (rules : gmap es_policy_key es_rule) : option es_rule :=
  rules !! zero_policy_key.

(** The key of the exact rule for a frame. *)
Definition frame_key (f : frame) (skb : sk_buff) : es_policy_key :=
  mk_policy_key
    (mk_flow_key (tuple_of f (negb (skb_vlan_present skb =? 0)) (u16 (skb_vlan_tci skb)))
       (skb_ifindex skb) ES_INGRESS [0; 0; 0]) 1 0.

Definition has_ports (x : transport) : bool :=
  match x with Other _ _ => false | _ => true end.

Definition frame_rule (rules : gmap es_policy_key es_rule) (f : frame) (skb : sk_buff) : option es_rule :=
  if has_ports (fr_transport f) then
    match rules !! frame_key f skb with Some r => Some r | None => default_rule rules end
  else default_rule rules.

Lemma load_and_parse_emitted f skb :
  skb_ok skb -> skb_data skb = emit f -> frame_ok f ->
  is_byte (transport_proto (fr_transport f)) ->
  let sv := negb (skb_vlan_present skb =? 0) in
  let vid := u16 (skb_vlan_tci skb) in
  (length (vlan_ids f sv vid) <= 2)%nat -> header_need f <= ES_PARSE_BYTES ->
  (bpf_skb_load_bytes skb 0 (Z.min ES_PARSE_BYTES (skb_len skb))).1 = 0 ->
  load_and_parse skb = Some (ES_PARSE_OK, tuple_of f sv vid).
Proof.
  intros [[Hl0 Hl1] Hd Hb _] He Hf Hpr sv vid Hv Hn Hrc. unfold load_and_parse.
  replace (if ES_PARSE_BYTES <? skb_len skb then ES_PARSE_BYTES else skb_len skb)
    with (Z.min ES_PARSE_BYTES (skb_len skb)) by (unfold ES_PARSE_BYTES; case_match; lia).
  set (cap := Z.min ES_PARSE_BYTES (skb_len skb)) in *.
  assert (Hneed : 14 <= header_need f <= skb_len skb).
  { rewrite <- Hd, He. by apply header_need_length. }
  assert (Hcap : 14 <= cap <= 128) by (subst cap; unfold ES_PARSE_BYTES in *; lia).
  pose proof (load_success skb 0 cap) as Hls.
  destruct (bpf_skb_load_bytes skb 0 cap) as [rc loaded]. simpl in Hrc, Hls. subst rc.
  destruct Hls as [-> _]; [lia|lia|done|]. rewrite drop_0.
  rewrite (proj2 (Z.eqb_neq cap 0)) by lia. simpl.
  rewrite (es_parse_agree (skb_data skb)).
  - rewrite He. replace (skb_len skb) with (Z.of_nat (length (emit f))) by (rewrite <- He; lia).
    apply es_parse_emitted; try done. subst cap. lia.
  - done.
  - subst cap. lia.
  - done.
  - by apply prefix_app_r.
Qed.

Lemma tuple_of_ports f sv vid :
  negb (Z.land (t_flags (tuple_of f sv vid)) ES_T_PORTS_VALID =? 0) = has_ports (fr_transport f).
Proof.
  unfold tuple_of. destruct (tuple_addrs (fr_network f)) as [[src dst] version].
  by destruct (fr_transport f).
Qed.

Lemma rule_verdict_target ifindex r out :
  rule_verdict ifindex r = Mirror out \/ rule_verdict ifindex r = Redirect out ->
  out <> 0 /\ out <> ifindex.
Proof.
  unfold rule_verdict. destruct r as [r|]; [|by intros [?|?]].
  destruct (_ =? ES_POLICY_NEXT); [by intros [?|?]|].
  destruct (Z.eqb_spec (r_out_ifindex r) 0), (Z.eqb_spec (r_out_ifindex r) ifindex); cbn [negb];
    rewrite ?andb_false_r; try by intros [?|?].
  rewrite !andb_true_r. destruct (_ =? ES_POLICY_MIRROR); [by intros [[= <-]|?]|].
  destruct (_ =? ES_POLICY_REDIRECT); [by intros [?|[= <-]]|by intros [?|?]].
Qed.

Lemma active_run rules skb st status tuple :
  pol_ok st -> load_and_parse skb = Some (status, tuple) ->
  exists rc st', es_active_ingress (Some rules) skb st = Some (rc, st') /\
    verdict_effect skb (rule_verdict (skb_ifindex skb) (select_rule rules skb status tuple)) rc st st'.
Proof.
  intros Hok E. unfold es_active_ingress. destruct Hok as (v & Hv & Hl). rewrite Hv, E. cbn.
  destruct (select_rule rules skb status tuple) as [r|]; [|by eexists _, _].
  eexists _, _. split; [by rewrite <- surjective_pairing|]. apply apply_rule_spec. by exists v.
Qed.

(** C18: the active policy on any packet.  The program terminates without a faulting access; its
    verdict is that of the rule the packet selects; it never mirrors or redirects to interface 0
    or back to the interface the packet came from; a packet that does not parse completely, or has
    no ports, meets the default rule only; and without a published rule table the packet passes. *)
Theorem es_active_safe rules skb st :
  skb_ok skb -> pol_ok st ->
  es_active_ingress None skb st = Some (ES_TC_NEXT, st) /\
  exists rc st' status tuple,
    load_and_parse skb = Some (status, tuple) /\
    es_active_ingress (Some rules) skb st = Some (rc, st') /\
    let v := rule_verdict (skb_ifindex skb) (select_rule rules skb status tuple) in
    verdict_effect skb v rc st st' /\
    (forall out, v = Mirror out \/ v = Redirect out -> out <> 0 /\ out <> skb_ifindex skb) /\
    (status <> ES_PARSE_OK \/ Z.land (t_flags tuple) ES_T_PORTS_VALID = 0 ->
       select_rule rules skb status tuple = default_rule rules).
Proof.
  intros Hs Hok. split; [done|].
  destruct (load_and_parse_ok skb Hs) as (status & tuple & E & _).
  destruct (active_run rules skb st status tuple Hok E) as (rc & st' & E' & Hv).
  exists rc, st', status, tuple. cbv zeta. split; [done|split; [done|split; [done|split]]].
  - intros out. apply rule_verdict_target.
  - intros Hd. unfold select_rule, exact_key.
    destruct (Z.eqb_spec status ES_PARSE_OK) as [->|]; [|done].
    destruct Hd as [?|Hd]; [done|]. by rewrite Hd.
Qed.

(** C19: the active policy on well-formed frames.  A TCP or UDP frame of the grammar meets the
    rule installed for exactly its tuple (addresses, ports, protocol, EtherType, VLAN IDs) on its
    ingress interface, and the default rule when there is none; other frames meet the default
    rule. *)
Theorem es_active_frame f rules skb st :
  skb_ok skb -> pol_ok st -> skb_data skb = emit f -> frame_ok f ->
  is_byte (transport_proto (fr_transport f)) ->
  Z.of_nat (length (vlan_ids f (negb (skb_vlan_present skb =? 0)) (u16 (skb_vlan_tci skb)))) <= 2 ->
  header_need f <= ES_PARSE_BYTES ->
  (bpf_skb_load_bytes skb 0 (Z.min ES_PARSE_BYTES (skb_len skb))).1 = 0 ->
  exists rc st', es_active_ingress (Some rules) skb st = Some (rc, st') /\
    verdict_effect skb (rule_verdict (skb_ifindex skb) (frame_rule rules f skb)) rc st st'.
Proof.
  intros Hs Hok Hd Hf Hp Hv Hn Hrc.
  pose proof (load_and_parse_emitted f skb Hs Hd Hf Hp ltac:(lia) Hn Hrc) as E.
  destruct (active_run rules skb st _ _ Hok E) as (rc & st' & E' & Hv').
  exists rc, st'. split; [done|]. revert Hv'. unfold select_rule, exact_key, frame_rule.
  rewrite tuple_of_ports. change (ES_PARSE_OK =? ES_PARSE_OK) with true. cbn [andb].
  by destruct (has_ports (fr_transport f)).
Qed.

End Facts.

(** ** Instances *)
#[global] Instance sample_redirect : RedirectHelpers := {|
  bpf_clone_redirect _ _ := 0;
  bpf_redirect _ := ES_TC_REDIRECT;
|}.

Definition sample_pol : pol_state := mk_pol (Some (replicate ES_C_MAX 0)) [] [].

Lemma sample_pol_ok : pol_ok sample_pol.
Proof. by exists (replicate ES_C_MAX 0). Qed.

Definition tcp6_skb : sk_buff := mk_skb (Z.of_nat (length (emit tcp6_frame))) (emit tcp6_frame) 3 0 0.

Lemma tcp6_skb_ok : skb_ok tcp6_skb.
Proof.
  split; [split; vm_compute; done|reflexivity| |split; [split; vm_compute; done|done]].
  apply (bool_decide_unpack _). vm_compute. exact I.
Qed.

(** The frame's own rule redirects to interface 4; everything else is dropped. *)
Definition sample_rules : gmap es_policy_key es_rule :=
  {[ frame_key tcp6_frame tcp6_skb := mk_rule ES_POLICY_REDIRECT 4 1;
     zero_policy_key := mk_rule ES_POLICY_DROP 0 1 ]}.

Lemma es_active_safe_witness :
  es_active_ingress (Some sample_rules) sample_skb sample_pol =
    Some (ES_TC_DROP, pol_count ES_C_POLICY_DROP sample_pol) /\
  exists status tuple, load_and_parse sample_skb = Some (status, tuple).
Proof.
  split; [vm_compute; reflexivity|].
  destruct (es_active_safe sample_rules sample_skb sample_pol sample_skb_ok sample_pol_ok)
    as (_ & _ & _ & status & tuple & E & _).
  exists status, tuple. exact E.
Defined.

Lemma es_active_frame_witness :
  exists st', es_active_ingress (Some sample_rules) tcp6_skb sample_pol =
                Some (ES_TC_REDIRECT, st') /\ pol_redirected st' = [4].
Proof.
  destruct (es_active_frame tcp6_frame sample_rules tcp6_skb sample_pol tcp6_skb_ok sample_pol_ok
    eq_refl tcp6_frame_ok) as (rc & st' & E & Hv).
  - unfold is_byte. simpl. lia.
  - vm_compute. discriminate.
  - vm_compute. discriminate.
  - vm_compute. reflexivity.
  - assert (Er : frame_rule sample_rules tcp6_frame tcp6_skb = Some (mk_rule ES_POLICY_REDIRECT 4 1))
      by (vm_compute; reflexivity).
    rewrite Er in Hv. destruct Hv as (-> & _ & Hr & _). exists st'. split; [exact E|exact Hr].
Defined.
