(* ===== verification/PolicyRuns.v ===== *)
(** * The active policy over a sequence of packets

    The control plane publishes rule tables while packets arrive on one CPU.
    Each packet is judged by one table, the one published when it arrived; the
    counters, the clones and the redirects are exactly those of the verdicts. *)
From S2P Require Import Prelude Abi PacketParser ParserFacts TcObserver Samples ObserverFacts ActiveTc.

Abbreviation rule_table := (gmap es_policy_key es_rule).

(** A packet with the rule it met. *)
Abbreviation decision := (sk_buff * option es_rule)%type.

(** A table replaces the one in [active_rules], or a packet arrives. *)
Inductive policy_event :=
  | Publish (rules : option rule_table)
  | Arrive (skb : sk_buff).

(** What [active_rules] holds, the CPU's counters and effects, and what the
    program returned so far. *)
Record policy_run := mk_policy_run {
  active_rules : option rule_table;
  pol : pol_state;
  returned : list Z;
}.

Section Runs.
Context `{BpfHelpers, RedirectHelpers}.

Definition policy_step (ev : policy_event) (s : policy_run) : option policy_run :=
  match ev with
  | Publish rules => Some (mk_policy_run rules (pol s) (returned s))
  | Arrive skb =>
    '(rc, st) ← es_active_ingress (active_rules s) skb (pol s);
    Some (mk_policy_run (active_rules s) st (returned s ++ [rc]))
  end.

Definition run_policy (evs : list policy_event) (s : policy_run) : option policy_run :=
  foldl (fun o ev => o ≫= policy_step ev) (Some s) evs.

(** ** Specification *)

(** The rule that a table has for a packet. *)
Definition packet_rule (rules : option rule_table) (skb : sk_buff) : option es_rule :=
  rules ← rules; '(status, tuple) ← load_and_parse skb; select_rule rules skb status tuple.

(** Each packet with the rule it met, in order of arrival. *)
Fixpoint decisions (rules : option rule_table) (evs : list policy_event) : list (sk_buff * option es_rule) :=
  match evs with
  | [] => []
  | Publish rules :: evs => decisions rules evs
  | Arrive skb :: evs => (skb, packet_rule rules skb) :: decisions rules evs
  end.

Definition verdict_of (d : decision) : verdict := rule_verdict (skb_ifindex d.1) d.2.

Definition verdict_rc (v : verdict) : Z :=
  match v with
  | Pass | Mirror _ => ES_TC_NEXT
  | Drop => ES_TC_DROP
  | Redirect out => bpf_redirect out
  end.

Definition mirrored (d : decision) : option Z := match verdict_of d with Mirror out => Some out | _ => None end.
Definition redirected (d : decision) : option Z := match verdict_of d with Redirect out => Some out | _ => None end.

(** An action that is not in the enumeration, with a usable target: the one
    drop that is not counted. *)
Definition unknown_action (d : decision) : bool :=
  match d.2 with
  | Some r => bool_decide (r_action r ∉ [ES_POLICY_NEXT; ES_POLICY_DROP; ES_POLICY_MIRROR; ES_POLICY_REDIRECT]) &&
              negb (r_out_ifindex r =? 0) && negb (r_out_ifindex r =? skb_ifindex d.1)
  | None => false
  end.

(** What one decision adds to a counter. *)
Definition adds (c : es_counter_id) (d : decision) : Z :=
  match c, verdict_of d with
  | ES_C_POLICY_DROP, Drop => if unknown_action d then 0 else 1
  | ES_C_MIRROR_ATTEMPT, Mirror _ => 1
  | ES_C_MIRROR_ERROR, Mirror out => if bpf_clone_redirect d.1 out <? 0 then 1 else 0
  | ES_C_REDIRECT_ATTEMPT, Redirect _ => 1
  | _, _ => 0
  end.

Definition total_adds (c : es_counter_id) (ds : list decision) : Z := foldr (fun d n => adds c d + n) 0 ds.

Lemma adds_range c d : 0 <= adds c d <= 1.
Proof. unfold adds. destruct c, (verdict_of d); repeat case_match; lia. Qed.

Lemma total_adds_range c ds : 0 <= total_adds c ds <= Z.of_nat (length ds).
Proof. induction ds as [|d ds IH]; [done|].
  change (total_adds c (d :: ds)) with (adds c d + total_adds c ds).
  pose proof (adds_range c d). cbn [length]. lia.
Qed.
End Runs.

Section Facts.
Context `{HH : BpfHelpers, HK : !BpfHelpersOk, HR : RedirectHelpers}.

(** ** One packet *)

(** The effect of a decision on the state, exactly. *)
Record decided (d : decision) (rc : Z) (st st' : pol_state) : Prop := {
  dec_rc : rc = verdict_rc (verdict_of d);
  dec_ok : pol_ok st';
  dec_counters : forall c, pol_get c st' = if adds c d =? 1 then u64 (pol_get c st + 1) else pol_get c st;
  dec_cloned : pol_cloned st' = pol_cloned st ++ option_list (mirrored d);
  dec_redirected : pol_redirected st' = pol_redirected st ++ option_list (redirected d);
}.

Lemma decided_none skb st : pol_ok st -> decided (skb, None) ES_TC_NEXT st st.
Proof.
  intros Hok. constructor; try done; [|by rewrite app_nil_r..]. intros c. by destruct c.
Qed.

Lemma decided_same d rc st : pol_ok st -> rc = verdict_rc (verdict_of d) ->
  (forall c, adds c d = 0) -> mirrored d = None -> redirected d = None -> decided d rc st st.
Proof.
  intros Hok Hrc Ha Hm Hr. constructor; try done; [|by rewrite ?Hm, ?Hr, app_nil_r..].
  intros c. by rewrite Ha.
Qed.

Lemma pol_get_effects_of c st st' : pol_counters st' = pol_counters st -> pol_get c st' = pol_get c st.
Proof. unfold pol_get. by intros ->. Qed.

(** The verdict and the counted drop of a rule, by its action. *)
Lemma invalid_target skb r : (r_out_ifindex r =? 0) || (r_out_ifindex r =? skb_ifindex skb) = true ->
  (r_action r =? ES_POLICY_NEXT) = false ->
  verdict_of (skb, Some r) = Drop /\ unknown_action (skb, Some r) = false.
Proof.
  intros Hout Hn. unfold verdict_of, rule_verdict, unknown_action. cbn [fst snd]. rewrite Hn.
  apply orb_true_iff in Hout as [-> | ->]; cbn [negb]; by rewrite ?andb_false_r.
Qed.

Lemma decided_drop d st : pol_ok st -> verdict_of d = Drop -> unknown_action d = false ->
  decided d ES_TC_DROP st (pol_count ES_C_POLICY_DROP st).
Proof.
  intros Hok Hv Hu. constructor; [by rewrite Hv|by apply pol_ok_count| | |].
  - intros c. rewrite pol_get_count by done. unfold adds. rewrite Hv, Hu. by destruct c.
  - unfold mirrored. by rewrite Hv, app_nil_r.
  - unfold redirected. by rewrite Hv, app_nil_r.
Qed.

Lemma apply_rule_decided skb r st : pol_ok st ->
  decided (skb, Some r) (apply_rule skb r st).1 st (apply_rule skb r st).2.
Proof.
  intros Hok. unfold apply_rule.
  destruct (Z.eqb_spec (r_action r) ES_POLICY_NEXT) as [En|Hn].
  { assert (Hv : verdict_of (skb, Some r) = Pass)
      by (unfold verdict_of, rule_verdict; cbn [fst snd]; by rewrite En).
    apply decided_same; [done|by rewrite Hv| |unfold mirrored; by rewrite Hv|unfold redirected; by rewrite Hv].
    intros c. unfold adds. rewrite Hv. by destruct c. }
  apply Z.eqb_neq in Hn.
  destruct (Z.eqb_spec (r_action r) ES_POLICY_DROP) as [Ed|Hd].
  { apply decided_drop; [done|..]; unfold verdict_of, rule_verdict, unknown_action; cbn [fst snd]; by rewrite Ed. }
  destruct ((r_out_ifindex r =? 0) || _) eqn:Hout; [by apply decided_drop; [done|apply invalid_target..]|].
  apply orb_false_iff in Hout as [Ho1 Ho2].
  destruct (Z.eqb_spec (r_action r) ES_POLICY_MIRROR) as [Em|Hm];
    [|destruct (Z.eqb_spec (r_action r) ES_POLICY_REDIRECT) as [Er|Hr]].
  - assert (Hv : verdict_of (skb, Some r) = Mirror (r_out_ifindex r))
      by (unfold verdict_of, rule_verdict; cbn [fst snd]; by rewrite Em, Ho1, Ho2).
    cbn [fst snd]. constructor; [by rewrite Hv| | | |].
    + destruct (_ <? 0); [apply pol_ok_count|]; apply pol_ok_effects, pol_ok_count, Hok.
    + intros c. unfold adds. rewrite Hv. cbn [fst snd].
      destruct (bpf_clone_redirect skb (r_out_ifindex r) <? 0);
        rewrite ?pol_get_count, ?pol_get_effects by auto using pol_ok_count, pol_ok_effects;
        rewrite pol_get_count by done; by destruct c.
    + unfold mirrored. rewrite Hv. by destruct (_ <? 0).
    + unfold redirected. rewrite Hv, app_nil_r. by destruct (_ <? 0).
  - assert (Hv : verdict_of (skb, Some r) = Redirect (r_out_ifindex r))
      by (unfold verdict_of, rule_verdict; cbn [fst snd]; by rewrite Er, Ho1, Ho2).
    cbn [fst snd]. constructor; [by rewrite Hv|by apply pol_ok_effects, pol_ok_count| | |].
    + intros c. unfold adds. rewrite Hv, pol_get_effects, pol_get_count by done. by destruct c.
    + unfold mirrored. by rewrite Hv, app_nil_r.
    + unfold redirected. by rewrite Hv.
  - apply Z.eqb_neq in Hm, Hr.
    assert (Hv : verdict_of (skb, Some r) = Drop)
      by (unfold verdict_of, rule_verdict; cbn [fst snd]; by rewrite Hn, Hm, Hr).
    assert (Hu : unknown_action (skb, Some r) = true).
    { unfold unknown_action. cbn [fst snd]. rewrite Ho1, Ho2, bool_decide_true; [done|].
      apply Z.eqb_neq in Hn, Hm, Hr. set_solver. }
    apply decided_same; [done|by rewrite Hv| |unfold mirrored; by rewrite Hv|unfold redirected; by rewrite Hv].
    intros c. unfold adds. rewrite Hv, Hu. by destruct c.
Qed.

Lemma packet_decided rules skb st : skb_ok skb -> pol_ok st ->
  exists rc st', es_active_ingress rules skb st = Some (rc, st') /\
    decided (skb, packet_rule rules skb) rc st st'.
Proof.
  intros Hs Hok. unfold es_active_ingress, packet_rule.
  destruct rules as [rules|]; [|by exists ES_TC_NEXT, st; split; [|apply decided_none]].
  destruct (load_and_parse_ok skb Hs) as (status & tuple & E & _).
  destruct Hok as (v & Hv & Hl) eqn:Eok. rewrite Hv, E. cbn [mbind option_bind].
  destruct (select_rule rules skb status tuple) as [r|].
  - eexists _, _. split; [by rewrite <- surjective_pairing|]. by apply apply_rule_decided.
  - exists ES_TC_NEXT, st. split; [done|]. by apply decided_none.
Qed.

(** ** Runs *)
Definition arrivals_ok (evs : list policy_event) : Prop :=
  Forall (fun ev => match ev with Arrive skb => skb_ok skb | Publish _ => True end) evs.

Lemma run_policy_cons ev evs s : run_policy (ev :: evs) s = policy_step ev s ≫= run_policy evs.
Proof.
  unfold run_policy. cbn [foldl mbind option_bind]. destruct (policy_step ev s); [done|].
  cbn. induction evs; [done|by cbn].
Qed.

Lemma run_policy_spec evs : forall s, pol_ok (pol s) -> arrivals_ok evs ->
  (forall c, 0 <= pol_get c (pol s) /\ pol_get c (pol s) + Z.of_nat (length evs) < 2 ^ 64) ->
  let ds := decisions (active_rules s) evs in
  exists s', run_policy evs s = Some s' /\ pol_ok (pol s') /\
    returned s' = returned s ++ map (fun d => verdict_rc (verdict_of d)) ds /\
    pol_cloned (pol s') = pol_cloned (pol s) ++ omap mirrored ds /\
    pol_redirected (pol s') = pol_redirected (pol s) ++ omap redirected ds /\
    (forall c, pol_get c (pol s') = pol_get c (pol s) + total_adds c ds).
Proof.
  induction evs as [|ev evs IH]; intros s Hok Hall Hlt; cbn [decisions].
  { exists s. cbn. rewrite !app_nil_r. split_and!; try done. intros. lia. }
  apply Forall_cons_1 in Hall as [Hev Hall]. rewrite run_policy_cons. cbn [length] in Hlt.
  destruct ev as [rules|skb]; cbn [policy_step].
  - cbn [mbind option_bind]. apply (IH (mk_policy_run rules (pol s) (returned s))); [done|done|].
    intros c. specialize (Hlt c). cbn. lia.
  - destruct (packet_decided (active_rules s) skb (pol s) Hev Hok) as (rc & st & -> & [Hrc Hst Hc Hcl Hre]).
    cbn [mbind option_bind]. set (s1 := mk_policy_run (active_rules s) st (returned s ++ [rc])).
    assert (Hc' : forall c, pol_get c st = pol_get c (pol s) + adds c (skb, packet_rule (active_rules s) skb)).
    { intros c. rewrite Hc. pose proof (adds_range c (skb, packet_rule (active_rules s) skb)).
      specialize (Hlt c). destruct (Z.eqb_spec (adds c (skb, packet_rule (active_rules s) skb)) 1) as [E1|];
        [rewrite wrap_small by lia|]; lia. }
    destruct (IH s1 Hst Hall) as (s' & E & Hok' & Hr & Hcl' & Hre' & Hc2).
    { intros c. cbn. rewrite Hc'. pose proof (adds_range c (skb, packet_rule (active_rules s) skb)).
      specialize (Hlt c). lia. }
    exists s'. subst s1. cbn [active_rules pol returned] in *. rewrite E, Hr, Hcl', Hre', Hcl, Hre, <- !app_assoc.
    cbn [map omap list_omap]. rewrite Hrc. split_and!; try done.
    + by destruct (mirrored _).
    + by destruct (redirected _).
    + intros c. rewrite Hc2, Hc'. cbn. unfold total_adds. lia.
Qed.

(** ** The counters are counts of verdicts *)
Definition is_drop (d : decision) : bool := match verdict_of d with Drop => true | _ => false end.
Definition clone_failed (d : decision) : bool :=
  match verdict_of d with Mirror out => bpf_clone_redirect d.1 out <? 0 | _ => false end.
Definition count (f : decision -> bool) (ds : list decision) : Z := Z.of_nat (length (List.filter f ds)).

Lemma count_cons f d ds : count f (d :: ds) = (if f d then 1 else 0) + count f ds.
Proof. unfold count. cbn. destruct (f d); cbn [length]; lia. Qed.

Lemma total_adds_cons c d ds : total_adds c (d :: ds) = adds c d + total_adds c ds.
Proof. done. Qed.

Lemma unknown_is_drop d : unknown_action d = true -> is_drop d = true.
Proof.
  unfold unknown_action, is_drop, verdict_of, rule_verdict. destruct d as [skb [r|]]; [|done]. cbn [fst snd].
  rewrite !andb_true_iff, bool_decide_eq_true. intros [[Hn _] _].
  destruct (Z.eqb_spec (r_action r) ES_POLICY_NEXT); [set_solver|].
  destruct (Z.eqb_spec (r_action r) ES_POLICY_MIRROR); [set_solver|].
  by destruct (Z.eqb_spec (r_action r) ES_POLICY_REDIRECT); [set_solver|].
Qed.

Lemma counts_of_verdicts ds :
  total_adds ES_C_MIRROR_ATTEMPT ds = Z.of_nat (length (omap mirrored ds)) /\
  total_adds ES_C_REDIRECT_ATTEMPT ds = Z.of_nat (length (omap redirected ds)) /\
  total_adds ES_C_MIRROR_ERROR ds = count clone_failed ds /\
  total_adds ES_C_POLICY_DROP ds + count unknown_action ds = count is_drop ds.
Proof.
  induction ds as [|d ds (H1 & H2 & H3 & H4)]; [done|].
  rewrite !total_adds_cons, !count_cons. pose proof (unknown_is_drop d) as Hu.
  unfold adds, is_drop, clone_failed in *. cbn [omap list_omap]. unfold mirrored, redirected in *.
  destruct (verdict_of d), (unknown_action d); cbn [length] in *; try (specialize (Hu eq_refl); discriminate);
    repeat case_match; split_and!; lia.
Qed.

(** C20: the policy over a run.  Whatever tables are published while packets arrive, each packet is
    judged by the table published at its arrival and gets the return code of its verdict; the
    clones and redirects made are those of the verdicts, in order, and never to interface 0 or to
    the one the packet came from; the mirror and redirect counters are their numbers, the error
    counter is the number of failed clones, and the drop counter is the number of drops but for
    those of unknown actions. *)
Theorem policy_accounting evs rules st :
  pol_ok st -> (forall c, pol_get c st = 0) -> pol_cloned st = [] -> pol_redirected st = [] ->
  arrivals_ok evs -> Z.of_nat (length evs) < 2 ^ 64 ->
  let ds := decisions rules evs in
  exists s', run_policy evs (mk_policy_run rules st []) = Some s' /\
    returned s' = map (fun d => verdict_rc (verdict_of d)) ds /\
    pol_cloned (pol s') = omap mirrored ds /\ pol_redirected (pol s') = omap redirected ds /\
    Forall (fun d => forall out, mirrored d = Some out \/ redirected d = Some out ->
      out <> 0 /\ out <> skb_ifindex d.1) ds /\
    pol_get ES_C_MIRROR_ATTEMPT (pol s') = Z.of_nat (length (pol_cloned (pol s'))) /\
    pol_get ES_C_REDIRECT_ATTEMPT (pol s') = Z.of_nat (length (pol_redirected (pol s'))) /\
    pol_get ES_C_MIRROR_ERROR (pol s') = count clone_failed ds /\
    pol_get ES_C_POLICY_DROP (pol s') = count is_drop ds - count unknown_action ds.
Proof.
  intros Hok H0 Hcl Hre Hall Hlt ds.
  destruct (run_policy_spec evs (mk_policy_run rules st []) Hok Hall) as (s' & E & _ & Hr & Hc & Hd & Hcount).
  { intros c. cbn. rewrite H0. lia. }
  cbn [active_rules pol returned] in *. rewrite Hcl in Hc. rewrite Hre in Hd. fold ds in Hr, Hc, Hd, Hcount.
  destruct (counts_of_verdicts ds) as (H1 & H2 & H3 & H4).
  exists s'. rewrite !Hcount, !H0, Hc, Hd. split_and!; try done; try lia.
  clear. induction ds as [|d ds IH]; constructor; [|done]. intros out Hout.
  apply (rule_verdict_target (skb_ifindex d.1) d.2). unfold mirrored, redirected, verdict_of in Hout.
  destruct (rule_verdict _ _); naive_solver.
Qed.
End Facts.

(** ** Instances *)

(** Before any table, under a drop-all table, and under one whose default
    rule has an unknown action. *)
Definition sample_policy_events : list policy_event :=
  [Arrive sample_skb; Publish (Some sample_rules); Arrive sample_skb; Arrive tcp6_skb;
   Publish (Some {[ zero_policy_key := mk_rule 9 4 2 ]}); Arrive sample_skb].

Lemma policy_accounting_witness :
  exists s', run_policy sample_policy_events (mk_policy_run None sample_pol []) = Some s' /\
    returned s' = [ES_TC_NEXT; ES_TC_DROP; ES_TC_REDIRECT; ES_TC_DROP] /\
    pol_get ES_C_POLICY_DROP (pol s') = 1 /\ pol_redirected (pol s') = [4].
Proof.
  destruct (policy_accounting sample_policy_events None sample_pol sample_pol_ok) as (s' & E & Hr & _ & Hd & _ & _ & _ & _ & Hp).
  - intros c. by destruct c.
  - reflexivity.
  - reflexivity.
  - repeat apply List.Forall_cons; try apply List.Forall_nil; first [exact I|apply sample_skb_ok|apply tcp6_skb_ok].
  - simpl. lia.
  - exists s'. split; [exact E|]. rewrite Hr, Hd, Hp. by vm_compute.
Defined.
