(* ===== verification/Xdp.v ===== *)
(** * The XDP programs ([bpf/elephantshrew_xdp.bpf.c],
    [bpf/elephantshrew_xsk.bpf.c])

    [es_xdp] counts frames and, when forwarding is enabled, redirects them to
    the one configured port; [es_xsk] hands registered queues to AF_XDP. *)
From S2P Require Import Prelude Abi ObserverFacts.

Definition XDP_DROP : Z := 1.
Definition XDP_PASS : Z := 2.
Definition XDP_REDIRECT : Z := 4.

(** The part of [struct xdp_md] the programs read: packet pointers and the
    receive queue. *)
Record xdp_md := mk_xdp {
  xdp_data : Z;
  xdp_data_end : Z;
  rx_queue_index : Z;
}.

(** The packet's bounds are addresses of one page-sized region. *)
Record xdp_ok (ctx : xdp_md) : Prop := {
  xdp_addr : in_width 64 (xdp_data ctx) /\ xdp_data ctx + 2 ^ 32 < 2 ^ 64;
  xdp_range : xdp_data ctx <= xdp_data_end ctx < xdp_data ctx + 2 ^ 32;
}.

(** [bpf_redirect_map(map, key, action)] on a map of targets. *)
Class RedirectMap := redirect_map : gmap Z Z -> Z -> Z -> Z.

Class RedirectMapOk `{RedirectMap} : Prop := {
  redirect_map_hit m k a t : m !! k = Some t -> redirect_map m k a = XDP_REDIRECT;
  redirect_map_miss m k a : m !! k = None -> 0 <= a <= 3 -> redirect_map m k a = a;
}.

Section Programs.
Context `{RedirectMap}.

(** [if (s) __sync_fetch_and_add(&s->v[c], n)]. *)
Definition xdp_count (c : es_counter_id) (n : Z) (s : option (list Z)) : option (list Z) :=
  alter (fun v => u64 (v + n)) (counter_index c) <$> s.

Definition es_xdp (forwarding_enabled : Z) (tx_port : gmap Z Z) (ctx : xdp_md)
    (s : option (list Z)) : Z * option (list Z) :=
  let s := xdp_count ES_C_PACKETS 1 s in
  let s := xdp_count ES_C_BYTES (u64 (xdp_data_end ctx - xdp_data ctx)) s in
  if forwarding_enabled =? 0 then (XDP_PASS, s)
  else if xdp_data_end ctx <? xdp_data ctx + 14 then (XDP_DROP, s)
  else
    let s := xdp_count ES_C_REDIRECT_ATTEMPT 1 s in
    (redirect_map tx_port 0 XDP_DROP, s).

Definition es_xsk (xsks : gmap Z Z) (ctx : xdp_md) : Z :=
  redirect_map xsks (rx_queue_index ctx) XDP_PASS.

End Programs.

Definition xdp_get (c : es_counter_id) (s : option (list Z)) : Z :=
  nth (counter_index c) (default [] s) 0.

Section Facts.
Context `{HR : RedirectMap, HO : !RedirectMapOk}.

Lemma xdp_get_count c c' n v : length v = ES_C_MAX ->
  xdp_get c (xdp_count c' n (Some v)) =
    if decide (c = c') then u64 (xdp_get c (Some v) + n) else xdp_get c (Some v).
Proof.
  intros Hl. unfold xdp_get, xdp_count. simpl.
  rewrite nth_alter by (rewrite Hl; unfold ES_C_MAX; destruct c'; simpl; lia).
  by destruct c, c'.
Qed.

(** The XDP forwarder.  Disabled it passes every frame; enabled it drops frames shorter than
    an Ethernet header, redirects the others if a port is configured and drops them otherwise, so
    it never leaves a frame to the stack.  It counts every frame and its length, and one redirect
    attempt for each frame that reaches the redirect. *)
Theorem es_xdp_spec fwd tx_port ctx v :
  xdp_ok ctx -> length v = ES_C_MAX ->
  let len := xdp_data_end ctx - xdp_data ctx in
  let '(rc, s') := es_xdp fwd tx_port ctx (Some v) in
  rc = (if fwd =? 0 then XDP_PASS
        else if decide (14 <= len /\ is_Some (tx_port !! 0)) then XDP_REDIRECT else XDP_DROP) /\
  xdp_get ES_C_PACKETS s' = u64 (xdp_get ES_C_PACKETS (Some v) + 1) /\
  xdp_get ES_C_BYTES s' = u64 (xdp_get ES_C_BYTES (Some v) + len) /\
  xdp_get ES_C_REDIRECT_ATTEMPT s' =
    (if negb (fwd =? 0) && (14 <=? len)
     then u64 (xdp_get ES_C_REDIRECT_ATTEMPT (Some v) + 1)
     else xdp_get ES_C_REDIRECT_ATTEMPT (Some v)) /\
  (forall c, c ∉ [ES_C_PACKETS; ES_C_BYTES; ES_C_REDIRECT_ATTEMPT] -> xdp_get c s' = xdp_get c (Some v)) /\
  exists v', s' = Some v' /\ length v' = ES_C_MAX.
Proof.
  intros [[_ Ha] Hr] Hl len. unfold es_xdp. fold len.
  rewrite (wrap_small 64 len) by lia.
  set (s1 := xdp_count ES_C_BYTES len (xdp_count ES_C_PACKETS 1 (Some v))).
  assert (Hs1 : exists v1, s1 = Some v1 /\ length v1 = ES_C_MAX).
  { subst s1. unfold xdp_count. simpl. eexists. split; [done|]. by rewrite !length_alter. }
  assert (Hg : forall c, xdp_get c s1 =
    if decide (c = ES_C_PACKETS) then u64 (xdp_get c (Some v) + 1)
    else if decide (c = ES_C_BYTES) then u64 (xdp_get c (Some v) + len) else xdp_get c (Some v)).
  { intros c. subst s1. destruct Hs1 as (v1 & _ & _). unfold xdp_count at 2. simpl fmap.
    rewrite xdp_get_count by (by rewrite length_alter).
    change (Some (alter _ _ v)) with (xdp_count ES_C_PACKETS 1 (Some v)).
    rewrite xdp_get_count by done. by destruct c. }
  assert (Hrest : forall c, c ∉ [ES_C_PACKETS; ES_C_BYTES; ES_C_REDIRECT_ATTEMPT] -> xdp_get c s1 = xdp_get c (Some v))
    by (intros c Hc; rewrite Hg; destruct c; try done; set_solver).
  destruct Hs1 as (v1 & E1 & Hl1).
  destruct (fwd =? 0); cbn [negb andb]; [rewrite !Hg; split_and!; eauto|].
  destruct (Z.ltb_spec (xdp_data_end ctx) (xdp_data ctx + 14)).
  { rewrite decide_False by lia. destruct (Z.leb_spec 14 len); [lia|]. rewrite !Hg. split_and!; eauto. }
  destruct (Z.leb_spec 14 len); [|lia].
  assert (Hlast : forall c, xdp_get c (xdp_count ES_C_REDIRECT_ATTEMPT 1 s1) =
    if decide (c = ES_C_REDIRECT_ATTEMPT) then u64 (xdp_get c s1 + 1) else xdp_get c s1)
    by (intros c; rewrite E1; by apply xdp_get_count).
  split_and!.
  - destruct (tx_port !! 0) as [t|] eqn:E.
    + rewrite decide_True by eauto. by eapply redirect_map_hit.
    + rewrite decide_False by (intros [_ [? ?]]; congruence).
      apply redirect_map_miss; [done|unfold XDP_DROP; lia].
  - by rewrite Hlast, Hg.
  - by rewrite Hlast, Hg.
  - by rewrite Hlast, Hg.
  - intros c Hc. rewrite Hlast, decide_False by (intros ->; set_solver). by apply Hrest.
  - rewrite E1. unfold xdp_count. simpl. eexists. split; [done|]. by rewrite length_alter.
Qed.

(** AF_XDP dispatch.  A frame is redirected exactly when its receive queue is registered;
    every other queue continues to the normal stack. *)
Theorem es_xsk_spec xsks ctx :
  es_xsk xsks ctx = match xsks !! rx_queue_index ctx with Some _ => XDP_REDIRECT | None => XDP_PASS end.
Proof.
  unfold es_xsk. destruct (xsks !! rx_queue_index ctx) eqn:E.
  - by eapply redirect_map_hit.
  - apply redirect_map_miss; [done|unfold XDP_PASS; lia].
Qed.
End Facts.

(** ** Instances *)
#[global] Instance sample_redirect_map : RedirectMap := fun m k a =>
  match m !! k with Some _ => XDP_REDIRECT | None => a end.

#[global] Instance sample_redirect_map_ok : RedirectMapOk.
Proof. split; unfold redirect_map, sample_redirect_map; intros; by case_match. Qed.

Definition sample_xdp : xdp_md := mk_xdp 0xffff888000001000 0xffff88800000102a 5.

Lemma es_xdp_spec_witness :
  (es_xdp 1 {[0 := 7]} sample_xdp (Some (replicate ES_C_MAX 0))).1 = XDP_REDIRECT /\
  xdp_get ES_C_BYTES (es_xdp 1 {[0 := 7]} sample_xdp (Some (replicate ES_C_MAX 0))).2 = 42.
Proof.
  assert (Hx : xdp_ok sample_xdp) by (split; unfold in_width; simpl; lia).
  pose proof (es_xdp_spec 1 {[0 := 7]} sample_xdp (replicate ES_C_MAX 0) Hx eq_refl) as Hs.
  cbv zeta in Hs. destruct (es_xdp 1 _ _ _) as [rc s']. destruct Hs as (E1 & _ & E2 & _).
  cbn [fst snd]. rewrite E1, E2.
  split; vm_compute; reflexivity.
Defined.

Lemma es_xsk_spec_witness :
  es_xsk {[5 := 1]} sample_xdp = XDP_REDIRECT /\ es_xsk {[4 := 1]} sample_xdp = XDP_PASS.
Proof. split; rewrite es_xsk_spec; reflexivity. Defined.
