(* ===== verification/XdpRuns.v ===== *)
(** * The XDP programs over a run of frames

    Frames arrive on the CPUs of a host while user space sets and clears the
    forwarding port and the AF_XDP sockets; both maps are of fixed size.  The
    counters are per CPU; [forwarding_enabled] is constant once the program is
    loaded. *)
From S2P Require Import Prelude Abi ObserverFacts Xdp.

(** [max_entries] of the two maps; the kernel refuses keys beyond it. *)
Definition tx_port_entries : Z := 1.
Definition xsks_entries : Z := 64.

Definition fits (entries : Z) (m : gmap Z Z) : Prop := map_Forall (fun k _ => 0 <= k < entries) m.

(** A frame arrives on a CPU, or user space has changed [tx_port]. *)
Inductive xdp_event :=
  | Frame (cpu : nat) (ctx : xdp_md)
  | Ports (m : gmap Z Z).

(** The per-CPU array [counters], [tx_port], and the verdicts so far. *)
Record xdp_host := mk_xdp_host {
  x_counters : list (list Z);
  x_ports : gmap Z Z;
  x_verdicts : list Z;
}.

(** A frame with the ports it met. *)
Record met := mk_met { m_cpu : nat; m_ctx : xdp_md; m_ports : gmap Z Z }.

Section Runs.
Context `{RedirectMap}.

Definition xdp_step (forwarding_enabled : Z) (h : xdp_host) (ev : xdp_event) : option xdp_host :=
  match ev with
  | Ports m => Some (mk_xdp_host (x_counters h) m (x_verdicts h))
  | Frame cpu ctx =>
    v ← x_counters h !! cpu;
    let '(rc, s) := es_xdp forwarding_enabled (x_ports h) ctx (Some v) in
    Some (mk_xdp_host (<[cpu := default v s]> (x_counters h)) (x_ports h) (x_verdicts h ++ [rc]))
  end.

Definition xdp_run (forwarding_enabled : Z) (evs : list xdp_event) (h : xdp_host) : option xdp_host :=
  foldl (fun o ev => o ≫= fun h => xdp_step forwarding_enabled h ev) (Some h) evs.

Definition xdp_start (cpus : nat) (ports : gmap Z Z) : xdp_host :=
  mk_xdp_host (replicate cpus (replicate ES_C_MAX 0)) ports [].

(** ** Specification *)

(** The frames in their order, each with the ports it meets. *)
Fixpoint frames (ports : gmap Z Z) (evs : list xdp_event) : list met :=
  match evs with
  | [] => []
  | Ports m :: evs => frames m evs
  | Frame cpu ctx :: evs => mk_met cpu ctx ports :: frames ports evs
  end.

Definition frame_length (f : met) : Z := xdp_data_end (m_ctx f) - xdp_data (m_ctx f).

(** The frame reaches the redirect. *)
Definition attempted (fwd : Z) (f : met) : bool := negb (fwd =? 0) && (14 <=? frame_length f).

Definition frame_verdict (fwd : Z) (f : met) : Z :=
  if fwd =? 0 then XDP_PASS
  else if attempted fwd f && bool_decide (is_Some (m_ports f !! 0)) then XDP_REDIRECT else XDP_DROP.

Definition frame_adds (fwd : Z) (c : es_counter_id) (f : met) : Z :=
  match c with
  | ES_C_PACKETS => 1
  | ES_C_BYTES => frame_length f
  | ES_C_REDIRECT_ATTEMPT => if attempted fwd f then 1 else 0
  | _ => 0
  end.

(** What the frames of a CPU add to a counter. *)
Definition frames_add (fwd : Z) (c : es_counter_id) (cpu : nat) (l : list met) : Z :=
  foldr (fun f n => frame_adds fwd c f + n) 0 (filter (fun f => m_cpu f = cpu) l).

Definition event_ok (cpus : nat) (ev : xdp_event) : Prop :=
  match ev with
  | Frame cpu ctx => (cpu < cpus)%nat /\ xdp_ok ctx
  | Ports m => fits tx_port_entries m
  end.

End Runs.

Section Facts.
Context `{HR : RedirectMap, HO : !RedirectMapOk}.

Lemma frames_add_snoc fwd c cpu l f : frames_add fwd c cpu (l ++ [f]) =
  frames_add fwd c cpu l + if decide (m_cpu f = cpu) then frame_adds fwd c f else 0.
Proof.
  unfold frames_add. rewrite list.filter_app. generalize (filter (fun f => m_cpu f = cpu) l). intros k.
  assert (Hf : foldr (fun f n => frame_adds fwd c f + n) 0 (filter (fun f => m_cpu f = cpu) [f]) =
    if decide (m_cpu f = cpu) then frame_adds fwd c f else 0).
  { rewrite filter_cons, filter_nil. case_decide; cbn; lia. }
  induction k as [|g k IH]; cbn [app foldr]; [by rewrite Hf|]. rewrite IH. lia.
Qed.

(** The ports after a run. *)
Definition ports_after (ports : gmap Z Z) (evs : list xdp_event) : gmap Z Z :=
  foldl (fun m ev => match ev with Ports m' => m' | Frame _ _ => m end) ports evs.

Lemma frames_snoc evs ev : forall ports, frames ports (evs ++ [ev]) =
  frames ports evs ++ match ev with Frame cpu ctx => [mk_met cpu ctx (ports_after ports evs)] | Ports _ => [] end.
Proof.
  induction evs as [|[cpu' ctx'|m] evs IH]; intros ports; cbn; [by destruct ev| |]; by rewrite IH.
Qed.

(** One frame on one CPU's counters. *)
Lemma es_xdp_adds fwd f v : xdp_ok (m_ctx f) -> length v = ES_C_MAX ->
  exists v', es_xdp fwd (m_ports f) (m_ctx f) (Some v) = (frame_verdict fwd f, Some v') /\ length v' = ES_C_MAX /\
    forall c n, xdp_get c (Some v) = u64 n -> xdp_get c (Some v') = u64 (n + frame_adds fwd c f).
Proof.
  intros Hok Hl. pose proof (es_xdp_spec fwd (m_ports f) (m_ctx f) v Hok Hl) as Hs. cbv zeta in Hs.
  destruct (es_xdp fwd (m_ports f) (m_ctx f) (Some v)) as [rc s']. destruct Hs as (-> & Hp & Hb & Ha & Hrest & v' & -> & Hl').
  exists v'. fold (frame_length f) in *. split_and!; [|done|].
  - f_equal. unfold frame_verdict, attempted. destruct (fwd =? 0); [done|]. cbn [negb andb].
    destruct (Z.leb_spec 14 (frame_length f)); cbn [andb]; [|by rewrite decide_False by lia].
    case_bool_decide as E; [by rewrite decide_True|]. by rewrite decide_False by tauto.
  - intros c n Hn. unfold frame_adds. destruct (decide (c ∈ [ES_C_PACKETS; ES_C_BYTES; ES_C_REDIRECT_ATTEMPT])) as [Hin|Hin].
    + repeat (apply elem_of_cons in Hin as [->|Hin]); [..|by apply not_elem_of_nil in Hin].
      * by rewrite Hp, Hn, wrap_add_l.
      * by rewrite Hb, Hn, wrap_add_l.
      * rewrite Ha. unfold attempted. destruct (_ && _); [by rewrite Hn, wrap_add_l|by rewrite Hn, Z.add_0_r].
    + rewrite Hrest by done. rewrite Hn. f_equal. destruct c; try lia; exfalso; set_solver.
Qed.

Record xdp_inv (fwd : Z) (cpus : nat) (ports : gmap Z Z) (evs : list xdp_event) (h : xdp_host) : Prop := {
  xv_ports : x_ports h = ports_after ports evs;
  xv_fits : fits tx_port_entries (x_ports h);
  xv_verdicts : x_verdicts h = frame_verdict fwd <$> frames ports evs;
  xv_cpus : length (x_counters h) = cpus;
  xv_counters cpu v : x_counters h !! cpu = Some v ->
    length v = ES_C_MAX /\ forall c, xdp_get c (Some v) = u64 (frames_add fwd c cpu (frames ports evs));
}.

Lemma xdp_run_inv fwd cpus ports evs : fits tx_port_entries ports -> Forall (event_ok cpus) evs ->
  exists h, xdp_run fwd evs (xdp_start cpus ports) = Some h /\ xdp_inv fwd cpus ports evs h.
Proof.
  intros Hfit. unfold xdp_run. induction evs as [|ev evs IH] using rev_ind; intros Hok.
  - eexists. split; [done|]. constructor; cbn; [done|done|done|by rewrite length_replicate|].
    intros cpu v [-> _]%lookup_replicate. split; [done|]. intros c. by destruct c.
  - apply Forall_app in Hok as [Hok Hev%Forall_cons_1%proj1]. destruct (IH Hok) as (h & E & [H1 H2 H3 H4 H5]).
    rewrite foldl_snoc, E. cbn [mbind option_bind]. destruct ev as [cpu ctx|m]; cbn [xdp_step event_ok] in *.
    + destruct Hev as [Hcpu Hctx]. destruct (lookup_lt_is_Some_2 (x_counters h) cpu) as [v Hv]; [lia|].
      rewrite Hv. cbn [mbind option_bind]. destruct (H5 cpu v Hv) as [Hlen Hget].
      destruct (es_xdp_adds fwd (mk_met cpu ctx (x_ports h)) v Hctx Hlen) as (v' & Ex & Hl' & Hadd). cbn [m_ports m_ctx] in Ex.
      rewrite Ex. eexists. split; [done|]. rewrite H1 in *. constructor; cbn [x_ports x_verdicts x_counters].
      * unfold ports_after. by rewrite foldl_snoc.
      * done.
      * by rewrite H3, frames_snoc, fmap_app.
      * by rewrite length_insert.
      * intros cpu' w. rewrite list_lookup_insert_Some, frames_snoc. intros [(<- & <- & _)|[Hne Hw]].
        -- split; [done|]. intros c. rewrite frames_add_snoc, decide_True by done. by apply Hadd.
        -- destruct (H5 cpu' w Hw) as [? Hg]. split; [done|]. intros c.
           by rewrite frames_add_snoc, decide_False, Z.add_0_r.
    + eexists. split; [done|]. constructor; cbn [x_ports x_verdicts x_counters]; rewrite ?frames_snoc, ?app_nil_r; try done.
      unfold ports_after. by rewrite foldl_snoc.
Qed.

(** C21: the XDP forwarder accounts for every frame.  Over any sequence of frames on any CPUs and of changes
    of the port: nothing faults; each frame gets the verdict for the port set when it arrives -
    without forwarding every frame passes, with it none is left to the stack; every counter of every
    CPU is, modulo 2^64, what the frames of that CPU add to it, so no counter the program does not
    own moves; and every redirected frame is counted as an attempt. *)
Theorem xdp_accounting fwd cpus ports evs :
  fits tx_port_entries ports -> Forall (event_ok cpus) evs ->
  exists h, xdp_run fwd evs (xdp_start cpus ports) = Some h /\
    x_verdicts h = frame_verdict fwd <$> frames ports evs /\
    length (x_counters h) = cpus /\
    (forall cpu v c, x_counters h !! cpu = Some v ->
       xdp_get c (Some v) = u64 (frames_add fwd c cpu (frames ports evs))) /\
    Forall (fun f => frame_verdict fwd f = XDP_REDIRECT -> attempted fwd f = true) (frames ports evs) /\
    fits tx_port_entries (x_ports h).
Proof.
  intros Hfit Hok. destruct (xdp_run_inv fwd cpus ports evs Hfit Hok) as (h & E & [H1 H2 H3 H4 H5]).
  exists h. split_and!; try done.
  - intros cpu v c Hv. by apply H5.
  - apply Forall_forall. intros f _. unfold frame_verdict. destruct (fwd =? 0); [done|]. by destruct (attempted fwd f).
Qed.

(** AF_XDP: a queue beyond the map is never redirected. *)
Lemma es_xsk_in_map xsks ctx : fits xsks_entries xsks -> es_xsk xsks ctx = XDP_REDIRECT ->
  0 <= rx_queue_index ctx < xsks_entries.
Proof.
  intros Hfit. rewrite es_xsk_spec. destruct (xsks !! _) eqn:E; [|done]. intros _. by apply (Hfit _ _ E).
Qed.
End Facts.

(** ** Two CPUs: a frame without a port, a frame with one, a short frame *)
Definition short_xdp : xdp_md := mk_xdp 0xffff888000001000 0xffff88800000100a 5.

Definition xdp_events : list xdp_event := [Frame 0 sample_xdp; Ports {[0 := 7]}; Frame 1 sample_xdp; Frame 0 short_xdp].

Lemma xdp_accounting_witness :
  exists h, xdp_run 1 xdp_events (xdp_start 2 ∅) = Some h /\ x_verdicts h = [XDP_DROP; XDP_REDIRECT; XDP_DROP].
Proof.
  destruct (xdp_accounting 1 2 ∅ xdp_events) as (h & E & Hv & _).
  - apply map_Forall_empty.
  - assert (H1 : xdp_ok sample_xdp) by (split; unfold in_width; cbn; lia).
    assert (H2 : xdp_ok short_xdp) by (split; unfold in_width; cbn; lia).
    assert (H3 : fits tx_port_entries {[0 := 7]}) by (apply map_Forall_singleton; unfold tx_port_entries; lia).
    repeat (apply List.Forall_cons; [by (exact H3 || (split; [lia|done]))|]). constructor.
  - exists h. split; [exact E|]. rewrite Hv. reflexivity.
Defined.

Example xdp_counters_after :
  (h ← xdp_run 1 xdp_events (xdp_start 2 ∅);
   Some ((fun v => (xdp_get ES_C_PACKETS (Some v), xdp_get ES_C_BYTES (Some v), xdp_get ES_C_REDIRECT_ATTEMPT (Some v))) <$> x_counters h))
  = Some [(2, 52, 1); (1, 42, 1)].
Proof. vm_compute. reflexivity. Qed.
