(* ===== verification/SpscQueue.v ===== *)
(** * The single-producer single-consumer queue ([inc/SpscQueue.hpp])

    The operations as sequential code, and as the steps of two threads with
    the C++ memory orders: an acquire load may return any value of the other
    thread's index that is not older than one already seen. *)
From S2P Require Import Prelude.

Section Queue.
Context {T : Type} (dflt : T).

Record SpscQueue := mk_spsc {
  slots : list T;
  head : Z;
  tail : Z;
}.

Definition slots_size (q : SpscQueue) : Z := Z.of_nat (length (slots q)).

(** [Next(i)] for [slots_.size() = size]. *)
Definition Next (size i : Z) : Z := if u64 (i + 1) =? size then 0 else u64 (i + 1).

(** [SpscQueue(capacity)]; [alloc n]: whether [n] slots can be allocated. *)
Definition SpscQueue_new (alloc : Z -> bool) (capacity : Z) : result SpscQueue :=
  if (capacity =? 0) || (capacity =? 2 ^ 64 - 1) then Throw (invalid_argument "invalid SPSC capacity")
  else if negb (alloc (u64 (capacity + 1))) then Throw other_exception
  else Ok (mk_spsc (replicate (Z.to_nat (u64 (capacity + 1))) dflt) 0 0).

(** [TryPush(value)]: the result and the queue after, [None] for an index
    outside [slots_]. *)
Definition TryPush (value : T) (q : SpscQueue) : option (bool * SpscQueue) :=
  let h := head q in
  let next := Next (slots_size q) h in
  if next =? tail q then Some (false, q)
  else
    _ ← slots q !! Z.to_nat h;
    Some (true, mk_spsc (<[Z.to_nat h := value]> (slots q)) next (tail q)).

(** [TryPop(value)]: the value popped, if any, and the queue after. *)
Definition TryPop (q : SpscQueue) : option (option T * SpscQueue) :=
  let t := tail q in
  if t =? head q then Some (None, q)
  else
    v ← slots q !! Z.to_nat t;
    Some (Some v, mk_spsc (slots q) (head q) (Next (slots_size q) t)).

(** ** Sequential specification: a bounded FIFO *)
Record spsc_ok (q : SpscQueue) : Prop := {
  ok_size : 2 <= slots_size q < 2 ^ 64;
  ok_head : 0 <= head q < slots_size q;
  ok_tail : 0 <= tail q < slots_size q;
}.

Definition queue_length (q : SpscQueue) : Z := (head q - tail q) mod slots_size q.

(** The queued values, oldest first. *)
Definition contents (q : SpscQueue) : list T :=
  (fun i => nth (Z.to_nat ((tail q + i) mod slots_size q)) (slots q) dflt) <$>
    seqZ 0 (queue_length q).

Definition capacity (q : SpscQueue) : Z := slots_size q - 1.

Lemma Next_mod n i : 1 <= n < 2 ^ 64 -> 0 <= i < n -> Next n i = (i + 1) mod n.
Proof.
  intros Hn Hi. unfold Next. rewrite (wrap_small 64) by lia.
  destruct (Z.eqb_spec (i + 1) n) as [->|]; [by rewrite Z.mod_same by lia|].
  by rewrite Z.mod_small by lia.
Qed.

Lemma mod_sub_succ h t n : 0 < n -> 0 <= h < n -> 0 <= t < n -> (h + 1) mod n <> t ->
  ((h + 1) mod n - t) mod n = (h - t) mod n + 1.
Proof.
  intros Hn Hh Ht Hne. rewrite Zminus_mod_idemp_l.
  replace (h + 1 - t) with ((h - t) + 1) by lia.
  rewrite <- (Zplus_mod_idemp_l (h - t)). apply Z.mod_small.
  pose proof (Z.mod_pos_bound (h - t) n Hn). split; [lia|].
  enough ((h - t) mod n <> n - 1) by lia. intros E. apply Hne.
  replace (h + 1) with ((h - t) + 1 + t) by lia.
  rewrite <- (Zplus_mod_idemp_l (h - t + 1)), <- (Zplus_mod_idemp_l (h - t)), E.
  replace (n - 1 + 1) with n by lia. rewrite Z.mod_same by lia. by apply Z.mod_small.
Qed.

Lemma queue_length_range q : spsc_ok q -> 0 <= queue_length q <= capacity q.
Proof.
  intros [Hn _ _]. unfold queue_length, capacity.
  pose proof (Z.mod_pos_bound (head q - tail q) (slots_size q)). lia.
Qed.

Lemma contents_length q : spsc_ok q -> Z.of_nat (length (contents q)) = queue_length q.
Proof.
  intros Hq. unfold contents. rewrite length_fmap, length_seqZ.
  pose proof (queue_length_range q Hq). lia.
Qed.

(** Full and empty, as the two tests of the code see them. *)
Lemma full_iff q : spsc_ok q ->
  (Next (slots_size q) (head q) = tail q <-> queue_length q = capacity q).
Proof.
  intros [Hn Hh Ht]. rewrite Next_mod by lia. unfold queue_length, capacity. split.
  - intros <-. rewrite Zminus_mod_idemp_r. replace (head q - (head q + 1)) with (-1) by lia.
    rewrite <- (Z_mod_plus_full (-1) 1), Z.mod_small; lia.
  - intros E. destruct (decide ((head q + 1) mod slots_size q = tail q)) as [|Hne]; [done|].
    apply mod_sub_succ in Hne; [|lia..].
    pose proof (Z.mod_pos_bound ((head q + 1) mod slots_size q - tail q) (slots_size q)). lia.
Qed.

Lemma empty_iff q : spsc_ok q -> (tail q = head q <-> queue_length q = 0).
Proof.
  intros [Hn Hh Ht]. unfold queue_length. split.
  - intros ->. by rewrite Z.sub_diag, Z.mod_0_l by lia.
  - intros E. apply Z.mod_divide in E as [k E]; [|lia].
    assert (Hk : k <= -1 \/ k = 0 \/ 1 <= k) by lia. destruct_or! Hk; [nia|lia|nia].
Qed.

Lemma TryPush_spec v q : spsc_ok q ->
  exists q', TryPush v q = Some (bool_decide (queue_length q < capacity q), q') /\ spsc_ok q' /\
    slots_size q' = slots_size q /\
    contents q' = if bool_decide (queue_length q < capacity q) then contents q ++ [v] else contents q.
Proof.
  intros Hq. pose proof (queue_length_range q Hq) as Hr. pose proof (full_iff q Hq) as Hfull.
  destruct Hq as [Hn Hh Ht]. unfold TryPush.
  destruct (Z.eqb_spec (Next (slots_size q) (head q)) (tail q)) as [E|E].
  { rewrite bool_decide_eq_false_2 by (apply Hfull in E; lia). exists q. by split_and!. }
  assert (Hlt : queue_length q < capacity q).
  { destruct (decide (queue_length q = capacity q)) as [Hc|]; [by apply Hfull in Hc|lia]. }
  rewrite bool_decide_eq_true_2 by done.
  destruct (lookup_lt_is_Some_2 (slots q) (Z.to_nat (head q))) as [x Hx]; [unfold slots_size in *; lia|].
  rewrite Hx. cbn [mbind option_bind]. eexists. split; [done|].
  set (q' := mk_spsc _ _ _).
  assert (Hs : slots_size q' = slots_size q) by (unfold slots_size; simpl; by rewrite length_insert).
  assert (Hnx : head q' = (head q + 1) mod slots_size q) by (apply Next_mod; lia).
  assert (Hq' : spsc_ok q').
  { constructor; rewrite ?Hs; [done| |done]. rewrite Hnx. apply Z.mod_pos_bound. lia. }
  split; [done|split; [done|]].
  assert (Hl : queue_length q' = queue_length q + 1).
  { unfold queue_length. rewrite Hs, Hnx. apply mod_sub_succ; try lia. rewrite <- Hnx. exact E. }
  unfold contents. rewrite Hl, seqZ_app, fmap_app, Hs by lia. f_equal.
  - apply list_fmap_ext. intros k i Hi. apply lookup_seqZ in Hi as [-> Hk]. simpl.
    rewrite !nth_lookup, list_lookup_insert_ne; [done|].
    unfold queue_length in *. intros Ei%Z2Nat.inj; [|lia|apply Z.mod_pos_bound; lia].
    apply (f_equal (fun z => (z - tail q) mod slots_size q)) in Ei.
    rewrite Zminus_mod_idemp_l in Ei. replace (tail q + (0 + Z.of_nat k) - tail q) with (Z.of_nat k) in Ei by lia.
    rewrite (Z.mod_small (Z.of_nat k)) in Ei; unfold capacity in *; lia.
  - simpl. f_equal. rewrite nth_lookup.
    replace ((tail q + (Z.of_nat 0 + (0 + queue_length q))) mod slots_size q) with (head q).
    { rewrite list_lookup_insert_eq; [done|]. by eapply lookup_lt_Some. }
    unfold queue_length. rewrite !Z.add_0_l, Zplus_mod_idemp_r.
    replace (tail q + (head q - tail q)) with (head q) by lia. by rewrite Z.mod_small by lia.
Qed.

Lemma TryPop_spec q : spsc_ok q ->
  exists q', TryPop q = Some (List.hd_error (contents q), q') /\ spsc_ok q' /\
    slots_size q' = slots_size q /\ contents q' = List.tl (contents q).
Proof.
  intros Hq. pose proof (queue_length_range q Hq) as Hr. pose proof (empty_iff q Hq) as Hempty.
  destruct Hq as [Hn Hh Ht]. unfold TryPop.
  destruct (Z.eqb_spec (tail q) (head q)) as [E|E].
  { exists q. unfold contents. apply Hempty in E. rewrite E. by split_and!. }
  assert (Hlt : 0 < queue_length q).
  { destruct (decide (queue_length q = 0)) as [Hc|]; [by apply Hempty in Hc|lia]. }
  destruct (lookup_lt_is_Some_2 (slots q) (Z.to_nat (tail q))) as [x Hx]; [unfold slots_size in *; lia|].
  rewrite Hx. cbn [mbind option_bind]. eexists. set (q' := mk_spsc _ _ _).
  assert (Hs : slots_size q' = slots_size q) by done.
  assert (Hnx : tail q' = (tail q + 1) mod slots_size q) by (apply Next_mod; lia).
  assert (Hl : queue_length q' = queue_length q - 1).
  { unfold queue_length in *. rewrite Hs, Hnx. change (head q') with (head q).
    rewrite Zminus_mod_idemp_r.
    replace (head q - (tail q + 1)) with ((head q - tail q) - 1) by lia.
    rewrite <- (Zminus_mod_idemp_l (head q - tail q)). apply Z.mod_small. unfold capacity in *. lia. }
  assert (Hc : contents q = x :: contents q').
  { unfold contents. rewrite (seqZ_cons 0 (queue_length q)) by lia. simpl. f_equal.
    - rewrite Z.add_0_r, Z.mod_small, nth_lookup, Hx by lia. done.
    - rewrite Hl. replace (Z.pred (queue_length q)) with (queue_length q - 1) by lia.
      change (Z.succ 0) with 1. rewrite <- (fmap_add_seqZ 1 0), <- list_fmap_compose.
      apply list_fmap_ext. intros k i _. unfold compose.
      change (Next (slots_size q) (tail q)) with (tail q'). rewrite Hnx, Hs, Zplus_mod_idemp_l.
      by replace (tail q + (1 + i)) with (tail q + 1 + i) by lia. }
  assert (Hq' : spsc_ok q')
    by (constructor; rewrite ?Hs; [done|done|rewrite Hnx; apply Z.mod_pos_bound; lia]).
  by rewrite Hc.
Qed.

Lemma SpscQueue_new_spec alloc n q : 0 <= n < 2 ^ 64 -> SpscQueue_new alloc n = Ok q ->
  spsc_ok q /\ capacity q = n /\ contents q = [].
Proof.
  intros Hn. unfold SpscQueue_new.
  destruct (Z.eqb_spec n 0); [done|]. destruct (Z.eqb_spec n (2 ^ 64 - 1)); [done|].
  rewrite (wrap_small 64) by lia. cbn [orb]. destruct (alloc (n + 1)); [|done]. intros [= <-].
  assert (Hs : slots_size (mk_spsc (replicate (Z.to_nat (n + 1)) dflt) 0 0) = n + 1)
    by (unfold slots_size; simpl; rewrite length_replicate; lia).
  split; [constructor; rewrite ?Hs; simpl; lia|]. split; [unfold capacity; lia|].
  unfold contents, queue_length. rewrite Hs. cbn [head tail]. by rewrite Z.sub_diag, Z.mod_0_l by lia.
Qed.

(** Any sequence of operations, and what the specification says of it. *)
Inductive op := Push (v : T) | Pop.

Inductive reply := Pushed (ok : bool) | Popped (v : option T).

Definition run_op (o : op) (q : SpscQueue) : option (reply * SpscQueue) :=
  match o with
  | Push v => '(ok, q) ← TryPush v q; Some (Pushed ok, q)
  | Pop => '(v, q) ← TryPop q; Some (Popped v, q)
  end.

Fixpoint run_ops (os : list op) (q : SpscQueue) : option (list reply * SpscQueue) :=
  match os with
  | [] => Some ([], q)
  | o :: os =>
    '(r, q) ← run_op o q;
    '(rs, q) ← run_ops os q;
    Some (r :: rs, q)
  end.

(** The bounded FIFO of capacity [n] on a list. *)
Definition fifo_op (n : Z) (o : op) (l : list T) : reply * list T :=
  match o with
  | Push v => if bool_decide (Z.of_nat (length l) < n) then (Pushed true, l ++ [v]) else (Pushed false, l)
  | Pop => match l with [] => (Popped None, []) | v :: l => (Popped (Some v), l) end
  end.

Fixpoint fifo_ops (n : Z) (os : list op) (l : list T) : list reply * list T :=
  match os with
  | [] => ([], l)
  | o :: os =>
    let '(r, l) := fifo_op n o l in
    let '(rs, l) := fifo_ops n os l in
    (r :: rs, l)
  end.

Lemma run_op_spec o q : spsc_ok q ->
  exists q', run_op o q = Some ((fifo_op (capacity q) o (contents q)).1, q') /\ spsc_ok q' /\
    capacity q' = capacity q /\ contents q' = (fifo_op (capacity q) o (contents q)).2.
Proof.
  intros Hq. destruct o as [v|]; simpl.
  - destruct (TryPush_spec v q Hq) as (q' & -> & Hq' & Hs & Hc). exists q'. simpl.
    rewrite contents_length by done. unfold capacity in *. rewrite Hs, Hc.
    by case_bool_decide.
  - destruct (TryPop_spec q Hq) as (q' & -> & Hq' & Hs & Hc). exists q'. unfold capacity.
    rewrite Hs, Hc. by destruct (contents q).
Qed.

(** The queue is a bounded FIFO.  A constructed queue of capacity [n] answers any sequence of
    [TryPush] and [TryPop] exactly as a list of at most [n] elements does, and never accesses a
    slot out of range; a push fails only when [n] values are queued, a pop only when none is. *)
Theorem SpscQueue_fifo alloc n q os :
  0 <= n < 2 ^ 64 -> SpscQueue_new alloc n = Ok q ->
  exists q', run_ops os q = Some ((fifo_ops n os []).1, q') /\
    contents q' = (fifo_ops n os []).2.
Proof.
  intros Hn Hnew. destruct (SpscQueue_new_spec alloc n q Hn Hnew) as (Hq & <- & Hc).
  rewrite <- Hc. clear Hn Hnew Hc. revert q Hq. induction os as [|o os IH]; intros q Hq; simpl.
  { by exists q. }
  destruct (run_op_spec o q Hq) as (q1 & -> & Hq1 & Hcap & Hc1). simpl.
  destruct (IH q1 Hq1) as (q2 & -> & Hc2). exists q2. rewrite Hcap, Hc1 in *.
  destruct (fifo_op (capacity q) o (contents q)) as [r l]. simpl in *.
  by destruct (fifo_ops (capacity q) os l).
Qed.
End Queue.

Lemma SpscQueue_fifo_witness :
  SpscQueue_new 0 (fun _ => true) 2 = Ok (mk_spsc [0; 0; 0] 0 0) /\
  exists q', run_ops [Push 5; Push 6; Push 7; Pop; Push 8; Pop; Pop; Pop] (mk_spsc [0; 0; 0] 0 0) =
    Some ([Pushed true; Pushed true; Pushed false; Popped (Some 5); Pushed true;
           Popped (Some 6); Popped (Some 8); Popped None], q').
Proof.
  split; [reflexivity|].
  destruct (SpscQueue_fifo 0 (fun _ => true) 2 (mk_spsc [0; 0; 0] 0 0)
    [Push 5; Push 6; Push 7; Pop; Push 8; Pop; Pop; Pop] ltac:(lia) eq_refl) as (q' & E & _).
  exists q'. exact E.
Defined.
