(* ===== verification/SpscConcurrent.v ===== *)
(** * The queue under its two threads

    [TryPush] and [TryPop] as the steps of one producer and one consumer.
    Each atomic index is the list of the values stored to it (its
    modification order); its owner's relaxed load returns the last one; the
    other thread's acquire load may return any value not older than the
    newest one it has seen.  Slot accesses are not atomic, so a write and a
    read of one slot at the same time would be a data race. *)
From S2P Require Import Prelude SpscQueue.

(** Where the producer is in [TryPush] and the consumer in [TryPop]. *)
Inductive ppc (T : Type) :=
  | PIdle
  | PCall (v : T) (h : Z)            (* head_ loaded *)
  | PWrite (v : T) (h next : Z)      (* room found, slots_[h] to be written *)
  | PStore (v : T) (next : Z).       (* written, head_ to be stored *)
Arguments PIdle {T}.
Arguments PCall {T} v h.
Arguments PWrite {T} v h next.
Arguments PStore {T} v next.

Inductive cpc (T : Type) :=
  | CIdle
  | CCall (t : Z)                    (* tail_ loaded *)
  | CRead (t : Z)                    (* not empty, slots_[t] to be read *)
  | CStore (v : T) (t : Z).          (* read, tail_ to be stored *)
Arguments CIdle {T}.
Arguments CCall {T} t.
Arguments CRead {T} t.
Arguments CStore {T} v t.

Record cstate (T : Type) := mk_cstate {
  c_slots : list T;
  c_heads : list Z;       (* values stored to head_, oldest first *)
  c_tails : list Z;       (* values stored to tail_, oldest first *)
  c_pview : nat;          (* newest entry of c_tails the producer has loaded *)
  c_cview : nat;          (* newest entry of c_heads the consumer has loaded *)
  c_prod : ppc T;
  c_cons : cpc T;
  c_pushed : list T;      (* values of the pushes that have succeeded *)
  c_popped : list T;      (* values of the pops that have succeeded *)
}.
Arguments mk_cstate {T}.
Arguments c_slots {T}. Arguments c_heads {T}. Arguments c_tails {T}.
Arguments c_pview {T}. Arguments c_cview {T}. Arguments c_prod {T}. Arguments c_cons {T}.
Arguments c_pushed {T}. Arguments c_popped {T}.

Section Concurrent.
Context {T : Type}.
Implicit Types (s : list T) (hs ts : list Z) (v x : T) (pu po : list T).

Abbreviation size s := (Z.of_nat (length s)).

Inductive step : cstate T -> cstate T -> Prop :=
  | push_begin s hs ts pv cv c pu po v h :
      list.last hs = Some h ->
      step (mk_cstate s hs ts pv cv PIdle c pu po) (mk_cstate s hs ts pv cv (PCall v h) c pu po)
  | push_full s hs ts pv cv c pu po v h k :
      (pv <= k)%nat -> ts !! k = Some (Next (size s) h) ->
      step (mk_cstate s hs ts pv cv (PCall v h) c pu po) (mk_cstate s hs ts k cv PIdle c pu po)
  | push_room s hs ts pv cv c pu po v h k t :
      (pv <= k)%nat -> ts !! k = Some t -> t <> Next (size s) h ->
      step (mk_cstate s hs ts pv cv (PCall v h) c pu po)
           (mk_cstate s hs ts k cv (PWrite v h (Next (size s) h)) c pu po)
  | push_write s hs ts pv cv c pu po v h next :
      step (mk_cstate s hs ts pv cv (PWrite v h next) c pu po)
           (mk_cstate (<[Z.to_nat h := v]> s) hs ts pv cv (PStore v next) c pu po)
  | push_publish s hs ts pv cv c pu po v next :
      step (mk_cstate s hs ts pv cv (PStore v next) c pu po)
           (mk_cstate s (hs ++ [next]) ts pv cv PIdle c (pu ++ [v]) po)
  | pop_begin s hs ts pv cv p pu po t :
      list.last ts = Some t ->
      step (mk_cstate s hs ts pv cv p CIdle pu po) (mk_cstate s hs ts pv cv p (CCall t) pu po)
  | pop_empty s hs ts pv cv p pu po t k :
      (cv <= k)%nat -> hs !! k = Some t ->
      step (mk_cstate s hs ts pv cv p (CCall t) pu po) (mk_cstate s hs ts pv k p CIdle pu po)
  | pop_ready s hs ts pv cv p pu po t k h :
      (cv <= k)%nat -> hs !! k = Some h -> h <> t ->
      step (mk_cstate s hs ts pv cv p (CCall t) pu po) (mk_cstate s hs ts pv k p (CRead t) pu po)
  | pop_read s hs ts pv cv p pu po t x :
      s !! Z.to_nat t = Some x ->
      step (mk_cstate s hs ts pv cv p (CRead t) pu po) (mk_cstate s hs ts pv cv p (CStore x t) pu po)
  | pop_publish s hs ts pv cv p pu po t x :
      step (mk_cstate s hs ts pv cv p (CStore x t) pu po)
           (mk_cstate s hs (ts ++ [Next (size s) t]) pv cv p CIdle pu (po ++ [x])).

(** The state in which both threads find a constructed queue. *)
Definition initial (q : SpscQueue) : cstate T :=
  mk_cstate (slots q) [head q] [tail q] 0 0 PIdle CIdle [] [].

Definition reachable (q : SpscQueue) (st : cstate T) : Prop := rtc step (initial q) st.

(** ** The invariant *)
Definition slot_of s (i : nat) : nat := Z.to_nat (Z.of_nat i mod size s).

(** The [k]-th value stored to an index is [k] modulo the size. *)
Definition indices s (l : list Z) : Prop := forall k z, l !! k = Some z -> z = Z.of_nat k mod size s.

Definition prod_ok s pu (pv : nat) (p : ppc T) : Prop :=
  match p with
  | PIdle => True
  | PCall _ h => h = Z.of_nat (length pu) mod size s
  | PWrite _ h next =>
      h = Z.of_nat (length pu) mod size s /\ next = (Z.of_nat (length pu) + 1) mod size s /\
      (length pu + 2 <= pv + length s)%nat
  | PStore v next =>
      next = (Z.of_nat (length pu) + 1) mod size s /\ (length pu + 2 <= pv + length s)%nat /\
      s !! slot_of s (length pu) = Some v
  end.

Definition cons_ok s pu po (cv : nat) (c : cpc T) : Prop :=
  match c with
  | CIdle => True
  | CCall t => t = Z.of_nat (length po) mod size s
  | CRead t => t = Z.of_nat (length po) mod size s /\ (length po < cv)%nat
  | CStore x t => t = Z.of_nat (length po) mod size s /\ (length po < cv)%nat /\
      pu !! length po = Some x
  end.

Record cinv (st : cstate T) : Prop := {
  i_size : 2 <= size (c_slots st) < 2 ^ 64;
  i_heads : length (c_heads st) = S (length (c_pushed st));
  i_tails : length (c_tails st) = S (length (c_popped st));
  i_head : indices (c_slots st) (c_heads st);
  i_tail : indices (c_slots st) (c_tails st);
  i_fifo : c_popped st `prefix_of` c_pushed st;
  i_pview : (c_pview st <= length (c_popped st))%nat;
  i_room : (length (c_pushed st) + 1 <= c_pview st + length (c_slots st))%nat;
  i_cview : (length (c_popped st) <= c_cview st <= length (c_pushed st))%nat;
  i_cells : forall i, (length (c_popped st) <= i < length (c_pushed st))%nat ->
    c_slots st !! slot_of (c_slots st) i = c_pushed st !! i;
  i_prod : prod_ok (c_slots st) (c_pushed st) (c_pview st) (c_prod st);
  i_cons : cons_ok (c_slots st) (c_pushed st) (c_popped st) (c_cview st) (c_cons st);
}.

(** Two counts closer than the size have different slots. *)
Lemma mod_near n a b : 0 < n -> a mod n = b mod n -> - n < a - b < n -> a = b.
Proof.
  intros Hn E Hab. pose proof (Z.div_mod a n). pose proof (Z.div_mod b n).
  assert (Hk : a - b = n * (a / n - b / n)) by lia.
  assert (a / n - b / n = 0 \/ a / n - b / n <= -1 \/ 1 <= a / n - b / n) as [?|[?|?]] by lia; nia.
Qed.

Lemma slot_of_lt s i : 2 <= size s -> (slot_of s i < length s)%nat.
Proof. intros. unfold slot_of. pose proof (Z.mod_pos_bound (Z.of_nat i) (size s)). lia. Qed.

Lemma slot_of_near s i j : 2 <= size s -> slot_of s i = slot_of s j ->
  (i < j + length s)%nat -> (j < i + length s)%nat -> i = j.
Proof.
  intros Hs E Hi Hj. unfold slot_of in E.
  apply Z2Nat.inj in E; [|apply Z.mod_pos_bound; lia..]. apply mod_near in E; lia.
Qed.

Lemma indices_last s l z : indices s l -> list.last l = Some z ->
  z = Z.of_nat (pred (length l)) mod size s.
Proof. intros Hl. rewrite last_lookup. apply Hl. Qed.

Lemma indices_snoc s l z : indices s l -> z = Z.of_nat (length l) mod size s -> indices s (l ++ [z]).
Proof.
  intros Hl Hz k y. rewrite lookup_app_Some. intros [?|[Hk Hy]]; [by apply Hl|].
  apply list_lookup_singleton_Some in Hy as [E <-]. rewrite Hz. do 2 f_equal. lia.
Qed.

Lemma Next_count s (k : nat) : 2 <= size s < 2 ^ 64 ->
  Next (size s) (Z.of_nat k mod size s) = (Z.of_nat k + 1) mod size s.
Proof.
  intros Hs. rewrite Next_mod by (try apply Z.mod_pos_bound; lia). apply Zplus_mod_idemp_l.
Qed.


Lemma slot_of_insert s i j v : slot_of (<[j := v]> s) i = slot_of s i.
Proof. unfold slot_of. by rewrite length_insert. Qed.

Lemma indices_insert s j v l : indices (<[j := v]> s) l <-> indices s l.
Proof. unfold indices. by rewrite length_insert. Qed.

Lemma cons_ok_insert s j v pu po cv c :
  cons_ok (<[j := v]> s) pu po cv c <-> cons_ok s pu po cv c.
Proof. unfold cons_ok. by rewrite length_insert. Qed.

Lemma cinv_initial q : spsc_ok q -> head q = 0 -> tail q = 0 -> cinv (initial q).
Proof.
  intros [Hn _ _] Hh Ht. unfold slots_size in Hn. unfold initial. rewrite Hh, Ht.
  constructor; simpl; try done; try lia.
  all: intros k z Hk; apply list_lookup_singleton_Some in Hk as [-> <-]; by rewrite Z.mod_0_l by lia.
Qed.

(** One step of the producer. *)
Lemma cinv_push_write s hs ts pv cv c pu po v h next :
  cinv (mk_cstate s hs ts pv cv (PWrite v h next) c pu po) ->
  cinv (mk_cstate (<[Z.to_nat h := v]> s) hs ts pv cv (PStore v next) c pu po).
Proof.
  intros [Hs Hh Ht Ih It Hf Hp Hr Hc Hcell Hprod Hcons]; cbn [c_slots c_heads c_tails c_pview c_cview
    c_prod c_cons c_pushed c_popped prod_ok] in *.
  destruct Hprod as (-> & -> & Hroom).
  change (Z.to_nat (Z.of_nat (length pu) mod size s)) with (slot_of s (length pu)).
  pose proof (slot_of_lt s (length pu) ltac:(lia)) as Hlt.
  constructor; cbn [c_slots c_heads c_tails c_pview c_cview c_prod c_cons c_pushed c_popped];
    rewrite ?length_insert; try done; try (by apply indices_insert); try by apply cons_ok_insert.
  - intros i Hi. rewrite slot_of_insert, list_lookup_insert_ne; [by apply Hcell|].
    intros E. apply slot_of_near in E; lia.
  - cbn [prod_ok]. rewrite length_insert, slot_of_insert. split_and!; try done.
    by apply list_lookup_insert_eq.
Qed.

Lemma cinv_push_publish s hs ts pv cv c pu po v next :
  cinv (mk_cstate s hs ts pv cv (PStore v next) c pu po) ->
  cinv (mk_cstate s (hs ++ [next]) ts pv cv PIdle c (pu ++ [v]) po).
Proof.
  intros [Hs Hh Ht Ih It Hf Hp Hr Hc Hcell Hprod Hcons]; cbn [c_slots c_heads c_tails c_pview c_cview
    c_prod c_cons c_pushed c_popped prod_ok] in *.
  destruct Hprod as (-> & Hroom & Hv).
  constructor; cbn [c_slots c_heads c_tails c_pview c_cview c_prod c_cons c_pushed c_popped];
    rewrite ?length_app; cbn [length]; try done; try lia.
  - apply indices_snoc; [done|]. rewrite Hh. f_equal. lia.
  - by apply prefix_app_r.
  - intros i Hi. destruct (decide (i = length pu)) as [->|].
    + rewrite Hv, lookup_app_r, Nat.sub_diag by lia. done.
    + rewrite lookup_app_l by lia. apply Hcell. lia.
  - destruct c as [| | |x t]; cbn [cons_ok] in *; try done.
    destruct Hcons as (? & ? & Hx). split_and!; try done. by apply lookup_app_l_Some.
Qed.

(** One step of the consumer. *)
Lemma cinv_pop_publish s hs ts pv cv p pu po t x :
  cinv (mk_cstate s hs ts pv cv p (CStore x t) pu po) ->
  cinv (mk_cstate s hs (ts ++ [Next (size s) t]) pv cv p CIdle pu (po ++ [x])).
Proof.
  intros [Hs Hh Ht Ih It Hf Hp Hr Hc Hcell Hprod Hcons]; cbn [c_slots c_heads c_tails c_pview c_cview
    c_prod c_cons c_pushed c_popped cons_ok] in *.
  destruct Hcons as (-> & Hlt & Hx).
  constructor; cbn [c_slots c_heads c_tails c_pview c_cview c_prod c_cons c_pushed c_popped];
    rewrite ?length_app; cbn [length]; try done; try lia.
  - apply indices_snoc; [done|]. rewrite Next_count, Ht by done. f_equal. lia.
  - destruct Hf as [l ->]. rewrite lookup_app_r, Nat.sub_diag in Hx by lia.
    destruct l as [|y l]; [done|]. injection Hx as ->. exists l. by rewrite <- app_assoc.
  - intros i Hi. apply Hcell. lia.
Qed.

Lemma cinv_step st st' : step st st' -> cinv st -> cinv st'.
Proof.
  destruct 1; try apply cinv_push_write; try apply cinv_push_publish; try apply cinv_pop_publish;
    intros [Hs Hh Ht Ih It Hf Hp Hr Hc Hcell Hprod Hcons]; cbn [c_slots c_heads c_tails c_pview c_cview
      c_prod c_cons c_pushed c_popped] in *;
    constructor; cbn [c_slots c_heads c_tails c_pview c_cview c_prod c_cons c_pushed c_popped];
    try done;
    try match goal with H : _ !! _ = Some _ |- _ => pose proof (lookup_lt_Some _ _ _ H) end; try lia.
  - cbn [prod_ok] in *. match goal with H : list.last hs = _ |- _ => apply (indices_last s) in H as -> end;
      [|done]. by rewrite Hh.
  - cbn [prod_ok] in *. subst h. rewrite Next_count in * by done. split_and!; try done.
    match goal with H : ts !! k = Some t |- _ => apply It in H as -> end.
    destruct (decide (length pu + 1 = k + length s)%nat) as [E|]; [|lia].
    exfalso. match goal with H : _ <> _ |- _ => apply H end.
    replace (Z.of_nat (length pu) + 1) with (Z.of_nat k + 1 * size s) by lia. by rewrite Z_mod_plus_full.
  - cbn [cons_ok] in *. match goal with H : list.last ts = _ |- _ => apply (indices_last s) in H as -> end;
      [|done]. by rewrite Ht.
  - cbn [cons_ok] in *. subst t. split; [done|].
    match goal with H : hs !! k = Some h |- _ => apply Ih in H as -> end.
    destruct (decide (k = length po)) as [->|]; [done|lia].
  - cbn [cons_ok] in *. destruct Hcons as [-> Hlt]. split_and!; try done.
    rewrite <- Hcell by lia. done.
Qed.

Lemma cinv_reachable q st : spsc_ok q -> head q = 0 -> tail q = 0 -> reachable q st -> cinv st.
Proof.
  intros Hq Hh Ht Hr. pose proof (cinv_initial q Hq Hh Ht) as Hi. unfold reachable in Hr.
  revert Hi. induction Hr; eauto using cinv_step.
Qed.

Lemma new_indices (dflt : T) alloc n q : SpscQueue_new dflt alloc n = Ok q -> head q = 0 /\ tail q = 0.
Proof. unfold SpscQueue_new. intros E. repeat case_match; try done. by injection E as <-. Qed.

(** C12: the queue under concurrency.  In every state that a producer and a consumer can reach from
    a constructed queue of capacity [n], with acquire loads that may return stale indices: the
    values popped are the first values pushed, in order; at most [n] are in between; the
    unsynchronised slot accesses are in bounds and never of the same slot at the same time; a push
    that fails has seen a full queue (exactly [n] pushes more than the pops it has seen), a pop
    that fails has seen every value of the pushes it has seen popped. *)
Theorem SpscQueue_concurrent dflt alloc n q st :
  0 <= n < 2 ^ 64 -> SpscQueue_new dflt alloc n = Ok q -> reachable q st ->
  c_popped st `prefix_of` c_pushed st /\
  Z.of_nat (length (c_pushed st)) - Z.of_nat (length (c_popped st)) <= n /\
  (forall v h next t, c_prod st = PWrite v h next -> c_cons st = CRead t -> h <> t) /\
  (forall v h next, c_prod st = PWrite v h next -> 0 <= h < size (c_slots st)) /\
  (forall t, c_cons st = CRead t -> is_Some (c_slots st !! Z.to_nat t)) /\
  (forall v h k, c_prod st = PCall v h -> (c_pview st <= k)%nat ->
     c_tails st !! k = Some (Next (size (c_slots st)) h) ->
     Z.of_nat (length (c_pushed st)) = Z.of_nat k + n) /\
  (forall t k, c_cons st = CCall t -> (c_cview st <= k)%nat -> c_heads st !! k = Some t ->
     length (c_popped st) = k).
Proof.
  intros Hn Hnew Hreach. destruct (SpscQueue_new_spec dflt alloc n q Hn Hnew) as (Hq & Hcap & _).
  destruct (new_indices dflt alloc n q Hnew) as [H0 H1].
  assert (Hlen : size (c_slots st) = n + 1).
  { clear Hn H0 H1 Hnew. unfold capacity, slots_size in Hcap.
    assert (Hl : size (c_slots (initial q)) = n + 1) by (simpl; lia). revert Hl. unfold reachable in Hreach.
    induction Hreach as [|st1 st2 st3 Hst _ IH]; [done|]. intros Hl. apply IH.
    destruct Hst; simpl in *; by rewrite ?length_insert. }
  destruct (cinv_reachable q st Hq H0 H1 Hreach) as [Hs Hh Ht Ih It Hf Hp Hr Hc Hcell Hprod Hcons].
  split_and!; try done; try lia.
  - intros v h next t E1 E2. rewrite E1, E2 in *. destruct Hprod as (-> & -> & ?), Hcons as [-> ?].
    intros E. apply mod_near in E; lia.
  - intros v h next E. rewrite E in *. destruct Hprod as (-> & _). apply Z.mod_pos_bound. lia.
  - intros t E. rewrite E in *. destruct Hcons as [-> _]. apply lookup_lt_is_Some_2.
    apply (slot_of_lt (c_slots st) (length (c_popped st))). lia.
  - intros v h k E Hk Hv. rewrite E in *. simpl in Hprod. subst h. rewrite Next_count in Hv by done.
    pose proof (lookup_lt_Some _ _ _ Hv) as Hlt. apply It in Hv.
    assert (E2 : (Z.of_nat (length (c_pushed st)) + 1) mod size (c_slots st) =
                 (Z.of_nat k + 1 * size (c_slots st)) mod size (c_slots st))
      by (by rewrite Z_mod_plus_full).
    pose proof (prefix_length _ _ Hf). apply mod_near in E2; lia.
  - intros t k E Hk Hv. rewrite E in *. simpl in Hcons. subst t.
    pose proof (lookup_lt_Some _ _ _ Hv) as Hlt. apply Ih, mod_near in Hv; lia.
Qed.
End Concurrent.

(** ** What the queue's clients use *)
Section Clients.
Context {T : Type}.
Implicit Types (q : cstate T) (r x : T).

(** The producer is in [TryPush(r)]. *)
Definition in_push (r : T) (p : ppc T) : Prop :=
  match p with PIdle => False | PCall v _ | PWrite v _ _ | PStore v _ => v = r end.

Lemma begin_step q q' r h : step q q' -> c_prod q = PIdle -> c_prod q' = PCall r h ->
  c_pushed q' = c_pushed q /\ c_popped q' = c_popped q /\ c_cons q' = c_cons q.
Proof. destruct 1; cbn; intros; subst; done. Qed.

Lemma producer_step q q' r : step q q' -> c_cons q' = c_cons q -> in_push r (c_prod q) ->
  c_popped q' = c_popped q /\
  ((in_push r (c_prod q') /\ c_pushed q' = c_pushed q) \/
   (c_prod q' = PIdle /\ c_pushed q' = c_pushed q) \/
   (c_prod q' = PIdle /\ c_pushed q' = c_pushed q ++ [r])).
Proof. destruct 1; cbn; intros; subst; try done; auto. Qed.

Lemma consumer_step q q' : step q q' -> c_prod q' = c_prod q ->
  c_pushed q' = c_pushed q /\
  (c_popped q' = c_popped q \/
   exists x t, c_cons q = CStore x t /\ c_cons q' = CIdle /\ c_popped q' = c_popped q ++ [x]).
Proof. destruct 1; cbn; intros; subst; try done; eauto 10. Qed.

(** Steps from the end of a call. *)
Definition push_phase (p : ppc T) : nat := match p with PIdle => 0 | PStore _ _ => 1 | PWrite _ _ _ => 2 | PCall _ _ => 3 end.
Definition pop_phase (c : cpc T) : nat := match c with CIdle => 0 | CStore _ _ => 1 | CRead _ => 2 | CCall _ => 3 end.

Lemma push_begins q v : cinv q -> c_prod q = PIdle ->
  exists q' h, step q q' /\ c_prod q' = PCall v h /\ c_cons q' = c_cons q.
Proof.
  intros Hq Hp. destruct (list.last (c_heads q)) as [h|] eqn:El.
  - destruct q as [s hs ts pv cv p c pu po]. cbn in *. subst p. eexists _, h. split; [by apply push_begin|done].
  - apply last_None in El. pose proof (i_heads _ Hq) as Hl. by rewrite El in Hl.
Qed.

Lemma pop_begins q : cinv q -> c_cons q = CIdle ->
  exists q' t, step q q' /\ c_cons q' = CCall t /\ c_prod q' = c_prod q /\ c_popped q' = c_popped q.
Proof.
  intros Hq Hp. destruct (list.last (c_tails q)) as [t|] eqn:El.
  - destruct q as [s hs ts pv cv p c pu po]. cbn in *. subst c. eexists _, t. split; [by apply pop_begin|done].
  - apply last_None in El. pose proof (i_tails _ Hq) as Hl. by rewrite El in Hl.
Qed.

(** A push that has begun can always take its next step, which brings it nearer to its end. *)
Lemma push_enabled q r : cinv q -> in_push r (c_prod q) -> exists q', step q q' /\ c_cons q' = c_cons q.
Proof.
  intros Hq Hp. pose proof (i_tails _ Hq) as Ht. pose proof (i_pview _ Hq) as Hv.
  destruct q as [s hs ts pv cv p c pu po]; cbn in *. destruct p as [|v h|v h next|v next]; [done| | |].
  - destruct (lookup_lt_is_Some_2 ts (length po)) as [t Hk]; [lia|].
    destruct (decide (t = Next (Z.of_nat (length s)) h)) as [->|Hne]; eexists;
      (split; [first [by eapply push_full|by eapply push_room]|done]).
  - eexists. split; [apply push_write|done].
  - eexists. split; [apply push_publish|done].
Qed.

Lemma push_phase_step q q' : step q q' -> c_cons q' = c_cons q -> c_prod q <> PIdle ->
  (push_phase (c_prod q') < push_phase (c_prod q))%nat.
Proof. destruct 1; cbn; intros; try done; lia. Qed.

(** A push for which there is room goes on to its success, alone. *)
Lemma push_goes_on q r : cinv q -> in_push r (c_prod q) ->
  (length (c_pushed q) + 1 < length (c_popped q) + length (c_slots q))%nat ->
  exists q', step q q' /\ c_cons q' = c_cons q /\
    ((c_prod q' <> PIdle /\ (push_phase (c_prod q') < push_phase (c_prod q))%nat) \/
     (c_prod q' = PIdle /\ c_pushed q' = c_pushed q ++ [r])).
Proof.
  intros Hq Hp Hroom. pose proof (prefix_length _ _ (i_fifo _ Hq)) as Hpre. destruct q as [s hs ts pv cv p c pu po].
  destruct Hq as [Hs Hh Ht Ih It Hf Hv Hr Hc Hcell Hprod Hcons]; cbn in *.
  destruct p as [|v h|v h next|v next]; [done| | |]; cbn in Hp; subst v.
  - destruct (lookup_lt_is_Some_2 ts (length po)) as [t Hk]; [lia|]. pose proof (It _ _ Hk) as Et. cbn in Hprod. subst h.
    eexists. split; [eapply push_room; [exact Hv|exact Hk|]|split; [done|left; split; [done|cbn; lia]]].
    rewrite Next_count by done. subst t. intros E. apply mod_near in E; lia.
  - eexists. split; [apply push_write|]. split; [done|]. left. split; [done|cbn; lia].
  - eexists. split; [apply push_publish|]. split; [done|]. by right.
Qed.

(** A pop of a queue that is not empty goes on to its success, alone. *)
Lemma pop_goes_on q : cinv q -> c_cons q <> CIdle -> (length (c_popped q) < length (c_pushed q))%nat ->
  exists q', step q q' /\ c_prod q' = c_prod q /\
    ((c_cons q' <> CIdle /\ (pop_phase (c_cons q') < pop_phase (c_cons q))%nat) \/
     (c_cons q' = CIdle /\ exists x, c_popped q' = c_popped q ++ [x])).
Proof.
  intros Hq Hc0 Hne. pose proof (i_room _ Hq) as Hroom. pose proof (i_pview _ Hq) as Hpv.
  destruct q as [s hs ts pv cv p c pu po].
  destruct Hq as [Hs Hh Ht Ih It Hf Hv Hr Hc Hcell Hprod Hcons]; cbn in *.
  destruct c as [|t|t|x t]; [done| | |].
  - destruct (lookup_lt_is_Some_2 hs (length pu)) as [h Hk]; [lia|]. pose proof (Ih _ _ Hk) as Eh. cbn in Hcons. subst t.
    eexists. split; [eapply pop_ready; [|exact Hk|]|split; [done|left; split; [done|cbn; lia]]]; [lia|].
    subst h. intros E. apply mod_near in E; lia.
  - cbn in Hcons. destruct Hcons as [-> Hlt].
    destruct (lookup_lt_is_Some_2 s (slot_of s (length po))) as [x Hx]; [apply slot_of_lt; lia|].
    eexists. split; [by apply pop_read|]. split; [done|]. left. split; [done|cbn; lia].
  - eexists. split; [apply pop_publish|]. split; [done|]. right. split; [done|]. by exists x.
Qed.

(** A pop of an empty queue reports it. *)
Lemma pop_gives_up q : cinv q -> c_cons q <> CIdle -> length (c_popped q) = length (c_pushed q) ->
  exists q', step q q' /\ c_prod q' = c_prod q /\ c_cons q' = CIdle /\ c_popped q' = c_popped q.
Proof.
  intros Hq Hc0 He. destruct q as [s hs ts pv cv p c pu po].
  destruct Hq as [Hs Hh Ht Ih It Hf Hv Hr Hc Hcell Hprod Hcons]; cbn in *.
  destruct c as [|t|t|x t]; cbn in Hcons; [done| |lia|lia].
  destruct (lookup_lt_is_Some_2 hs (length pu)) as [h Hk]; [lia|]. pose proof (Ih _ _ Hk) as Eh. subst t h.
  eexists. split; [eapply pop_empty; [|rewrite He; exact Hk]; lia|done].
Qed.

(** Such a pop cannot return a value. *)
Lemma empty_pops_nothing q x t : cinv q -> length (c_popped q) = length (c_pushed q) -> c_cons q <> CStore x t.
Proof.
  intros Hq He E. pose proof (i_cons _ Hq) as Hc. pose proof (i_cview _ Hq). rewrite E in Hc. cbn in Hc. lia.
Qed.
End Clients.

(** ** An instance: capacity 1, one value pushed and popped while a second
    push is under way. *)
Definition one_slot : SpscQueue (T:=Z) := mk_spsc [0; 0] 0 0.

Definition two_pushes : cstate Z :=
  mk_cstate [7; 8] [0; 1] [0; 1] 1 1 (PStore 8 0) CIdle [7] [7].

Lemma two_pushes_reachable : reachable one_slot two_pushes.
Proof.
  unfold reachable, initial, one_slot, two_pushes. cbn [slots head tail].
  eapply rtc_l; [by eapply push_begin with (v := 7)|].
  eapply rtc_l; [by eapply push_room with (k := 0%nat)|].
  eapply rtc_l; [apply push_write|]. eapply rtc_l; [apply push_publish|].
  eapply rtc_l; [by eapply pop_begin|]. eapply rtc_l; [by eapply pop_ready with (k := 1%nat); [lia|..]|].
  eapply rtc_l; [by eapply push_begin with (v := 8)|].
  eapply rtc_l; [by eapply pop_read|]. eapply rtc_l; [apply pop_publish|].
  eapply rtc_l; [by eapply push_room with (k := 1%nat); [lia|..]|].
  eapply rtc_l; [apply push_write|]. apply rtc_refl.
Qed.

Lemma SpscQueue_concurrent_witness :
  SpscQueue_new 0 (fun _ => true) 1 = Ok one_slot /\ c_popped two_pushes `prefix_of` c_pushed two_pushes.
Proof.
  split; [reflexivity|].
  apply (SpscQueue_concurrent 0 (fun _ => true) 1 one_slot two_pushes ltac:(lia) eq_refl two_pushes_reachable).
Defined.
