(* ===== verification/QueueTest.v ===== *)
(** * The queue's test, as a program of two threads ([src/tests/ebpf/queue_test.cpp])

    The first part of the test is sequential and is run.  The second part starts
    a producer that pushes 0, 1, ... and retries while the queue is full, pops
    and compares in the main thread, retries while the queue is empty, joins,
    and expects an empty queue.  Its steps are those of the two loops around the
    steps of [SpscConcurrent]; the theorem is that no assertion ever fails and
    that the test can always be brought to its end. *)
From S2P Require Import Prelude SpscQueue SpscConcurrent.

(** ** Capacity zero and one *)
Definition reject_zero (alloc : Z -> bool) : bool :=
  match SpscQueue_new 0 alloc 0 with Throw (invalid_argument _) => true | _ => false end.

Definition one_slot_test (one : SpscQueue (T:=Z)) : option unit :=
  '(v, one) ← TryPop one; assert_ (bool_decide (v = None));;
  '(pushed, one) ← TryPush 9 one; assert_ pushed;;
  '(pushed, one) ← TryPush 10 one; assert_ (negb pushed);;
  '(v, one) ← TryPop one; assert_ (bool_decide (v = Some 9));;
  '(v, one) ← TryPop one; assert_ (bool_decide (v = None)).

Example sequential_test_passes : forall alloc, alloc 2 = true ->
  reject_zero alloc = true /\
  exists one, SpscQueue_new 0 alloc 1 = Ok one /\ one_slot_test one = Some tt.
Proof.
  intros alloc Ha. split; [done|]. eexists. split.
  - unfold SpscQueue_new. change (u64 (1 + 1)) with 2. by rewrite Ha.
  - vm_compute. reflexivity.
Qed.

(** ** Two threads *)
Inductive producer_at :=
  | P_loop (i : nat)                 (* at the head of the loop, or yielding *)
  | P_call (i : nat)                 (* in TryPush(i) *)
  | P_done.

Inductive main_at :=
  | M_loop (i : nat)
  | M_call (i : nat)                 (* in TryPop(v) *)
  | M_assert (i : nat) (v : Z)       (* assert(v == i) *)
  | M_join                           (* producer.join() *)
  | M_last                           (* assert(!q.TryPop(v)), to be called *)
  | M_last_call
  | M_passed
  | M_failed.

#[export] Instance producer_at_eq_dec : EqDecision producer_at.
Proof. solve_decision. Defined.
#[export] Instance main_at_eq_dec : EqDecision main_at.
Proof. solve_decision. Defined.

Record test := mk_test {
  t_queue : cstate Z;
  t_producer : producer_at;
  t_main : main_at;
}.

(** The value to push after a call of [TryPush(i)]: the same one, if it failed. *)
Definition next_push (q q' : cstate Z) (i : nat) : nat :=
  if decide (length (c_pushed q') = length (c_pushed q)) then i else S i.

Section Test.
Context (count : nat).

Inductive producer_moves : cstate Z * producer_at -> cstate Z * producer_at -> Prop :=
  | p_enter q q' i h : (i < count)%nat ->
      step q q' -> c_prod q = PIdle -> c_prod q' = PCall (Z.of_nat i) h -> producer_moves (q, P_loop i) (q', P_call i)
  | p_inside q q' i :
      step q q' -> c_cons q' = c_cons q -> c_prod q' <> PIdle -> producer_moves (q, P_call i) (q', P_call i)
  | p_return q q' i :
      step q q' -> c_cons q' = c_cons q -> c_prod q' = PIdle ->
      producer_moves (q, P_call i) (q', P_loop (next_push q q' i))
  | p_exit q i : (count <= i)%nat -> producer_moves (q, P_loop i) (q, P_done).

(** A call of [TryPop] from the main thread: it begins, goes on, or returns. *)
Inductive pop_moves : cstate Z -> cstate Z -> option (option Z) -> Prop :=
  | m_begin q q' t : step q q' -> c_cons q = CIdle -> c_cons q' = CCall t -> pop_moves q q' None
  | m_inside q q' : step q q' -> c_prod q' = c_prod q -> c_cons q <> CIdle -> c_cons q' <> CIdle -> pop_moves q q' None
  | m_false q q' : step q q' -> c_prod q' = c_prod q -> c_cons q <> CIdle -> c_cons q' = CIdle ->
      c_popped q' = c_popped q -> pop_moves q q' (Some None)
  | m_true q q' v : step q q' -> c_prod q' = c_prod q -> c_cons q' = CIdle ->
      c_popped q' = c_popped q ++ [v] -> pop_moves q q' (Some (Some v)).

Inductive test_step : test -> test -> Prop :=
  | t_push q q' p p' m : producer_moves (q, p) (q', p') -> test_step (mk_test q p m) (mk_test q' p' m)
  | t_call q q' p i : (i < count)%nat -> c_cons q = CIdle -> pop_moves q q' None ->
      test_step (mk_test q p (M_loop i)) (mk_test q' p (M_call i))
  | t_inside q q' p i : c_cons q <> CIdle -> pop_moves q q' None -> test_step (mk_test q p (M_call i)) (mk_test q' p (M_call i))
  | t_again q q' p i : pop_moves q q' (Some None) -> test_step (mk_test q p (M_call i)) (mk_test q' p (M_loop i))
  | t_value q q' p i v : pop_moves q q' (Some (Some v)) -> test_step (mk_test q p (M_call i)) (mk_test q' p (M_assert i v))
  | t_assert q p i v :
      test_step (mk_test q p (M_assert i v)) (mk_test q p (if decide (v = Z.of_nat i) then M_loop (S i) else M_failed))
  | t_end q p i : (count <= i)%nat -> test_step (mk_test q p (M_loop i)) (mk_test q p M_join)
  | t_join q : test_step (mk_test q P_done M_join) (mk_test q P_done M_last)
  | t_last q q' p : c_cons q = CIdle -> pop_moves q q' None -> test_step (mk_test q p M_last) (mk_test q' p M_last_call)
  | t_last_inside q q' p : c_cons q <> CIdle -> pop_moves q q' None ->
      test_step (mk_test q p M_last_call) (mk_test q' p M_last_call)
  | t_last_empty q q' p : pop_moves q q' (Some None) -> test_step (mk_test q p M_last_call) (mk_test q' p M_passed)
  | t_last_value q q' p v : pop_moves q q' (Some (Some v)) -> test_step (mk_test q p M_last_call) (mk_test q' p M_failed).

Definition test_start (q : SpscQueue) : test := mk_test (initial q) (P_loop 0) (M_loop 0).

(** ** The invariant *)

(** The first [n] values the producer pushes. *)
Definition vals (n : nat) : list Z := Z.of_nat <$> seq 0 n.

Definition producer_inv (q : cstate Z) (p : producer_at) : Prop :=
  match p with
  | P_loop i => c_prod q = PIdle /\ c_pushed q = vals i /\ (i <= count)%nat
  | P_call i => in_push (Z.of_nat i) (c_prod q) /\ c_pushed q = vals i /\ (i < count)%nat
  | P_done => c_prod q = PIdle /\ c_pushed q = vals count
  end.

Definition main_inv (q : cstate Z) (p : producer_at) (m : main_at) : Prop :=
  let popped := length (c_popped q) in
  match m with
  | M_loop i => c_cons q = CIdle /\ popped = i /\ (i <= count)%nat
  | M_call i => c_cons q <> CIdle /\ popped = i /\ (i < count)%nat
  | M_assert i v => c_cons q = CIdle /\ popped = S i /\ (i < count)%nat /\ c_popped q !! i = Some v
  | M_join => c_cons q = CIdle /\ popped = count
  | M_last | M_passed => c_cons q = CIdle /\ popped = count /\ p = P_done
  | M_last_call => c_cons q <> CIdle /\ popped = count /\ p = P_done
  | M_failed => False
  end.

Record test_inv (t : test) : Prop := {
  te_queue : cinv (t_queue t);
  te_producer : producer_inv (t_queue t) (t_producer t);
  te_main : main_inv (t_queue t) (t_producer t) (t_main t);
}.

Lemma vals_length n : length (vals n) = n.
Proof. unfold vals. by rewrite length_fmap, length_seq. Qed.

Lemma vals_S n : vals (S n) = vals n ++ [Z.of_nat n].
Proof. unfold vals. by rewrite seq_S, fmap_app. Qed.

Lemma vals_lookup n i v : vals n !! i = Some v -> v = Z.of_nat i.
Proof. unfold vals. rewrite list_lookup_fmap. intros (k & [-> _]%lookup_seq & ->)%fmap_Some. done. Qed.

(** All that has been popped is right. *)
Lemma popped_value t i v : test_inv t -> c_popped (t_queue t) !! i = Some v -> v = Z.of_nat i.
Proof.
  intros [Hq Hp _] E. pose proof (prefix_lookup_Some _ _ _ _ E (i_fifo _ Hq)) as Hv. revert Hv.
  destruct (t_producer t); destruct Hp as (_ & -> & _) || destruct Hp as (_ & ->); apply vals_lookup.
Qed.

Lemma producer_pushed q p : producer_inv q p -> (length (c_pushed q) <= count)%nat.
Proof. destruct p; [intros (_ & -> & ?)..|intros (_ & ->)]; rewrite vals_length; lia. Qed.

Lemma pop_moves_spec q q' r : pop_moves q q' r ->
  step q q' /\ c_prod q' = c_prod q /\ c_pushed q' = c_pushed q /\
  match r with
  | None => c_cons q' <> CIdle /\ c_popped q' = c_popped q
  | Some None => c_cons q' = CIdle /\ c_popped q' = c_popped q
  | Some (Some v) => c_cons q' = CIdle /\ c_popped q' = c_popped q ++ [v] /\ exists t, c_cons q = CStore v t
  end.
Proof.
  destruct 1 as [q q' t Hs Hc Hc'|q q' Hs Hp Hc Hc'|q q' Hs Hp Hc Hc' Hpo|q q' v Hs Hp Hc' Hpo].
  - assert (Hp : c_prod q' = c_prod q /\ c_popped q' = c_popped q) by (destruct Hs; cbn in *; subst; done).
    destruct Hp as [Hp Hpo]. destruct (consumer_step _ _ Hs Hp) as [Hpu _]. split_and!; try done. by rewrite Hc'.
  - destruct (consumer_step _ _ Hs Hp) as [Hpu [Hpo|(x & t & _ & Hi & _)]]; by split_and!.
  - destruct (consumer_step _ _ Hs Hp) as [Hpu _]. by split_and!.
  - destruct (consumer_step _ _ Hs Hp) as [Hpu [E|(x & t & Hx & _ & E)]].
    + rewrite E in Hpo. apply (f_equal length) in Hpo. rewrite length_app in Hpo. cbn in Hpo. lia.
    + rewrite E in Hpo. apply app_inv_head in Hpo as [= ->]. split_and!; try done. by exists t.
Qed.

Lemma producer_moves_inv q p q' p' : cinv q -> producer_inv q p -> producer_moves (q, p) (q', p') ->
  cinv q' /\ producer_inv q' p' /\ c_cons q' = c_cons q /\ c_popped q' = c_popped q /\ p <> P_done.
Proof.
  intros Hq Hp Hm. remember (q, p) as a eqn:Ea. remember (q', p') as b eqn:Eb.
  destruct Hm as [q1 q2 i h Hi Hs Hpc Hpc'|q1 q2 i Hs Hc Hpc|q1 q2 i Hs Hc Hpc|q1 i Hi]; simplify_eq; cbn in Hp |- *.
  - destruct (begin_step _ _ _ _ Hs Hpc Hpc') as (Hpu & Hpo & Hc). rewrite Hpc', Hpu, Hc, Hpo.
    split_and!; try done; [by eapply cinv_step|apply Hp].
  - destruct Hp as (Hin & Hv & Hi). destruct (producer_step _ _ _ Hs Hc Hin) as [Hpo [[? ->]|[[? _]|[? _]]]]; try done.
    split_and!; try done. by eapply cinv_step.
  - destruct Hp as (Hin & Hv & Hi). destruct (producer_step _ _ _ Hs Hc Hin) as [Hpo [[Hbad _]|[[_ Hpu]|[_ Hpu]]]].
    + by rewrite Hpc in Hbad.
    + unfold next_push. rewrite Hpu, decide_True by done. split_and!; try done; [by eapply cinv_step|lia].
    + unfold next_push. rewrite Hpu, decide_False by (rewrite length_app; cbn; lia). rewrite Hv, vals_S.
      split_and!; try done. by eapply cinv_step.
  - destruct Hp as (? & -> & ?). replace i with count by lia. by split_and!.
Qed.

Lemma test_step_inv t t' : test_step t t' -> test_inv t -> test_inv t'.
Proof.
  intros Hs Hi. pose proof (popped_value t) as Hval.
  destruct Hs as [q q' p p' m Hm|q q' p i Hlt Hc Hm|q q' p i Hc Hm|q q' p i Hm|q q' p i v Hm|q p i v|q p i Hle|q
    |q q' p Hc Hm|q q' p Hc Hm|q q' p Hm|q q' p v Hm]; pose proof Hi as [Hq Hp Hmn]; cbn in Hq, Hp, Hmn.
  1: { destruct (producer_moves_inv _ _ _ _ Hq Hp Hm) as (Hq' & Hp' & Hc & Hpo & Hnd). constructor; cbn; try done.
       destruct m; cbn in Hmn |- *; rewrite ?Hc, ?Hpo; try done; naive_solver. }
  5: { destruct Hmn as (Hc & Hl & Hlt & Hv). rewrite decide_True by (by apply (Hval i v Hi)).
       constructor; cbn; done. }
  5: { constructor; cbn; try done. destruct Hmn as (? & ? & ?). split; [done|]. lia. }
  5: { constructor; cbn; try done. by destruct Hmn. }
  all: destruct (pop_moves_spec _ _ _ Hm) as (Hst & Hpc & Hpu & Hr); pose proof (cinv_step _ _ Hst Hq) as Hq'.
  all: assert (Hp' : producer_inv q' p) by (destruct p; cbn in Hp |- *; by rewrite ?Hpc, ?Hpu).
  all: constructor; cbn; try done.
  - destruct Hr as [? ->], Hmn as (_ & ? & _). by split_and!.
  - destruct Hr as [? ->]. by destruct Hmn as (_ & ? & ?).
  - destruct Hr as [? ->], Hmn as (_ & ? & ?). split_and!; try done; lia.
  - destruct Hr as (? & -> & _), Hmn as (_ & Hl & ?). rewrite length_app. cbn. split_and!; try done; [lia|].
    by rewrite lookup_app_r, Hl, Nat.sub_diag by lia.
  - destruct Hr as [? ->]. by destruct Hmn as (_ & ? & ?).
  - destruct Hr as [? ->]. by destruct Hmn as (_ & ? & ?).
  - destruct Hr as [? ->]. by destruct Hmn as (_ & ? & ?).
  - destruct Hr as (_ & _ & [t Ht]), Hmn as (_ & Hl & ->). destruct Hp as [_ Hpv].
    apply (empty_pops_nothing q v t Hq); [|done]. by rewrite Hpv, vals_length.
Qed.

(** ** Progress *)
Definition producer_weight (q : cstate Z) (p : producer_at) : nat :=
  match p with
  | P_loop i => 5 * (count - i) + 1
  | P_call i => 5 * (count - S i) + 2 + push_phase (c_prod q)
  | P_done => 0
  end.

Definition main_weight (q : cstate Z) (m : main_at) : nat :=
  match m with
  | M_loop i => 6 * (count - i) + 4
  | M_call i => 6 * (count - S i) + 6 + pop_phase (c_cons q)
  | M_assert i _ => 6 * (count - S i) + 5
  | M_join => 3 | M_last => 2 | M_last_call => 1 | M_passed | M_failed => 0
  end.

Definition weight (t : test) : nat := producer_weight (t_queue t) (t_producer t) + main_weight (t_queue t) (t_main t).

(** On an empty queue the producer can get to its next success, or leave. *)
Lemma producer_goes_on q p : cinv q -> producer_inv q p -> length (c_popped q) = length (c_pushed q) -> p <> P_done ->
  exists q' p', producer_moves (q, p) (q', p') /\ c_cons q' = c_cons q /\
    (producer_weight q' p' < producer_weight q p)%nat.
Proof.
  intros Hq Hp He Hnd. pose proof (i_size _ Hq) as Hsize. destruct p as [i|i|]; [| |done].
  - destruct Hp as (Hpc & Hv & Hi). destruct (decide (i = count)) as [->|Hne].
    + exists q, P_done. split; [by apply p_exit|]. split; [done|]. cbn. lia.
    + destruct (push_begins q (Z.of_nat i) Hq Hpc) as (q' & h & Hs & Hpc' & Hc). exists q', (P_call i).
      split; [eapply p_enter; eauto; lia|]. split; [done|]. cbn. rewrite Hpc'. cbn. lia.
  - destruct Hp as (Hin & Hv & Hi). destruct (push_goes_on q (Z.of_nat i) Hq Hin) as (q' & Hs & Hc & Hcase); [lia|].
    destruct Hcase as [[Hpc Hph]|[Hpc Hpu]].
    + exists q', (P_call i). split; [by apply p_inside|]. split; [done|]. cbn. lia.
    + exists q'. eexists. split; [by apply p_return|]. split; [done|].
      unfold next_push. rewrite Hpu, decide_False by (rewrite length_app; cbn; lia). cbn. lia.
Qed.

Lemma test_goes_on t : test_inv t -> t_main t <> M_passed ->
  exists t', test_step t t' /\ (weight t' < weight t)%nat.
Proof.
  intros Hi Hnp. pose proof (popped_value t) as Hval. pose proof Hi as [Hq Hp Hm]. destruct t as [q p m]. cbn in *.
  pose proof (prefix_length _ _ (i_fifo _ Hq)) as Hpre. pose proof (producer_pushed _ _ Hp) as Hpl. unfold weight. cbn.
  assert (Hprod : length (c_popped q) = length (c_pushed q) -> p <> P_done ->
    exists t', test_step (mk_test q p m) t' /\ (weight t' < producer_weight q p + main_weight q m)%nat).
  { intros He Hnd. destruct (producer_goes_on q p Hq Hp He Hnd) as (q' & p' & Hs & Hc & Hw).
    exists (mk_test q' p' m). split; [by apply t_push|]. unfold weight. cbn.
    replace (main_weight q' m) with (main_weight q m) by (destruct m; cbn; by rewrite ?Hc). lia. }
  destruct m as [i|i|i v| | | | |]; cbn in Hm; try done.
  - destruct Hm as (Hc & Hl & Hle). destruct (decide (i < count)%nat) as [Hlt|Hge].
    + destruct (pop_begins q Hq Hc) as (q' & h & Hs & Hc' & Hpc & Hpo).
      exists (mk_test q' p (M_call i)). split; [apply t_call; [done|done|by eapply m_begin]|]. unfold weight. cbn.
      rewrite Hc'. replace (producer_weight q' p) with (producer_weight q p) by (destruct p; cbn; by rewrite ?Hpc). cbn. lia.
    + exists (mk_test q p M_join). split; [apply t_end; lia|]. unfold weight. cbn. lia.
  - destruct Hm as (Hc & Hl & Hlt). destruct (decide (length (c_popped q) < length (c_pushed q))%nat) as [Hne|Hge].
    + destruct (pop_goes_on q Hq Hc Hne) as (q' & Hs & Hpc & Hcase).
      assert (Hw : producer_weight q' p = producer_weight q p) by (destruct p; cbn; by rewrite ?Hpc).
      destruct Hcase as [[Hc' Hph]|[Hc' [x Hpo]]].
      * exists (mk_test q' p (M_call i)). split; [apply t_inside; [done|by apply m_inside]|]. unfold weight. cbn. lia.
      * exists (mk_test q' p (M_assert i x)). split; [by apply t_value, m_true|]. unfold weight. cbn. lia.
    + apply Hprod; [lia|]. intros ->. destruct Hp as [_ Hv]. rewrite Hv, vals_length in *. lia.
  - destruct Hm as (Hc & Hl & Hlt & Hv). eexists. split; [apply t_assert|].
    rewrite decide_True by (by apply (Hval i v Hi)). unfold weight. cbn. lia.
  - destruct Hm as (Hc & Hl). destruct (decide (p = P_done)) as [->|Hnd]; [|apply Hprod; [lia|done]].
    exists (mk_test q P_done M_last). split; [apply t_join|]. unfold weight. cbn. lia.
  - destruct Hm as (Hc & Hl & ->). destruct (pop_begins q Hq Hc) as (q' & h & Hs & Hc' & Hpc & Hpo).
    exists (mk_test q' P_done M_last_call). split; [apply t_last; [done|by eapply m_begin]|]. unfold weight. cbn. lia.
  - destruct Hm as (Hc & Hl & ->). destruct (pop_gives_up q Hq Hc) as (q' & Hs & Hpc & Hc' & Hpo); [lia|].
    exists (mk_test q' P_done M_passed). split; [by apply t_last_empty, m_false|]. unfold weight. cbn. lia.
Qed.

Lemma test_reachable_inv t t' : rtc test_step t t' -> test_inv t -> test_inv t'.
Proof. induction 1; eauto using test_step_inv. Qed.

Lemma test_finishes k : forall t, (weight t <= k)%nat -> test_inv t ->
  exists t', rtc test_step t t' /\ t_main t' = M_passed.
Proof.
  induction k as [|k IH]; intros t Hk Hi; (destruct (decide (t_main t = M_passed)) as [E|E]; [by exists t|]);
    destruct (test_goes_on t Hi E) as (t1 & Hs & Hw); [lia|].
  destruct (IH t1) as (t2 & Hr & Hd); [lia|by eapply test_step_inv|]. exists t2. split; [by eapply rtc_l|done].
Qed.

(** C13: the queue's own test never fails and can always be finished.  For any capacity and any number
    of values, under every interleaving of the two threads and every stale load: no assertion of the
    test fails; whatever has been popped are the values 0, 1, ... in order, all of them once the test
    has passed; and from every state it can reach the test can go on to its end, so it neither
    deadlocks nor loses a value. *)
Theorem queue_test_passes alloc n q t :
  0 <= n < 2 ^ 64 -> SpscQueue_new 0 alloc n = Ok q -> rtc test_step (test_start q) t ->
  t_main t <> M_failed /\
  (forall i v, c_popped (t_queue t) !! i = Some v -> v = Z.of_nat i) /\
  (t_main t = M_passed -> length (c_popped (t_queue t)) = count /\ length (c_pushed (t_queue t)) = count) /\
  exists t', rtc test_step t t' /\ t_main t' = M_passed.
Proof.
  intros Hn Hnew Hr. destruct (SpscQueue_new_spec 0 alloc n q Hn Hnew) as (Hq & _ & _).
  destruct (new_indices 0 alloc n q Hnew) as [H0 H1].
  assert (Hi : test_inv t).
  { eapply test_reachable_inv; [exact Hr|]. constructor; cbn; [by apply cinv_initial|split_and!; [done|done|lia]..]. }
  split_and!.
  - intros E. pose proof (te_main _ Hi) as Hm. by rewrite E in Hm.
  - intros i v. by apply popped_value.
  - intros E. pose proof (te_main _ Hi) as Hm. rewrite E in Hm. destruct Hm as (_ & Hl & Hd).
    pose proof (te_producer _ Hi) as Hp. rewrite Hd in Hp. destruct Hp as [_ Hv]. by rewrite Hv, vals_length.
  - by eapply test_finishes.
Qed.
End Test.

(** ** The test's numbers: 250000 values through a queue of 31 *)
Definition q31 : SpscQueue (T:=Z) := match SpscQueue_new 0 (fun _ => true) 31 with Ok q => q | Throw _ => one_slot end.

Lemma queue_test_passes_witness : exists t, rtc (test_step (Z.to_nat 250000)) (test_start q31) t /\ t_main t = M_passed.
Proof.
  apply (queue_test_passes (Z.to_nat 250000) (fun _ => true) 31 q31 (test_start q31)); [lia|reflexivity|apply rtc_refl].
Defined.
