(* ===== verification/EbpfTelemetry.v ===== *)
(** * The telemetry receiver ([src/EbpfTelemetry.cpp])

    [OnEvent] is the ring-buffer callback: it decodes an event, tags it with
    its source and pushes it to the queue, or counts why it did not.  The
    lifecycle operations register sources, start the poller and drain the
    rings at shutdown.  libbpf and the clock are inputs: what a registration
    returned, and for each turn of the drain loop the time read and the
    effect of [ring_buffer__consume]. *)
From S2P Require Import Prelude Abi TelemetryTypes Samples SpscQueue.

Definition EINTR : Z := 4.
Definition ENOMEM : Z := 12.
Definition ECANCELED : Z := 125.

Record Source := mk_source {
  src_ifindex : Z;
  src_netns_inode : Z;
  src_session_id : Z;
}.

Record Impl := mk_impl {
  queue : SpscQueue (T:=TelemetryRecord);
  sources : list Source;
  ring : option (list (Z * Source));   (* registered descriptors and contexts *)
  poller_joinable : bool;
  abort : bool;
  deadline_ns : Z;
  decode_errors : Z;
  queue_dropped : Z;
  shutdown_discarded : Z;
  poll_error : Z;
  started : bool;
  finished : bool;
}.

Definition zero_record : TelemetryRecord := mk_record zero_event 0 0.

(** [EbpfTelemetry(capacity)]. *)
Definition EbpfTelemetry_new (alloc : Z -> bool) (capacity : Z) : result Impl :=
  q ← SpscQueue_new zero_record alloc capacity;
  mret (mk_impl q [] None false false 0 0 0 0 0 false false).

(** Assignments to one group of fields. *)
Definition with_queue (q : SpscQueue) (s : Impl) : Impl :=
  mk_impl q (sources s) (ring s) (poller_joinable s) (abort s) (deadline_ns s) (decode_errors s)
    (queue_dropped s) (shutdown_discarded s) (poll_error s) (started s) (finished s).
Definition with_losses (de qd sd : Z) (s : Impl) : Impl :=
  mk_impl (queue s) (sources s) (ring s) (poller_joinable s) (abort s) (deadline_ns s) de qd sd
    (poll_error s) (started s) (finished s).
Definition with_sources (srcs : list Source) (r : option (list (Z * Source))) (s : Impl) : Impl :=
  mk_impl (queue s) srcs r (poller_joinable s) (abort s) (deadline_ns s) (decode_errors s)
    (queue_dropped s) (shutdown_discarded s) (poll_error s) (started s) (finished s).
Definition with_abort (b : bool) (s : Impl) : Impl :=
  mk_impl (queue s) (sources s) (ring s) (poller_joinable s) b (deadline_ns s) (decode_errors s)
    (queue_dropped s) (shutdown_discarded s) (poll_error s) (started s) (finished s).
Definition with_deadline (d : Z) (s : Impl) : Impl :=
  mk_impl (queue s) (sources s) (ring s) (poller_joinable s) (abort s) d (decode_errors s)
    (queue_dropped s) (shutdown_discarded s) (poll_error s) (started s) (finished s).
Definition with_poll_error (rc : Z) (s : Impl) : Impl :=
  mk_impl (queue s) (sources s) (ring s) (poller_joinable s) (abort s) (deadline_ns s)
    (decode_errors s) (queue_dropped s) (shutdown_discarded s) rc (started s) (finished s).
Definition with_poller (joinable st fin : bool) (s : Impl) : Impl :=
  mk_impl (queue s) (sources s) (ring s) joinable (abort s) (deadline_ns s) (decode_errors s)
    (queue_dropped s) (shutdown_discarded s) (poll_error s) st fin.

Section Telemetry.
Context `{Host}.

(** [OnEvent(context, data, size)] at time [now]: its return value and the
    state after, [None] for an access outside the queue. *)
Definition OnEvent (source : Source) (data : option bytes) (size now : Z) (self : Impl)
    : option (Z * Impl) :=
  let deadline := deadline_ns self in
  if abort self || (negb (deadline =? 0) && (deadline <=? now)) then
    Some (- ECANCELED,
      with_losses (decode_errors self) (queue_dropped self) (u64 (shutdown_discarded self + 1)) self)
  else
    let rejected :=
      Some (0, with_losses (u64 (decode_errors self + 1)) (queue_dropped self)
                 (shutdown_discarded self) self) in
    match DecodeEvent data size with
    | None => rejected
    | Some event =>
      if negb (e_ifindex event =? src_ifindex source) then rejected
      else
        let record := mk_record event (src_netns_inode source) (src_session_id source) in
        '(pushed, q) ← TryPush record (queue self);
        let self := with_queue q self in
        Some (0, if pushed : bool then self
                 else with_losses (decode_errors self) (u64 (queue_dropped self + 1))
                        (shutdown_discarded self) self)
    end.

(** [TryPop(record)] and [Loss()]. *)
Definition TryPopRecord (self : Impl) : option (option TelemetryRecord * Impl) :=
  '(r, q) ← TryPop (queue self);
  Some (r, with_queue q self).

Definition Loss (self : Impl) : TelemetryLoss :=
  mk_telemetry_loss (decode_errors self) (queue_dropped self) (shutdown_discarded self) (poll_error self).

(** What registering a source with libbpf gave: [rc_new] is the errno of
    [ring_buffer__new] if it failed, [rc_add] the result of
    [ring_buffer__add]. *)
Definition AddSource (fd ifindex netns session : Z) (rc_new : option Z) (rc_add : Z) (self : Impl)
    : result unit * Impl :=
  if started self || finished self || (fd <? 0) || (ifindex =? 0) then
    (Throw (invalid_argument "invalid ring source/lifecycle"), self)
  else
    let source := mk_source ifindex netns session in
    let srcs := sources self ++ [source] in
    let '(rc, r) :=
      match ring self with
      | None =>
        match rc_new with
        | None => (0, Some [(fd, source)])
        | Some errno => (- (if errno =? 0 then ENOMEM else errno), None)
        end
      | Some regs => (rc_add, Some (if rc_add =? 0 then regs ++ [(fd, source)] else regs))
      end in
    if negb (rc =? 0) then
      (Throw (system_error (- rc) "register ring source"), with_sources (removelast srcs) r self)
    else (Ok tt, with_sources srcs r self).

Definition Start (self : Impl) : result unit * Impl :=
  match ring self with
  | Some _ =>
    if started self || finished self then (Throw (logic_error "cannot start ring poller"), self)
    else (Ok tt, with_poller true true (finished self) self)
  | None => (Throw (logic_error "cannot start ring poller"), self)
  end.

(** One turn of the poller's loop body after [ring_buffer__poll] has
    returned [rc]: whether it goes on, and the state. *)
Definition poll_turn (rc : Z) (self : Impl) : bool * Impl :=
  if rc =? - EINTR then (true, self)
  else if (rc =? - ECANCELED) && abort self then (false, self)
  else if rc <? 0 then (false, with_poll_error rc self)
  else (true, self).

(** The poller thread: each turn is the effect of [ring_buffer__poll] and of
    the other threads during it; [None] if it is still running. *)
Fixpoint poller (turns : list (Impl -> Z * Impl)) (self : Impl) : option Impl :=
  if abort self then Some self
  else
    match turns with
    | [] => None
    | turn :: turns =>
      let '(rc, self) := turn self in
      let '(go, self) := poll_turn rc self in
      if go then poller turns self else Some self
    end.

(** The drain loop of [FinishAfterDetach]: each turn is the time read and
    the effect of [ring_buffer__consume]; [None] if it is still running. *)
Fixpoint drain (turns : list (Z * (Impl -> Z * Impl))) (self : Impl) : option Impl :=
  match turns with
  | [] => None
  | (now, consume) :: turns =>
    if deadline_ns self <=? now then Some self
    else
      let '(rc, self) := consume self in
      if rc =? - EINTR then drain turns self
      else if (rc =? - ECANCELED) || (rc =? 0) then Some self
      else if rc <? 0 then Some (with_poll_error rc self)
      else drain turns self
  end.

(** [FinishAfterDetach(timeout)]: [join] is what the poller does before it
    has been joined. *)
Definition FinishAfterDetach (timeout now : Z) (join : Impl -> Impl)
    (turns : list (Z * (Impl -> Z * Impl))) (self : Impl) : option (Z * Impl) :=
  if finished self then Some (poll_error self, self)
  else
    let self := with_abort true self in
    let self :=
      if poller_joinable self
      then let joined := join self in with_poller false (started joined) (finished joined) joined
      else self in
    let ms := if 60000 <? timeout then 60000 else timeout in
    self ←
      (match ring self with
       | Some _ =>
         if 0 <? ms then
           drain turns (with_abort false (with_deadline (u64 (now + u64 (ms * 1000000))) self))
         else Some self
       | None => Some self
       end);
    let self := with_poller (poller_joinable self) (started self) true (with_abort true self) in
    Some (poll_error self, self).

(** [~EbpfTelemetry()]. *)
Definition EbpfTelemetry_destroy (now : Z) (join : Impl -> Impl) (self : Impl) : option (Z * Impl) :=
  FinishAfterDetach 0 now join [] self.

End Telemetry.

(** ** Specification of the callback *)
Section Facts.
Context `{HE : Host}.

(** The record an event of [source] becomes, if it is acceptable. *)
Definition admitted (source : Source) (data : option bytes) (size : Z) : option TelemetryRecord :=
  event ← DecodeEvent data size;
  if e_ifindex event =? src_ifindex source
  then Some (mk_record event (src_netns_inode source) (src_session_id source)) else None.

Definition stopping (now : Z) (self : Impl) : bool :=
  abort self || (negb (deadline_ns self =? 0) && (deadline_ns self <=? now)).

(** What becomes of one event. *)
Inductive fate := Discarded | Rejected | Dropped | Queued (r : TelemetryRecord).

Definition event_fate (source : Source) data size now (self : Impl) : fate :=
  if stopping now self then Discarded
  else match admitted source data size with
       | None => Rejected
       | Some r => if bool_decide (queue_length (queue self) < capacity (queue self))
                   then Queued r else Dropped
       end.

Definition one (b : bool) : Z := if b then 1 else 0.

Definition is_rejected (f : fate) : bool := match f with Rejected => true | _ => false end.
Definition is_dropped (f : fate) : bool := match f with Dropped => true | _ => false end.
Definition is_discarded (f : fate) : bool := match f with Discarded => true | _ => false end.
Definition queued (f : fate) : list TelemetryRecord := match f with Queued r => [r] | _ => [] end.

(** The parts of the state that no callback touches. *)
Definition same_control (s s' : Impl) : Prop :=
  sources s' = sources s /\ ring s' = ring s /\ poller_joinable s' = poller_joinable s /\
  abort s' = abort s /\ deadline_ns s' = deadline_ns s /\ poll_error s' = poll_error s /\
  started s' = started s /\ finished s' = finished s.

Lemma same_control_refl s : same_control s s.
Proof. by split_and!. Qed.

Lemma same_control_trans s1 s2 s3 : same_control s1 s2 -> same_control s2 s3 -> same_control s1 s3.
Proof. unfold same_control. intros. split_hyps. split_and!; congruence. Qed.

Abbreviation items s := (contents zero_record (queue s)).

Lemma OnEvent_spec source data size now self : spsc_ok (queue self) ->
  let f := event_fate source data size now self in
  exists self', OnEvent source data size now self =
      Some (if is_discarded f then - ECANCELED else 0, self') /\
    spsc_ok (queue self') /\ capacity (queue self') = capacity (queue self) /\
    items self' = items self ++ queued f /\
    decode_errors self' = (if is_rejected f then u64 (decode_errors self + 1) else decode_errors self) /\
    queue_dropped self' = (if is_dropped f then u64 (queue_dropped self + 1) else queue_dropped self) /\
    shutdown_discarded self' =
      (if is_discarded f then u64 (shutdown_discarded self + 1) else shutdown_discarded self) /\
    same_control self self'.
Proof.
  intros Hq f. subst f. unfold event_fate, OnEvent, admitted. fold (stopping now self).
  destruct (stopping now self).
  { eexists. split; [done|]. split_and!; try done. by rewrite app_nil_r. }
  destruct (DecodeEvent data size) as [e|]; cbn [mbind option_bind].
  2: { eexists. split; [done|]. split_and!; try done. by rewrite app_nil_r. }
  destruct (e_ifindex e =? src_ifindex source); cbn [negb].
  2: { eexists. split; [done|]. split_and!; try done. by rewrite app_nil_r. }
  set (r := mk_record e _ _).
  destruct (TryPush_spec zero_record r (queue self) Hq) as (q' & -> & Hq' & Hs & Hc).
  cbn [mbind option_bind]. unfold capacity in *.
  case_bool_decide; cbn [is_rejected is_dropped is_discarded queued]; eexists; (split; [done|]);
    cbn [queue with_queue with_losses decode_errors queue_dropped shutdown_discarded];
    rewrite ?Hs, ?app_nil_r; by split_and!.
Qed.

Lemma OnEvent_control source data size now self rc self' :
  OnEvent source data size now self = Some (rc, self') -> same_control self self'.
Proof.
  unfold OnEvent. destruct (_ || _); [intros [= _ <-]; by split_and!|].
  destruct (DecodeEvent data size) as [e|]; [|intros [= _ <-]; by split_and!].
  destruct (negb _); [intros [= _ <-]; by split_and!|].
  destruct (TryPush _ _) as [[[] q]|]; cbn [mbind option_bind]; [..|done];
    intros [= _ <-]; by split_and!.
Qed.

(** ** Runs of callbacks, pops and shutdown flags *)
Inductive action :=
  | Event (source : Source) (data : option bytes) (size now : Z)
  | Take
  | SetAbort (b : bool)
  | SetDeadline (d : Z).

Definition act (a : action) (x : list TelemetryRecord * Impl) : option (list TelemetryRecord * Impl) :=
  let '(taken, self) := x in
  match a with
  | Event source data size now => '(_, self) ← OnEvent source data size now self; Some (taken, self)
  | Take => '(r, self) ← TryPopRecord self; Some (taken ++ from_option (fun r => [r]) [] r, self)
  | SetAbort b => Some (taken, with_abort b self)
  | SetDeadline d => Some (taken, with_deadline d self)
  end.

Definition run_actions (acts : list action) (self : Impl) : option (list TelemetryRecord * Impl) :=
  foldl (fun x a => x ≫= act a) (Some ([], self)) acts.

Definition is_event (a : action) : bool := match a with Event _ _ _ _ => true | _ => false end.

Definition admitted_by (a : action) : option TelemetryRecord :=
  match a with Event source data size _ => admitted source data size | _ => None end.

Definition events_of (acts : list action) : Z := Z.of_nat (length (List.filter is_event acts)).

Record conserved (cap : Z) (acts : list action) (taken : list TelemetryRecord) (self : Impl) : Prop := {
  cons_queue : spsc_ok (queue self);
  cons_cap : capacity (queue self) = cap;
  cons_order : taken ++ items self `sublist_of` omap admitted_by acts;
  cons_counts : 0 <= decode_errors self /\ 0 <= queue_dropped self /\ 0 <= shutdown_discarded self;
  cons_total : events_of acts = Z.of_nat (length taken) + Z.of_nat (length (items self)) +
    decode_errors self + queue_dropped self + shutdown_discarded self;
}.

Lemma events_of_snoc acts a : events_of (acts ++ [a]) = events_of acts + one (is_event a).
Proof. unfold events_of. rewrite List.filter_app, length_app. simpl. destruct (is_event a); simpl; lia. Qed.

Lemma events_of_le acts : 0 <= events_of acts <= Z.of_nat (length acts).
Proof. unfold events_of. pose proof (List.filter_length_le is_event acts). lia. Qed.

Lemma conserved_event cap acts taken self source data size now :
  Z.of_nat (length acts) + 1 < 2 ^ 64 -> conserved cap acts taken self ->
  exists self', act (Event source data size now) (taken, self) = Some (taken, self') /\
    conserved cap (acts ++ [Event source data size now]) taken self'.
Proof.
  intros Hl [Hq Hcap Hord Hnn Htot]. pose proof (events_of_le acts) as Hle.
  destruct (OnEvent_spec source data size now self Hq) as (self' & E & Hq' & Hcap' & Hi & Hd & Hp & Hs & _).
  set (f := event_fate source data size now self) in *.
  cbn [act]. rewrite E. cbn [mbind option_bind]. exists self'. split; [done|].
  assert (Hsmall : forall (b : bool) z, 0 <= z <= events_of acts ->
    (if b then u64 (z + 1) else z) = z + one b).
  { intros b z Hz. unfold one. destruct b; [apply wrap_small|]; lia. }
  rewrite Hsmall in Hd, Hp, Hs by lia. constructor; rewrite ?Hd, ?Hp, ?Hs; try done.
  - by rewrite Hcap'.
  - rewrite Hi, omap_app, app_assoc. apply sublist_app; [done|]. cbn [omap list_omap admitted_by].
    subst f. unfold event_fate. destruct (stopping now self); [apply sublist_nil_l|].
    destruct (admitted source data size); [|apply sublist_nil_l].
    case_bool_decide; [done|apply sublist_nil_l].
  - unfold one. destruct (is_rejected f), (is_dropped f), (is_discarded f); lia.
  - rewrite events_of_snoc, Hi, length_app. cbn [is_event one]. unfold one. subst f.
    unfold event_fate. destruct (stopping now self); cbn [is_rejected is_dropped is_discarded queued length]; [lia|].
    destruct (admitted source data size); cbn [is_rejected is_dropped is_discarded queued length]; [|lia].
    case_bool_decide; cbn [is_rejected is_dropped is_discarded queued length]; lia.
Qed.

Lemma conserved_take cap acts taken self : conserved cap acts taken self ->
  exists taken' self', act Take (taken, self) = Some (taken', self') /\
    conserved cap (acts ++ [Take]) taken' self'.
Proof.
  intros [Hq Hcap Hord Hnn Htot]. cbn [act]. unfold TryPopRecord.
  destruct (TryPop_spec zero_record (queue self) Hq) as (q' & -> & Hq' & Hs & Hc).
  cbn [mbind option_bind]. eexists _, _. split; [done|].
  assert (Hsplit : from_option (fun r => [r]) [] (List.hd_error (items self)) ++ contents zero_record q'
                   = items self) by (rewrite Hc; by destruct (items self)).
  constructor; cbn [queue with_queue decode_errors queue_dropped shutdown_discarded]; try done.
  - unfold capacity in *. by rewrite Hs.
  - rewrite <- app_assoc, Hsplit, omap_app. cbn [omap list_omap admitted_by]. by rewrite app_nil_r.
  - rewrite events_of_snoc, Htot, length_app. cbn [is_event one].
    pose proof (f_equal length Hsplit) as Hlen. rewrite length_app in Hlen. lia.
Qed.

Lemma conserved_flag cap acts taken self a self' :
  is_event a = false -> a <> Take -> act a (taken, self) = Some (taken, self') ->
  conserved cap acts taken self -> conserved cap (acts ++ [a]) taken self'.
Proof.
  intros Ha Hta E [Hq Hcap Hord Hnn Htot].
  assert (Hk : queue self' = queue self /\ decode_errors self' = decode_errors self /\
    queue_dropped self' = queue_dropped self /\ shutdown_discarded self' = shutdown_discarded self)
    by (destruct a; try done; by injection E as <-).
  destruct Hk as (Hq' & Hd & Hp & Hs). constructor; rewrite ?Hq', ?Hd, ?Hp, ?Hs; try done.
  - rewrite omap_app. destruct a; try done; cbn [omap list_omap admitted_by]; by rewrite app_nil_r.
  - rewrite events_of_snoc, Ha. cbn [one]. lia.
Qed.

Lemma run_actions_conserved cap self acts :
  conserved cap [] [] self -> Z.of_nat (length acts) < 2 ^ 64 ->
  exists taken self', run_actions acts self = Some (taken, self') /\ conserved cap acts taken self'.
Proof.
  intros H0. unfold run_actions. induction acts as [|a acts IH] using rev_ind; intros Hl.
  { by exists [], self. }
  rewrite length_app in Hl. cbn [length] in Hl.
  destruct IH as (taken & self1 & E1 & H1); [lia|]. rewrite foldl_snoc, E1. cbn [mbind option_bind].
  destruct a as [source data size now| |b|d].
  - destruct (conserved_event cap acts taken self1 source data size now ltac:(lia) H1) as (s & E & H).
    by exists taken, s.
  - destruct (conserved_take cap acts taken self1 H1) as (t & s & E & H). by exists t, s.
  - eexists _, _. split; [done|]. by eapply conserved_flag.
  - eexists _, _. split; [done|]. by eapply conserved_flag.
Qed.

(** C14: no event is lost without being counted.  On a new receiver of capacity [cap], after any
    interleaving of callbacks, pops and shutdown flags: the records popped, followed by those still
    queued, are acceptable events in their order of arrival, each tagged with its source; and the
    number of callbacks is the number of those records plus the decode errors, the records dropped
    on a full queue and the events discarded at shutdown. *)
Theorem telemetry_conservation alloc cap self acts :
  0 <= cap < 2 ^ 64 -> EbpfTelemetry_new alloc cap = Ok self -> Z.of_nat (length acts) < 2 ^ 64 ->
  exists taken self', run_actions acts self = Some (taken, self') /\ conserved cap acts taken self'.
Proof.
  intros Hcap Hnew Hl. apply run_actions_conserved; [|done]. unfold EbpfTelemetry_new in Hnew.
  apply result_bind_Ok in Hnew as (q & Hq & [= <-]).
  destruct (SpscQueue_new_spec zero_record alloc cap q Hcap Hq) as (Hok & Hc & Hemp).
  constructor; cbn [queue decode_errors queue_dropped shutdown_discarded]; rewrite ?Hemp; try done.
Qed.

(** ** Lifecycle *)

(** The sources vector and libbpf's registrations agree. *)
Definition registered (self : Impl) : Prop :=
  match ring self with
  | None => sources self = []
  | Some regs => map snd regs = sources self
  end.

Lemma with_sources_id self : with_sources (sources self) (ring self) self = self.
Proof. by destruct self. Qed.

(** Registration is all or nothing.  [AddSource] registers exactly the new source, in the
    vector and with libbpf, or throws and leaves the receiver as it was; it throws
    [invalid_argument] exactly for a bad descriptor or interface or after [Start] or
    [FinishAfterDetach], and a [system_error] exactly when libbpf refused. *)
Theorem AddSource_atomic fd ifindex netns session rc_new rc_add self :
  registered self ->
  let bad := started self || finished self || (fd <? 0) || (ifindex =? 0) in
  let refused := match ring self with None => bool_decide (is_Some rc_new) | Some _ => negb (rc_add =? 0) end in
  let source := mk_source ifindex netns session in
  match AddSource fd ifindex netns session rc_new rc_add self with
  | (Ok _, self') =>
      bad = false /\ refused = false /\ registered self' /\
      self' = with_sources (sources self ++ [source])
                (Some (default [] (ring self) ++ [(fd, source)])) self
  | (Throw e, self') =>
      self' = self /\
      ((bad = true /\ e = invalid_argument "invalid ring source/lifecycle") \/
       (bad = false /\ refused = true /\ exists errno, errno <> 0 /\
        e = system_error errno "register ring source"))
  end.
Proof.
  intros Hreg bad refused source. unfold AddSource. fold bad.
  destruct bad eqn:Hbad; [by auto|]. fold source. subst refused. unfold registered in Hreg.
  destruct (ring self) as [regs|] eqn:Er.
  - destruct (Z.eqb_spec rc_add 0) as [->|Hne]; cbn [negb Z.eqb].
    + split_and!; try done. unfold registered. cbn [ring with_sources sources]. by rewrite map_app, Hreg.
    + rewrite removelast_last, <- Er.
      split; [apply with_sources_id|]. right. split_and!; try done. exists (- rc_add). split; [lia|done].
  - destruct rc_new as [errno|]; cbn [negb Z.eqb].
    + set (n := if errno =? 0 then ENOMEM else errno).
      assert (Hn : n <> 0) by (subst n; unfold ENOMEM; destruct (Z.eqb_spec errno 0); lia).
      rewrite (proj2 (Z.eqb_neq (- n) 0)) by lia. cbn [negb]. rewrite removelast_last, <- Er.
      split; [apply with_sources_id|]. right. split_and!; try done. exists n. split; [done|].
      by rewrite Z.opp_involutive.
    + split_and!; try done. unfold registered. cbn [ring with_sources sources]. by rewrite Hreg.
Qed.

(** What libbpf may do to the receiver: run callbacks. *)
Definition callbacks : Impl -> Impl -> Prop :=
  rtc (fun s s' => exists source data size now rc, OnEvent source data size now s = Some (rc, s')).

Lemma callbacks_control s s' : callbacks s s' -> same_control s s'.
Proof.
  induction 1 as [|s1 s2 s3 (source & data & size & now & rc & E) _ IH]; [apply same_control_refl|].
  eapply same_control_trans; [by eapply OnEvent_control|done].
Qed.

Definition runs_callbacks (f : Impl -> Z * Impl) : Prop := forall s, callbacks s (f s).2.

(** The poller, up to its end, runs callbacks and may record an error. *)
Definition joins (join : Impl -> Impl) : Prop :=
  forall s, exists s' rc, callbacks s s' /\ (join s = s' \/ join s = with_poll_error rc s').

(** [same_control] but for the recorded error. *)
Definition same_but_error (s s' : Impl) : Prop := same_control s (with_poll_error (poll_error s) s').

Lemma same_but_error_refl s : same_but_error s s.
Proof. by split_and!. Qed.

Lemma same_but_error_trans s1 s2 s3 :
  same_but_error s1 s2 -> same_but_error s2 s3 -> same_but_error s1 s3.
Proof. unfold same_but_error, same_control. cbn. intros. split_hyps. split_and!; congruence. Qed.

Lemma callbacks_but_error s s' rc s'' :
  callbacks s s' -> s'' = s' \/ s'' = with_poll_error rc s' -> same_but_error s s''.
Proof.
  intros H%callbacks_control Hs. unfold same_but_error, same_control in *.
  destruct Hs as [->| ->]; cbn; split_hyps; by split_and!.
Qed.

Lemma drain_control turns s s' :
  Forall (fun t => runs_callbacks t.2) turns -> drain turns s = Some s' -> same_but_error s s'.
Proof.
  intros Ht. revert s. induction Ht as [|[now consume] turns Hc _ IH]; intros s; simpl; [done|].
  destruct (deadline_ns s <=? now); [intros [= <-]; apply same_but_error_refl|].
  specialize (Hc s). simpl in Hc. destruct (consume s) as [rc s1]. simpl in Hc.
  assert (H1 : same_but_error s s1) by (eapply callbacks_but_error with (rc := 0); [done|by left]).
  destruct (rc =? - EINTR); [intros E; eapply same_but_error_trans; [done|by apply IH]|].
  destruct (_ || _); [by intros [= <-]|].
  destruct (rc <? 0).
  - intros [= <-]. eapply callbacks_but_error; [done|by right].
  - intros E. eapply same_but_error_trans; [done|by apply IH].
Qed.

Lemma drain_stops turns s :
  Forall (fun t => runs_callbacks t.2) turns -> Exists (fun t => deadline_ns s <= t.1) turns ->
  is_Some (drain turns s).
Proof.
  intros Ht. revert s. induction Ht as [|[now consume] turns Hc _ IH]; intros s He; simpl.
  { by apply Exists_nil in He. }
  apply Exists_cons in He. destruct (Z.leb_spec (deadline_ns s) now); [by eexists|].
  specialize (Hc s). simpl in Hc. destruct (consume s) as [rc s1]. cbn [snd] in Hc.
  apply callbacks_control in Hc as (_ & _ & _ & _ & Hd & _).
  assert (He' : Exists (fun t => deadline_ns s1 <= t.1) turns).
  { rewrite Hd. destruct He as [He|He]; [simpl in He; lia|done]. }
  repeat case_match; eauto.
Qed.

(** The state with which the drain of [FinishAfterDetach] starts. *)
Definition joined (join : Impl -> Impl) (s : Impl) : Impl :=
  let s := with_abort true s in
  if poller_joinable s
  then let j := join s in with_poller false (started j) (finished j) j else s.

Definition drain_start (timeout now : Z) (join : Impl -> Impl) (s : Impl) : Impl :=
  with_abort false (with_deadline (u64 (now + u64 (Z.min 60000 timeout * 1000000))) (joined join s)).

Lemma FinishAfterDetach_unfold timeout now join turns s :
  FinishAfterDetach timeout now join turns s =
    if finished s then Some (poll_error s, s)
    else
      s' ← (if bool_decide (is_Some (ring (joined join s))) && (0 <? timeout)
            then drain turns (drain_start timeout now join s) else Some (joined join s));
      Some (poll_error s', with_poller (poller_joinable s') (started s') true (with_abort true s')).
Proof.
  unfold FinishAfterDetach, drain_start. destruct (finished s); [done|]. fold (joined join s).
  replace (if 60000 <? timeout then 60000 else timeout) with (Z.min 60000 timeout) by (case_match; lia).
  replace (0 <? Z.min 60000 timeout) with (0 <? timeout)
    by (destruct (Z.ltb_spec 0 timeout), (Z.ltb_spec 0 (Z.min 60000 timeout)); lia).
  destruct (ring (joined join s)); simpl; [|done]. by destruct (0 <? timeout).
Qed.

Lemma joined_control join s : joins join ->
  abort (joined join s) = true /\ poller_joinable (joined join s) = false /\
  ring (joined join s) = ring s /\ sources (joined join s) = sources s.
Proof.
  intros Hj. unfold joined. cbv zeta. destruct (Hj (with_abort true s)) as (s' & rc & Hc & Hs).
  pose proof (callbacks_but_error _ _ rc _ Hc Hs) as (H1 & H2 & H3 & H4 & _). cbn in *.
  destruct (poller_joinable s) eqn:Ep; cbn; [|by rewrite Ep]. by split_and!.
Qed.

(** Shutdown.  Once [FinishAfterDetach] has returned, the receiver is finished, its poller
    joined and its sources still in place; the call returns the recorded poll error and every
    later call returns the same without effect; [Start] and [AddSource] throw; and any callback
    that still runs is refused and counted, so the queue receives nothing more. *)
Theorem FinishAfterDetach_final timeout now join turns self rc self' :
  joins join -> Forall (fun t => runs_callbacks t.2) turns -> finished self = false ->
  FinishAfterDetach timeout now join turns self = Some (rc, self') ->
  finished self' = true /\ poller_joinable self' = false /\ rc = poll_error self' /\
  sources self' = sources self /\ ring self' = ring self /\
  (forall timeout now join turns, FinishAfterDetach timeout now join turns self' = Some (rc, self')) /\
  (exists e, Start self' = (Throw e, self')) /\
  (forall fd ifindex netns session rc_new rc_add, exists e,
     AddSource fd ifindex netns session rc_new rc_add self' = (Throw e, self')) /\
  (forall source data size now, exists self'',
     OnEvent source data size now self' = Some (- ECANCELED, self'') /\ queue self'' = queue self' /\
     shutdown_discarded self'' = u64 (shutdown_discarded self' + 1)).
Proof.
  intros Hj Ht Hfin. rewrite FinishAfterDetach_unfold, Hfin.
  destruct (joined_control join self Hj) as (Ha & Hp & Hr & Hs).
  lazymatch goal with |- context [mbind _ ?m] => set (s1 := m) end.
  assert (Hs1 : forall s', s1 = Some s' ->
    poller_joinable s' = false /\ ring s' = ring self /\ sources s' = sources self).
  { intros s' E. subst s1. destruct (_ && _).
    - apply drain_control in E as (H1 & H2 & H3 & _); [|done]. cbn in *.
      by rewrite H1, H2, H3.
    - by injection E as <-. }
  destruct s1 as [s'|]; [|done]. cbn. intros [= <- <-].
  destruct (Hs1 s' eq_refl) as (Hp' & Hr' & Hs'). cbn.
  split_and!; try done.
  - unfold Start. cbn. destruct (ring s'); [rewrite orb_true_r|]; by eexists.
  - intros. unfold AddSource. cbn. rewrite orb_true_r. by eexists.
  - intros. unfold OnEvent. cbn. by eexists.
Qed.

(** C36: shutdown terminates.  The drain loop ends as soon as a turn starts at or after the deadline,
    at most sixty seconds from its start, whatever the rings deliver; without a positive timeout
    or without a ring there is no drain at all. *)
Theorem FinishAfterDetach_terminates timeout now join turns self :
  joins join -> Forall (fun t => runs_callbacks t.2) turns ->
  0 <= now -> now + 60000000000 < 2 ^ 64 ->
  0 < timeout -> Exists (fun t => now + Z.min 60000 timeout * 1000000 <= t.1) turns ->
  is_Some (FinishAfterDetach timeout now join turns self).
Proof.
  intros Hj Ht Hn0 Hn Hto Hex. rewrite FinishAfterDetach_unfold. destruct (finished self); [by eexists|].
  destruct (_ && _); cbn [mbind option_bind]; [|by eexists].
  destruct (drain_stops turns (drain_start timeout now join self) Ht) as [s ->]; [|by eexists].
  eapply List.Exists_impl; [|exact Hex]. intros t Hle. cbv beta in *. unfold drain_start. cbn [deadline_ns with_abort with_deadline].
  rewrite (wrap_small 64 (Z.min 60000 timeout * 1000000)) by lia. rewrite wrap_small; lia.
Qed.

(** The destructor drains nothing, so that it needs no turn of the rings to
    return; the receiver is finished and its poller joined. *)
Lemma EbpfTelemetry_destroyed now join self : joins join -> finished self = false ->
  exists rc self', EbpfTelemetry_destroy now join self = Some (rc, self') /\
    finished self' = true /\ poller_joinable self' = false /\ deadline_ns self' = deadline_ns (joined join self).
Proof.
  intros Hj Hf. unfold EbpfTelemetry_destroy. rewrite FinishAfterDetach_unfold, Hf, andb_false_r.
  destruct (joined_control join self Hj) as (_ & Hp & _). cbn. eexists _, _. by split_and!.
Qed.

(** The poller.  It ends only when it has seen the abort flag, and then without recording an
    error, or on a negative result of the poll other than an interruption, which it records; and
    it does end once a turn leaves the abort flag set. *)
Theorem poller_ends turns self :
  Forall (fun t => forall s, poll_error (t s).2 = poll_error s) turns ->
  (forall self', poller turns self = Some self' ->
     (abort self' = true /\ poll_error self' = poll_error self) \/
     (poll_error self' < 0 /\ poll_error self' <> - EINTR)) /\
  (Exists (fun t => forall s, abort (t s).2 = true) turns -> is_Some (poller turns self)).
Proof.
  intros Ht. revert self. induction Ht as [|turn turns Hp Ht IH]; intros self; simpl.
  { split; [|by intros ?%Exists_nil]. destruct (abort self) eqn:Ea; [|done]. intros ? [= <-]. auto. }
  destruct (abort self) eqn:Ea; [split; [intros ? [= <-]; auto|by eexists]|].
  specialize (Hp self). destruct (turn self) as [rc s1] eqn:E. simpl in Hp. unfold poll_turn.
  assert (Hgo : (forall self', poller turns s1 = Some self' ->
     (abort self' = true /\ poll_error self' = poll_error self) \/
     (poll_error self' < 0 /\ poll_error self' <> - EINTR)) /\
     (Exists (fun t => forall s, abort (t s).2 = true) (turn :: turns) -> is_Some (poller turns s1))).
  { destruct (IH s1) as [H1 H2]. split; [intros; rewrite <- Hp; by apply H1|].
    intros [Hturn|?]%Exists_cons; [|by apply H2]. specialize (Hturn self). rewrite E in Hturn.
    simpl in Hturn. destruct turns; simpl; rewrite Hturn; by eexists. }
  destruct (Z.eqb_spec rc (- EINTR)) as [|Hne]; [done|].
  destruct ((rc =? - ECANCELED) && abort s1) eqn:Ec.
  { apply andb_true_iff in Ec as [_ Ec]. split; [intros ? [= <-]; auto|by eexists]. }
  destruct (Z.ltb_spec rc 0); [|done]. split; [intros ? [= <-]; by right|by eexists].
Qed.
End Facts.

(** ** Instances *)
#[local] Existing Instance little_endian_host.

Definition sample_impl : Impl :=
  mk_impl (mk_spsc [zero_record; zero_record] 0 0) [] None false false 0 0 0 0 0 false false.

Definition sample_source : Source := mk_source 3 4026531840 77.

(** An accepted event, one dropped on the full queue, one of another
    interface, and after a pop one that comes during shutdown. *)
Definition sample_actions : list action :=
  [Event sample_source (Some udp_image) 216 5; Event sample_source (Some udp_image) 216 6;
   Event (mk_source 4 1 2) (Some udp_image) 216 7; Take; SetAbort true;
   Event sample_source (Some udp_image) 216 8].

Lemma telemetry_conservation_witness :
  EbpfTelemetry_new (fun _ => true) 1 = Ok sample_impl /\
  exists taken self', run_actions sample_actions sample_impl = Some (taken, self') /\
    length taken = 1%nat /\ Loss self' = mk_telemetry_loss 1 1 1 0.
Proof.
  split; [reflexivity|].
  destruct (telemetry_conservation (fun _ => true) 1 sample_impl sample_actions ltac:(lia) eq_refl
    eq_refl) as (taken & self' & E & _).
  exists taken, self'. split; [exact E|]. vm_compute in E. injection E as <- <-. by vm_compute.
Defined.

Lemma AddSource_atomic_witness :
  exists self', AddSource 9 3 4026531840 77 None 0 sample_impl = (Ok tt, self') /\ registered self'.
Proof.
  pose proof (AddSource_atomic 9 3 4026531840 77 None 0 sample_impl eq_refl) as Ha.
  eexists. split; [reflexivity|]. apply Ha.
Defined.

(** A started receiver whose ring holds nothing more. *)
Definition running_impl : Impl :=
  mk_impl (mk_spsc [zero_record; zero_record] 0 0) [sample_source] (Some [(9, sample_source)]) true
    false 0 0 0 0 0 true false.

Definition empty_turns : list (Z * (Impl -> Z * Impl)) := [(1000, fun s => (0, s)); (5000000, fun s => (0, s))].

Lemma empty_turns_callbacks : Forall (fun t => runs_callbacks t.2) empty_turns.
Proof. repeat apply List.Forall_cons; try apply List.Forall_nil; intros s; apply rtc_refl. Qed.

Lemma id_joins : joins (fun s => s).
Proof. intros s. exists s, 0. split; [apply rtc_refl|by left]. Qed.

Lemma FinishAfterDetach_final_witness :
  exists self', FinishAfterDetach 3 1000 (fun s => s) empty_turns running_impl = Some (0, self') /\
    finished self' = true /\ poller_joinable self' = false.
Proof.
  eexists. split; [reflexivity|].
  destruct (FinishAfterDetach_final 3 1000 (fun s => s) empty_turns running_impl 0 _ id_joins
    empty_turns_callbacks eq_refl eq_refl) as (Hf & Hp & _).
  split; [exact Hf|exact Hp].
Defined.

Lemma FinishAfterDetach_terminates_witness :
  is_Some (FinishAfterDetach 3 1000 (fun s => s) empty_turns running_impl).
Proof.
  apply FinishAfterDetach_terminates; [apply id_joins|apply empty_turns_callbacks|lia|lia|lia|].
  right. left. simpl. lia.
Defined.

Lemma poller_ends_witness :
  is_Some (poller [(fun s => (- EINTR, s)); (fun s => (2, with_abort true s))] running_impl).
Proof.
  apply (poller_ends [(fun s => (- EINTR, s)); (fun s => (2, with_abort true s))] running_impl).
  - repeat apply List.Forall_cons; try apply List.Forall_nil; done.
  - right. left. done.
Defined.
