(* ===== verification/TelemetryConcurrent.v ===== *)
(** * The telemetry receiver under its threads ([src/EbpfTelemetry.cpp])

    The poller thread, the thread that calls [FinishAfterDetach] and the sink,
    as the steps of one system: every load, store and [fetch_add] is a step, and
    [TryPush] and [TryPop] are the steps of [SpscConcurrent].  Both the poller
    and, after the join, the finishing thread run the callback, so that the
    queue has two possible producers; the theorems are that it never has two at a
    time, that every event is accounted for in every reachable state, and that
    every run of the shutdown comes to its end. *)
From S2P Require Import Prelude Abi TelemetryTypes Samples SpscQueue SpscConcurrent EbpfTelemetry.

(** Inside a ring call: where a thread is in [OnEvent]. *)
Inductive call :=
  | Between                          (* no callback is running *)
  | Offer (r : TelemetryRecord)      (* decoded, TryPush to be called *)
  | Pushing (r : TelemetryRecord)    (* in TryPush *)
  | Failed.                          (* TryPush returned false *)

(** The poller's loop; [Polled rc]: [ring_buffer__poll] has returned [rc]. *)
Inductive poller_pc := Unborn | Check_ | Polling (c : call) | Polled (rc : Z) | Exited.

(** The thread of [FinishAfterDetach]. *)
Inductive manager_pc :=
  | Serving                          (* not called yet *)
  | Joining | Joined | Armed | Draining | Consuming (c : call) | Consumed (rc : Z) | Ending
  | Finished.

Inductive thread := Poller | Manager.

Abbreviation event := (Source * option bytes * Z)%type.

Record tel := mk_tel {
  g_queue : cstate TelemetryRecord;
  g_aborts : list bool;              (* values stored to abort, oldest first *)
  g_view : nat;                      (* oldest of them the poller may still load *)
  g_deadline : Z;
  g_rejected : Z;
  g_dropped : Z;
  g_discarded : Z;
  g_error : Z;
  g_poller : poller_pc;
  g_manager : manager_pc;
  g_seen : list event;               (* callbacks that have begun *)
  g_race : bool;                     (* two threads have been in TryPush *)
}.

Definition set_queue q st := mk_tel q (g_aborts st) (g_view st) (g_deadline st) (g_rejected st)
  (g_dropped st) (g_discarded st) (g_error st) (g_poller st) (g_manager st) (g_seen st) (g_race st).
Definition set_view k st := mk_tel (g_queue st) (g_aborts st) k (g_deadline st) (g_rejected st)
  (g_dropped st) (g_discarded st) (g_error st) (g_poller st) (g_manager st) (g_seen st) (g_race st).
Definition store_abort b st := mk_tel (g_queue st) (g_aborts st ++ [b]) (g_view st) (g_deadline st) (g_rejected st)
  (g_dropped st) (g_discarded st) (g_error st) (g_poller st) (g_manager st) (g_seen st) (g_race st).
Definition store_deadline d st := mk_tel (g_queue st) (g_aborts st) (g_view st) d (g_rejected st)
  (g_dropped st) (g_discarded st) (g_error st) (g_poller st) (g_manager st) (g_seen st) (g_race st).
Definition count_rejected st := mk_tel (g_queue st) (g_aborts st) (g_view st) (g_deadline st) (u64 (g_rejected st + 1))
  (g_dropped st) (g_discarded st) (g_error st) (g_poller st) (g_manager st) (g_seen st) (g_race st).
Definition count_dropped st := mk_tel (g_queue st) (g_aborts st) (g_view st) (g_deadline st) (g_rejected st)
  (u64 (g_dropped st + 1)) (g_discarded st) (g_error st) (g_poller st) (g_manager st) (g_seen st) (g_race st).
Definition count_discarded st := mk_tel (g_queue st) (g_aborts st) (g_view st) (g_deadline st) (g_rejected st)
  (g_dropped st) (u64 (g_discarded st + 1)) (g_error st) (g_poller st) (g_manager st) (g_seen st) (g_race st).
Definition store_error e st := mk_tel (g_queue st) (g_aborts st) (g_view st) (g_deadline st) (g_rejected st)
  (g_dropped st) (g_discarded st) e (g_poller st) (g_manager st) (g_seen st) (g_race st).
Definition set_poller p st := mk_tel (g_queue st) (g_aborts st) (g_view st) (g_deadline st) (g_rejected st)
  (g_dropped st) (g_discarded st) (g_error st) p (g_manager st) (g_seen st) (g_race st).
Definition set_manager m st := mk_tel (g_queue st) (g_aborts st) (g_view st) (g_deadline st) (g_rejected st)
  (g_dropped st) (g_discarded st) (g_error st) (g_poller st) m (g_seen st) (g_race st).
Definition see ev st := mk_tel (g_queue st) (g_aborts st) (g_view st) (g_deadline st) (g_rejected st)
  (g_dropped st) (g_discarded st) (g_error st) (g_poller st) (g_manager st) (g_seen st ++ [ev]) (g_race st).
Definition set_race st := mk_tel (g_queue st) (g_aborts st) (g_view st) (g_deadline st) (g_rejected st)
  (g_dropped st) (g_discarded st) (g_error st) (g_poller st) (g_manager st) (g_seen st) true.

(** The ring call a thread is in, and what becomes of it. *)
Definition in_call (th : thread) (st : tel) : option call :=
  match th with
  | Poller => match g_poller st with Polling c => Some c | _ => None end
  | Manager => match g_manager st with Consuming c => Some c | _ => None end
  end.
Definition set_call (th : thread) (c : call) : tel -> tel :=
  match th with Poller => set_poller (Polling c) | Manager => set_manager (Consuming c) end.
Definition return_call (th : thread) (rc : Z) : tel -> tel :=
  match th with Poller => set_poller (Polled rc) | Manager => set_manager (Consumed rc) end.

(** A relaxed load of [abort]: the poller may see an old value, but none older
    than one it has seen, or than one that has become visible to it; the
    finishing thread is the one that stores. *)
Inductive load_abort : thread -> tel -> bool -> tel -> Prop :=
  | load_stale st k b : (g_view st <= k)%nat -> g_aborts st !! k = Some b ->
      load_abort Poller st b (set_view k st)
  | load_own st b : list.last (g_aborts st) = Some b -> load_abort Manager st b st.

Section System.
Context `{Host}.

Definition past (now : Z) (st : tel) : bool := negb (g_deadline st =? 0) && (g_deadline st <=? now).

Definition admitted_event (ev : event) : option TelemetryRecord := admitted ev.1.1 ev.1.2 ev.2.

(** [OnEvent], and the ring call it is called from, when the clock reads [now]. *)
Inductive callback_step (th : thread) (now : Z) : tel -> tel -> Prop :=
  | cb_discard st st1 b ev :
      in_call th st = Some Between -> load_abort th st b st1 -> b || past now st1 = true ->
      callback_step th now st (return_call th (- ECANCELED) (count_discarded (see ev st1)))
  | cb_reject st st1 ev :
      in_call th st = Some Between -> load_abort th st false st1 -> past now st1 = false ->
      admitted_event ev = None -> callback_step th now st (count_rejected (see ev st1))
  | cb_offer st st1 ev r :
      in_call th st = Some Between -> load_abort th st false st1 -> past now st1 = false ->
      admitted_event ev = Some r -> callback_step th now st (set_call th (Offer r) (see ev st1))
  | cb_begin st r h q' :
      in_call th st = Some (Offer r) -> step (g_queue st) q' ->
      c_prod (g_queue st) = PIdle -> c_prod q' = PCall r h ->
      callback_step th now st (set_call th (Pushing r) (set_queue q' st))
  | cb_race st r :
      in_call th st = Some (Offer r) -> c_prod (g_queue st) <> PIdle -> callback_step th now st (set_race st)
  | cb_push st r q' :
      in_call th st = Some (Pushing r) -> step (g_queue st) q' ->
      c_cons q' = c_cons (g_queue st) -> c_prod q' <> PIdle -> callback_step th now st (set_queue q' st)
  | cb_pushed st r q' :
      in_call th st = Some (Pushing r) -> step (g_queue st) q' ->
      c_cons q' = c_cons (g_queue st) -> c_prod q' = PIdle ->
      callback_step th now st
        (set_call th (if decide (length (c_pushed q') = length (c_pushed (g_queue st))) then Failed else Between)
           (set_queue q' st))
  | cb_drop st :
      in_call th st = Some Failed -> callback_step th now st (set_call th Between (count_dropped st))
  | ring_return st rc :                (* only a callback yields -ECANCELED *)
      in_call th st = Some Between -> rc <> - ECANCELED -> callback_step th now st (return_call th rc st).

(** [Start] and the loop of the poller. *)
Inductive poller_step : tel -> tel -> Prop :=
  | start st : g_poller st = Unborn -> g_manager st = Serving -> poller_step st (set_poller Check_ st)
  | poll_abort st st1 : g_poller st = Check_ -> load_abort Poller st true st1 ->
      poller_step st (set_poller Exited st1)
  | poll_go st st1 : g_poller st = Check_ -> load_abort Poller st false st1 ->
      poller_step st (set_poller (Polling Between) st1)
  | poll_interrupted st : g_poller st = Polled (- EINTR) -> poller_step st (set_poller Check_ st)
  | poll_cancelled st st1 : g_poller st = Polled (- ECANCELED) -> load_abort Poller st true st1 ->
      poller_step st (set_poller Exited st1)
  | poll_cancelled_alone st st1 : g_poller st = Polled (- ECANCELED) -> load_abort Poller st false st1 ->
      poller_step st (set_poller Exited (store_error (- ECANCELED) st1))
  | poll_failed st rc : g_poller st = Polled rc -> rc < 0 -> rc <> - EINTR -> rc <> - ECANCELED ->
      poller_step st (set_poller Exited (store_error rc st))
  | poll_done st rc : g_poller st = Polled rc -> 0 <= rc -> poller_step st (set_poller Check_ st).

(** [FinishAfterDetach] begins: it stores true to [abort] and joins the poller. *)
Definition abort_and_join (st : tel) : tel := set_manager Joining (store_abort true st).

(** [FinishAfterDetach], called once, when the clock reads [now]; the deadline
    is at most a minute away, and the clock far from its wrap-around. *)
Inductive manager_step (now : Z) : tel -> tel -> Prop :=
  | finish st : g_manager st = Serving -> manager_step now st (abort_and_join st)
  | join st : g_manager st = Joining -> g_poller st = Unborn \/ g_poller st = Exited ->
      manager_step now st (set_manager Joined st)
  | no_drain st : g_manager st = Joined -> manager_step now st (set_manager Ending st)
  | arm st ms : g_manager st = Joined -> 0 < ms <= 60000 -> 0 <= now -> now + ms * 1000000 < 2 ^ 64 ->
      manager_step now st (set_manager Armed (store_deadline (now + ms * 1000000) st))
  | resume st : g_manager st = Armed -> manager_step now st (set_manager Draining (store_abort false st))
  | drain_over st : g_manager st = Draining -> g_deadline st <= now ->
      manager_step now st (set_manager Ending st)
  | drain_go st : g_manager st = Draining -> now < g_deadline st ->
      manager_step now st (set_manager (Consuming Between) st)
  | drain_interrupted st : g_manager st = Consumed (- EINTR) -> manager_step now st (set_manager Draining st)
  | drain_end st rc : g_manager st = Consumed rc -> rc = - ECANCELED \/ rc = 0 ->
      manager_step now st (set_manager Ending st)
  | drain_failed st rc : g_manager st = Consumed rc -> rc < 0 -> rc <> - EINTR -> rc <> - ECANCELED ->
      manager_step now st (set_manager Ending (store_error rc st))
  | drain_more st rc : g_manager st = Consumed rc -> 0 < rc -> manager_step now st (set_manager Draining st)
  | finished_ st : g_manager st = Ending -> manager_step now st (set_manager Finished (store_abort true st)).

(** A step of the receiver's own threads at time [now]. *)
Inductive own_step (now : Z) : tel -> tel -> Prop :=
  | step_callback th st st' : callback_step th now st st' -> own_step now st st'
  | step_poller st st' : poller_step st st' -> own_step now st st'
  | step_manager st st' : manager_step now st st' -> own_step now st st'.

(** A step that is none of theirs: the sink's, or a store to [abort] becoming
    visible to the poller, which can no longer load an older value. *)
Inductive other_step : tel -> tel -> Prop :=
  | step_sink st q' : step (g_queue st) q' -> c_prod q' = c_prod (g_queue st) -> other_step st (set_queue q' st)
  | step_visible st k : (g_view st <= k < length (g_aborts st))%nat -> other_step st (set_view k st).

Inductive tel_step : tel -> tel -> Prop :=
  | step_own now st st' : own_step now st st' -> tel_step st st'
  | step_other st st' : other_step st st' -> tel_step st st'.

(** A run, with how many steps the receiver's own threads take before the
    deadline in force, and how many when it has passed (or there is none). *)
Inductive threads_run : nat -> nat -> tel -> tel -> Prop :=
  | run_here st : threads_run 0 0 st st
  | run_early e l now st st1 st2 : threads_run e l st st1 -> now < g_deadline st1 -> own_step now st1 st2 ->
      threads_run (S e) l st st2
  | run_late e l now st st1 st2 : threads_run e l st st1 -> g_deadline st1 <= now -> own_step now st1 st2 ->
      threads_run e (S l) st st2
  | run_other e l st st1 st2 : threads_run e l st st1 -> other_step st1 st2 -> threads_run e l st st2.

(** Every store to [abort] is visible to the poller, if there is one. *)
Definition abort_visible (st : tel) : Prop :=
  g_poller st = Unborn \/ g_poller st = Exited \/ S (g_view st) = length (g_aborts st).

Definition tel_initial (q : SpscQueue) : tel :=
  mk_tel (initial q) [false] 0 0 0 0 0 0 Unborn Serving [] false.

Definition tel_reachable (q : SpscQueue) (st : tel) : Prop := rtc tel_step (tel_initial q) st.

End System.

(** ** The invariant *)
Section Invariant.
Context `{HE : Host}.

(** While the poller may run, the only store to [abort] is the first of the
    shutdown; afterwards only the finishing thread is left. *)
Definition phase_ok (st : tel) : Prop :=
  match g_manager st with
  | Serving => g_aborts st = [false] /\ g_deadline st = 0
  | Joining => g_aborts st = [false; true] /\ g_deadline st = 0
  | _ => g_poller st = Unborn \/ g_poller st = Exited
  end.

(** The call in progress: the poller's, or the finishing thread's. *)
Definition current (st : tel) : call :=
  match in_call Poller st, in_call Manager st with
  | Some c, _ | None, Some c => c
  | None, None => Between
  end.

(** The producer of the queue is in [TryPush] of that call's record. *)
Definition producer_ok (c : call) (p : ppc TelemetryRecord) : Prop :=
  match c with
  | Pushing r => in_push r p
  | _ => p = PIdle
  end.

(** The event whose callback is running. *)
Definition in_flight (c : call) (l : list event) : Prop :=
  match c with
  | Between => l = []
  | Offer r | Pushing r => exists ev, l = [ev] /\ admitted_event ev = Some r
  | Failed => exists ev, l = [ev]
  end.

Definition accounted (c : call) (st : tel) : Prop :=
  exists over l, g_seen st = over ++ l /\ in_flight c l /\
    c_pushed (g_queue st) `sublist_of` omap admitted_event over /\
    (Z.of_nat (length (g_seen st)) < 2 ^ 64 ->
     0 <= g_rejected st /\ 0 <= g_dropped st /\ 0 <= g_discarded st /\
     Z.of_nat (length over) = Z.of_nat (length (c_pushed (g_queue st))) + g_rejected st + g_dropped st + g_discarded st).

Record tel_inv (st : tel) : Prop := {
  ti_queue : cinv (g_queue st);
  ti_race : g_race st = false;
  ti_phase : phase_ok st;
  ti_view : (g_view st < length (g_aborts st))%nat;
  ti_cancelled : g_poller st = Polled (- ECANCELED) -> g_aborts st !! g_view st = Some true;
  ti_producer : producer_ok (current st) (c_prod (g_queue st));
  ti_error : g_error st = 0 \/ (g_error st < 0 /\ g_error st <> - ECANCELED /\ g_error st <> - EINTR);
  ti_accounted : accounted (current st) st;
}.

(** Only one of the two threads is in a ring call. *)
Lemma one_caller st th c : phase_ok st -> in_call th st = Some c ->
  current st = c /\
  match th with
  | Poller => in_call Manager st = None
  | Manager => g_poller st = Unborn \/ g_poller st = Exited
  end.
Proof.
  unfold phase_ok, current. destruct th; cbn [in_call].
  - destruct (g_poller st) eqn:Ep; try done. intros Hph [= <-].
    destruct (g_manager st) eqn:Em; try done; by destruct Hph.
  - destruct (g_manager st) eqn:Em; try done. intros Hph [= <-]. by destruct Hph as [-> | ->]; auto.
Qed.

Lemma load_abort_state th st b st1 : load_abort th st b st1 ->
  exists k, st1 = set_view k st /\ (th = Poller -> (g_view st <= k)%nat /\ g_aborts st !! k = Some b) /\
    ((g_view st < length (g_aborts st))%nat -> (k < length (g_aborts st))%nat).
Proof.
  destruct 1 as [st k b Hk Hb|st b Hb]; [exists k; split_and!; [done|done|intros _; by eapply lookup_lt_Some]|].
  exists (g_view st). split; [by destruct st|]. by split; intros.
Qed.

(** Steps within a ring call leave the rest of the state alone. *)
Definition same_rest (st st1 : tel) : Prop :=
  g_aborts st1 = g_aborts st /\ g_deadline st1 = g_deadline st /\ g_poller st1 = g_poller st /\
  g_manager st1 = g_manager st /\ g_race st1 = g_race st /\ g_error st1 = g_error st.

Lemma set_call_inv th st st1 c c' :
  tel_inv st -> in_call th st = Some c -> same_rest st st1 ->
  (g_view st1 < length (g_aborts st1))%nat -> cinv (g_queue st1) ->
  producer_ok c' (c_prod (g_queue st1)) -> accounted c' st1 -> tel_inv (set_call th c' st1).
Proof.
  intros [_ Hr Hph _ Hca _ He _] Hc (E1 & E2 & E3 & E4 & E5 & E6) Hv Hq Hp Ha.
  destruct (one_caller st th c Hph Hc) as [_ Hother]. unfold phase_ok in Hph.
  destruct st1. cbn in E1, E2, E3, E4, E5, E6, Hv. subst. destruct th; cbn in Hc, Hother.
  - destruct (g_poller st); try done. destruct (g_manager st) eqn:Em; try done;
      try (by destruct Hph); constructor; try done; unfold phase_ok; cbn; by rewrite ?Em.
  - destruct (g_manager st) eqn:Em; try done. constructor; try done.
    + intros E. cbn in E. destruct Hph as [Hx|Hx]; congruence.
    + unfold current. cbn. by destruct Hph as [-> | ->].
    + unfold current. cbn. by destruct Hph as [-> | ->].
Qed.

Lemma return_call_inv th st st1 c rc :
  tel_inv st -> in_call th st = Some c -> same_rest st st1 ->
  (g_view st1 < length (g_aborts st1))%nat -> cinv (g_queue st1) ->
  c_prod (g_queue st1) = PIdle -> accounted Between st1 ->
  (rc = - ECANCELED -> th = Poller -> g_aborts st1 !! g_view st1 = Some true) ->
  tel_inv (return_call th rc st1).
Proof.
  intros [_ Hr Hph _ Hca _ He _] Hc (E1 & E2 & E3 & E4 & E5 & E6) Hv Hq Hp Ha Hcan.
  destruct (one_caller st th c Hph Hc) as [_ Hother]. unfold phase_ok in Hph.
  destruct st1. cbn in E1, E2, E3, E4, E5, E6, Hv, Hcan. subst. destruct th; cbn in Hc, Hother.
  - destruct (g_poller st); try done. destruct (g_manager st) eqn:Em; try done;
      try (by destruct Hph); constructor; try done; unfold phase_ok; cbn; rewrite ?Em; try done;
      intros [= ->]; by apply Hcan.
  - destruct (g_manager st) eqn:Em; try done. constructor; try done.
    + intros E. cbn in E. destruct Hph as [Hx|Hx]; congruence.
    + unfold current. cbn. by destruct Hph as [-> | ->].
    + unfold current. cbn. by destruct Hph as [-> | ->].
Qed.

Lemma same_rest_refl st : same_rest st st.
Proof. by split_and!. Qed.

(** An event is over: one of the counters or the queue has one more. *)
Lemma accounted_over over ev st st1 :
  (Z.of_nat (length (over ++ [ev])) < 2 ^ 64 ->
   0 <= g_rejected st /\ 0 <= g_dropped st /\ 0 <= g_discarded st /\
   Z.of_nat (length over) =
     Z.of_nat (length (c_pushed (g_queue st))) + g_rejected st + g_dropped st + g_discarded st) ->
  g_seen st1 = over ++ [ev] -> c_pushed (g_queue st1) `sublist_of` omap admitted_event (over ++ [ev]) ->
  (exists a b c n : Z, g_rejected st1 = (if a =? 1 then u64 (g_rejected st + 1) else g_rejected st) /\
     g_dropped st1 = (if b =? 1 then u64 (g_dropped st + 1) else g_dropped st) /\
     g_discarded st1 = (if c =? 1 then u64 (g_discarded st + 1) else g_discarded st) /\
     Z.of_nat (length (c_pushed (g_queue st1))) = Z.of_nat (length (c_pushed (g_queue st))) + n /\
     0 <= a /\ 0 <= b /\ 0 <= c /\ 0 <= n /\ a + b + c + n = 1) ->
  accounted Between st1.
Proof.
  intros Hcount Hs Hsub (a & b & c & n & Ha & Hb & Hc & Hn & Hsum).
  exists (over ++ [ev]), []. rewrite app_nil_r, Hs. split_and!; try done. intros Hlt.
  destruct (Hcount Hlt) as (H1 & H2 & H3 & H4). rewrite length_app in *. cbn [length] in *.
  rewrite Ha, Hb, Hc, Hn.
  destruct (Z.eqb_spec a 1), (Z.eqb_spec b 1), (Z.eqb_spec c 1); rewrite ?(wrap_small 64) by lia; lia.
Qed.

Lemma accounted_between st : accounted Between st ->
  c_pushed (g_queue st) `sublist_of` omap admitted_event (g_seen st) /\
  (Z.of_nat (length (g_seen st)) < 2 ^ 64 ->
   0 <= g_rejected st /\ 0 <= g_dropped st /\ 0 <= g_discarded st /\
   Z.of_nat (length (g_seen st)) =
     Z.of_nat (length (c_pushed (g_queue st))) + g_rejected st + g_dropped st + g_discarded st).
Proof. intros (over & l & Hs & -> & Hsub & Hc). rewrite app_nil_r in Hs. by rewrite Hs in *. Qed.

Lemma sublist_omap_snoc l over ev : l `sublist_of` omap admitted_event over ->
  l `sublist_of` omap admitted_event (over ++ [ev]).
Proof. intros H. rewrite omap_app. etrans; [exact H|]. by apply sublist_inserts_r. Qed.

Lemma set_call_id th c st : in_call th st = Some c -> set_call th c st = st.
Proof. destruct st, th; cbn; intros H; repeat case_match; simplify_eq; done. Qed.

(** The three counters, one at a time. *)
Lemma accounted_counted st st1 ev : accounted Between st ->
  g_queue st1 = g_queue st -> g_seen st1 = g_seen st ++ [ev] ->
  (exists a b c, g_rejected st1 = (if a =? 1 then u64 (g_rejected st + 1) else g_rejected st) /\
     g_dropped st1 = (if b =? 1 then u64 (g_dropped st + 1) else g_dropped st) /\
     g_discarded st1 = (if c =? 1 then u64 (g_discarded st + 1) else g_discarded st) /\
     0 <= a /\ 0 <= b /\ 0 <= c /\ a + b + c = 1) ->
  accounted Between st1.
Proof.
  intros [Hsub Hcount]%accounted_between Hq Hs (a & b & c & Ha & Hb & Hc & H0).
  eapply (accounted_over (g_seen st) ev st); [|done|rewrite Hq; by apply sublist_omap_snoc|].
  { intros Hlt. apply Hcount. rewrite length_app in Hlt. cbn in Hlt. lia. }
  exists a, b, c, 0. rewrite Hq. split_and!; try done; lia.
Qed.

(** A discarded event ends the ring call; only an abort the poller has seen
    does that while it may run. *)
Lemma discard_inv th st st1 b ev now :
  tel_inv st -> in_call th st = Some Between -> accounted Between st -> c_prod (g_queue st) = PIdle ->
  load_abort th st b st1 -> b || past now st1 = true ->
  tel_inv (return_call th (- ECANCELED) (count_discarded (see ev st1))).
Proof.
  intros Hi Hc Hacc Hprod Hl Hb. pose proof (ti_phase _ Hi) as Hph.
  destruct (load_abort_state _ _ _ _ Hl) as (k & -> & Hpk & Hkl).
  eapply return_call_inv; [exact Hi|exact Hc|done|apply Hkl, Hi|apply Hi|done| |].
  - eapply (accounted_counted st _ ev); [done..|]. exists 0, 0, 1. cbn. split_and!; try done; lia.
  - intros _ ->. cbn in *. destruct (Hpk eq_refl) as [_ Hk]. rewrite Hk. f_equal.
    destruct b; [done|]. unfold past in Hb. cbn in Hb. unfold phase_ok in Hph.
    destruct (g_manager st); try (destruct Hph as [_ Hd]; rewrite Hd in Hb; done);
      destruct Hph as [Hx|Hx]; rewrite Hx in Hc; done.
Qed.

(** One step of [TryPush]. *)
Lemma push_inv th st r q' :
  tel_inv st -> in_call th st = Some (Pushing r) -> accounted (Pushing r) st ->
  in_push r (c_prod (g_queue st)) ->
  step (g_queue st) q' -> c_cons q' = c_cons (g_queue st) ->
  (c_prod q' <> PIdle -> tel_inv (set_queue q' st)) /\
  (c_prod q' = PIdle ->
   tel_inv (set_call th (if decide (length (c_pushed q') = length (c_pushed (g_queue st))) then Failed else Between)
     (set_queue q' st))).
Proof.
  intros Hi Hc (over & l & Hseen & (ev & -> & Hev) & Hsub & Hcount) Hprod Hs H0.
  pose proof (cinv_step _ _ Hs (ti_queue _ Hi)) as Hq.
  assert (Hcnt : Z.of_nat (length (over ++ [ev])) < 2 ^ 64 ->
    Z.of_nat (length (g_seen st)) < 2 ^ 64) by (by rewrite Hseen).
  destruct (producer_step _ _ _ Hs H0 Hprod) as [_ [[Hp Hpu]|[[Hp Hpu]|[Hp Hpu]]]].
  - split; [intros _|intros Hp'; cbn in Hp; by rewrite Hp' in Hp].
    rewrite <- (set_call_id th (Pushing r) (set_queue q' st)) by (by destruct th).
    eapply set_call_inv; [exact Hi|exact Hc|done|apply Hi|done..|]. exists over, [ev]. cbn. rewrite Hpu. split_and!; by eauto.
  - split; [done|intros _]. rewrite Hpu, decide_True by done.
    eapply set_call_inv; [exact Hi|exact Hc|done|apply Hi|done..|]. exists over, [ev]. cbn. rewrite Hpu. split_and!; by eauto.
  - split; [done|intros _]. rewrite Hpu, decide_False by (rewrite length_app; cbn; lia).
    eapply set_call_inv; [exact Hi|exact Hc|done|apply Hi|done..|].
    eapply (accounted_over over ev st); [by intros; apply Hcount, Hcnt|done| |].
    + cbn. rewrite Hpu, omap_app. cbn. rewrite Hev. by apply sublist_app.
    + exists 0, 0, 0, 1. cbn. rewrite Hpu, length_app. cbn. split_and!; try done; lia.
Qed.

Lemma callback_inv th now st st' : callback_step th now st st' -> tel_inv st -> tel_inv st'.
Proof.
  intros Hst Hi. pose proof (ti_phase _ Hi) as Hph.
  pose proof (ti_producer _ Hi) as Hprod. pose proof (ti_accounted _ Hi) as Hacc.
  destruct Hst as [st st1 b ev Hc Hl Hb|st st1 ev Hc Hl Hp Ha|st st1 ev r Hc Hl Hp Ha
    |st r h q' Hc Hs H0 H1|st r Hc H0|st r q' Hc Hs H0 H1|st r q' Hc Hs H0 H1|st Hc|st rc Hc Hrc];
    destruct (one_caller st th _ Hph Hc) as [Ecur _]; rewrite Ecur in Hprod, Hacc.
  - by eapply discard_inv.
  - destruct (load_abort_state _ _ _ _ Hl) as (k & -> & _ & Hkl).
    rewrite <- (set_call_id th Between (count_rejected (see ev (set_view k st)))) by (by destruct th).
    eapply set_call_inv; [exact Hi|exact Hc|done|apply Hkl, Hi|apply Hi|done|].
    eapply (accounted_counted st _ ev); [done..|]. exists 1, 0, 0. cbn. split_and!; try done; lia.
  - destruct (load_abort_state _ _ _ _ Hl) as (k & -> & _ & Hkl).
    destruct (accounted_between _ Hacc) as [Hsub Hcount].
    eapply set_call_inv; [exact Hi|exact Hc|done|apply Hkl, Hi|apply Hi|done|].
    exists (g_seen st), [ev]. cbn. split_and!; try done; [by exists ev|].
    intros Hlt. rewrite length_app in Hlt. cbn in Hlt. apply Hcount. lia.
  - eapply set_call_inv; [exact Hi|exact Hc|done|apply Hi|eapply cinv_step; [exact Hs|apply Hi]|cbn; by rewrite H1|].
    destruct Hacc as (over & l & Hseen & Hfl & Hsub & Hcount). exists over, l. cbn.
    rewrite (proj1 (begin_step _ _ _ _ Hs H0 H1)). by split_and!.
  - done.
  - by eapply push_inv.
  - by eapply push_inv.
  - destruct Hacc as (over & l & Hseen & (ev & ->) & Hsub & Hcount).
    eapply set_call_inv; [exact Hi|exact Hc|done|apply Hi|apply Hi|done|].
    eapply (accounted_over over ev st); [by rewrite <- Hseen|done|by apply sublist_omap_snoc|].
    exists 0, 1, 0, 0. cbn. split_and!; try done; lia.
  - eapply return_call_inv; [exact Hi|exact Hc|done|apply Hi|apply Hi|done|done|done].
Qed.

(** *** The loops and the sink *)
Definition error_ok (e : Z) : Prop := e = 0 \/ (e < 0 /\ e <> - ECANCELED /\ e <> - EINTR).

(** Outside a ring call no event is in progress. *)
Lemma set_poller_inv st k e p :
  tel_inv st -> (g_manager st = Serving \/ g_manager st = Joining) -> in_call Poller st = None ->
  p = Check_ \/ p = Polling Between \/ p = Exited -> error_ok e -> (k < length (g_aborts st))%nat ->
  tel_inv (set_poller p (store_error e (set_view k st))).
Proof.
  intros [Hq Hr Hph _ Hca Hprod He Hacc] Hm Hc Hp Hok Hk.
  assert (Ecur : current st = Between).
  { unfold current. rewrite Hc. cbn. by destruct Hm as [-> | ->]. }
  rewrite Ecur in Hprod, Hacc. unfold phase_ok in Hph.
  assert (Ecur' : current (set_poller p (store_error e (set_view k st))) = Between).
  { unfold current. cbn. destruct Hm as [-> | ->]; by destruct Hp as [->|[->| ->]]. }
  constructor; rewrite ?Ecur'; try done.
  - unfold phase_ok. cbn. by destruct Hm as [E|E]; rewrite E in *.
  - intros E. cbn in E. by destruct Hp as [->|[->| ->]].
Qed.

Lemma polling_phase st : phase_ok st -> g_poller st <> Unborn -> g_poller st <> Exited ->
  g_manager st = Serving \/ g_manager st = Joining.
Proof. unfold phase_ok. intros H ? ?. destruct (g_manager st); auto; by destruct H. Qed.

(** Once the poller has seen the abort, it does not see it unset. *)
Lemma abort_stays_seen st k : phase_ok st -> g_manager st = Serving \/ g_manager st = Joining ->
  g_aborts st !! g_view st = Some true -> (g_view st <= k)%nat -> g_aborts st !! k <> Some false.
Proof.
  unfold phase_ok. intros Hph Hm Hv Hk. destruct Hm as [E|E]; rewrite E in Hph; destruct Hph as [Ha _]; rewrite Ha in *.
  - by destruct (g_view st) as [|[]].
  - destruct (g_view st) as [|[|[]]]; try done. by destruct k as [|[|[]]]; [lia|..].
Qed.

Lemma poller_inv st st' : poller_step st st' -> tel_inv st -> tel_inv st'.
Proof.
  intros Hs Hi. pose proof (ti_phase _ Hi) as Hph. pose proof (ti_error _ Hi) as He.
  destruct Hs as [st Hp Hm|st st1 Hp Hl|st st1 Hp Hl|st Hp|st st1 Hp Hl|st st1 Hp Hl|st rc Hp H1 H2 H3|st rc Hp H1].
  all: assert (Hc : in_call Poller st = None) by (cbn; by rewrite Hp).
  all: assert (Hm' : g_manager st = Serving \/ g_manager st = Joining)
    by (first [by left|apply polling_phase; [done|rewrite Hp; discriminate..]]).
  all: try (destruct (load_abort_state _ _ _ _ Hl) as (k & -> & Hk & Hkl)).
  - pose proof (set_poller_inv st (g_view st) (g_error st) Check_ Hi Hm' Hc) as H. destruct st. apply H; auto. apply Hi.
  - apply (set_poller_inv st k (g_error st) Exited Hi Hm' Hc); auto. apply Hkl, Hi.
  - apply (set_poller_inv st k (g_error st) (Polling Between) Hi Hm' Hc); auto. apply Hkl, Hi.
  - pose proof (set_poller_inv st (g_view st) (g_error st) Check_ Hi Hm' Hc) as H. destruct st. apply H; auto. apply Hi.
  - apply (set_poller_inv st k (g_error st) Exited Hi Hm' Hc); auto. apply Hkl, Hi.
  - destruct (Hk eq_refl) as [Hv Hf]. exfalso.
    by eapply abort_stays_seen; [..|apply (ti_cancelled _ Hi)|exact Hv|exact Hf].
  - pose proof (set_poller_inv st (g_view st) rc Exited Hi Hm' Hc) as H. destruct st. apply H; auto; [by right|apply Hi].
  - pose proof (set_poller_inv st (g_view st) (g_error st) Check_ Hi Hm' Hc) as H. destruct st. apply H; auto. apply Hi.
Qed.

(** The finishing thread, from the join on. *)
Definition same_data (st st1 : tel) : Prop :=
  g_queue st1 = g_queue st /\ g_rejected st1 = g_rejected st /\ g_dropped st1 = g_dropped st /\
  g_discarded st1 = g_discarded st /\ g_poller st1 = g_poller st /\ g_seen st1 = g_seen st /\
  g_race st1 = g_race st.

Lemma set_manager_inv st st1 m :
  tel_inv st -> (g_poller st = Unborn \/ g_poller st = Exited) -> in_call Manager st = None ->
  same_data st st1 -> (g_view st1 < length (g_aborts st1))%nat -> m <> Serving -> m <> Joining ->
  in_call Manager (set_manager m st) = None \/ m = Consuming Between -> error_ok (g_error st1) ->
  tel_inv (set_manager m st1).
Proof.
  intros [Hq Hr Hph _ Hca Hprod He Hacc] Hp Hc (E1 & E2 & E3 & E4 & E5 & E6 & E7) Hv Hm1 Hm2 Hm Hok.
  assert (Hpc : in_call Poller st = None) by (cbn; by destruct Hp as [-> | ->]).
  assert (Ecur : current st = Between) by (unfold current; by rewrite Hc, Hpc).
  rewrite Ecur in Hprod, Hacc. set (st' := set_manager m st1).
  assert (Ecur' : current st' = Between).
  { unfold current, st'. cbn. rewrite E5.
    destruct Hp as [-> | ->]; destruct Hm as [Hm| ->]; try done; cbn in Hm; by rewrite Hm. }
  constructor; rewrite ?Ecur'; unfold st', accounted in *; cbn; rewrite ?E1, ?E2, ?E3, ?E4, ?E5, ?E6, ?E7; try done.
  - unfold phase_ok. cbn. rewrite E5. by destruct m.
  - intros E. destruct Hp as [Hx|Hx]; congruence.
Qed.

Lemma manager_inv now st st' : manager_step now st st' -> tel_inv st -> tel_inv st'.
Proof.
  intros Hs Hi. pose proof (ti_phase _ Hi) as Hph. pose proof (ti_error _ Hi) as He.
  destruct Hs as [st Hm|st Hm Hp|st Hm|st ms Hm Hms Hnow Hd|st Hm|st Hm Hd|st Hm Hd|st Hm|st rc Hm Hrc
    |st rc Hm H1 H2 H3|st rc Hm H1|st Hm];
    unfold phase_ok in Hph; rewrite Hm in Hph.
  1: { destruct Hi as [Hq Hr _ Hv Hca Hprod _ Hacc]. destruct Hph as [Ha Hd].
    assert (Ecur : current (abort_and_join st) = current st)
      by (unfold current; cbn; rewrite Hm; by destruct (g_poller st)).
    constructor; rewrite ?Ecur; try done.
    - unfold phase_ok. cbn. by rewrite Ha.
    - cbn. rewrite length_app. cbn. lia.
    - intros E. cbn. apply lookup_app_l_Some, Hca, E. }
  all: pose proof (ti_view _ Hi); apply (set_manager_inv st); try done; cbn; rewrite ?Hm, ?length_app; auto with lia.
  by right.
Qed.

Lemma sink_inv st q' : step (g_queue st) q' -> c_prod q' = c_prod (g_queue st) -> tel_inv st ->
  tel_inv (set_queue q' st).
Proof.
  intros Hs Hp [Hq Hr Hph Hv Hca Hprod He (over & l & Hacc)].
  constructor; try done; [by eapply cinv_step|unfold current in *; cbn in *; by rewrite Hp|].
  exists over, l. cbn. by rewrite (proj1 (consumer_step _ _ Hs Hp)).
Qed.

Lemma tel_inv_initial q : spsc_ok q -> head q = 0 -> tail q = 0 -> tel_inv (tel_initial q).
Proof.
  intros. constructor; try done; [by apply cinv_initial|cbn; lia|by left|].
  exists [], []. by split_and!.
Qed.

Lemma visible_inv st k : (g_view st <= k < length (g_aborts st))%nat -> tel_inv st -> tel_inv (set_view k st).
Proof.
  intros [Hk Hk'] Hi. destruct (Hi) as [Hq Hr Hph Hv Hca Hprod He Hacc]. constructor; try done.
  cbn. intros Hp. destruct (lookup_lt_is_Some_2 _ _ Hk') as [b Hb]. rewrite Hb. destruct b; [done|]. exfalso.
  eapply (abort_stays_seen st k Hph); [|by apply Hca|done|done].
  apply polling_phase; [done|rewrite Hp; discriminate..].
Qed.

Lemma own_inv now st st' : own_step now st st' -> tel_inv st -> tel_inv st'.
Proof. destruct 1; eauto using callback_inv, poller_inv, manager_inv. Qed.

Lemma other_inv st st' : other_step st st' -> tel_inv st -> tel_inv st'.
Proof. destruct 1; eauto using sink_inv, visible_inv. Qed.

Lemma tel_steps_inv st st' : rtc tel_step st st' -> tel_inv st -> tel_inv st'.
Proof. induction 1 as [|? ? ? [] _ IH]; eauto using own_inv, other_inv. Qed.

(** ** Progress *)

(** *** No thread is ever stuck *)
Lemma call_enabled th now st c : tel_inv st -> in_call th st = Some c -> exists st', callback_step th now st st'.
Proof.
  intros Hi Hc. destruct (one_caller st th _ (ti_phase _ Hi) Hc) as [Ecur _].
  pose proof (ti_producer _ Hi) as Hp. rewrite Ecur in Hp. destruct c as [|r|r|].
  - eexists. by apply (ring_return th now st 0).
  - destruct (push_begins _ r (ti_queue _ Hi) Hp) as (q' & h & Hq & Hpc & _). eexists. by eapply cb_begin.
  - destruct (push_enabled _ r (ti_queue _ Hi) Hp) as (q' & Hs & Hcons).
    destruct (c_prod q') as [| | |] eqn:Ep; eexists; first [by eapply cb_pushed|by eapply cb_push; rewrite ?Ep].
  - eexists. by apply cb_drop.
Qed.

Lemma loads_some st : tel_inv st -> exists b st1, load_abort Poller st b st1.
Proof.
  intros Hi. destruct (lookup_lt_is_Some_2 _ _ (ti_view _ Hi)) as [b Hb]. exists b. eexists. by eapply load_stale.
Qed.

Lemma poller_enabled now st : tel_inv st -> g_poller st <> Unborn -> g_poller st <> Exited ->
  exists st', own_step now st st'.
Proof.
  intros Hi H1 H2. destruct (loads_some st Hi) as (b & st1 & Hl).
  destruct (g_poller st) as [| |c|rc|] eqn:Hp; try done.
  - destruct b; eexists; apply step_poller; [by eapply poll_abort|by eapply poll_go].
  - destruct (call_enabled Poller now st c Hi) as [st' Hs]; [cbn; by rewrite Hp|]. exists st'. by eapply step_callback.
  - destruct (decide (rc = - EINTR)) as [->|?]; [eexists; by apply step_poller, poll_interrupted|].
    destruct (decide (rc = - ECANCELED)) as [->|?].
    { destruct b; eexists; apply step_poller; [by eapply poll_cancelled|by eapply poll_cancelled_alone]. }
    destruct (decide (rc < 0)); eexists; apply step_poller; [by eapply poll_failed|eapply poll_done; [done|lia]].
Qed.

Lemma poller_alive st : (g_poller st = Unborn \/ g_poller st = Exited) \/ (g_poller st <> Unborn /\ g_poller st <> Exited).
Proof. destruct (g_poller st); auto. Qed.

Lemma never_stuck now st : tel_inv st -> g_manager st = Finished \/ exists st', own_step now st st'.
Proof.
  intros Hi. destruct (g_manager st) as [| | | | |c|rc| |] eqn:Hm; [right..|by left].
  - eexists. by apply step_manager, finish.
  - destruct (poller_alive st) as [Hdead|[? ?]]; [eexists; by apply step_manager, join|by apply poller_enabled].
  - eexists. by apply step_manager, no_drain.
  - eexists. by apply step_manager, resume.
  - destruct (decide (now < g_deadline st)); eexists; apply step_manager; [by apply drain_go|apply drain_over; [done|lia]].
  - destruct (call_enabled Manager now st c Hi) as [st' Hs]; [cbn; by rewrite Hm|]. exists st'. by eapply step_callback.
  - destruct (decide (rc = - EINTR)) as [->|?]; [eexists; by apply step_manager, drain_interrupted|].
    destruct (decide (rc = - ECANCELED \/ rc = 0)); [eexists; by eapply step_manager, drain_end|].
    destruct (decide (rc < 0)); eexists; apply step_manager;
      [eapply drain_failed; [exact Hm|done|done|tauto]|eapply drain_more; [exact Hm|lia]].
  - eexists. by apply step_manager, finished_.
Qed.

(** *** What is left of the shutdown: each step past the deadline takes from it *)
Definition call_left (c : call) (st : tel) : nat :=
  match c with Between => 1 | Failed => 2 | Pushing _ => 2 + push_phase (c_prod (g_queue st)) | Offer _ => 6 end.

Definition poller_left (st : tel) : nat :=
  match g_poller st with Unborn | Exited => 0 | Check_ => 1 | Polled _ => 2 | Polling c => 2 + call_left c st end.

Definition manager_left (st : tel) : nat :=
  match g_manager st with
  | Finished => 0 | Ending => 1 | Draining => 2 | Consumed _ | Armed => 3 | Consuming c => 3 + call_left c st
  | Joined => 4 | Joining => 5 | Serving => 6
  end.

Definition steps_left (st : tel) : nat := (poller_left st + manager_left st)%nat.

(** From the setting of the deadline on, there is one. *)
Definition deadline_ok (st : tel) : Prop :=
  match g_manager st with Armed | Draining | Consuming _ | Consumed _ => 0 < g_deadline st | _ => True end.

Lemma deadline_step st st' : tel_step st st' -> deadline_ok st -> deadline_ok st'.
Proof.
  unfold deadline_ok. destruct 1 as [now st st' [th ? ? Hs|? ? Hs|? ? Hs]|st st' [? q' Hs Hc|? k Hk]]; try done.
  - destruct Hs; try (destruct (load_abort_state _ _ _ _ ltac:(eassumption)) as (? & -> & _)); destruct th; cbn in *;
      try done; by repeat case_match.
  - destruct Hs; try (destruct (load_abort_state _ _ _ _ ltac:(eassumption)) as (? & -> & _)); done.
  - destruct Hs; cbn; try done; repeat match goal with H : g_manager _ = _ |- _ => rewrite H end; try done. lia.
Qed.

Lemma reachable_deadline q st : tel_reachable q st -> deadline_ok st.
Proof.
  unfold tel_reachable. assert (H : deadline_ok (tel_initial q)) by done. revert H. generalize (tel_initial q).
  induction 2; eauto using deadline_step.
Qed.

(** The shutdown has begun, the poller can only see it, and the finishing
    thread has a deadline if it needs one. *)
Record ending (st : tel) : Prop := {
  en_inv : tel_inv st;
  en_begun : g_manager st <> Serving;
  en_visible : abort_visible st;
  en_deadline : deadline_ok st;
}.

Lemma visible_view th st b st1 : load_abort th st b st1 -> tel_inv st -> S (g_view st) = length (g_aborts st) ->
  S (g_view st1) = length (g_aborts st1) /\ g_aborts st1 = g_aborts st.
Proof.
  destruct 1 as [st k b Hk Hb|st b Hb]; [|done]. intros _ Hv. apply lookup_lt_Some in Hb. cbn. split; [lia|done].
Qed.

(** Once the shutdown has begun, the poller is dead or the finishing thread waits for it. *)
Lemma begun_poller st : ending st -> (g_poller st = Unborn \/ g_poller st = Exited) \/
  (g_manager st = Joining /\ S (g_view st) = length (g_aborts st) /\ g_aborts st = [false; true]).
Proof.
  intros [Hi Hb Hv _]. pose proof (ti_phase _ Hi) as Hph. unfold phase_ok in Hph.
  destruct (g_manager st); auto; try done. destruct Hv as [?|[?|?]]; auto. destruct Hph. auto.
Qed.

Lemma in_poller st c : ending st -> in_call Poller st = Some c ->
  g_manager st = Joining /\ S (g_view st) = length (g_aborts st) /\ g_aborts st = [false; true].
Proof. intros Hst Hc. cbn in Hc. destruct (begun_poller st Hst) as [[E|E]|?]; [by rewrite E in Hc..|done]. Qed.

(** A load of [abort] by a thread whose clock has passed the deadline ends the ring call. *)
Lemma late_load th now st b st1 : ending st -> in_call th st = Some Between -> load_abort th st b st1 ->
  g_deadline st <= now -> b || past now st1 = true.
Proof.
  intros Hst Hc Hl Hd. destruct th.
  - destruct (in_poller st _ Hst Hc) as (_ & Hv & Ha). destruct (load_abort_state _ _ _ _ Hl) as (k & -> & Hk & Hkl).
    destruct (Hk eq_refl) as [H1 H2]. rewrite Ha in *. cbn in *.
    assert (k = 1%nat) as -> by (specialize (Hkl ltac:(lia)); lia). by injection H2 as <-.
  - destruct (load_abort_state _ _ _ _ Hl) as (k & -> & _). pose proof (en_deadline _ Hst) as H. unfold deadline_ok in H.
    cbn in Hc. destruct (g_manager st); try done. unfold past. cbn. rewrite orb_true_iff. right.
    rewrite andb_true_iff, negb_true_iff, Z.eqb_neq, Z.leb_le. lia.
Qed.

Lemma callback_late th now st st' : ending st -> g_deadline st <= now -> callback_step th now st st' ->
  (steps_left st' < steps_left st)%nat.
Proof.
  intros Hst Hd Hs. pose proof (en_inv _ Hst) as Hi.
  assert (Hlost : forall c c' st1, in_call th st = Some c -> g_poller st1 = g_poller st -> g_manager st1 = g_manager st ->
    (call_left c' st1 < call_left c st)%nat -> (steps_left (set_call th c' st1) < steps_left st)%nat).
  { intros c c' st1 Hc Hp Hm Hlt. unfold steps_left, poller_left, manager_left. pose proof (one_caller st th c (ti_phase _ Hi) Hc) as [_ Ho].
    destruct th; cbn in *.
    - rewrite Hm. destruct (in_poller st c Hst Hc) as (-> & _). destruct (g_poller st); try done. injection Hc as ->.
      destruct c'; cbn in *; lia.
    - rewrite Hp. destruct (g_manager st); try done. injection Hc as ->. destruct Ho as [-> | ->]; destruct c'; cbn in *; lia. }
  assert (Hret : forall rc st1, in_call th st = Some Between -> g_poller st1 = g_poller st -> g_manager st1 = g_manager st ->
    (steps_left (return_call th rc st1) < steps_left st)%nat).
  { intros rc st1 Hc Hp Hm. unfold steps_left, poller_left, manager_left. pose proof (one_caller st th _ (ti_phase _ Hi) Hc) as [_ Ho].
    destruct th; cbn in *.
    - rewrite Hm. destruct (in_poller st _ Hst Hc) as (-> & _). destruct (g_poller st); try done. injection Hc as ->. cbn. lia.
    - rewrite Hp. destruct (g_manager st); try done. injection Hc as ->. destruct Ho as [-> | ->]; cbn; lia. }
  pose proof (ti_producer _ Hi) as Hprod.
  destruct Hs as [st st1 b ev Hc Hl Hb|st st1 ev Hc Hl Hp Ha|st st1 ev r Hc Hl Hp Ha
    |st r h q' Hc Hs H0 H1|st r Hc H0|st r q' Hc Hs H0 H1|st r q' Hc Hs H0 H1|st Hc|st rc Hc Hrc];
    destruct (one_caller st th _ (ti_phase _ Hi) Hc) as [Ecur _]; rewrite Ecur in Hprod.
  - destruct (load_abort_state _ _ _ _ Hl) as (k & -> & _). by apply Hret.
  - pose proof (late_load th now st false st1 Hst Hc Hl Hd) as E. by rewrite Hp in E.
  - pose proof (late_load th now st false st1 Hst Hc Hl Hd) as E. by rewrite Hp in E.
  - eapply Hlost; [exact Hc|done..|]. cbn. rewrite H1. cbn. lia.
  - done.
  - rewrite <- (set_call_id th (Pushing r) (set_queue q' st)) by (by destruct th).
    eapply Hlost; [exact Hc|done..|]. cbn. apply (push_phase_step _ _ Hs) in H0; [lia|]. intros E. by rewrite E in Hprod.
  - assert (push_phase (c_prod (g_queue st)) <> 0)%nat by (destruct (c_prod (g_queue st)); done).
    eapply Hlost; [exact Hc|done..|]. case_decide; cbn; lia.
  - eapply Hlost; [exact Hc|done..|]. cbn. lia.
  - by apply Hret.
Qed.

Lemma own_late now st st' : ending st -> g_deadline st <= now -> own_step now st st' ->
  (steps_left st' < steps_left st)%nat.
Proof.
  intros Hst Hd. destruct 1 as [th st st' Hs|st st' Hs|st st' Hs]; [by eapply callback_late| |].
  - assert (Hj : g_poller st <> Unborn -> g_poller st <> Exited ->
      g_manager st = Joining /\ S (g_view st) = length (g_aborts st) /\ g_aborts st = [false; true])
      by (destruct (begun_poller st Hst) as [[?|?]|?]; naive_solver).
    pose proof (en_begun _ Hst) as Hb. unfold steps_left, poller_left, manager_left.
    destruct Hs as [st Hp Hm|st st1 Hp Hl|st st1 Hp Hl|st Hp|st st1 Hp Hl|st st1 Hp Hl|st rc Hp H1 H2 H3|st rc Hp H1]; [done|..].
    all: rewrite Hp in Hj; destruct Hj as (Em & Hv & Ha); [done..|].
    all: try (destruct (load_abort_state _ _ _ _ Hl) as (k & -> & Hk & Hkl)).
    all: cbn; rewrite Hp, Em; try lia.
    destruct (Hk eq_refl) as [Hv' Hf]. rewrite Ha in *. cbn in *. injection Hv as Hv. rewrite Hv in Hv'.
    destruct k as [|[|k]]; [lia|done|done].
  - pose proof (en_begun _ Hst) as Hb. unfold steps_left.
    assert (Hp : forall m, g_poller st = Unborn \/ g_poller st = Exited -> g_poller m = g_poller st ->
      poller_left m = poller_left st) by (intros m H E; unfold poller_left; rewrite E; by destruct H as [-> | ->]).
    destruct (begun_poller st Hst) as [Hdead|[Hj _]].
    + destruct Hs; try done; rewrite Hp by done; unfold manager_left; cbn;
        repeat match goal with H : g_manager _ = _ |- _ => rewrite H end; try lia.
    + destruct Hs; try congruence. rewrite Hp by done. unfold manager_left. cbn. rewrite Hj. lia.
Qed.

Lemma steps_left_bound st : ending st -> (steps_left st <= 13)%nat.
Proof.
  intros Hst. assert (Hph : forall p : ppc TelemetryRecord, (push_phase p <= 3)%nat) by (intros []; cbn; lia).
  specialize (Hph (c_prod (g_queue st))). unfold steps_left, poller_left, manager_left.
  destruct (begun_poller st Hst) as [[-> | ->]|[-> _]].
  - pose proof (en_begun _ Hst). destruct (g_manager st) as [| | | | |[]| | |]; cbn; try lia; done.
  - pose proof (en_begun _ Hst). destruct (g_manager st) as [| | | | |[]| | |]; cbn; try lia; done.
  - destruct (g_poller st) as [| |[]| |]; cbn; lia.
Qed.

(** Case analysis on a step of the system. *)
Ltac tel_cases Hs :=
  destruct Hs as [? ? ? [th ? ? Hs|? ? Hs|? ? Hs]|? ? [? ? Hs ?|? ? [? ?]]]; try (destruct Hs); try done.

Lemma load_view th st b st1 : load_abort th st b st1 -> (g_view st <= g_view st1)%nat.
Proof. by destruct 1. Qed.

Lemma view_grows st st' : tel_step st st' -> (g_view st <= g_view st')%nat.
Proof.
  intros Hs. tel_cases Hs; try (pose proof (load_view _ _ _ _ ltac:(eassumption))); try destruct th; done.
Qed.

Lemma begun_stays st st' : tel_step st st' -> g_manager st <> Serving -> g_manager st' <> Serving.
Proof.
  intros Hs Hb. tel_cases Hs; try (destruct (load_abort_state _ _ _ _ ltac:(eassumption)) as (? & -> & _));
    try destruct th; done.
Qed.

Lemma dead_stays st st' : tel_step st st' -> g_manager st <> Serving -> g_poller st = Unborn \/ g_poller st = Exited ->
  g_poller st' = Unborn \/ g_poller st' = Exited.
Proof.
  intros Hs Hb Hd. tel_cases Hs; try (destruct (load_abort_state _ _ _ _ ltac:(eassumption)) as (? & -> & _));
    try destruct th; cbn in *; auto; destruct Hd as [Hd|Hd]; repeat case_match; congruence.
Qed.

Lemma visible_stays st st' : tel_step st st' -> ending st -> abort_visible st'.
Proof.
  intros Hs Hst. pose proof (en_begun _ Hst) as Hb. unfold abort_visible.
  destruct (begun_poller st Hst) as [Hdead|(_ & Hv & Ha)].
  { destruct (dead_stays _ _ Hs Hb Hdead); auto. }
  assert (Hi : tel_inv st') by (eapply tel_steps_inv; [by apply rtc_once|apply Hst]).
  pose proof (ti_phase _ Hi) as Hph. unfold phase_ok in Hph. pose proof (begun_stays _ _ Hs Hb) as Hb'.
  destruct (poller_alive st') as [[?|?]|[Hn1 Hn2]]; auto. right; right.
  assert (Hj' : g_manager st' = Joining) by (destruct (g_manager st'); try done; by destruct Hph).
  rewrite Hj' in Hph. destruct Hph as [Ha' _]. pose proof (view_grows _ _ Hs). pose proof (ti_view _ Hi).
  rewrite Ha, Ha' in *. cbn in *. lia.
Qed.

Lemma ending_step st st' : tel_step st st' -> ending st -> ending st'.
Proof.
  intros Hs Hst. constructor.
  - eapply tel_steps_inv; [by apply rtc_once|apply Hst].
  - by eapply begun_stays, Hst.
  - by eapply visible_stays.
  - by eapply deadline_step, Hst.
Qed.

Lemma other_left st st' : other_step st st' -> steps_left st' = steps_left st.
Proof.
  unfold steps_left, poller_left, manager_left, call_left. destruct 1 as [st q' Hs Hc|st k Hk]; [|done].
  cbn. by rewrite Hc.
Qed.

Lemma threads_run_steps e l st st' : threads_run e l st st' -> rtc tel_step st st'.
Proof. induction 1; [apply rtc_refl|eapply rtc_r; [done|by econstructor]..]. Qed.

Lemma threads_run_ending e l st st' : threads_run e l st st' -> ending st -> ending st'.
Proof. intros Hr%threads_run_steps. induction Hr; eauto using ending_step. Qed.

(** Every step past the deadline takes from what is left; a step before it can
    start a turn of the drain loop over. *)
Lemma threads_run_left e l st st' : threads_run e l st st' -> ending st ->
  (l + steps_left st' <= steps_left st + 13 * e)%nat.
Proof.
  induction 1 as [st|e l now st st1 st2 Hr IH Hd Hs|e l now st st1 st2 Hr IH Hd Hs|e l st st1 st2 Hr IH Hs]; intros Hst; [lia|..];
    specialize (IH Hst); pose proof (threads_run_ending _ _ _ _ Hr Hst) as H1.
  - assert (ending st2) by (eapply ending_step; [by eapply step_own|done]).
    pose proof (steps_left_bound st2 ltac:(done)). lia.
  - pose proof (own_late now st1 st2 H1 Hd Hs). lia.
  - rewrite (other_left _ _ Hs). lia.
Qed.

Lemma constructed_inv alloc n q st :
  0 <= n < 2 ^ 64 -> SpscQueue_new zero_record alloc n = Ok q -> tel_reachable q st -> tel_inv st.
Proof.
  intros Hn Hnew Hr. destruct (SpscQueue_new_spec zero_record alloc n q Hn Hnew) as (Hq & _ & _).
  destruct (new_indices zero_record alloc n q Hnew) as [Hh Ht].
  apply (tel_steps_inv _ _ Hr), tel_inv_initial; done.
Qed.

(** The callback of a thread that is in none is not run. *)
Lemma no_call_no_events st st' :
  in_call Poller st = None -> in_call Manager st = None -> g_manager st = Finished ->
  tel_step st st' -> g_seen st' = g_seen st /\ c_pushed (g_queue st') = c_pushed (g_queue st) /\
    g_manager st' = Finished.
Proof.
  intros Hp Hm Hf. destruct 1 as [now st st' [th ? ? Hs|? ? Hs|? ? Hs]|st st' [? q' Hs Hc|? k Hk]].
  - destruct Hs, th; congruence.
  - destruct Hs; try done; by destruct (load_abort_state _ _ _ _ ltac:(eassumption)) as (? & -> & _).
  - destruct Hs; congruence.
  - split; [done|]. split; [by eapply consumer_step|done].
  - done.
Qed.

Lemma in_flight_length c l : in_flight c l -> Z.of_nat (length l) = match c with Between => 0 | _ => 1 end.
Proof. destruct c; cbn; intros H; [by subst|..]; split_hyps; by subst. Qed.

(** C15: the receiver under its threads.  In every state that the poller, the finishing thread and
    the sink can reach: the two threads that run the callback are never in [TryPush] at the same
    time, which is what the queue needs; the sink has taken a prefix of what was pushed, which is
    what the callbacks admitted, in order, less some; every callback begun is queued, rejected,
    dropped or discarded, but for the one that may be running; the poller never records a
    cancellation as an error; and once [FinishAfterDetach] is over no step adds an event. *)
Theorem telemetry_concurrent alloc n q st :
  0 <= n < 2 ^ 64 -> SpscQueue_new zero_record alloc n = Ok q -> tel_reachable q st ->
  g_race st = false /\
  c_popped (g_queue st) `prefix_of` c_pushed (g_queue st) /\
  c_pushed (g_queue st) `sublist_of` omap admitted_event (g_seen st) /\
  (Z.of_nat (length (g_seen st)) < 2 ^ 64 ->
   Z.of_nat (length (g_seen st)) = Z.of_nat (length (c_pushed (g_queue st))) + g_rejected st + g_dropped st +
     g_discarded st + (match current st with Between => 0 | _ => 1 end)) /\
  g_error st <> - ECANCELED /\
  (g_manager st = Finished -> current st = Between /\
   forall st', tel_step st st' -> g_seen st' = g_seen st /\ c_pushed (g_queue st') = c_pushed (g_queue st) /\
     g_manager st' = Finished).
Proof.
  intros Hn Hnew Hr. pose proof (constructed_inv alloc n q st Hn Hnew Hr) as Hi.
  destruct (ti_accounted _ Hi) as (over & l & Hs & Hl & Hsub & Hcount).
  split_and!; [apply Hi|apply i_fifo, Hi| | | |].
  - rewrite Hs, omap_app. etrans; [exact Hsub|]. by apply sublist_inserts_r.
  - intros Hlt. destruct (Hcount Hlt) as (H1 & H2 & H3 & H4). rewrite Hs, length_app.
    rewrite Nat2Z.inj_add, (in_flight_length _ _ Hl). lia.
  - destruct (ti_error _ Hi) as [-> |(_ & H & _)]; done.
  - intros Hf. pose proof (ti_phase _ Hi) as Hph. unfold phase_ok in Hph. rewrite Hf in Hph.
    assert (Hp : in_call Poller st = None) by (cbn; by destruct Hph as [-> | ->]).
    assert (Hm : in_call Manager st = None) by (cbn; by rewrite Hf).
    split; [unfold current; by rewrite Hp, Hm|]. intros st'. by apply no_call_no_events.
Qed.

(** C16: shutdown does not hang on the threads, whatever the ring calls return, the events do and the
    clock reads.  In every state that can be reached, [FinishAfterDetach] is over or its thread or the
    poller can take a step.  And once it has stored to [abort] and the store is visible to the poller,
    every run of the two - however the sink's steps come in between - has at most thirteen of their
    steps past the deadline, and at most thirteen more for each step they took before it: time alone
    ends the drain, and the abort alone ends the poller. *)
Theorem telemetry_finishes alloc n q st early late st' :
  0 <= n < 2 ^ 64 -> SpscQueue_new zero_record alloc n = Ok q -> tel_reachable q st -> threads_run early late st st' ->
  (forall now, g_manager st' = Finished \/ exists st'', own_step now st' st'') /\
  (g_manager st <> Serving -> abort_visible st -> (late <= 13 * S early)%nat).
Proof.
  intros Hn Hnew Hr Hrun.
  assert (Hr' : tel_reachable q st') by (unfold tel_reachable in *; etrans; [exact Hr|by eapply threads_run_steps]).
  split; [intros now; by apply never_stuck, (constructed_inv alloc n q)|]. intros Hb Hv.
  assert (Hd : deadline_ok st).
  { by eapply (reachable_deadline q). }
  assert (Hst : ending st) by (constructor; [by apply (constructed_inv alloc n q)|done..]).
  pose proof (threads_run_left _ _ _ _ Hrun Hst). pose proof (steps_left_bound st Hst). lia.
Qed.
End Invariant.

(** ** Instances *)
#[local] Existing Instance little_endian_host.

Definition one_slot : SpscQueue := mk_spsc [zero_record; zero_record] 0 0.
Definition sample_record : TelemetryRecord := mk_record udp_event 4026531840 77.
Definition sample_event : event := (sample_source, Some udp_image, 216).

(** The poller has queued one event and is in the callback of a second one
    when the shutdown begins. *)
Definition stopped_mid_push : tel :=
  mk_tel (mk_cstate [sample_record; zero_record] [0; 1] [0] 0 0 (PCall sample_record 1) CIdle [sample_record] [])
    [false; true] 0 0 0 0 0 0 (Polling (Pushing sample_record)) Joining [sample_event; sample_event] false.

(** One step of the poller's callback, by this constructor. *)
Tactic Notation "callback" uconstr(H) := eapply rtc_l; [apply (step_own 0), (step_callback _ Poller); eapply H|].

Lemma sample_tel_run : tel_reachable one_slot stopped_mid_push.
Proof.
  assert (Ha : admitted_event sample_event = Some sample_record) by (vm_compute; reflexivity).
  assert (Hl : forall st, g_aborts st = [false] -> g_view st = 0%nat -> load_abort Poller st false st).
  { intros st E1 E2. assert (E : st = set_view 0 st) by (destruct st; cbn in *; by subst).
    rewrite E at 2. apply load_stale; [lia|by rewrite E1]. }
  unfold tel_reachable.
  eapply rtc_l; [apply (step_own 0), step_poller, start; reflexivity|].
  eapply rtc_l; [apply (step_own 0), step_poller; eapply poll_go; [reflexivity|by apply Hl]|].
  callback (cb_offer Poller 0 _ _ sample_event); [reflexivity|by apply Hl|reflexivity|exact Ha|].
  callback (cb_begin Poller 0); [reflexivity|by apply push_begin|reflexivity|reflexivity|].
  callback (cb_push Poller 0); [reflexivity|eapply (push_room _ _ _ _ _ _ _ _ _ _ 0 0);
    [lia|reflexivity|vm_compute; discriminate]|reflexivity|discriminate|].
  callback (cb_push Poller 0); [reflexivity|apply push_write|reflexivity|discriminate|].
  callback (cb_pushed Poller 0); [reflexivity|apply push_publish|reflexivity|reflexivity|].
  callback (cb_offer Poller 0 _ _ sample_event); [reflexivity|by apply Hl|reflexivity|exact Ha|].
  callback (cb_begin Poller 0); [reflexivity|by apply push_begin|reflexivity|reflexivity|].
  eapply rtc_l; [apply (step_own 0), step_manager, finish; reflexivity|]. apply rtc_refl.
Qed.

Lemma telemetry_concurrent_witness :
  g_race stopped_mid_push = false /\ current stopped_mid_push = Pushing sample_record /\
  Z.of_nat (length (g_seen stopped_mid_push)) = 1 + 0 + 0 + 0 + 1.
Proof.
  destruct (telemetry_concurrent (fun _ => true) 1 one_slot stopped_mid_push ltac:(lia) eq_refl sample_tel_run)
    as (Hr & _ & _ & Hc & _).
  split; [exact Hr|]. split; [reflexivity|]. apply Hc. cbn. lia.
Defined.

(** The abort has become visible to the poller; it finishes its push. *)
Definition told_to_stop : tel := set_view 1 stopped_mid_push.

Lemma told_to_stop_reachable : tel_reachable one_slot told_to_stop.
Proof.
  unfold tel_reachable. eapply rtc_r; [exact sample_tel_run|]. apply step_other, step_visible. cbn. lia.
Qed.

Lemma one_push_left : exists st, threads_run 0 1 told_to_stop st.
Proof.
  eexists. eapply (run_late 0 0 0); [apply run_here|done|].
  eapply step_callback, (cb_pushed Poller 0); [reflexivity|eapply (push_full _ _ _ _ _ _ _ _ _ _ 0);
    [cbn; lia|reflexivity]|reflexivity..].
Qed.

Lemma telemetry_finishes_witness :
  (exists st, own_step 0 told_to_stop st) /\ forall early late st, threads_run early late told_to_stop st -> (late <= 13 * S early)%nat.
Proof.
  split.
  - destruct (proj1 (telemetry_finishes (fun _ => true) 1 one_slot told_to_stop 0 0 told_to_stop ltac:(lia) eq_refl
      told_to_stop_reachable (run_here _)) 0) as [E|H]; [discriminate E|exact H].
  - intros early late st Hrun. apply (telemetry_finishes (fun _ => true) 1 one_slot told_to_stop early late st ltac:(lia) eq_refl
      told_to_stop_reachable Hrun); [discriminate|by right; right].
Defined.
