(* ===== verification/Pipeline.v ===== *)
(** * From packets to records: observers, rings and receiver together

    The system of [HostObserver] and [EbpfTelemetry]: on each interface an
    object with its own maps and ring, all rings registered with one receiver;
    libbpf hands each record of a ring to [OnEvent] with the ring's source, once
    and in order; the sink pops records from the queue.  Packets, deliveries,
    pops and the receiver's shutdown flags happen in any order. *)
From Stdlib Require Import Sorting.Sorted.
From S2P Require Import Prelude Abi TelemetryTypes TcObserver Samples ObserverFacts Accounting.
From S2P Require Import ObserverTheorems HostObserver SpscQueue EbpfTelemetry.

Section Pipeline.
Context `{HH : BpfHelpers, HE : Host}.

(** One registered ring: the settings and maps of its object, the source it
    was registered as, and how many of its records have been handed over. *)
Record link := mk_link {
  l_cfg : config;
  l_source : Source;
  l_host : host;
  l_consumed : nat;
}.

Definition set_host (h : host) (l : link) : link := mk_link (l_cfg l) (l_source l) h (l_consumed l).
Definition consume (l : link) : link := mk_link (l_cfg l) (l_source l) (l_host l) (S (l_consumed l)).

(** [popped] is what the sink has taken. *)
Record pipeline := mk_pipeline {
  links : list link;
  popped : list TelemetryRecord;
  receiver : Impl;
}.

Inductive happening :=
  | Packet (i : nat) (a : arrival)
  | Deliver (i : nat) (now : Z)
  | Pop
  | Abort (b : bool)
  | Deadline (d : Z).

(** A poll or consume of a ring that finds no record calls nothing. *)
Definition deliver (i : nat) (now : Z) (s : pipeline) : option pipeline :=
  l ← links s !! i;
  match host_ring (l_host l) !! l_consumed l with
  | None => Some s
  | Some e =>
    '(_, r) ← OnEvent (l_source l) (Some (c_enc event_codec e)) sizeof_es_event now (receiver s);
    Some (mk_pipeline (<[i := consume l]> (links s)) (popped s) r)
  end.

Definition pop (s : pipeline) : option pipeline :=
  '(x, r) ← TryPopRecord (receiver s);
  Some (mk_pipeline (links s) (popped s ++ from_option (fun x => [x]) [] x) r).

Definition happen (x : happening) (s : pipeline) : option pipeline :=
  match x with
  | Packet i a => l ← links s !! i; h ← host_observe (l_cfg l) a (l_host l);
                  Some (mk_pipeline (<[i := set_host h l]> (links s)) (popped s) (receiver s))
  | Deliver i now => deliver i now s
  | Pop => pop s
  | Abort b => Some (mk_pipeline (links s) (popped s) (with_abort b (receiver s)))
  | Deadline d => Some (mk_pipeline (links s) (popped s) (with_deadline d (receiver s)))
  end.

Definition pipeline_run (xs : list happening) (s : pipeline) : option pipeline :=
  foldl (fun o x => o ≫= happen x) (Some s) xs.

(** The packets that have arrived on one interface. *)
Definition packets (i : nat) (xs : list happening) : list arrival :=
  omap (fun x => match x with Packet j a => if decide (j = i) then Some a else None | _ => None end) xs.

(** The record that an event of [source] becomes, and which records are its. *)
Definition record_of (source : Source) (e : es_event) : TelemetryRecord :=
  mk_record e (src_netns_inode source) (src_session_id source).

Definition from (source : Source) (r : TelemetryRecord) : Prop :=
  e_ifindex (rec_event r) = src_ifindex source /\ rec_netns_inode r = src_netns_inode source /\
  rec_session_id r = src_session_id source.

#[export] Instance from_dec source r : Decision (from source r).
Proof. unfold from. apply _. Defined.

(** What has reached user space: popped or waiting in the queue. *)
Definition received (s : pipeline) : list TelemetryRecord :=
  popped s ++ contents zero_record (queue (receiver s)).

(** The records handed over by all rings. *)
Definition handed_over (s : pipeline) : Z := Z.of_nat (sum_list (l_consumed <$> links s)).

End Pipeline.

Section Facts.
Context `{HH : BpfHelpers, HK : !BpfHelpersOk, HE : Host}.

(** Packets arrive on existing CPUs of an existing interface, and that
    interface is the one its source names. *)
Definition happening_ok (ls : list link) (x : happening) : Prop :=
  match x with
  | Packet i a => exists l, ls !! i = Some l /\ arrival_ok (l_host l) a /\
      skb_ifindex (ar_skb a) = src_ifindex (l_source l)
  | Deliver i _ => (i < length ls)%nat
  | _ => True
  end.

(** A link after [arrivals], which was [l0]. *)
Record link_inv (arrivals : list arrival) (l0 l : link) : Prop := {
  li_cfg : l_cfg l = l_cfg l0;
  li_source : l_source l = l_source l0;
  li_host : host_inv (l_cfg l) arrivals (l_host l);
  li_dom : dom (cpus (l_host l)) = dom (cpus (l_host l0));
  li_if : Forall (fun a => skb_ifindex (ar_skb a) = src_ifindex (l_source l)) arrivals;
  li_consumed : (l_consumed l <= length (host_ring (l_host l)))%nat;
}.

(** What a link has contributed to the events handed over. *)
Definition contributed (acts : list action) (l : link) : Prop :=
  filter (from (l_source l)) (omap admitted_by acts) =
  record_of (l_source l) <$> take (l_consumed l) (host_ring (l_host l)).

Record pipe_inv (ls0 : list link) (cap : Z) (xs : list happening) (s : pipeline) : Prop := {
  pi_length : length (links s) = length ls0;
  pi_links : forall i l0 l, ls0 !! i = Some l0 -> links s !! i = Some l -> link_inv (packets i xs) l0 l;
  pi_decode : decode_errors (receiver s) = 0;
  pi_conserved : exists acts, conserved cap acts (popped s) (receiver s) /\ (length acts <= length xs)%nat /\
    events_of acts = handed_over s /\
    (forall i l, links s !! i = Some l -> contributed acts l) /\
    Forall (fun r => exists l, l ∈ ls0 /\ from (l_source l) r) (omap admitted_by acts);
}.

Lemma packets_length i xs : (length (packets i xs) <= length xs)%nat.
Proof. unfold packets. induction xs as [|[] l IH]; cbn in *; repeat case_decide; cbn; lia. Qed.

Lemma packets_snoc i xs x : packets i (xs ++ [x]) =
  packets i xs ++ match x with Packet j a => if decide (j = i) then [a] else [] | _ => [] end.
Proof. unfold packets. rewrite omap_app. destruct x; cbn; try done. by case_decide. Qed.

Lemma sum_list_insert (ns : list nat) i n m : ns !! i = Some n ->
  (sum_list (<[i := m]> ns) + n = sum_list ns + m)%nat.
Proof.
  assert (Hc : forall k l, sum_list (k :: l) = (k + sum_list l)%nat) by done.
  revert i. induction ns as [|k ns IH]; intros [|i] E; try done.
  - injection E as ->. change (<[0%nat := m]> (n :: ns)) with (m :: ns). rewrite !Hc. lia.
  - specialize (IH i E). change (<[S i := m]> (k :: ns)) with (k :: <[i := m]> ns). rewrite !Hc. lia.
Qed.

Lemma from_record_of source e : e_ifindex e = src_ifindex source -> from source (record_of source e).
Proof. done. Qed.

Lemma from_source_eq source source' r : from source r -> from source' r -> source = source'.
Proof. destruct source, source'. unfold from. cbn. intros. split_hyps. congruence. Qed.

(** The decoder admits every record of the ring. *)
Lemma ring_admitted cfg arrivals h source e : host_inv cfg arrivals h -> e ∈ host_ring h ->
  e_ifindex e = src_ifindex source ->
  admitted source (Some (c_enc event_codec e)) sizeof_es_event = Some (record_of source e).
Proof.
  intros Hi He Hif. destruct (host_inv_ids _ _ _ Hi) as [_ Ho]. rewrite Forall_forall in Ho.
  destruct (Ho e (proj1 (list_elem_of_In _ _) He)) as (skb & tk & _ & _ & _ & Hp).
  unfold admitted. assert (Hd : DecodeEvent (Some (c_enc event_codec e)) sizeof_es_event = Some e).
  { pose proof (pub_ok _ _ _ _ _ Hp) as Hok. apply DecodeEvent_image; [by apply c_enc_bytes| |].
    - by rewrite c_enc_length.
    - split_and!; [done|done|apply Hp]. }
  rewrite Hd. cbn [mbind option_bind]. by rewrite Hif, Z.eqb_refl.
Qed.

Lemma event_ifindex cfg arrivals h e source : host_inv cfg arrivals h -> e ∈ host_ring h ->
  Forall (fun a => skb_ifindex (ar_skb a) = src_ifindex source) arrivals -> e_ifindex e = src_ifindex source.
Proof.
  intros Hi He Hall. destruct (host_inv_ids _ _ _ Hi) as [_ Ho]. rewrite Forall_forall in Ho.
  destruct (Ho e (proj1 (list_elem_of_In _ _) He)) as (skb & tk & _ & Hl & _ & Hp).
  rewrite (pub_ifindex _ _ _ _ _ Hp). apply list_elem_of_lookup_2 in Hl. unfold on_hook in Hl.
  apply list_elem_of_omap in Hl as (a & Ha & E). case_decide; [|done]. injection E as <- _.
  rewrite Forall_forall in Hall. by apply Hall, list_elem_of_In.
Qed.

(** The interface of a record in a link's ring is that of its source. *)
Lemma link_ring_if arrivals l0 l e : link_inv arrivals l0 l -> e ∈ host_ring (l_host l) ->
  e_ifindex e = src_ifindex (l_source l).
Proof. intros [H1 H2 H3 H4 H5 H6] He. by eapply event_ifindex. Qed.

(** Replacing one link by another with the same source. *)
Lemma links_insert ls0 xs x s i l0 l l' :
  length (links s) = length ls0 -> ls0 !! i = Some l0 -> links s !! i = Some l ->
  (forall j, j <> i -> packets j (xs ++ [x]) = packets j xs) ->
  (forall j l0 l, ls0 !! j = Some l0 -> links s !! j = Some l -> link_inv (packets j xs) l0 l) ->
  link_inv (packets i (xs ++ [x])) l0 l' ->
  length (<[i := l']> (links s)) = length ls0 /\
  (forall j m0 m, ls0 !! j = Some m0 -> <[i := l']> (links s) !! j = Some m -> link_inv (packets j (xs ++ [x])) m0 m).
Proof.
  intros Hlen H0 Hl Hother Hinv Hnew. split; [by rewrite length_insert|].
  intros j m0 m Hm0 Hm. destruct (decide (j = i)) as [->|Hne].
  - rewrite list_lookup_insert_eq in Hm by (by eapply lookup_lt_Some). by simplify_eq.
  - rewrite list_lookup_insert_ne in Hm by done. rewrite Hother by done. by eapply Hinv.
Qed.

Lemma step_packet ls0 cap xs s i a :
  (forall l, l ∈ ls0 -> config_ok (l_cfg l)) -> happening_ok ls0 (Packet i a) ->
  Z.of_nat (length xs) + 1 < 2 ^ 64 -> pipe_inv ls0 cap xs s ->
  exists s', happen (Packet i a) s = Some s' /\ pipe_inv ls0 cap (xs ++ [Packet i a]) s'.
Proof.
  intros Hcfg (l0 & H0 & (Hs & Ht & Hd & Hcpu) & Hif) Hlt [H1 H2 H3 (acts & Hc & Hla & He & Hcon & Hall)].
  destruct (lookup_lt_is_Some_2 (links s) i) as [l Hl]; [rewrite H1; by eapply lookup_lt_Some|].
  pose proof (H2 i l0 l H0 Hl) as [L1 L2 L3 L4 L5 L6].
  apply elem_of_dom in Hcpu. rewrite <- L4 in Hcpu. apply elem_of_dom in Hcpu as [st Hst].
  pose proof (packets_length i xs).
  destruct (host_step (l_cfg l) (packets i xs) (l_host l) a st) as (st' & new & E & _ & _ & Hi'); try done; [|lia|].
  { rewrite L1. apply Hcfg. by eapply list_elem_of_lookup_2. }
  cbn [happen]. rewrite Hl. cbn [mbind option_bind]. rewrite E. cbn [mbind option_bind].
  set (h' := mk_host _ _) in *. eexists. split; [done|].
  assert (Hp : packets i (xs ++ [Packet i a]) = packets i xs ++ [a]) by (by rewrite packets_snoc, decide_True).
  destruct (links_insert ls0 xs (Packet i a) s i l0 l (set_host h' l)) as [Hlen Hlinks]; try done.
  { intros j Hj. by rewrite packets_snoc, decide_False, app_nil_r. }
  { rewrite Hp. constructor; cbn [set_host l_cfg l_source l_host l_consumed]; try done.
    - subst h'. cbn [cpus]. rewrite dom_insert_L. apply elem_of_dom_2 in Hst. set_solver.
    - apply Forall_app. split; [done|]. constructor; [by rewrite L2|done].
    - subst h'. cbn [host_ring]. rewrite length_app. lia. }
  constructor; cbn [links popped receiver]; try done.
  exists acts. split_and!; try done.
  - rewrite length_app. lia.
  - rewrite He. unfold handed_over. cbn [links]. rewrite list_fmap_insert. cbn [set_host l_consumed].
    rewrite list_insert_id; [done|]. by rewrite list_lookup_fmap, Hl.
  - intros j m Hm. destruct (decide (j = i)) as [->|Hne].
    + rewrite list_lookup_insert_eq in Hm by (by eapply lookup_lt_Some). injection Hm as <-.
      unfold contributed. cbn [set_host l_source l_host l_consumed]. rewrite (Hcon i l Hl).
      subst h'. cbn [host_ring]. by rewrite take_app_le.
    + rewrite list_lookup_insert_ne in Hm by done. by eapply Hcon.
Qed.

(** A step that leaves the links alone. *)
Lemma step_receiver ls0 cap xs s x a r t :
  (forall i, packets i (xs ++ [x]) = packets i xs) -> pipe_inv ls0 cap xs s ->
  decode_errors r = 0 -> is_event a = false -> admitted_by a = None ->
  (forall acts, conserved cap acts (popped s) (receiver s) -> conserved cap (acts ++ [a]) t r) ->
  pipe_inv ls0 cap (xs ++ [x]) (mk_pipeline (links s) t r).
Proof.
  intros Hpk [H1 H2 H3 (acts & Hc & Hla & He & Hcon & Hall)] Hd Hev Hadm Hc'.
  assert (Ho : omap admitted_by (acts ++ [a]) = omap admitted_by acts)
    by (rewrite omap_app; cbn [omap list_omap]; by rewrite Hadm, app_nil_r).
  constructor; cbn [links popped receiver]; try done.
  - intros i l0 l. rewrite Hpk. apply H2.
  - exists (acts ++ [a]). rewrite Ho. split_and!; try done.
    + by apply Hc'.
    + rewrite !length_app. cbn [length]. lia.
    + rewrite events_of_snoc, Hev, He. cbn [one]. unfold one, handed_over. cbn [links]. lia.
    + intros i l Hl. unfold contributed. rewrite Ho. by eapply Hcon.
Qed.

(** A record of link [i] handed over counts for that link only. *)
Lemma contributed_snoc ls0 (ls : list link) acts i l e a :
  NoDup (l_source <$> ls0) -> l_source <$> ls = l_source <$> ls0 -> ls !! i = Some l ->
  host_ring (l_host l) !! l_consumed l = Some e -> e_ifindex e = src_ifindex (l_source l) ->
  admitted_by a = Some (record_of (l_source l) e) ->
  (forall j m, ls !! j = Some m -> contributed acts m) ->
  forall j m, <[i := consume l]> ls !! j = Some m -> contributed (acts ++ [a]) m.
Proof.
  intros Hnd Hsrc Hl He Hif Ha Hcon j m Hm. unfold contributed.
  rewrite omap_app. cbn [omap list_omap]. rewrite Ha, list.filter_app.
  destruct (decide (j = i)) as [->|Hne].
  - rewrite list_lookup_insert_eq in Hm by (by eapply lookup_lt_Some). injection Hm as <-.
    cbn [consume l_source l_host l_consumed]. rewrite (take_S_r _ _ _ He), fmap_app, <- (Hcon i l Hl).
    by rewrite filter_cons_True by (by apply from_record_of).
  - rewrite list_lookup_insert_ne in Hm by done. rewrite filter_cons_False, filter_nil, app_nil_r; [by eapply Hcon|].
    intros Hfrom. apply Hne. rewrite <- Hsrc in Hnd. eapply (NoDup_lookup (l_source <$> ls)); [done| |];
      rewrite list_lookup_fmap.
    + by rewrite Hm.
    + rewrite Hl. cbn. f_equal. by eapply from_source_eq; [apply from_record_of|].
Qed.

Lemma links_sources ls0 cap xs s : pipe_inv ls0 cap xs s -> l_source <$> links s = l_source <$> ls0.
Proof.
  intros [H1 H2 _ _]. apply list_eq. intros i. rewrite !list_lookup_fmap.
  destruct (ls0 !! i) as [l0|] eqn:E0.
  - destruct (lookup_lt_is_Some_2 (links s) i) as [l Hl]; [rewrite H1; by eapply lookup_lt_Some|].
    rewrite Hl. cbn. f_equal. apply (H2 i l0 l E0 Hl).
  - apply lookup_ge_None in E0. by rewrite lookup_ge_None_2 by lia.
Qed.

Lemma step_deliver ls0 cap xs s i now :
  NoDup (l_source <$> ls0) -> (i < length ls0)%nat -> Z.of_nat (length xs) + 1 < 2 ^ 64 -> pipe_inv ls0 cap xs s ->
  exists s', happen (Deliver i now) s = Some s' /\ pipe_inv ls0 cap (xs ++ [Deliver i now]) s'.
Proof.
  intros Hnd Hi Hlt Hinv. pose proof (links_sources _ _ _ _ Hinv) as Hsrc.
  assert (Hpk : forall j, packets j (xs ++ [Deliver i now]) = packets j xs) by (intros j; by rewrite packets_snoc, app_nil_r).
  destruct Hinv as [H1 H2 H3 (acts & Hc & Hla & He & Hcon & Hall)].
  destruct (lookup_lt_is_Some_2 ls0 i Hi) as [l0 H0].
  destruct (lookup_lt_is_Some_2 (links s) i) as [l Hl]; [lia|]. pose proof (H2 i l0 l H0 Hl) as Hli.
  cbn [happen]. unfold deliver. rewrite Hl. cbn [mbind option_bind].
  destruct (host_ring (l_host l) !! l_consumed l) as [e|] eqn:Ee.
  2: { exists s. split; [done|]. constructor; try done; [intros j m0 m; rewrite Hpk; apply H2|].
       exists acts. split_and!; try done. rewrite length_app. lia. }
  pose proof (list_elem_of_lookup_2 _ _ _ Ee) as Hin. pose proof (link_ring_if _ _ _ _ Hli Hin) as Hif.
  pose proof (ring_admitted _ _ _ (l_source l) e (li_host _ _ _ Hli) Hin Hif) as Hadm.
  destruct (conserved_event cap acts (popped s) (receiver s) (l_source l) (Some (c_enc event_codec e)) sizeof_es_event now
    ltac:(lia) Hc) as (r & E & Hc').
  destruct (OnEvent_spec (l_source l) (Some (c_enc event_codec e)) sizeof_es_event now (receiver s) (cons_queue _ _ _ _ Hc))
    as (r' & E' & _ & _ & _ & Hdec & _).
  cbn [act] in E. rewrite E' in E. cbn [mbind option_bind] in E. injection E as ->.
  rewrite E'. cbn [mbind option_bind]. eexists. split; [done|].
  destruct (links_insert ls0 xs (Deliver i now) s i l0 l (consume l)) as [Hlen Hlinks]; try done.
  { rewrite Hpk. destruct Hli. constructor; try done. cbn [consume l_consumed l_host].
    apply lookup_lt_Some in Ee. lia. }
  constructor; cbn [links popped receiver]; try done.
  - rewrite Hdec, H3. unfold event_fate. rewrite Hadm. destruct (stopping now (receiver s)); [done|]. by case_bool_decide.
  - eexists. split; [exact Hc'|]. split_and!.
    + rewrite !length_app. cbn [length]. lia.
    + rewrite events_of_snoc, He. cbn [is_event one]. unfold one, handed_over. cbn [links].
      rewrite list_fmap_insert. assert (Hn : (l_consumed <$> links s) !! i = Some (l_consumed l))
        by (by rewrite list_lookup_fmap, Hl).
      pose proof (sum_list_insert _ _ _ (l_consumed (consume l)) Hn). cbn [consume l_consumed] in *. lia.
    + by eapply contributed_snoc.
    + rewrite omap_app. apply Forall_app. split; [done|]. cbn [omap list_omap admitted_by]. rewrite Hadm.
      constructor; [|done]. exists l0. split; [by eapply list_elem_of_lookup_2|].
      rewrite <- (li_source _ _ _ Hli). by apply from_record_of.
Qed.

Lemma step_other ls0 cap xs s x :
  match x with Packet _ _ | Deliver _ _ => False | _ => True end -> pipe_inv ls0 cap xs s ->
  exists s', happen x s = Some s' /\ pipe_inv ls0 cap (xs ++ [x]) s'.
Proof.
  intros Hx Hinv.
  assert (Hpk : forall i, packets i (xs ++ [x]) = packets i xs)
    by (intros i; rewrite packets_snoc; destruct x; try done; by rewrite app_nil_r).
  pose proof (pi_decode _ _ _ _ Hinv) as Hd.
  destruct x as [i a|i now| |b|d]; try done; cbn [happen].
  - destruct Hinv as [H1 H2 H3 (acts0 & Hc0 & Hrest)]. unfold pop.
    destruct (TryPop_spec zero_record (queue (receiver s)) (cons_queue _ _ _ _ Hc0)) as (q' & Hpop & _).
    assert (E : exists v, TryPopRecord (receiver s) = Some (v, with_queue q' (receiver s)))
      by (eexists; unfold TryPopRecord; by rewrite Hpop).
    destruct E as [v E]. rewrite E. cbn [mbind option_bind]. eexists. split; [done|].
    apply step_receiver with (a := Take); try done; [constructor; eauto|].
    intros acts Hc. destruct (conserved_take cap acts (popped s) (receiver s) Hc) as (t' & r & E' & Hc').
    cbn [act] in E'. rewrite E in E'. cbn [mbind option_bind] in E'. by injection E' as <- <-.
  - eexists. split; [done|]. apply step_receiver with (a := SetAbort b); try done.
    intros acts Hc. by eapply conserved_flag.
  - eexists. split; [done|]. apply step_receiver with (a := SetDeadline d); try done.
    intros acts Hc. by eapply conserved_flag.
Qed.

(** What user space has, of the link that was [l0] and saw [arrivals]. *)
Definition link_end (arrivals : list arrival) (got : list TelemetryRecord) (l0 l : link) : Prop :=
  let mine := filter (from (l_source l0)) got in
  mine `sublist_of` (record_of (l_source l0) <$> take (l_consumed l) (host_ring (l_host l))) /\
  NoDup (event_id <$> (rec_event <$> mine)) /\
  Forall (fun e => event_origin (l_cfg l0) (e_direction e) (on_hook (e_cpu e) (e_direction e) arrivals) e)
    (rec_event <$> mine).

Lemma filter_mono {A} (P : A -> Prop) `{!forall x, Decision (P x)} (l k : list A) :
  l `sublist_of` k -> filter P l `sublist_of` filter P k.
Proof.
  induction 1 as [|x l k _ IH|x l k _ IH]; [done| |]; rewrite ?(filter_cons P x); case_decide; try done.
  - by constructor.
  - by constructor.
Qed.

Lemma link_inv_end arrivals acts got l0 l :
  link_inv arrivals l0 l -> contributed acts l -> got `sublist_of` omap admitted_by acts ->
  link_end arrivals got l0 l.
Proof.
  intros [L1 L2 L3 L4 L5 L6] Hcon Hsub. unfold link_end. rewrite <- L1, <- L2.
  apply (filter_mono (from (l_source l))) in Hsub. rewrite Hcon in Hsub.
  destruct (host_inv_ids _ _ _ L3) as [Hn Horg].
  assert (Hring : rec_event <$> filter (from (l_source l)) got `sublist_of` host_ring (l_host l)).
  { etrans; [apply fmap_sublist, Hsub|]. rewrite <- list_fmap_compose.
    rewrite (list_fmap_ext _ id) by done. rewrite list_fmap_id. apply sublist_take. }
  split_and!; [done| |].
  - eapply sublist_NoDup; [exact Hn|by apply fmap_sublist].
  - rewrite Forall_forall in Horg |- *. intros e He. apply Horg. apply list_elem_of_In.
    eapply elem_of_sublist; [|exact Hring]. by apply list_elem_of_In.
Qed.

(** The interfaces before the first packet. *)
Definition links_ok (ls : list link) : Prop :=
  NoDup (l_source <$> ls) /\
  forall l, l ∈ ls -> config_ok (l_cfg l) /\ fresh_host (l_host l) /\ l_consumed l = 0%nat.

Lemma pipe_inv_start ls alloc cap self :
  links_ok ls -> 0 <= cap < 2 ^ 64 -> EbpfTelemetry_new alloc cap = Ok self ->
  pipe_inv ls cap [] (mk_pipeline ls [] self).
Proof.
  intros [_ Hls] Hcap Hnew. unfold EbpfTelemetry_new in Hnew. apply result_bind_Ok in Hnew as (q & Hq & [= <-]).
  destruct (SpscQueue_new_spec zero_record alloc cap q Hcap Hq) as (Hqok & Hc & Hemp).
  constructor; cbn [links popped receiver decode_errors]; try done.
  - intros i l0 l H0 Hl. rewrite H0 in Hl. injection Hl as <-. destruct (Hls l0) as (_ & Hf & Hn); [by eapply list_elem_of_lookup_2|].
    constructor; try done; [by apply fresh_host_inv|rewrite Hn; lia].
  - exists []. split_and!; try done.
    + constructor; cbn [queue decode_errors queue_dropped shutdown_discarded]; rewrite ?Hemp; try done.
    + unfold handed_over. cbn [links]. clear -Hls. enough (H : sum_list (l_consumed <$> ls) = 0%nat) by (rewrite H; done).
      induction ls as [|l ls IH]; [done|]. change (l_consumed l + sum_list (l_consumed <$> ls) = 0)%nat.
      destruct (Hls l) as (_ & _ & ->); [by constructor|]. apply IH. intros m Hm. apply Hls. by constructor.
    + intros i l Hl. unfold contributed. by destruct (Hls l (list_elem_of_lookup_2 _ _ _ Hl)) as (_ & _ & ->).
Qed.

Lemma pipeline_run_inv ls alloc cap self xs :
  links_ok ls -> 0 <= cap < 2 ^ 64 -> EbpfTelemetry_new alloc cap = Ok self ->
  Forall (happening_ok ls) xs -> Z.of_nat (length xs) < 2 ^ 64 ->
  exists s, pipeline_run xs (mk_pipeline ls [] self) = Some s /\ pipe_inv ls cap xs s.
Proof.
  intros Hls Hcap Hnew. unfold pipeline_run. induction xs as [|x xs IH] using rev_ind; intros Hok Hl.
  - eexists. split; [done|]. by eapply pipe_inv_start.
  - apply Forall_app in Hok as [Hok Hx%Forall_cons_1%proj1]. rewrite length_app in Hl. cbn [length] in Hl.
    destruct IH as (s & E & Hi); [done|lia|]. rewrite foldl_snoc, E. cbn [mbind option_bind].
    destruct x as [i a|i now| |b|d]; [| |by apply step_other..].
    + apply step_packet; try done; [|lia]. intros l Hin. by apply Hls.
    + apply step_deliver; try done; [apply Hls|lia].
Qed.

(** C7: from packets to records, end to end.  Any number of interfaces with fresh maps and
    distinct sources feed one new receiver.  Under any interleaving of packets (on any CPU and hook
    of any interface), deliveries, pops and shutdown flags: nothing faults; every record handed over
    is popped, still queued, dropped on a full queue or discarded at shutdown - none is rejected;
    every record received is tagged as one of the sources; and of each source, user space has
    records of that interface's ring in ring order, none of them twice, each describing the packet
    of that interface which its CPU, direction and sequence number name. *)
Theorem pipeline_end_to_end ls alloc cap self xs :
  links_ok ls -> 0 <= cap < 2 ^ 64 -> EbpfTelemetry_new alloc cap = Ok self ->
  Forall (happening_ok ls) xs -> Z.of_nat (length xs) < 2 ^ 64 ->
  exists s, pipeline_run xs (mk_pipeline ls [] self) = Some s /\
    decode_errors (receiver s) = 0 /\
    handed_over s = Z.of_nat (length (received s)) + queue_dropped (receiver s) + shutdown_discarded (receiver s) /\
    Forall (fun r => exists l, l ∈ ls /\ from (l_source l) r) (received s) /\
    length (links s) = length ls /\
    forall i l0 l, ls !! i = Some l0 -> links s !! i = Some l -> link_end (packets i xs) (received s) l0 l.
Proof.
  intros Hls Hcap Hnew Hok Hl.
  destruct (pipeline_run_inv ls alloc cap self xs Hls Hcap Hnew Hok Hl)
    as (s & E & [H1 H2 H3 (acts & [_ _ Hord _ Htot] & _ & He & Hcon & Hall)]).
  fold (received s) in Hord. exists s. split_and!; try done.
  - unfold received. rewrite length_app. lia.
  - apply Forall_forall. intros r Hr. rewrite Forall_forall in Hall. apply Hall.
    apply list_elem_of_In. eapply elem_of_sublist; [|exact Hord]. by apply list_elem_of_In.
  - intros i l0 l H0 Hli. eapply link_inv_end; [by eapply H2|by eapply Hcon|done].
Qed.

End Facts.

(** ** A concrete run: two interfaces, a queue of one slot *)
Definition skb_on (ifindex : Z) : sk_buff :=
  mk_skb 42 udp_frame ifindex 0 0.

Definition pipe_links : list link :=
  [mk_link sample_config (mk_source 3 77 5) two_cpus 0; mk_link sample_config (mk_source 4 77 5) two_cpus 0].

Definition pipe_receiver : Impl :=
  match EbpfTelemetry_new (fun _ => true) 1 with Ok r => r | Throw _ => sample_impl end.

Definition pipe_happenings : list happening :=
  [Packet 0 (mk_arrival ES_INGRESS (skb_on 3) (mk_tick 10 0 true)); Deliver 0 11;
   Packet 1 (mk_arrival ES_EGRESS (skb_on 4) (mk_tick 20 1 true)); Deliver 1 21; Pop; Deliver 0 30].

Lemma pipe_happenings_ok : Forall (happening_ok pipe_links) pipe_happenings.
Proof.
  assert (Hskb : forall i, in_width 32 i /\ i <> 0 -> skb_ok (skb_on i))
    by (intros i Hi; split; [unfold in_width; simpl; lia|done|apply udp_frame_ok|exact Hi]).
  repeat constructor; try (eexists; split_and!; [reflexivity| |reflexivity]; split_and!);
    try apply Hskb; unfold in_width; cbn; try lia; try (by left); try (by right); by eexists.
Qed.

Lemma pipe_links_ok : links_ok pipe_links.
Proof.
  split; [repeat constructor; rewrite ?list_elem_of_In; cbn; intuition congruence|].
  intros l Hl. repeat (apply elem_of_cons in Hl as [->|Hl]);
    [split_and!; [apply sample_config_ok|apply two_cpus_fresh|done]..|by apply not_elem_of_nil in Hl].
Qed.

Lemma pipeline_end_to_end_witness :
  exists s, pipeline_run (HE := little_endian_host) pipe_happenings (mk_pipeline pipe_links [] pipe_receiver) = Some s /\
    handed_over s = Z.of_nat (length (received s)) + queue_dropped (receiver s) + shutdown_discarded (receiver s).
Proof.
  destruct (@pipeline_end_to_end _ sample_helpers_ok little_endian_host pipe_links
    (fun _ => true) 1 pipe_receiver pipe_happenings pipe_links_ok ltac:(lia) eq_refl
    pipe_happenings_ok eq_refl) as (s & E & _ & Hh & _).
  exists s. split; [exact E|exact Hh].
Defined.

(** The first record is popped, the second is queued. *)
Example pipe_run :
  (s ← pipeline_run (HE := little_endian_host) pipe_happenings (mk_pipeline pipe_links [] pipe_receiver);
   Some (length (received s), handed_over s, queue_dropped (receiver s))) = Some (1%nat, 2, 1).
Proof. vm_compute. reflexivity. Qed.
