(* ===== verification/RuntimeConfig.v ===== *)
(** * The runtime configuration ([inc/RuntimeConfig.hpp],
    [src/RuntimeConfig.cpp])

    [LoadRuntimeConfigFromJson] opens a file, parses it, reads the optional
    sections over the defaults and validates the result.  The JSON library is
    the class [JsonLib]: documents, object lookup and typed conversions. *)
From S2P Require Import Prelude.

Record CaptureOptions := mk_capture {
  ifaces : list string;
  record_packets : bool;
  debug_packets : bool;
}.

Record RoutingOptions := mk_routing {
  enabled : bool;
  ingress_iface : string;
  egress_iface : string;
  bidirectional : bool;
}.

Record RedisStoreOptions := mk_redis {
  host : string;
  port : string;
  stream_key : string;
  max_pending_writes : Z;
  connect_timeout_ms : Z;
  drain_timeout_ms : Z;
}.

Record SupervisorOptions := mk_supervisor {
  restart_delay_ms : Z;
  poll_interval_ms : Z;
}.

Record RuntimeConfig := mk_config {
  capture : CaptureOptions;
  routing : RoutingOptions;
  redis : RedisStoreOptions;
  supervisor : SupervisorOptions;
  show_startup_art : bool;
}.

#[export] Instance CaptureOptions_eq_dec : EqDecision CaptureOptions.
Proof. solve_decision. Defined.
#[export] Instance RoutingOptions_eq_dec : EqDecision RoutingOptions.
Proof. solve_decision. Defined.
#[export] Instance RedisStoreOptions_eq_dec : EqDecision RedisStoreOptions.
Proof. solve_decision. Defined.
#[export] Instance SupervisorOptions_eq_dec : EqDecision SupervisorOptions.
Proof. solve_decision. Defined.
#[export] Instance RuntimeConfig_eq_dec : EqDecision RuntimeConfig.
Proof. solve_decision. Defined.

(** The member initialisers. *)
Definition default_config : RuntimeConfig :=
  mk_config (mk_capture [] false false) (mk_routing false "" "" false)
    (mk_redis "127.0.0.1" "6379" "elephantshrew:packets" 1024 5000 5000)
    (mk_supervisor 2000 200) true.

(** nlohmann::json.  A conversion [get<T>] gives a value or throws an
    exception with some [what()]; [find] on anything but an object finds
    nothing. *)
Class JsonLib := {
  json : Type;
  json_parse : string -> string + json;
  is_object : json -> bool;
  json_find : json -> string -> option json;
  get_string : json -> string + string;
  get_bool : json -> string + bool;
  get_u64 : json -> string + Z;
  get_strings : json -> string + list string;
}.

Section Load.
Context `{JsonLib}.

Definition FindObject (parent : json) (key : string) : result (option json) :=
  match json_find parent key with
  | None => Ok None
  | Some v =>
    if negb (is_object v)
    then Throw (runtime_error ("Invalid '" +:+ key +:+ "': expected object"))
    else Ok (Some v)
  end.

Definition ReadValue {T} (get : json -> string + T) (object : json) (prefix key : string) (value : T)
    : result T :=
  match json_find object key with
  | None => Ok value
  | Some v =>
    match get v with
    | inr x => Ok x
    | inl what => Throw (runtime_error ("Invalid '" +:+ prefix +:+ "." +:+ key +:+ "': " +:+ what))
    end
  end.

Definition RequirePositive (key : string) (value : Z) : result unit :=
  throw_when (value =? 0)
    (runtime_error ("Invalid '" +:+ key +:+ "': value must be greater than 0")).

(** [if (const auto* x = FindObject(root, key)) { ... }]. *)
Definition in_section {T} (root : json) (key : string) (body : json -> T -> result T) (x : T)
    : result T :=
  o ← FindObject root key;
  match o with
  | Some object => body object x
  | None => Ok x
  end.

Definition read_capture (o : json) (c : CaptureOptions) : result CaptureOptions :=
  i ← ReadValue get_strings o "capture" "interfaces" (ifaces c);
  i ← ReadValue get_strings o "capture" "ifaces" i;
  r ← ReadValue get_bool o "capture" "record_packets" (record_packets c);
  d ← ReadValue get_bool o "capture" "debug_packets" (debug_packets c);
  Ok (mk_capture i r d).

Definition read_redis (o : json) (c : RedisStoreOptions) : result RedisStoreOptions :=
  h ← ReadValue get_string o "redis" "host" (host c);
  p ← ReadValue get_string o "redis" "port" (port c);
  k ← ReadValue get_string o "redis" "stream_key" (stream_key c);
  m ← ReadValue get_u64 o "redis" "max_pending_writes" (max_pending_writes c);
  t ← ReadValue get_u64 o "redis" "connect_timeout_ms" (connect_timeout_ms c);
  d ← ReadValue get_u64 o "redis" "drain_timeout_ms" (drain_timeout_ms c);
  Ok (mk_redis h p k m t d).

Definition read_routing (o : json) (c : RoutingOptions) : result RoutingOptions :=
  e ← ReadValue get_bool o "routing" "enabled" (enabled c);
  i ← ReadValue get_string o "routing" "ingress_iface" (ingress_iface c);
  g ← ReadValue get_string o "routing" "egress_iface" (egress_iface c);
  i ← ReadValue get_string o "routing" "from_interface" i;
  g ← ReadValue get_string o "routing" "to_interface" g;
  b ← ReadValue get_bool o "routing" "bidirectional" (bidirectional c);
  Ok (mk_routing e i g b).

Definition read_supervisor (o : json) (c : SupervisorOptions) : result SupervisorOptions :=
  r ← ReadValue get_u64 o "supervisor" "restart_delay_ms" (restart_delay_ms c);
  p ← ReadValue get_u64 o "supervisor" "poll_interval_ms" (poll_interval_ms c);
  Ok (mk_supervisor r p).

Definition read_ui (o : json) (c : bool) : result bool :=
  ReadValue get_bool o "ui" "show_startup_art" c.

Definition empty_error (key : string) : exn :=
  runtime_error ("Invalid '" +:+ key +:+ "': value must not be empty").

Definition is_empty (s : string) : bool := bool_decide (s = "").

(** [if (!ingress.empty() || !egress.empty()) enabled = true;]. *)
Definition infer_routing (r : RoutingOptions) : RoutingOptions :=
  if negb (is_empty (ingress_iface r)) || negb (is_empty (egress_iface r))
  then mk_routing true (ingress_iface r) (egress_iface r) (bidirectional r) else r.

Definition check_routing (r : RoutingOptions) : result unit :=
  if enabled r then
    throw_when (is_empty (ingress_iface r)) (empty_error "routing.ingress_iface");;
    throw_when (is_empty (egress_iface r)) (empty_error "routing.egress_iface");;
    throw_when (bool_decide (ingress_iface r = egress_iface r))
      (runtime_error "Invalid routing configuration: ingress and egress interfaces must be different")
  else Ok tt.

Definition validate (c : RuntimeConfig) : result RuntimeConfig :=
  throw_when (is_empty (host (redis c))) (empty_error "redis.host");;
  throw_when (is_empty (port (redis c))) (empty_error "redis.port");;
  throw_when (is_empty (stream_key (redis c))) (empty_error "redis.stream_key");;
  let r := infer_routing (routing c) in
  check_routing r;;
  RequirePositive "redis.max_pending_writes" (max_pending_writes (redis c));;
  RequirePositive "redis.connect_timeout_ms" (connect_timeout_ms (redis c));;
  RequirePositive "redis.drain_timeout_ms" (drain_timeout_ms (redis c));;
  RequirePositive "supervisor.restart_delay_ms" (restart_delay_ms (supervisor c));;
  RequirePositive "supervisor.poll_interval_ms" (poll_interval_ms (supervisor c));;
  Ok (mk_config (capture c) r (redis c) (supervisor c) (show_startup_art c)).

(** The sections, in the order the code reads them. *)
Definition read_sections (root : json) : result RuntimeConfig :=
  let d := default_config in
  c ← in_section root "capture" read_capture (capture d);
  r ← in_section root "redis" read_redis (redis d);
  g ← in_section root "routing" read_routing (routing d);
  s ← in_section root "supervisor" read_supervisor (supervisor d);
  u ← in_section root "ui" read_ui (show_startup_art d);
  Ok (mk_config c g r s u).

(** [LoadRuntimeConfigFromJson(path)]; [files path] is the content of a
    file that can be opened. *)
Definition LoadRuntimeConfigFromJson (files : string -> option string) (path : string)
    : result RuntimeConfig :=
  match files path with
  | None => Throw (runtime_error ("Failed to open runtime config '" +:+ path +:+ "'"))
  | Some text =>
    match json_parse text with
    | inl what => Throw (runtime_error ("Failed to parse runtime config '" +:+ path +:+ "': " +:+ what))
    | inr root =>
      if negb (is_object root)
      then Throw (runtime_error ("Runtime config '" +:+ path +:+ "' must contain a JSON object"))
      else c ← read_sections root; validate c
    end
  end.

End Load.

(** ** Specification

    The value a typed key has in an object, over a default. *)
Section Facts.
Context `{HJ : JsonLib}.

Definition typed {T} (get : json -> string + T) (o : json) (key : string) : Prop :=
  match json_find o key with None => True | Some v => exists x, get v = inr x end.

Definition value {T} (get : json -> string + T) (o : json) (key : string) (d : T) : T :=
  match json_find o key with
  | None => d
  | Some v => match get v with inr x => x | inl _ => d end
  end.

Lemma ReadValue_Ok {T} (get : json -> string + T) o prefix key d x :
  ReadValue get o prefix key d = Ok x <-> typed get o key /\ x = value get o key d.
Proof.
  unfold ReadValue, typed, value. destruct (json_find o key) as [v|].
  - destruct (get v) as [what|y]; split.
    + done.
    + by intros [[? ?] _].
    + intros [= <-]. split; [by exists y|done].
    + by intros [_ ->].
  - split; [by intros [= <-]|by intros [_ ->]].
Qed.

Lemma bind_read {T U} (get : json -> string + T) o prefix key d (f : T -> result U) y :
  (ReadValue get o prefix key d ≫= f) = Ok y <-> typed get o key /\ f (value get o key d) = Ok y.
Proof.
  rewrite result_bind_Ok. setoid_rewrite ReadValue_Ok. split.
  - by intros (x & [? ->] & ?).
  - intros [? ?]. by eexists.
Qed.

Lemma bind_throw {U} b e (f : unit -> result U) y :
  (throw_when b e ≫= f) = Ok y <-> b = false /\ f tt = Ok y.
Proof. destruct b; simpl; [split; [done|by intros [? _]]|]. tauto. Qed.

Definition section_typed (root : json) (key : string) (P : json -> Prop) : Prop :=
  match json_find root key with None => True | Some o => is_object o = true /\ P o end.

Definition section_value {T} (root : json) (key : string) (pick : json -> T -> T) (d : T) : T :=
  match json_find root key with None => d | Some o => pick o d end.

Lemma bind_section {T U} root key body (P : json -> Prop) pick (d : T) (f : T -> result U) y :
  (forall o d x, body o d = Ok x <-> P o /\ x = pick o d) ->
  (in_section root key body d ≫= f) = Ok y <->
  section_typed root key P /\ f (section_value root key pick d) = Ok y.
Proof.
  intros Hbody. unfold in_section, FindObject, section_typed, section_value.
  destruct (json_find root key) as [o|]; [|simpl; tauto].
  destruct (is_object o); simpl; [|split; [done|by intros [[? _] _]]].
  rewrite result_bind_Ok. setoid_rewrite Hbody. split.
  - by intros (x & [? ->] & ?).
  - intros [[_ ?] ?]. by eexists.
Qed.

(** The sections over their defaults; of two spellings of a key the later
    one wins. *)
Definition capture_of (o : json) (c : CaptureOptions) : CaptureOptions :=
  mk_capture (value get_strings o "ifaces" (value get_strings o "interfaces" (ifaces c)))
    (value get_bool o "record_packets" (record_packets c))
    (value get_bool o "debug_packets" (debug_packets c)).

Definition capture_typed (o : json) : Prop :=
  typed get_strings o "interfaces" /\ typed get_strings o "ifaces" /\
  typed get_bool o "record_packets" /\ typed get_bool o "debug_packets".

Definition redis_of (o : json) (c : RedisStoreOptions) : RedisStoreOptions :=
  mk_redis (value get_string o "host" (host c)) (value get_string o "port" (port c))
    (value get_string o "stream_key" (stream_key c))
    (value get_u64 o "max_pending_writes" (max_pending_writes c))
    (value get_u64 o "connect_timeout_ms" (connect_timeout_ms c))
    (value get_u64 o "drain_timeout_ms" (drain_timeout_ms c)).

Definition redis_typed (o : json) : Prop :=
  typed get_string o "host" /\ typed get_string o "port" /\ typed get_string o "stream_key" /\
  typed get_u64 o "max_pending_writes" /\ typed get_u64 o "connect_timeout_ms" /\
  typed get_u64 o "drain_timeout_ms".

Definition routing_of (o : json) (c : RoutingOptions) : RoutingOptions :=
  mk_routing (value get_bool o "enabled" (enabled c))
    (value get_string o "from_interface" (value get_string o "ingress_iface" (ingress_iface c)))
    (value get_string o "to_interface" (value get_string o "egress_iface" (egress_iface c)))
    (value get_bool o "bidirectional" (bidirectional c)).

Definition routing_typed (o : json) : Prop :=
  typed get_bool o "enabled" /\ typed get_string o "ingress_iface" /\
  typed get_string o "egress_iface" /\ typed get_string o "from_interface" /\
  typed get_string o "to_interface" /\ typed get_bool o "bidirectional".

Definition supervisor_of (o : json) (c : SupervisorOptions) : SupervisorOptions :=
  mk_supervisor (value get_u64 o "restart_delay_ms" (restart_delay_ms c))
    (value get_u64 o "poll_interval_ms" (poll_interval_ms c)).

Definition supervisor_typed (o : json) : Prop :=
  typed get_u64 o "restart_delay_ms" /\ typed get_u64 o "poll_interval_ms".

Definition ui_of (o : json) (c : bool) : bool := value get_bool o "show_startup_art" c.

Definition ui_typed (o : json) : Prop := typed get_bool o "show_startup_art".

Lemma Ok_eq {A} (a x : A) : Ok a = Ok x <-> x = a.
Proof. split; [by intros [= ->]|by intros ->]. Qed.

Ltac reads := intros; rewrite !bind_read, Ok_eq; tauto.

Lemma read_capture_Ok o c x : read_capture o c = Ok x <-> capture_typed o /\ x = capture_of o c.
Proof. unfold read_capture, capture_typed, capture_of. reads. Qed.

Lemma read_redis_Ok o c x : read_redis o c = Ok x <-> redis_typed o /\ x = redis_of o c.
Proof. unfold read_redis, redis_typed, redis_of. reads. Qed.

Lemma read_routing_Ok o c x : read_routing o c = Ok x <-> routing_typed o /\ x = routing_of o c.
Proof. unfold read_routing, routing_typed, routing_of. reads. Qed.

Lemma read_supervisor_Ok o c x :
  read_supervisor o c = Ok x <-> supervisor_typed o /\ x = supervisor_of o c.
Proof. unfold read_supervisor, supervisor_typed, supervisor_of. reads. Qed.

Lemma read_ui_Ok o c x : read_ui o c = Ok x <-> ui_typed o /\ x = ui_of o c.
Proof. apply ReadValue_Ok. Qed.

Definition well_typed (root : json) : Prop :=
  section_typed root "capture" capture_typed /\ section_typed root "redis" redis_typed /\
  section_typed root "routing" routing_typed /\ section_typed root "supervisor" supervisor_typed /\
  section_typed root "ui" ui_typed.

(** What a document says, over the defaults. *)
Definition document (root : json) : RuntimeConfig :=
  let d := default_config in
  mk_config (section_value root "capture" capture_of (capture d))
    (section_value root "routing" routing_of (routing d))
    (section_value root "redis" redis_of (redis d))
    (section_value root "supervisor" supervisor_of (supervisor d))
    (section_value root "ui" ui_of (show_startup_art d)).

Lemma read_sections_Ok root c : read_sections root = Ok c <-> well_typed root /\ c = document root.
Proof.
  unfold read_sections, well_typed, document.
  rewrite (bind_section _ _ _ _ _ _ _ _ read_capture_Ok),
    (bind_section _ _ _ _ _ _ _ _ read_redis_Ok), (bind_section _ _ _ _ _ _ _ _ read_routing_Ok),
    (bind_section _ _ _ _ _ _ _ _ read_supervisor_Ok), (bind_section _ _ _ _ _ _ _ _ read_ui_Ok), Ok_eq.
  tauto.
Qed.

(** What validation guarantees. *)
Record config_valid (c : RuntimeConfig) : Prop := {
  v_host : host (redis c) <> ""%string;
  v_port : port (redis c) <> ""%string;
  v_stream : stream_key (redis c) <> ""%string;
  v_routing : enabled (routing c) = true ->
    ingress_iface (routing c) <> ""%string /\ egress_iface (routing c) <> ""%string /\
    ingress_iface (routing c) <> egress_iface (routing c);
  v_disabled : enabled (routing c) = false ->
    ingress_iface (routing c) = ""%string /\ egress_iface (routing c) = ""%string;
  v_numbers : Forall (fun z => z <> 0)
    [max_pending_writes (redis c); connect_timeout_ms (redis c); drain_timeout_ms (redis c);
     restart_delay_ms (supervisor c); poll_interval_ms (supervisor c)];
}.

Definition with_routing (r : RoutingOptions) (c : RuntimeConfig) : RuntimeConfig :=
  mk_config (capture c) r (redis c) (supervisor c) (show_startup_art c).

Lemma is_empty_false s : is_empty s = false <-> s <> ""%string.
Proof. unfold is_empty. by rewrite bool_decide_eq_false. Qed.

Lemma check_routing_Ok r : check_routing r = Ok tt <->
  (enabled r = true -> ingress_iface r <> ""%string /\ egress_iface r <> ""%string /\
    ingress_iface r <> egress_iface r).
Proof.
  unfold check_routing. destruct (enabled r); [|done].
  rewrite !bind_throw, throw_when_Ok, !is_empty_false, bool_decide_eq_false. tauto.
Qed.

Lemma infer_routing_disabled r : enabled (infer_routing r) = false <->
  enabled r = false /\ ingress_iface r = ""%string /\ egress_iface r = ""%string.
Proof.
  unfold infer_routing, is_empty. repeat case_bool_decide; simpl; intuition congruence.
Qed.

Lemma infer_routing_names r :
  ingress_iface (infer_routing r) = ingress_iface r /\ egress_iface (infer_routing r) = egress_iface r.
Proof. unfold infer_routing. by destruct (_ || _). Qed.

Lemma validate_Ok c x : validate c = Ok x <->
  x = with_routing (infer_routing (routing c)) c /\ config_valid x.
Proof.
  unfold validate, RequirePositive. cbv zeta.
  set (r := infer_routing (routing c)). set (w := with_routing r c).
  assert (Hr : forall U (f : unit -> result U) y, (check_routing r ≫= f) = Ok y <->
    check_routing r = Ok tt /\ f tt = Ok y).
  { intros. rewrite result_bind_Ok. split; [intros ([] & ? & ?); auto|intros [? ?]; eauto]. }
  rewrite !bind_throw, Hr, !bind_throw, !is_empty_false, !Z.eqb_neq, Ok_eq. change (mk_config _ _ _ _ _) with w.
  pose proof (infer_routing_disabled (routing c)) as Hd. pose proof (infer_routing_names (routing c)) as [Hi He].
  fold r in Hd, Hi, He. rewrite check_routing_Ok. split.
  - intros (H1 & H2 & H3 & H4 & H5 & H6 & H7 & H8 & H9 & ->). split; [done|].
    constructor; cbn [w with_routing redis routing supervisor]; try done.
    + rewrite Hi, He. by intros (_ & ? & ?)%Hd.
    + by repeat constructor.
  - intros (-> & [H1 H2 H3 H4 H5 H6]). cbn [w with_routing redis routing supervisor] in *.
    rewrite !list.Forall_cons in H6. tauto.
Qed.

(** C32: loading is exactly parsing, typing and validation.  [LoadRuntimeConfigFromJson] succeeds
    with [c] if and only if the file opens and parses to an object whose present sections are
    objects and whose present keys convert, [c] is what the document says over the defaults - the
    later spelling of a key winning - with routing enabled when an interface is named, and [c] is
    valid: names not empty, routed interfaces present and different, sizes and times not zero. *)
Theorem LoadRuntimeConfig_exact files path c :
  LoadRuntimeConfigFromJson files path = Ok c <->
  exists text root, files path = Some text /\ json_parse text = inr root /\
    is_object root = true /\ well_typed root /\
    c = with_routing (infer_routing (routing (document root))) (document root) /\ config_valid c.
Proof.
  unfold LoadRuntimeConfigFromJson. destruct (files path) as [text|]; [|split; [done|by intros (? & ? & ? & _)]].
  split.
  - destruct (json_parse text) as [what|root] eqn:E; [done|].
    destruct (is_object root) eqn:Eo; [|done]. cbn [negb]. rewrite result_bind_Ok.
    intros (d & [Ht ->]%read_sections_Ok & [Hc Hv]%validate_Ok). exists text, root. by split_and!.
  - intros (? & root & [= <-] & -> & -> & Ht & Hc & Hv). cbn [negb]. rewrite result_bind_Ok.
    exists (document root). rewrite read_sections_Ok, validate_Ok. done.
Qed.

(** Every error of loading is a [runtime_error]. *)
Definition throws_runtime {A} (m : result A) : Prop :=
  forall e, m = Throw e -> exists what, e = runtime_error what.

Lemma throws_bind {A B} (m : result A) (f : A -> result B) :
  throws_runtime m -> (forall a, throws_runtime (f a)) -> throws_runtime (m ≫= f).
Proof. intros Hm Hf e. destruct m as [a|e']; simpl; [apply Hf|intros [= <-]; by apply Hm]. Qed.

Lemma throws_when b what : throws_runtime (throw_when b (runtime_error what)).
Proof. destruct b; simpl; [|done]. intros e [= <-]. by eexists. Qed.

Lemma throws_Ok {A} (a : A) : throws_runtime (Ok a).
Proof. done. Qed.

Lemma throws_read {T} (get : json -> string + T) o prefix key d :
  throws_runtime (ReadValue get o prefix key d).
Proof. intros e. unfold ReadValue. repeat case_match; intros [= <-]; by eexists. Qed.

Lemma throws_section {T} root key body (d : T) :
  (forall o d, throws_runtime (body o d)) -> throws_runtime (in_section root key body d).
Proof.
  intros Hb. unfold in_section. apply throws_bind.
  - intros e. unfold FindObject. repeat case_match; intros [= <-]; by eexists.
  - intros []; [apply Hb|done].
Qed.

Ltac throws := repeat first
  [apply throws_read | apply throws_when | apply throws_Ok | apply throws_section; intros
  |apply throws_bind; [|intros]].

Lemma throws_validate c : throws_runtime (validate c).
Proof.
  unfold validate, RequirePositive, empty_error. throws.
  unfold check_routing, empty_error. destruct (enabled _); throws.
Qed.

Lemma throws_sections root : throws_runtime (read_sections root).
Proof.
  unfold read_sections, read_capture, read_redis, read_routing, read_supervisor, read_ui. throws.
Qed.

(** The loader throws nothing but [runtime_error], whatever the file holds and whatever the
    JSON library throws while parsing or converting. *)
Theorem LoadRuntimeConfig_errors files path e :
  LoadRuntimeConfigFromJson files path = Throw e -> exists what, e = runtime_error what.
Proof.
  unfold LoadRuntimeConfigFromJson. repeat case_match; try (intros [= <-]; by eexists).
  apply throws_bind; [apply throws_sections|intros; apply throws_validate].
Qed.
End Facts.

(** ** Instances

    A small JSON library, and the document [elephantshrew.json] that the
    repository ships. *)
Inductive jval :=
  | JBool (b : bool) | JNum (z : Z) | JStr (s : string) | JArr (l : list string)
  | JEmpty | JField (key : string) (v rest : jval).

Definition JObj (l : list (string * jval)) : jval := foldr (fun kv => JField kv.1 kv.2) JEmpty l.

Fixpoint jfind (v : jval) (key : string) : option jval :=
  match v with
  | JField k v rest => if bool_decide (k = key) then Some v else jfind rest key
  | _ => None
  end.

Definition shipped_document : jval :=
  JObj [("capture", JObj [("interfaces", JArr []); ("record_packets", JBool false);
                          ("debug_packets", JBool false)]);
        ("routing", JObj [("enabled", JBool false); ("ingress_iface", JStr "eth0");
                          ("egress_iface", JStr "eth1"); ("bidirectional", JBool false)]);
        ("redis", JObj [("host", JStr "127.0.0.1"); ("port", JStr "6379");
                        ("stream_key", JStr "elephantshrew:packets");
                        ("max_pending_writes", JNum 1024); ("connect_timeout_ms", JNum 5000);
                        ("drain_timeout_ms", JNum 5000)]);
        ("supervisor", JObj [("restart_delay_ms", JNum 2000); ("poll_interval_ms", JNum 200)]);
        ("ui", JObj [("show_startup_art", JBool true)])]%string.

#[global] Instance sample_json : JsonLib := {|
  json := jval;
  json_parse s := if bool_decide (s = "shipped"%string) then inr shipped_document
                  else inl "parse error"%string;
  is_object v := match v with JEmpty | JField _ _ _ => true | _ => false end;
  json_find := jfind;
  get_string v := match v with JStr s => inr s | _ => inl "type must be string"%string end;
  get_bool v := match v with JBool b => inr b | _ => inl "type must be boolean"%string end;
  get_u64 v := match v with JNum z => inr (u64 z) | _ => inl "type must be number"%string end;
  get_strings v := match v with JArr l => inr l | _ => inl "type must be array"%string end;
|}.

(** The shipped document says ["enabled": false], and routing is enabled. *)
Example shipped_config_routes :
  LoadRuntimeConfigFromJson Some "shipped" =
    Ok (with_routing (mk_routing true "eth0" "eth1" false) default_config).
Proof. reflexivity. Qed.

Lemma LoadRuntimeConfig_errors_witness :
  exists what, LoadRuntimeConfigFromJson Some "x" = Throw (runtime_error what).
Proof.
  destruct (LoadRuntimeConfigFromJson Some "x") as [c|e] eqn:E; [discriminate E|].
  destruct (LoadRuntimeConfig_errors Some "x" e E) as [what ->]. by exists what.
Defined.
