(* ===== verification/Cli.v ===== *)
(** * The command line and the effective configuration
    ([src/ElephantShrewMain.cpp], first half)

    [ParseArguments] turns [argv] into [CliOptions]; [ParseRouteSpec] splits
    a route; [LoadEffectiveConfig] lays the options over the configuration
    file. *)
From S2P Require Import Prelude RuntimeConfig.

Open Scope string_scope.
Open Scope Z_scope.

Record CliOptions := mk_cli {
  config_path : option string;
  cli_ifaces : list string;
  route_spec : option string;
  cli_record : bool;
  cli_debug : bool;
  bidirectional_route : bool;
  scan_only : bool;
}.

Definition default_options : CliOptions := mk_cli None [] None false false false false.

(** ** [ParseArguments] *)
Definition set_config_path x o := mk_cli (Some x) (cli_ifaces o) (route_spec o) (cli_record o)
  (cli_debug o) (bidirectional_route o) (scan_only o).
Definition push_iface x o := mk_cli (config_path o) (cli_ifaces o ++ [x]) (route_spec o)
  (cli_record o) (cli_debug o) (bidirectional_route o) (scan_only o).
Definition set_route_spec x o := mk_cli (config_path o) (cli_ifaces o) (Some x) (cli_record o)
  (cli_debug o) (bidirectional_route o) (scan_only o).
Definition set_bidirectional o := mk_cli (config_path o) (cli_ifaces o) (route_spec o)
  (cli_record o) (cli_debug o) true (scan_only o).
Definition set_scan_only o := mk_cli (config_path o) (cli_ifaces o) (route_spec o) (cli_record o)
  (cli_debug o) (bidirectional_route o) true.
Definition set_record o := mk_cli (config_path o) (cli_ifaces o) (route_spec o) true
  (cli_debug o) (bidirectional_route o) (scan_only o).
Definition set_debug o := mk_cli (config_path o) (cli_ifaces o) (route_spec o) (cli_record o)
  true (bidirectional_route o) (scan_only o).

(** The loop over [argv[1..]]: whether it ended without an error, and the
    options as they then are. *)
Fixpoint parse_loop (args : list string) (o : CliOptions) : bool * CliOptions :=
  match args with
  | [] => (true, o)
  | arg :: rest =>
    if bool_decide (arg = "-c") then
      match rest with [] => (false, o) | v :: rest => parse_loop rest (set_config_path v o) end
    else if bool_decide (arg = "-i") then
      match rest with [] => (false, o) | v :: rest => parse_loop rest (push_iface v o) end
    else if bool_decide (arg = "--route") then
      match rest with [] => (false, o) | v :: rest => parse_loop rest (set_route_spec v o) end
    else if bool_decide (arg = "--bidirectional") then parse_loop rest (set_bidirectional o)
    else if bool_decide (arg = "-s") then parse_loop rest (set_scan_only o)
    else if bool_decide (arg = "-r") then parse_loop rest (set_record o)
    else if bool_decide (arg = "-d") then parse_loop rest (set_debug o)
    else (false, o)
  end.

Definition nonempty {A} (l : list A) : bool := match l with [] => false | _ => true end.
Definition has_value {A} (x : option A) : bool := match x with None => false | Some _ => true end.

(** The three checks after the loop. *)
Definition inconsistent (o : CliOptions) : bool :=
  (scan_only o && (nonempty (cli_ifaces o) || has_value (route_spec o) || cli_record o ||
                   cli_debug o || bidirectional_route o)) ||
  (has_value (route_spec o) && nonempty (cli_ifaces o)) ||
  (bidirectional_route o && negb (has_value (route_spec o))).

Definition ParseArguments (args : list string) (o : CliOptions) : bool * CliOptions :=
  let '(ok, o) := parse_loop args o in
  (ok && negb (inconsistent o), o).

(** ** [ParseRouteSpec]

    [std::string::find] is [String.index], [substr] is [String.substring]. *)
Definition find_separator (s : string) : option (nat * nat) :=
  match String.index 0 "->" s with
  | Some pos => Some (pos, 2%nat)
  | None =>
    match String.index 0 ":" s with
    | Some pos => Some (pos, 1%nat)
    | None => (fun pos => (pos, 1%nat)) <$> String.index 0 "," s
    end
  end.

(** The result and the two names, [None] when they are not assigned. *)
Definition ParseRouteSpec (s : string) : bool * option (string * string) :=
  match find_separator s with
  | None => (false, None)
  | Some (pos, size) =>
    let ingress := String.substring 0 pos s in
    let egress := String.substring (pos + size) (String.length s - (pos + size)) s in
    (negb (is_empty ingress) && negb (is_empty egress), Some (ingress, egress))
  end.

(** ** [LoadEffectiveConfig] *)
Definition with_capture (c : CaptureOptions) (cfg : RuntimeConfig) : RuntimeConfig :=
  mk_config c (routing cfg) (redis cfg) (supervisor cfg) (show_startup_art cfg).

Definition override_ifaces (l : list string) (cfg : RuntimeConfig) : RuntimeConfig :=
  with_capture (mk_capture l (record_packets (capture cfg)) (debug_packets (capture cfg))) cfg.
Definition force_record (cfg : RuntimeConfig) : RuntimeConfig :=
  with_capture (mk_capture (ifaces (capture cfg)) true (debug_packets (capture cfg))) cfg.
Definition force_debug (cfg : RuntimeConfig) : RuntimeConfig :=
  with_capture (mk_capture (ifaces (capture cfg)) (record_packets (capture cfg)) true) cfg.
Definition force_bidirectional (cfg : RuntimeConfig) : RuntimeConfig :=
  with_routing (mk_routing (enabled (routing cfg)) (ingress_iface (routing cfg))
                  (egress_iface (routing cfg)) true) cfg.

Definition route_error (spec : string) : exn :=
  runtime_error ("Invalid '--route' value '" +:+ spec +:+
    "'. Expected '<ingress>:<egress>', '<ingress>-><egress>', or '<ingress>,<egress>'").

Section Effective.
Context `{JsonLib}.

Definition LoadEffectiveConfig (files : string -> option string) (o : CliOptions)
    : result RuntimeConfig :=
  cfg ← (match config_path o with
         | Some path => LoadRuntimeConfigFromJson files path
         | None => Ok default_config
         end);
  let cfg := if nonempty (cli_ifaces o) then override_ifaces (cli_ifaces o) cfg else cfg in
  let cfg := if cli_record o then force_record cfg else cfg in
  let cfg := if cli_debug o then force_debug cfg else cfg in
  cfg ← (match route_spec o with
         | None => Ok cfg
         | Some spec =>
           match ParseRouteSpec spec with
           | (true, Some (ingress, egress)) =>
             Ok (override_ifaces []
                   (with_routing (mk_routing true ingress egress (bidirectional (routing cfg))) cfg))
           | _ => Throw (route_error spec)
           end
         end);
  let cfg := if bidirectional_route o then force_bidirectional cfg else cfg in
  throw_when (enabled (routing cfg) && nonempty (cli_ifaces o))
    (runtime_error "'-i' cannot be combined with interface routing");;
  Ok cfg.

End Effective.

(** ** Command lines *)
Inductive item := Config (p : string) | Iface (i : string) | Route (r : string)
  | Bidirectional | Scan | Record_ | Debug.

Definition render (x : item) : list string :=
  match x with
  | Config p => ["-c"; p] | Iface i => ["-i"; i] | Route r => ["--route"; r]
  | Bidirectional => ["--bidirectional"] | Scan => ["-s"] | Record_ => ["-r"] | Debug => ["-d"]
  end.

Definition apply_item (o : CliOptions) (x : item) : CliOptions :=
  match x with
  | Config p => set_config_path p o | Iface i => push_iface i o | Route r => set_route_spec r o
  | Bidirectional => set_bidirectional o | Scan => set_scan_only o | Record_ => set_record o
  | Debug => set_debug o
  end.

Lemma parse_render items : forall o,
  parse_loop (items ≫= render) o = (true, foldl apply_item o items).
Proof. induction items as [|[] items IH]; intros o; simpl; auto. Qed.

(** Strong induction on the number of arguments: an option takes one or two. *)
Lemma parse_accepts n : forall args o o', (length args <= n)%nat -> parse_loop args o = (true, o') ->
  exists items, args = items ≫= render /\ o' = foldl apply_item o items.
Proof.
  induction n as [|n IH]; intros args o o' Hn E.
  { destruct args; [|simpl in Hn; lia]. injection E as <-. by exists []. }
  destruct args as [|arg rest]; [injection E as <-; by exists []|].
  assert (Hone : forall x, render x = [arg] -> parse_loop rest (apply_item o x) = (true, o') ->
    exists items, arg :: rest = items ≫= render /\ o' = foldl apply_item o items).
  { intros x Hx Ex. simpl in Hn. destruct (IH rest _ _ ltac:(lia) Ex) as (items & -> & ->).
    exists (x :: items). split; [|done]. cbn [mbind list_bind]. by rewrite Hx. }
  assert (Htwo : forall x v rest', rest = v :: rest' -> render x = [arg; v] ->
    parse_loop rest' (apply_item o x) = (true, o') ->
    exists items, arg :: rest = items ≫= render /\ o' = foldl apply_item o items).
  { intros x v rest' -> Hx Ex. simpl in Hn. destruct (IH rest' _ _ ltac:(lia) Ex) as (items & -> & ->).
    exists (x :: items). split; [|done]. cbn [mbind list_bind]. by rewrite Hx. }
  cbn [parse_loop] in E.
  repeat (case_bool_decide; [subst arg|]); try done.
  - destruct rest as [|v rest]; [discriminate E|]. exact (Htwo (Config v) v rest eq_refl eq_refl E).
  - destruct rest as [|v rest]; [discriminate E|]. exact (Htwo (Iface v) v rest eq_refl eq_refl E).
  - destruct rest as [|v rest]; [discriminate E|]. exact (Htwo (Route v) v rest eq_refl eq_refl E).
  - exact (Hone Bidirectional eq_refl E).
  - exact (Hone Scan eq_refl E).
  - exact (Hone Record_ eq_refl E).
  - exact (Hone Debug eq_refl E).
Qed.

(** What the flags must satisfy together. *)
Record consistent (o : CliOptions) : Prop := {
  con_scan : scan_only o = true ->
    cli_ifaces o = [] /\ route_spec o = None /\ cli_record o = false /\ cli_debug o = false /\
    bidirectional_route o = false;
  con_route : route_spec o <> None -> cli_ifaces o = [];
  con_bidirectional : bidirectional_route o = true -> route_spec o <> None;
}.

Lemma inconsistent_false o : inconsistent o = false <-> consistent o.
Proof.
  destruct o as [cp [|i ifs] [r|] rec dbg bid scan]; unfold inconsistent; simpl;
    destruct rec, dbg, bid, scan; simpl; split; try done; try (intros _; constructor; simpl; intros; done);
    intros [H1 H2 H3]; simpl in *; exfalso;
    first [by apply H3|by destruct (H1 eq_refl) as (? & ? & ? & ? & ?)|by (specialize (H2 ltac:(done)))].
Qed.

(** An accepted command line: the options, in some order and as often as one
    likes, with a consistent result. *)
Definition accepts (args : list string) (o' : CliOptions) : Prop :=
  exists items, args = items ≫= render /\ o' = foldl apply_item default_options items /\ consistent o'.

Lemma ParseArguments_accepts args o' : ParseArguments args default_options = (true, o') <-> accepts args o'.
Proof.
  unfold ParseArguments. split.
  - destruct (parse_loop args default_options) as [ok o1] eqn:E. intros [= Hok <-].
    apply andb_true_iff in Hok as [-> Hc%negb_true_iff%inconsistent_false].
    destruct (parse_accepts _ _ _ _ (le_n _) E) as (items & -> & ->). by exists items.
  - intros (items & -> & -> & Hc). rewrite parse_render.
    by rewrite (proj2 (inconsistent_false _) Hc).
Qed.

(** An accepted command line has one reading. *)
Lemma accepts_unique args ok o : ParseArguments args default_options = (ok, o) ->
  (forall o', accepts args o' -> ok = true /\ o' = o) /\ (ok = true -> accepts args o).
Proof.
  intros E. split; [|intros ->; by apply ParseArguments_accepts].
  intros o' Ho%ParseArguments_accepts. rewrite E in Ho. by injection Ho as -> ->.
Qed.

(** C34: the accepted command lines.  [ParseArguments] accepts exactly the sequences of the seven
    options, each of [-c], [-i] and [--route] followed by its value, whose combination is
    consistent; the options it yields are those items applied in order, so the last [-c] and
    [--route] win and interfaces accumulate. *)
Theorem ParseArguments_exact args o' :
  ParseArguments args default_options = (true, o') <->
  exists items, args = items ≫= render /\ o' = foldl apply_item default_options items /\ consistent o'.
Proof. apply ParseArguments_accepts. Qed.

(** ** Routes *)
#[local] Arguments String.append s1 s2 : simpl nomatch.

Definition absent (sep s : string) : Prop := String.index 0 sep s = None.

Lemma prefix_split p s : String.prefix p s = true <-> exists b, s = p +:+ b.
Proof.
  revert s. induction p as [|c p IH]; intros s; [split; [by exists s|by destruct s]|].
  destruct s as [|c' s]; simpl; [split; [done|by intros [? ?]]|].
  destruct (Ascii.ascii_dec c c') as [<-|Hne].
  - rewrite IH. split; intros [b Hb]; exists b; [by rewrite Hb|by injection Hb].
  - split; [done|]. intros [b Hb]. injection Hb. congruence.
Qed.

Lemma string_app_assoc (a b c : string) : (a +:+ b) +:+ c = a +:+ (b +:+ c).
Proof. induction a as [|x a IH]; [done|]. change (String x ((a +:+ b) +:+ c) = String x (a +:+ b +:+ c)). by rewrite IH. Qed.

(** [index] finds the first occurrence. *)
Lemma index_split c p s m : String.index 0 (String c p) s = Some m ->
  exists a b, s = a +:+ String c p +:+ b /\ String.length a = m /\ absent (String c p) a.
Proof.
  revert m. induction s as [|x s IH]; intros m; [done|]. cbn [String.index].
  destruct (String.prefix (String c p) (String x s)) eqn:Ep.
  - intros [= <-]. apply prefix_split in Ep as [b Hb]. by exists "", b.
  - destruct (String.index 0 (String c p) s) as [k|]; [|done]. intros [= <-].
    destruct (IH k eq_refl) as (a & b & -> & <- & Ha). exists (String x a), b.
    split; [done|split; [done|]]. unfold absent in *. cbn [String.index]. rewrite Ha.
    destruct (String.prefix (String c p) (String x a)) eqn:Ep'; [|done].
    apply prefix_split in Ep' as [b' Hb']. enough (String.prefix (String c p) (String x (a +:+ String c p +:+ b)) = true)
      by congruence.
    apply prefix_split. exists (b' +:+ String c p +:+ b).
    change (String x (a +:+ String c p +:+ b)) with (String x a +:+ (String c p +:+ b)). rewrite Hb'.
    apply string_app_assoc.
Qed.

Lemma index_char_app c a b : absent (String c "") a ->
  String.index 0 (String c "") (a +:+ String c b) = Some (String.length a).
Proof.
  unfold absent. induction a as [|x a IH]; cbn [String.index String.append String.length String.prefix].
  - intros _. destruct (Ascii.ascii_dec c c); [by destruct b|congruence].
  - destruct (Ascii.ascii_dec c x); [by destruct a|]. destruct (String.index 0 _ a); [done|].
    intros _. cbn [String.append]. by rewrite IH.
Qed.

Lemma prefix_two c d s : String.prefix (String c (String d "")) s = true <->
  exists s', s = String c (String d s').
Proof.
  rewrite prefix_split. split; intros [b ->]; by exists b.
Qed.

Lemma index_two_app c d a b : c <> d -> absent (String c (String d "")) a ->
  String.index 0 (String c (String d "")) (a +:+ String c (String d b)) = Some (String.length a).
Proof.
  unfold absent. intros Hcd. induction a as [|x a IH]; cbn [String.index String.append String.length].
  - intros _. by rewrite (proj2 (prefix_two c d _) (ex_intro _ b eq_refl)).
  - destruct (String.prefix _ (String x a)) eqn:Ep; [done|].
    destruct (String.index 0 _ a); [done|]. intros _. rewrite IH by done.
    destruct (String.prefix _ (String x (a +:+ _))) eqn:Ep'; [|done].
    apply prefix_two in Ep' as [s E]. injection E as -> E. destruct a as [|y a]; simpl in E.
    + injection E. congruence.
    + injection E as -> _. by rewrite (proj2 (prefix_two c d _) (ex_intro _ a eq_refl)) in Ep.
Qed.

Lemma index_arrow_app a b : absent "->" a ->
  String.index 0 "->" (a +:+ "->" +:+ b) = Some (String.length a).
Proof. by apply index_two_app. Qed.

Lemma substring_all s : String.substring 0 (String.length s) s = s.
Proof. induction s as [|c s IH]; simpl; [done|by f_equal]. Qed.

Lemma substring_left a t : String.substring 0 (String.length a) (a +:+ t) = a.
Proof. induction a as [|c a IH]; simpl; [by destruct t|by f_equal]. Qed.

Lemma substring_right a t : String.substring (String.length a) (String.length t) (a +:+ t) = t.
Proof. induction a as [|c a IH]; simpl; [apply substring_all|done]. Qed.

Lemma string_length_app a t : String.length (a +:+ t) = (String.length a + String.length t)%nat.
Proof. induction a as [|c a IH]; simpl; [done|by f_equal]. Qed.

(** Once the separator is located, the two sides are read off. *)
Lemma ParseRouteSpec_at a sep b :
  find_separator (a +:+ sep +:+ b) = Some (String.length a, String.length sep) ->
  ParseRouteSpec (a +:+ sep +:+ b) = (negb (is_empty a) && negb (is_empty b), Some (a, b)).
Proof.
  intros E. unfold ParseRouteSpec. rewrite E, substring_left.
  replace (String.length a + String.length sep)%nat with (String.length (a +:+ sep))
    by apply string_length_app.
  rewrite <- (string_app_assoc a sep b), (string_length_app (a +:+ sep) b).
  by replace (String.length (a +:+ sep) + String.length b - String.length (a +:+ sep))%nat
    with (String.length b) by lia; rewrite substring_right.
Qed.

Definition route_of (s a b : string) : Prop :=
  (s = a +:+ "->" +:+ b /\ absent "->" a) \/
  (s = a +:+ ":" +:+ b /\ absent "->" s /\ absent ":" a) \/
  (s = a +:+ "," +:+ b /\ absent "->" s /\ absent ":" s /\ absent "," a).

Lemma ParseRouteSpec_route s a b : route_of s a b ->
  ParseRouteSpec s = (negb (is_empty a) && negb (is_empty b), Some (a, b)).
Proof.
  unfold absent. intros [(-> & Ha)|[(-> & Hs & Ha)|(-> & Hs & Hc & Ha)]]; apply ParseRouteSpec_at;
    unfold find_separator.
  - by rewrite index_arrow_app.
  - assert (E : String.index 0 ":" (a +:+ ":" +:+ b) = Some (String.length a))
      by exact (index_char_app _ a b Ha).
    by rewrite Hs, E.
  - assert (E : String.index 0 "," (a +:+ "," +:+ b) = Some (String.length a))
      by exact (index_char_app _ a b Ha).
    by rewrite Hs, Hc, E.
Qed.

(** Routes.  [ParseRouteSpec] accepts a string with names [a] and [b] exactly when both are
    non-empty and the string is [a->b], or without an arrow [a:b], or without arrow and colon
    [a,b], split at the first occurrence of that separator. *)
Theorem ParseRouteSpec_exact s a b :
  ParseRouteSpec s = (true, Some (a, b)) <-> a <> "" /\ b <> "" /\ route_of s a b.
Proof.
  split.
  - intros E.
    assert (Hr : exists a' b', route_of s a' b').
    { unfold ParseRouteSpec, find_separator in E. unfold route_of, absent.
      destruct (String.index 0 "->" s) as [m|] eqn:E1.
      { destruct (index_split _ _ _ _ E1) as (a' & b' & -> & _ & Ha). exists a', b'. by left. }
      destruct (String.index 0 ":" s) as [m|] eqn:E2.
      { destruct (index_split _ _ _ _ E2) as (a' & b' & -> & _ & Ha). exists a', b'. by right; left. }
      destruct (String.index 0 "," s) as [m|] eqn:E3; [|done].
      destruct (index_split _ _ _ _ E3) as (a' & b' & -> & _ & Ha). exists a', b'. by right; right. }
    destruct Hr as (a' & b' & Hr). pose proof (ParseRouteSpec_route s a' b' Hr) as E'.
    rewrite E in E'. injection E' as Hne <- <-. symmetry in Hne.
    apply andb_true_iff in Hne as [?%negb_true_iff%is_empty_false ?%negb_true_iff%is_empty_false]. done.
  - intros (Ha & Hb & Hr). rewrite (ParseRouteSpec_route s a b Hr).
    apply is_empty_false in Ha, Hb. by rewrite Ha, Hb.
Qed.

(** ** The effective configuration *)
Section Effective_facts.
Context `{HJ : JsonLib}.

(** C33: the effective configuration.  For consistent options, [LoadEffectiveConfig] succeeds with
    [cfg] exactly when the base configuration (the file's, or the defaults without [-c]) loads, a
    [--route] value parses, and [-i] does not meet a base that routes; [cfg] is then the base with
    the recording and debug flags added, and either the route in place of its routing and no
    capture interfaces, or the given interfaces in place of its own. *)
Theorem LoadEffectiveConfig_exact files o cfg :
  consistent o ->
  LoadEffectiveConfig files o = Ok cfg <->
  exists base,
    (match config_path o with
     | Some path => LoadRuntimeConfigFromJson files path = Ok base
     | None => base = default_config
     end) /\
    redis cfg = redis base /\ supervisor cfg = supervisor base /\
    show_startup_art cfg = show_startup_art base /\
    record_packets (capture cfg) = record_packets (capture base) || cli_record o /\
    debug_packets (capture cfg) = debug_packets (capture base) || cli_debug o /\
    match route_spec o with
    | Some spec => exists a b, ParseRouteSpec spec = (true, Some (a, b)) /\
        routing cfg = mk_routing true a b (bidirectional (routing base) || bidirectional_route o) /\
        ifaces (capture cfg) = []
    | None => routing cfg = routing base /\
        ifaces (capture cfg) = (if nonempty (cli_ifaces o) then cli_ifaces o else ifaces (capture base)) /\
        (cli_ifaces o <> [] -> enabled (routing base) = false)
    end.
Proof.
  intros [_ Hcr Hcb]. unfold LoadEffectiveConfig. rewrite result_bind_Ok.
  apply exist_proper. intros base.
  assert (Hbase : (match config_path o with
    | Some path => LoadRuntimeConfigFromJson files path | None => Ok default_config end) = Ok base <->
    match config_path o with
    | Some path => LoadRuntimeConfigFromJson files path = Ok base | None => base = default_config end).
  { destruct (config_path o); [done|]. apply Ok_eq. }
  rewrite Hbase. apply and_iff_compat_l. clear Hbase.
  destruct o as [cp ifs [spec|] rec dbg bid scan]; cbn [config_path cli_ifaces route_spec cli_record cli_debug
    bidirectional_route] in *.
  - rewrite (Hcr ltac:(done)). destruct base as [[bi br bd] [be b1 b2 bb] rd sv ui], cfg as [[ci cr cd] rt rd' sv' ui'].
    destruct (ParseRouteSpec spec) as [[] [[a b]|]]; cbn [nonempty].
    2-4: split; [by destruct rec, dbg|intros (_ & _ & _ & _ & _ & ? & ? & ? & _); done].
    rewrite result_bind_Ok. setoid_rewrite bind_throw. setoid_rewrite Ok_eq.
    split.
    + intros (c & -> & _ & ->). destruct rec, dbg, bid; cbn;
        rewrite ?orb_true_r, ?orb_false_r; split_and!; try done; by exists a, b.
    + cbn. intros (-> & -> & -> & -> & -> & a' & b' & [= <- <-] & -> & ->).
      eexists. split; [reflexivity|]. split; [apply andb_false_r|].
      destruct rec, dbg, bid; cbn; by rewrite ?orb_true_r, ?orb_false_r.
  - destruct bid; [by destruct (Hcb eq_refl)|].
    destruct base as [[bi br bd] [be b1 b2 bb] rd sv ui], cfg as [[ci cr cd] rt rd' sv' ui'].
    cbn [mbind result_bind]. rewrite bind_throw, Ok_eq.
    destruct ifs as [|i ifs], rec, dbg, be; cbn; rewrite ?orb_true_r, ?orb_false_r;
      (split; [intros [? E]; try done; injection E as -> -> -> -> -> -> ->; by split_and!
              |intros (-> & -> & -> & -> & -> & -> & -> & Hd); try by specialize (Hd ltac:(done))]);
      done.
Qed.
End Effective_facts.

(** ** Instances *)
Definition route_options (spec : string) : CliOptions :=
  mk_cli None [] (Some spec) true false false false.

Lemma route_options_consistent spec : consistent (route_options spec).
Proof. by constructor. Qed.

Lemma LoadEffectiveConfig_exact_witness :
  exists cfg, LoadEffectiveConfig Some (route_options "br-lan->eth1") = Ok cfg /\
    routing cfg = mk_routing true "br-lan" "eth1" false.
Proof.
  destruct (LoadEffectiveConfig Some (route_options "br-lan->eth1")) as [cfg|e] eqn:E; [|discriminate E].
  exists cfg. split; [done|].
  destruct (LoadEffectiveConfig_exact Some (route_options "br-lan->eth1") cfg
    (route_options_consistent _)) as [Hex _].
  destruct (Hex E) as (base & -> & _ & _ & _ & _ & _ & a & b & Hr & -> & _).
  vm_compute in Hr. injection Hr as <- <-. reflexivity.
Defined.

(** A route given on the command line may lead from an interface to itself,
    which the configuration file may not ask for. *)
Example route_to_itself :
  LoadEffectiveConfig Some (route_options "eth0:eth0") =
    Ok (with_routing (mk_routing true "eth0" "eth0" false) (force_record default_config)).
Proof. reflexivity. Qed.

(** [-i] with the shipped configuration file is refused: the file names
    interfaces, so loading enables routing. *)
Example iface_with_shipped_config :
  LoadEffectiveConfig Some (mk_cli (Some "shipped") ["wlan0"] None false false false false) =
    Throw (runtime_error "'-i' cannot be combined with interface routing").
Proof. reflexivity. Qed.
