(* ===== verification/TcAttachment.v ===== *)
(** * TC attachments ([inc/TcAttachment.hpp])

    A [TcAttachment] owns one slot (interface, direction, handle, priority)
    of the kernel's TC filters while it is attached.  libbpf's calls are the
    class [TcKernel] on an abstract kernel state; [TcKernelOk] says what an
    attach, a query and a detach do to the slots. *)
From S2P Require Import Prelude.

Definition EEXIST : Z := 17.
Definition ENOENT : Z := 2.
Definition ENODEV : Z := 19.
Definition ESTALE : Z := 116.

(** The slot of a filter: [hook_] with handle and priority. *)
Record slot := mk_slot {
  s_ifindex : Z;
  s_direction : Z;
  s_handle : Z;
  s_priority : Z;
}.

#[export] Instance slot_eq_dec : EqDecision slot.
Proof. solve_decision. Defined.

Class TcKernel := {
  kernel : Type;
  (** [bpf_obj_get_info_by_fd]: the program's id, or an errno *)
  prog_info : Z -> kernel -> Z + Z;
  bpf_tc_hook_create : Z -> Z -> kernel -> Z * kernel;
  (** [bpf_tc_attach] with a slot and a program descriptor *)
  bpf_tc_attach : slot -> Z -> kernel -> Z * kernel;
  (** [bpf_tc_query]: the result and the id found *)
  bpf_tc_query : slot -> kernel -> Z * Z;
  bpf_tc_detach : slot -> kernel -> Z * kernel;
}.

(** The program id in a slot, and how the calls read and write it. *)
Class TcKernelOk `{TcKernel} := {
  filter_at : kernel -> slot -> option Z;
  create_keeps i d k s : filter_at (bpf_tc_hook_create i d k).2 s = filter_at k s;
  create_info i d k fd : prog_info fd (bpf_tc_hook_create i d k).2 = prog_info fd k;
  attach_ok s fd k id : (bpf_tc_attach s fd k).1 = 0 -> prog_info fd k = inr id ->
    filter_at k s = None /\ forall s', filter_at (bpf_tc_attach s fd k).2 s' =
      if decide (s = s') then Some id else filter_at k s';
  attach_error s fd k : (bpf_tc_attach s fd k).1 <> 0 -> forall s',
    filter_at (bpf_tc_attach s fd k).2 s' = filter_at k s';
  query_ok s k : (bpf_tc_query s k).1 = 0 -> filter_at k s = Some (bpf_tc_query s k).2;
  detach_slot s k s' : filter_at (bpf_tc_detach s k).2 s' =
    if decide (s = s' /\ (bpf_tc_detach s k).1 = 0) then None else filter_at k s';
}.

Record TcAttachment := mk_tc {
  hook_ifindex : Z;
  hook_attach_point : Z;
  handle_ : Z;
  priority_ : Z;
  program_id_ : Z;
  attached_ : bool;
}.

(** [TcAttachment()]. *)
Definition detached : TcAttachment := mk_tc 0 0 0 0 0 false.

Definition own_slot (t : TcAttachment) : slot :=
  mk_slot (hook_ifindex t) (hook_attach_point t) (handle_ t) (priority_ t).

Definition set_attached (b : bool) (t : TcAttachment) : TcAttachment :=
  mk_tc (hook_ifindex t) (hook_attach_point t) (handle_ t) (priority_ t) (program_id_ t) b.

Section Tc.
Context `{TcKernel}.

(** The attachment and the kernel, as an operation changes them. *)
Definition world : Type := TcAttachment * kernel.

Definition call (f : kernel -> Z * kernel) : effect world Z := fun '(t, k) =>
  let '(rc, k) := f k in (Ok rc, (t, k)).

Definition set_hook (ifindex direction : Z) : effect world unit :=
  update (fun '(t, k) => (mk_tc ifindex direction (handle_ t) (priority_ t) (program_id_ t) (attached_ t), k)).

Definition Attach (ifindex direction prog_fd handle priority : Z) : effect world unit :=
  '(t, k) ← get_state;
  raise_when (attached_ t) (logic_error "TC attachment already active");;
  raise_when ((ifindex <=? 0) || (prog_fd <? 0) || (handle =? 0) || (priority =? 0) ||
              (65535 <? priority))
    (invalid_argument "invalid TC attachment identity");;
  match prog_info prog_fd k with
  | inl errno => raise (system_error errno "read program ID")
  | inr id =>
    set_hook ifindex direction;;
    rc ← call (bpf_tc_hook_create ifindex direction);
    raise_when (negb (rc =? 0) && negb (rc =? - EEXIST)) (system_error (- rc) "create clsact");;
    rc ← call (bpf_tc_attach (mk_slot ifindex direction handle priority) prog_fd);
    raise_when (negb (rc =? 0)) (system_error (- rc) "attach TC filter");;
    update (fun '(t, k) =>
      (mk_tc (hook_ifindex t) (hook_attach_point t) handle priority id true, k))
  end.

(** [Detach()], which does not throw: its result and the state after.  It makes
    two system calls; [others] is what other processes do to the slots between
    them. *)
Definition Detach_while (others : kernel -> kernel) (w : world) : Z * world :=
  let '(t, k) := w in
  if negb (attached_ t) then (0, (t, k))
  else
    let '(rc, found) := bpf_tc_query (own_slot t) k in
    if (rc =? - ENOENT) || (rc =? - ENODEV) then (0, (set_attached false t, k))
    else if negb (rc =? 0) then (rc, (t, k))
    else if negb (found =? program_id_ t) then (- ESTALE, (set_attached false t, k))
    else
      let '(rc, k) := bpf_tc_detach (own_slot t) (others k) in
      if (rc =? 0) || (rc =? - ENOENT) || (rc =? - ENODEV) then (0, (set_attached false t, k))
      else (rc, (t, k)).

(** Nobody else touches the slots in the meantime. *)
Definition Detach (w : world) : Z * world := Detach_while (fun k => k) w.

(** [~TcAttachment()]: what it prints, and the kernel it leaves. *)
Definition destroy_attachment (w : world) : option Z * kernel :=
  let '(rc, (_, k)) := Detach w in ((if negb (rc =? 0) then Some rc else None), k).

End Tc.

(** ** Ownership *)
Section Facts.
Context `{HT : TcKernel, HO : !TcKernelOk}.

(** Attaching.  From a detached object [Attach] either succeeds, and then the slot it names was
    free, now holds the program, is owned by the object, and no other slot has changed; or it
    throws, and then no slot has changed and the object owns nothing.  An attached object refuses
    and changes nothing. *)
Theorem Attach_owns ifindex direction prog_fd handle priority t k :
  let s := mk_slot ifindex direction handle priority in
  match Attach ifindex direction prog_fd handle priority (t, k) with
  | (Ok _, (t', k')) =>
      attached_ t = false /\ attached_ t' = true /\ own_slot t' = s /\
      prog_info prog_fd k = inr (program_id_ t') /\ filter_at k s = None /\
      (forall s', filter_at k' s' = if decide (s = s') then Some (program_id_ t') else filter_at k s')
  | (Throw e, (t', k')) =>
      attached_ t' = attached_ t /\ (forall s', filter_at k' s' = filter_at k s') /\
      (attached_ t = true -> t' = t /\ k' = k /\ e = logic_error "TC attachment already active")
  end.
Proof.
  intros s. unfold Attach, mbind, effect_bind, get_state, raise_when.
  destruct (attached_ t) eqn:Et; [done|]. simpl.
  destruct (_ || _); [by split_and!|]. simpl.
  destruct (prog_info prog_fd k) as [errno|id] eqn:Ei; [by split_and!|]. simpl.
  pose proof (create_keeps ifindex direction k) as Hk.
  pose proof (create_info ifindex direction k prog_fd) as Hid.
  destruct (bpf_tc_hook_create ifindex direction k) as [rc k1]. simpl in *.
  destruct (negb (rc =? 0) && negb (rc =? - EEXIST)); [by split_and!|]. simpl. fold s.
  pose proof (attach_ok s prog_fd k1 id) as Hok. pose proof (attach_error s prog_fd k1) as Herr.
  destruct (bpf_tc_attach s prog_fd k1) as [rc2 k2]. simpl in *.
  destruct (Z.eqb_spec rc2 0) as [->|Hne]; simpl.
  - destruct (Hok eq_refl) as [Hfree Hs]; [congruence|]. split_and!; try done.
    + by rewrite <- Hk.
    + intros s'. by rewrite Hs, Hk.
  - split_and!; try done. intros s'. by rewrite Herr, Hk.
Qed.

(** The scope of an attachment: what [Attach] installed, the destructor takes
    away, and the slots are as before, unless the kernel refuses. *)
Lemma attach_then_destroy ifindex direction prog_fd handle priority t k t1 k1 :
  Attach ifindex direction prog_fd handle priority (t, k) = (Ok tt, (t1, k1)) ->
  (bpf_tc_query (own_slot t1) k1).1 = 0 -> (bpf_tc_detach (own_slot t1) k1).1 = 0 ->
  let '(printed, k2) := destroy_attachment (t1, k1) in
  printed = None /\ forall s, filter_at k2 s = filter_at k s.
Proof.
  intros E Hq Hd. pose proof (Attach_owns ifindex direction prog_fd handle priority t k) as Ha. cbv zeta in Ha.
  rewrite E in Ha. cbv beta iota in Ha. destruct Ha as (_ & Hat & Hown & _ & Hfree & Hk).
  unfold destroy_attachment, Detach, Detach_while. rewrite Hat. cbn [negb].
  pose proof (query_ok (own_slot t1) k1 Hq) as Hf. rewrite Hown in *.
  destruct (bpf_tc_query _ k1) as [rc found]. cbn [fst snd] in Hq, Hf. subst rc.
  rewrite Hk, decide_True in Hf by done. injection Hf as <-.
  change ((0 =? - ENOENT) || (0 =? - ENODEV)) with false.
  pose proof (detach_slot (mk_slot ifindex direction handle priority) k1) as Hs.
  destruct (bpf_tc_detach _ k1) as [rc2 k2]. cbn [fst snd] in Hd, Hs. subst rc2. cbn. rewrite Z.eqb_refl. cbn.
  split; [done|]. intros s. rewrite Hs, Hk.
  destruct (decide (mk_slot ifindex direction handle priority = s)) as [<-|Hne].
  - by rewrite decide_True.
  - rewrite decide_False by naive_solver. done.
Qed.

Ltac cases := split_and!; simpl; intros; first [by left|done|congruence|lia].

(** C35: detaching, while nobody else changes the slots between its two system calls.  [Detach] clears the object's own slot only when that slot still holds the
    object's program, and touches no other slot: a program somebody else has put there is left
    alone and reported as [-ESTALE].  When it returns 0 the object owns nothing and its program is
    not in the slot; on any other error the object keeps its ownership to retry. *)
Theorem Detach_owned t k :
  let '(rc, (t', k')) := Detach (t, k) in
  (forall s, filter_at k' s = filter_at k s \/
     (s = own_slot t /\ attached_ t = true /\ filter_at k s = Some (program_id_ t) /\
      filter_at k' s = None)) /\
  (rc = 0 -> attached_ t' = false) /\
  (rc = 0 -> attached_ t = true -> (bpf_tc_query (own_slot t) k).1 = 0 ->
     (bpf_tc_detach (own_slot t) k).1 = 0 -> filter_at k' (own_slot t) = None) /\
  (attached_ t = true -> (bpf_tc_query (own_slot t) k).1 = 0 ->
     filter_at k (own_slot t) <> Some (program_id_ t) ->
     rc = - ESTALE /\ k' = k /\ attached_ t' = false) /\
  (attached_ t = false -> rc = 0 /\ t' = t /\ k' = k) /\
  own_slot t' = own_slot t /\ program_id_ t' = program_id_ t.
Proof.
  unfold Detach, Detach_while. destruct (attached_ t) eqn:Et; cbn [negb]; [|cases].
  pose proof (query_ok (own_slot t) k) as Hq.
  destruct (bpf_tc_query (own_slot t) k) as [rc found]. simpl in Hq.
  destruct ((rc =? - ENOENT) || (rc =? - ENODEV)) eqn:Ea.
  { unfold ENOENT, ENODEV in Ea. cases. }
  destruct (Z.eqb_spec rc 0) as [->|Hne]; cbn [negb].
  2: { cases. }
  specialize (Hq eq_refl). destruct (Z.eqb_spec found (program_id_ t)) as [->|Hf]; cbn [negb].
  - pose proof (detach_slot (own_slot t) k) as Hd.
    destruct (bpf_tc_detach (own_slot t) k) as [rc2 k2]. simpl in Hd.
    assert (Hslots : forall s, filter_at k2 s = filter_at k s \/
      s = own_slot t /\ true = true /\ filter_at k s = Some (program_id_ t) /\ filter_at k2 s = None).
    { intros s. rewrite Hd. destruct (decide (own_slot t = s /\ rc2 = 0)) as [[<- ->]|]; [by right|by left]. }
    destruct ((rc2 =? 0) || _ || _) eqn:E2; simpl.
    + split_and!; try done; intros; try congruence. rewrite Hd. by rewrite decide_True.
    + unfold ENOENT, ENODEV in E2. cases.
  - cases.
Qed.
End Facts.

(** ** Instances: slots in a list of filters *)
Definition sample_tc : Type := list (slot * Z).

Definition lookup_slot (k : sample_tc) (s : slot) : option Z :=
  snd <$> List.find (fun x => bool_decide (x.1 = s)) k.

#[global] Instance sample_tc_kernel : TcKernel := {|
  kernel := sample_tc;
  prog_info fd _ := if fd <? 100 then inr (fd + 1000) else inl 9;
  bpf_tc_hook_create _ _ k := (- EEXIST, k);
  bpf_tc_attach s fd k :=
    match lookup_slot k s with
    | Some _ => (- EEXIST, k)
    | None => if fd <? 100 then (0, (s, fd + 1000) :: k) else (- 9, k)
    end;
  bpf_tc_query s k := match lookup_slot k s with Some id => (0, id) | None => (- ENOENT, 0) end;
  bpf_tc_detach s k := (0, List.filter (fun x => negb (bool_decide (x.1 = s))) k);
|}.

Lemma lookup_slot_cons x k s :
  lookup_slot (x :: k) s = if decide (x.1 = s) then Some x.2 else lookup_slot k s.
Proof. unfold lookup_slot. simpl. case_bool_decide; by case_decide. Qed.

Lemma lookup_slot_filter s k s' :
  lookup_slot (List.filter (fun x => negb (bool_decide (x.1 = s))) k) s' =
    if decide (s = s') then None else lookup_slot k s'.
Proof.
  induction k as [|x k IH]; cbn [List.filter].
  { by case_decide. }
  destruct (decide (x.1 = s)) as [E|E].
  - rewrite bool_decide_eq_true_2 by done. cbn [negb]. rewrite IH, lookup_slot_cons.
    destruct (decide (s = s')); [done|]. by rewrite decide_False by congruence.
  - rewrite bool_decide_eq_false_2 by done. cbn [negb]. rewrite !lookup_slot_cons, IH.
    destruct (decide (x.1 = s')); [|done]. by rewrite decide_False by congruence.
Qed.

#[global] Instance sample_tc_ok : TcKernelOk.
Proof.
  refine {| filter_at := lookup_slot |}; cbn [sample_tc_kernel bpf_tc_hook_create bpf_tc_attach
    bpf_tc_query bpf_tc_detach prog_info fst snd]; try done.
  - intros s fd k id. destruct (lookup_slot k s) eqn:E; [done|].
    destruct (fd <? 100); [|done]. intros _ [= <-]. split; [done|]. intros s'. cbn [snd]. by rewrite lookup_slot_cons.
  - intros s fd k. destruct (lookup_slot k s); [done|]. by destruct (fd <? 100).
  - intros s k. by destruct (lookup_slot k s).
  - intros s k s'. rewrite lookup_slot_filter.
    destruct (decide (s = s')); [by rewrite decide_True|by rewrite decide_False by tauto].
Defined.

Lemma Attach_owns_witness :
  exists t' k', Attach 3 0 5 1 50 (detached, []) = (Ok tt, (t', k')) /\
    filter_at k' (mk_slot 3 0 1 50) = Some 1005.
Proof.
  pose proof (Attach_owns 3 0 5 1 50 detached []) as Ha. eexists _, _. split; [reflexivity|].
  destruct Ha as (_ & _ & _ & _ & _ & Hs). exact (Hs (mk_slot 3 0 1 50)).
Defined.

(** Somebody has replaced our program 1005 by 7: it is left alone. *)
Lemma Detach_owned_witness :
  Detach (mk_tc 3 0 1 50 1005 true, [(mk_slot 3 0 1 50, 7)]) =
    (- ESTALE, (mk_tc 3 0 1 50 1005 false, [(mk_slot 3 0 1 50, 7)])).
Proof.
  pose proof (Detach_owned (mk_tc 3 0 1 50 1005 true) [(mk_slot 3 0 1 50, 7)]) as Hd.
  destruct (Detach _) as [rc [t' k']] eqn:E. destruct Hd as (_ & _ & _ & Hd & _).
  destruct Hd as (-> & -> & _); [done|done|discriminate|]. rewrite <- E. reflexivity.
Defined.

(** Between the query and the detach another process takes our program out and
    puts its own in: the detach then removes that one, and reports success. *)
Example Detach_race :
  Detach_while (fun _ => [(mk_slot 3 0 1 50, 7)]) (mk_tc 3 0 1 50 1005 true, [(mk_slot 3 0 1 50, 1005)]) =
    (0, (mk_tc 3 0 1 50 1005 false, [])).
Proof. reflexivity. Qed.
