(* ===== verification/EbpfObject.v ===== *)
(** * Loading the observer object ([inc/EbpfObject.hpp],
    [src/EbpfObject.cpp])

    [LoadObserver] opens the generated skeleton, writes the settings the TC
    observer reads, resizes its maps, selects its programs and loads it.  The
    state is the sequence of calls made to libbpf and the skeleton; their
    results are an input. *)
From S2P Require Import Prelude Abi TcObserver.

Definition ENOMEM : Z := 12.

Inductive TcApi := Legacy | Tcx.

#[export] Instance TcApi_eq_dec : EqDecision TcApi.
Proof. solve_decision. Defined.

Record ObjectOptions := mk_options {
  o_sample_every : Z;
  o_snapshot_bytes : Z;
  ring_buffer_bytes : Z;
  max_flows : Z;
  o_select_l4_proto : Z;
  o_classify : bool;
  o_flow_enabled : bool;
  ingress : bool;
  egress : bool;
}.

Definition default_options : ObjectOptions :=
  mk_options 128 0 (8 * 1024 * 1024) 4096 0 true false true true.

(** The calls, in order. *)
Inductive skel_call :=
  | Open (api : TcApi)
  | SetRodata (settings : config)
  | SetMaxEntries (map : string) (n : Z)
  | SetAutoload (prog : string) (b : bool)
  | Load
  | Destroy.

(** What the calls return. *)
Record skel_results := mk_results {
  open_failed : option Z;               (* errno, if no skeleton *)
  call_rc : skel_call -> Z;
  map_fd : string -> Z;
}.

Record LoadedObserver := mk_loaded {
  lo_ingress : bool;                    (* the program, if selected *)
  lo_egress : bool;
  events_fd : Z;
  counters_fd : Z;
  flows_fd : Z;
}.

Definition b2z (b : bool) : Z := if b then 1 else 0.

(** The settings in the skeleton's read-only data. *)
Definition rodata_of (o : ObjectOptions) : config :=
  mk_config (o_sample_every o) (o_snapshot_bytes o) (b2z (o_classify o)) (b2z (o_flow_enabled o))
    (o_select_l4_proto o).

Section Load.
Context (r : skel_results).

Definition log : Type := list skel_call.

Definition record_call (c : skel_call) : effect log unit := update (fun l => l ++ [c]).

(** [Check(f(...), what)]. *)
Definition Check_ (c : skel_call) (what : string) : effect log unit :=
  record_call c;;
  raise_when (negb (call_rc r c =? 0)) (system_error (- call_rc r c) what).

(** The owner, a [std::shared_ptr] with the skeleton's [destroy] as its deleter, goes
    when an exception leaves [LoadTyped].  A [shared_ptr] made from a pointer and a
    deleter calls it even when the pointer is null, so a failed open ends in a
    destroy too. *)
Definition with_owner {A} (m : effect log A) : effect log A := fun l =>
  match m l with
  | (Ok a, l) => (Ok a, l)
  | (Throw e, l) => (Throw e, l ++ [Destroy])
  end.

Definition configure (o : ObjectOptions) : effect log LoadedObserver :=
  record_call (SetRodata (rodata_of o));;
  Check_ (SetMaxEntries "events" (ring_buffer_bytes o)) "resize ring";;
  Check_ (SetMaxEntries "flows" (if o_flow_enabled o then max_flows o else 1)) "resize flows";;
  Check_ (SetAutoload "es_ingress" (ingress o)) "select ingress";;
  Check_ (SetAutoload "es_egress" (egress o)) "select egress";;
  Check_ Load "load observer; inspect libbpf/verifier diagnostics";;
  mret (mk_loaded (ingress o) (egress o) (map_fd r "events") (map_fd r "counters") (map_fd r "flows")).

Definition LoadTyped (o : ObjectOptions) (api : TcApi) : effect log LoadedObserver :=
  record_call (Open api);;
  with_owner
    match open_failed r with
    | Some errno => raise (system_error (if errno =? 0 then ENOMEM else errno) "open observer skeleton")
    | None => configure o
    end.

(** [has_tcx]: whether the build has the TCX skeleton. *)
Definition LoadObserver (has_tcx : bool) (o : ObjectOptions) (api : TcApi) : effect log LoadedObserver :=
  raise_when (negb (ingress o) && negb (egress o)) (invalid_argument "no TC direction selected");;
  match api, has_tcx with
  | Legacy, _ => LoadTyped o Legacy
  | Tcx, true => LoadTyped o Tcx
  | Tcx, false => raise (runtime_error "requested TC attachment API was not built")
  end.

End Load.

(** ** What a load does *)
Definition setup (o : ObjectOptions) : list skel_call :=
  [SetMaxEntries "events" (ring_buffer_bytes o);
   SetMaxEntries "flows" (if o_flow_enabled o then max_flows o else 1);
   SetAutoload "es_ingress" (ingress o); SetAutoload "es_egress" (egress o); Load].

(** The outcome of calls that must each return zero: how many were made,
    and whether all succeeded. *)
Fixpoint run_setup (r : skel_results) (cs : list skel_call) : list skel_call * option Z :=
  match cs with
  | [] => ([], None)
  | c :: cs =>
    if call_rc r c =? 0 then let '(done, e) := run_setup r cs in (c :: done, e)
    else ([c], Some (call_rc r c))
  end.

Lemma configure_spec r o l :
  let made := l ++ SetRodata (rodata_of o) :: (run_setup r (setup o)).1 in
  match (run_setup r (setup o)).2 with
  | None => configure r o l =
      (Ok (mk_loaded (ingress o) (egress o) (map_fd r "events") (map_fd r "counters") (map_fd r "flows")),
       made)
  | Some rc => exists what, configure r o l = (Throw (system_error (- rc) what), made)
  end.
Proof.
  unfold configure, Check_, record_call, raise_when, setup, mbind, effect_bind, update.
  cbn [run_setup].
  destruct (call_rc r (SetMaxEntries "events" _) =? 0); simpl; [|eexists; by rewrite <- !app_assoc].
  destruct (call_rc r (SetMaxEntries "flows" _) =? 0); simpl; [|eexists; by rewrite <- !app_assoc].
  destruct (call_rc r (SetAutoload "es_ingress" _) =? 0); simpl; [|eexists; by rewrite <- !app_assoc].
  destruct (call_rc r (SetAutoload "es_egress" _) =? 0); simpl; [|eexists; by rewrite <- !app_assoc].
  destruct (call_rc r Load =? 0); simpl; [|eexists; by rewrite <- !app_assoc].
  by rewrite <- !app_assoc.
Qed.

(** C37: loading the observer.  Without a direction, or with an API that was not built, nothing is
    called.  Otherwise the skeleton is opened, given exactly the chosen settings before anything
    else, its maps resized (the flow table to one entry when flows are off), its programs selected
    and it is loaded, stopping at the first call that fails.  On success the observer has exactly
    the selected programs and is not destroyed; every failure from the open on, its own included, calls
    the skeleton's destroy once, as the last act.  An open that fails without an error number is
    reported as ENOMEM. *)
Theorem LoadObserver_spec r has_tcx o api :
  let refused := (negb (ingress o) && negb (egress o)) || (bool_decide (api = Tcx) && negb has_tcx) in
  match LoadObserver r has_tcx o api [] with
  | (Ok lo, calls) => refused = false /\ open_failed r = None /\ (run_setup r (setup o)).2 = None /\
      calls = Open api :: SetRodata (rodata_of o) :: setup o /\
      lo = mk_loaded (ingress o) (egress o) (map_fd r "events") (map_fd r "counters") (map_fd r "flows")
  | (Throw e, calls) =>
      (refused = true /\ calls = []) \/
      (refused = false /\ exists errno, open_failed r = Some errno /\
         e = system_error (if errno =? 0 then ENOMEM else errno) "open observer skeleton" /\
         calls = [Open api; Destroy]) \/
      (refused = false /\ exists rc what, (run_setup r (setup o)).2 = Some rc /\
         e = system_error (- rc) what /\
         calls = Open api :: SetRodata (rodata_of o) :: (run_setup r (setup o)).1 ++ [Destroy])
  end.
Proof.
  assert (Hall : (run_setup r (setup o)).2 = None -> (run_setup r (setup o)).1 = setup o).
  { generalize (setup o). intros cs. induction cs as [|c cs IH]; simpl; [done|].
    destruct (call_rc r c =? 0); [|done]. destruct (run_setup r cs). simpl in *. intros H.
    by rewrite IH. }
  assert (Htyped : forall api, match LoadTyped r o api [] with
    | (Ok lo, calls) => open_failed r = None /\ (run_setup r (setup o)).2 = None /\
        calls = Open api :: SetRodata (rodata_of o) :: setup o /\
        lo = mk_loaded (ingress o) (egress o) (map_fd r "events") (map_fd r "counters") (map_fd r "flows")
    | (Throw e, calls) => (exists errno, open_failed r = Some errno /\
         e = system_error (if errno =? 0 then ENOMEM else errno) "open observer skeleton" /\
         calls = [Open api; Destroy]) \/
       (exists rc what, (run_setup r (setup o)).2 = Some rc /\ e = system_error (- rc) what /\
         calls = Open api :: SetRodata (rodata_of o) :: (run_setup r (setup o)).1 ++ [Destroy]) end).
  { intros api'. pose proof (configure_spec r o [Open api']) as Hc. cbv zeta in Hc.
    destruct (run_setup r (setup o)) as [made failed]. cbn [fst snd] in *.
    unfold LoadTyped, record_call, mbind, effect_bind, update, with_owner. cbn [app].
    destruct (open_failed r) as [errno|]; [left; by exists errno|].
    destruct failed as [rc|].
    - destruct Hc as [what ->]. right. exists rc, what. by split_and!.
    - rewrite Hc. rewrite Hall by done. done. }
  unfold LoadObserver, raise_when, mbind, effect_bind.
  destruct (negb (ingress o) && negb (egress o)); simpl; [by left|].
  destruct api as [|]; simpl; [specialize (Htyped Legacy)|destruct has_tcx; simpl; [specialize (Htyped Tcx)|by left]];
    destruct (LoadTyped r o _ []) as [[lo|e] calls]; destruct_or?; naive_solver.
Qed.

(** A skeleton that cannot be opened. *)
Example open_fails :
  LoadObserver (mk_results (Some 0) (fun _ => 0) (fun _ => 3)) false default_options Legacy [] =
  (Throw (system_error ENOMEM "open observer skeleton"), [Open Legacy; Destroy]).
Proof. reflexivity. Qed.

(** A load in which the verifier rejects the program. *)
Example load_rejected :
  LoadObserver (mk_results None (fun c => match c with Load => -22 | _ => 0 end) (fun _ => 3))
    false default_options Legacy [] =
  (Throw (system_error 22 "load observer; inspect libbpf/verifier diagnostics"),
   [Open Legacy; SetRodata (mk_config 128 0 1 0 0); SetMaxEntries "events" 8388608;
    SetMaxEntries "flows" 1; SetAutoload "es_ingress" true; SetAutoload "es_egress" true; Load;
    Destroy]).
Proof. reflexivity. Qed.
