(* ===== verification/PcapReceiver.v ===== *)
(** * Packet capture ([int/IPacketStore.hpp], [inc/PcapReceiver.hpp],
    [src/PcapReceiver.cpp])

    A [PcapReceiver] captures on one device, forwards each packet to a route
    device if it has one, and records it in the packet store if asked to.
    PcapPlusPlus is two classes: [Pcap], the live devices and their state,
    and [Pcpp], its packet parser. *)
From S2P Require Import Prelude.

Record PacketInfo := mk_info {
  iface : string;
  src_ip : string;
  dst_ip : string;
  protocol : string;
  length_ : Z;
  data_hex : string;
  timestamp_us : Z;
}.

(** A captured packet with its time stamp. *)
Record RawPacket := mk_raw {
  raw_data : bytes;
  tv_sec : Z;
  tv_nsec : Z;
}.

(** ** Devices

    [PcapLiveDevice] and [PcapLiveDeviceList] of PcapPlusPlus: a device is
    known by its name; [open_mode] is the direction it was opened with,
    nothing while it is closed. *)
Inductive PcapDirection := PCPP_INOUT | PCPP_IN.

Class Pcap := {
  devices : Type;
  open_mode : string -> devices -> option PcapDirection;
  captureActive : string -> devices -> bool;
  open_device : string -> PcapDirection -> devices -> bool * devices;
  close_device : string -> devices -> devices;
  startCapture : string -> devices -> bool * devices;
  stopCapture : string -> devices -> devices;
  getPcapLiveDevicesList : list string;
  getPcapLiveDeviceByName : string -> option string;
}.

Definition isOpened `{Pcap} (d : string) (s : devices) : bool := bool_decide (is_Some (open_mode d s)).

(** What PcapPlusPlus documents: an operation touches its own device only;
    a capture that is running cannot be started again; a device whose
    capture has been stopped can be closed. *)
Class PcapOk `{Pcap} : Prop := {
  open_opened x d dir s : open_mode d s = None ->
    open_mode x (open_device d dir s).2 =
      if decide (x = d) then (if (open_device d dir s).1 then Some dir else None) else open_mode x s;
  open_capture x d dir s : captureActive x (open_device d dir s).2 = captureActive x s;
  close_opened x d s : open_mode x (close_device d s) = if decide (x = d) then None else open_mode x s;
  close_capture x d s : captureActive d s = false ->
    captureActive x (close_device d s) = captureActive x s;
  start_opened x d s : open_mode x (startCapture d s).2 = open_mode x s;
  start_capture x d s : captureActive x (startCapture d s).2 =
    captureActive x s || (bool_decide (x = d) && (startCapture d s).1);
  start_idle d s : (startCapture d s).1 = true -> captureActive d s = false;
  stop_opened x d s : open_mode x (stopCapture d s) = open_mode x s;
  stop_capture x d s : captureActive x (stopCapture d s) =
    captureActive x s && negb (bool_decide (x = d));
  by_name d e : getPcapLiveDeviceByName d = Some e -> e = d;
}.

(** ** The receiver *)
Record PcapReceiver := mk_receiver {
  has_store : bool;
  device_ : option string;
  route_device_ : option string;
  record_packets_ : bool;
  debug_packets_ : bool;
  capturing_ : bool;
}.

Definition new_receiver (store : bool) (device route : option string) (record debug : bool) : PcapReceiver :=
  mk_receiver store device route record debug false.

Definition set_capturing (b : bool) (r : PcapReceiver) : PcapReceiver :=
  mk_receiver (has_store r) (device_ r) (route_device_ r) (record_packets_ r) (debug_packets_ r) b.

Section Receiver.
Context `{Pcap}.

Definition lift {A} (f : devices -> A * devices) : effect devices A := fun s =>
  let '(a, s) := f s in (Ok a, s).

(** [Receive()]: the receiver as it is afterwards. *)
Definition Receive (r : PcapReceiver) : effect devices PcapReceiver :=
  match device_ r with
  | None => raise (runtime_error "PcapReceiver: capture device is not set")
  | Some d =>
    s ← get_state;
    raise_when (negb (isOpened d s))
      (runtime_error ("PcapReceiver: capture device '" +:+ d +:+ "' is not open"));;
    match route_device_ r with
    | Some route =>
      raise_when (negb (isOpened route s))
        (runtime_error ("PcapReceiver: route device '" +:+ route +:+ "' is not open"))
    | None => mret tt
    end;;
    ok ← lift (startCapture d);
    raise_when (negb ok) (runtime_error ("PcapReceiver: failed to start capture on '" +:+ d +:+ "'"));;
    mret (set_capturing true r)
  end.

(** [Stop()], which the destructor calls: what it leaves when it returns.  It
    returns when [stopCapture] has joined the capture thread; whether that
    happens depends on the thread, and is the matter of [ServiceShutdown] and
    [Lifetime]. *)
Definition Stop (r : PcapReceiver) (s : devices) : PcapReceiver * devices :=
  match device_ r with
  | Some d => if capturing_ r then (set_capturing false r, stopCapture d s) else (r, s)
  | None => (r, s)
  end.

End Receiver.

(** ** Hexadecimal encoding *)
Definition hex_digit (z : Z) : Ascii.ascii :=
  nth (Z.to_nat z) (String.list_ascii_of_string "0123456789abcdef") Ascii.zero.

(** [oss << std::hex << value] for a non-negative [value] below 256. *)
Definition hex_digits (z : Z) : list Ascii.ascii :=
  if z <? 16 then [hex_digit z] else [hex_digit (z / 16); hex_digit (z mod 16)].

(** [std::setfill('0')], [std::setw(2)]. *)
Definition setw2 (l : list Ascii.ascii) : list Ascii.ascii :=
  replicate (2 - length l) (hex_digit 0) ++ l.

Definition hex_encode (data : bytes) : string :=
  String.string_of_list_ascii (data ≫= fun b => setw2 (hex_digits b)).

(** ** Processing a packet *)

(** What the packet parser says of a packet. *)
Record parsed := mk_parsed {
  ipv4_layer : option (string * string);
  ipv6_layer : option (string * string);
  arp_layer : option (string * string);
  is_arp : bool;
  is_tcp : bool;
  is_udp : bool;
  is_icmp : bool;
}.

Class Pcpp := pcpp_parse : bytes -> parsed.

Section Process.
Context `{Pcpp}.

Definition addresses (p : parsed) : string * string :=
  match ipv4_layer p, ipv6_layer p, arp_layer p with
  | Some a, _, _ => a
  | None, Some a, _ => a
  | None, None, Some a => a
  | None, None, None => ("N/A", "N/A")%string
  end.

Definition protocol_of (p : parsed) : string :=
  (if is_arp p then "ARP" else if is_tcp p then "TCP" else if is_udp p then "UDP"
   else if is_icmp p then "ICMP" else "OTHER")%string.

(** The fields of [info] before the hexadecimal copy. *)
Definition describe (name : string) (p : RawPacket) : PacketInfo :=
  let l := pcpp_parse (raw_data p) in
  mk_info name (addresses l).1 (addresses l).2 (protocol_of l)
    (u32 (Z.of_nat (length (raw_data p)))) ""
    (u64 (u64 (u64 (tv_sec p) * 1000000) + u64 (Z.quot (tv_nsec p) 1000))).

(** The effects of a receiver on other components: packets sent on the
    route device and records given to the store. *)
Record io := mk_io {
  sent : list bytes;
  stored : list PacketInfo;
}.

(** The forwarding and the recording part of [processPacket]; [send] is
    [sendPacket] of the route device and [store] is [Store], which may throw. *)
Definition forward_packet (send : bytes -> bool) (r : PcapReceiver) (p : RawPacket) : effect io unit :=
  match route_device_ r with
  | None => mret tt
  | Some route =>
    raise_when (negb (send (raw_data p)))
      (runtime_error ("PcapReceiver: failed to forward packet from '" +:+ default "" (device_ r)
                      +:+ "' to '" +:+ route +:+ "'"));;
    update (fun w => mk_io (sent w ++ [raw_data p]) (stored w))
  end.

Definition with_data (p : RawPacket) (info : PacketInfo) : PacketInfo :=
  mk_info (iface info) (src_ip info) (dst_ip info) (protocol info) (length_ info)
    (hex_encode (take (Z.to_nat (length_ info)) (raw_data p))) (timestamp_us info).

Definition record_packet (store : PacketInfo -> result unit) (r : PcapReceiver) (p : RawPacket)
    (info : PacketInfo) : effect io unit :=
  if negb (record_packets_ r) then mret tt
  else
    raise_when (negb (has_store r))
      (runtime_error "PcapReceiver: packet recording enabled without a packet store");;
    match store (with_data p info) with
    | Ok _ => update (fun w => mk_io (sent w) (stored w ++ [with_data p info]))
    | Throw e => raise e
    end.

Definition processPacket (send : bytes -> bool) (store : PacketInfo -> result unit)
    (r : PcapReceiver) (p : RawPacket) : effect io unit :=
  let info := describe (default "" (device_ r)) p in
  forward_packet send r p;;
  record_packet store r p info.

(** [onPacketArrives]: nothing escapes into the capture thread. *)
Definition onPacketArrives (send : bytes -> bool) (store : PacketInfo -> result unit)
    (r : PcapReceiver) (p : RawPacket) (w : io) : io := (processPacket send store r p w).2.

End Process.

(** ** The recorded bytes can be recovered *)
Definition hex_value (c : Ascii.ascii) : option Z :=
  (fun x => Z.of_nat x.1) <$> list_find (fun d => d = c) (String.list_ascii_of_string "0123456789abcdef").

Fixpoint hex_decode (l : list Ascii.ascii) : option bytes :=
  match l with
  | [] => Some []
  | h :: l :: rest =>
    a ← hex_value h; b ← hex_value l; bs ← hex_decode rest; Some (a * 16 + b :: bs)
  | _ => None
  end.

Definition digits_ok (b : Z) : bool :=
  match setw2 (hex_digits b) with
  | [h; l] => match hex_value h, hex_value l with Some x, Some y => x * 16 + y =? b | _, _ => false end
  | _ => false
  end.

(** The two digits of a byte, checked for all 256 values. *)
Lemma digits_ok_byte b : is_byte b -> digits_ok b = true.
Proof.
  intros Hb. assert (H : forallb digits_ok (seqZ 0 256) = true) by (vm_compute; reflexivity).
  rewrite forallb_forall in H. apply H, list_elem_of_In, elem_of_seqZ. unfold is_byte in Hb. lia.
Qed.

Lemma hex_byte_decode b rest : is_byte b ->
  hex_decode (setw2 (hex_digits b) ++ rest) = (fun bs => b :: bs) <$> hex_decode rest.
Proof.
  intros Hb%digits_ok_byte. unfold digits_ok in Hb.
  destruct (setw2 (hex_digits b)) as [|h [|l []]]; try done. cbn [app hex_decode].
  destruct (hex_value h) as [x|]; [|done]. destruct (hex_value l) as [y|]; [|done].
  apply Z.eqb_eq in Hb as <-. cbn [mbind option_bind]. by destruct (hex_decode rest).
Qed.

Lemma hex_encode_decode data : bytes_ok data ->
  hex_decode (String.list_ascii_of_string (hex_encode data)) = Some data.
Proof.
  intros Hd. unfold hex_encode. rewrite String.list_ascii_of_string_of_list_ascii.
  induction Hd as [|b data Hb _ IH]; [done|]. cbn [mbind list_bind].
  rewrite hex_byte_decode by done. cbn [mbind list_bind] in IH. by rewrite IH.
Qed.

(** ** What happens to a packet *)
Section Facts.
Context `{HP : Pcpp}.

Lemma record_packet_spec store r p info w : exists recorded,
  let w' := (record_packet store r p info w).2 in
  sent w' = sent w /\ stored w' = stored w ++ recorded /\
  (recorded = [] \/ recorded = [with_data p info] /\ store (with_data p info) = Ok tt) /\
  (record_packets_ r = false \/ has_store r = false -> recorded = []) /\
  (record_packets_ r = true -> has_store r = true -> store (with_data p info) = Ok tt -> recorded <> []).
Proof.
  unfold record_packet. destruct (record_packets_ r); cbn [negb].
  2: { exists []. simpl. rewrite app_nil_r. split_and!; auto; done. }
  unfold raise_when, mbind, effect_bind, update, raise.
  destruct (has_store r); simpl; [|exists []; rewrite app_nil_r; split_and!; auto; done].
  destruct (store (with_data p info)) as [[]|e] eqn:Es; simpl.
  - eexists. split_and!; [done|done|by right|by intros [?|?]|done].
  - exists []. rewrite app_nil_r. split_and!; auto; done.
Qed.

Lemma forward_packet_spec send r p w :
  let failed := bool_decide (is_Some (route_device_ r)) && negb (send (raw_data p)) in
  forward_packet send r p w =
    ((if failed then Throw (runtime_error ("PcapReceiver: failed to forward packet from '" +:+
                      default "" (device_ r) +:+ "' to '" +:+ default "" (route_device_ r) +:+ "'"))
      else Ok tt),
     mk_io (sent w ++ if bool_decide (is_Some (route_device_ r)) && send (raw_data p) then [raw_data p] else [])
       (stored w)).
Proof.
  unfold forward_packet, raise_when, mbind, effect_bind, update, raise.
  destruct (route_device_ r) as [route|]; [|destruct w; by rewrite app_nil_r].
  rewrite bool_decide_eq_true_2 by eauto. destruct w. destruct (send (raw_data p)); [done|].
  by rewrite app_nil_r.
Qed.

Lemma describe_ok name p : bytes_ok (raw_data p) -> Z.of_nat (length (raw_data p)) < 2 ^ 32 ->
  length_ (with_data p (describe name p)) = Z.of_nat (length (raw_data p)) /\
  hex_decode (String.list_ascii_of_string (data_hex (with_data p (describe name p)))) = Some (raw_data p).
Proof.
  intros Hb Hl. cbn [with_data length_ data_hex describe]. rewrite wrap_small by lia.
  split; [done|]. rewrite take_ge by lia. by apply hex_encode_decode.
Qed.

(** Processing a packet.  With a route device the packet is sent there first, unchanged and
    exactly once, and if that fails nothing is recorded; it is recorded only if recording is on and
    there is a store, and the record then names the capture device, the addresses and the protocol
    the parser found, carries the packet's length, and its hexadecimal data decodes to exactly the
    packet.  No exception leaves the callback. *)
Theorem onPacketArrives_spec send store r p w :
  bytes_ok (raw_data p) -> Z.of_nat (length (raw_data p)) < 2 ^ 32 ->
  let w' := onPacketArrives send store r p w in
  let forwards := bool_decide (is_Some (route_device_ r)) in
  let failed := forwards && negb (send (raw_data p)) in
  sent w' = sent w ++ (if forwards && send (raw_data p) then [raw_data p] else []) /\
  exists recorded, stored w' = stored w ++ recorded /\
    (recorded = [] \/ exists info, recorded = [info] /\ iface info = default "" (device_ r)%string /\
       (src_ip info, dst_ip info) = addresses (pcpp_parse (raw_data p)) /\
       protocol info = protocol_of (pcpp_parse (raw_data p)) /\
       length_ info = Z.of_nat (length (raw_data p)) /\
       hex_decode (String.list_ascii_of_string (data_hex info)) = Some (raw_data p) /\
       store info = Ok tt) /\
    (failed = true \/ record_packets_ r = false \/ has_store r = false -> recorded = []) /\
    (failed = false -> record_packets_ r = true -> has_store r = true ->
       (forall info, store info = Ok tt) -> recorded <> []).
Proof.
  intros Hb Hl. cbv zeta. unfold onPacketArrives, processPacket.
  unfold mbind, effect_bind. rewrite forward_packet_spec. cbv zeta.
  destruct (bool_decide (is_Some (route_device_ r)) && negb (send (raw_data p))) eqn:Ef.
  - cbn [snd sent stored]. split; [done|]. exists []. rewrite app_nil_r. by split_and!; auto.
  - set (w1 := mk_io _ _). set (info := describe _ p).
    destruct (record_packet_spec store r p info w1) as (recorded & H1 & H2 & H3 & H4 & H5).
    split; [exact H1|]. exists recorded. split; [exact H2|]. split_and!.
    + destruct H3 as [?|[? ?]]; [by left|]. right. exists (with_data p info).
      destruct (describe_ok (default "" (device_ r)) p Hb Hl) as [? ?].
      split_and!; try done. cbn. by destruct (addresses _).
    + intros [?|?]; [done|by apply H4].
    + intros _ ? ? Hall. by apply H5.
Qed.
End Facts.

(** ** A concrete packet *)
Definition sample_parse : Pcpp := fun _ =>
  mk_parsed (Some ("10.0.0.1", "10.0.0.2")%string) None None false false true false.
Definition sample_raw : RawPacket := mk_raw [0; 171; 255] 1700000000 123456789.
Definition sample_receiver : PcapReceiver := new_receiver true (Some "eth0"%string) (Some "eth1"%string) true false.

Example onPacketArrives_sample :
  @onPacketArrives sample_parse (fun _ => true) (fun _ => Ok tt) sample_receiver sample_raw (mk_io [] []) =
  mk_io [[0; 171; 255]]
    [mk_info "eth0" "10.0.0.1" "10.0.0.2" "UDP" 3 "00abff" 1700000000123456].
Proof. vm_compute. reflexivity. Qed.

Lemma onPacketArrives_spec_witness :
  sent (@onPacketArrives sample_parse (fun _ => true) (fun _ => Ok tt) sample_receiver sample_raw (mk_io [] [])) =
  [[0; 171; 255]].
Proof.
  refine (proj1 (@onPacketArrives_spec sample_parse (fun _ => true) (fun _ => Ok tt)
    sample_receiver sample_raw (mk_io [] []) _ _)).
  - repeat constructor; unfold is_byte; lia.
  - reflexivity.
Defined.
