(* ===== verification/ElephantShrew.v ===== *)
(** * The capture service ([src/ElephantShrew.cpp], [src/Bootstrapper.cpp])

    An [ElephantShrew] owns the receivers and the devices it opened.  [Init]
    opens the configured devices and starts one receiver on each; the
    destructor stops the receivers and closes the devices.  A [Bootstrapper]
    holds the one that is running. *)
From S2P Require Import Prelude RuntimeConfig PcapReceiver.

Section ElephantShrew.
Context `{Pcap}.

(** [receivers_] and [opened_devices_], with the devices of the host. *)
Record ElephantShrew := mk_shrew {
  receivers_ : list PcapReceiver;
  opened_devices_ : list string;
  host_devices : devices;
}.

Definition on_devices {A} (m : effect devices A) : effect ElephantShrew A := fun w =>
  let '(r, s) := m (host_devices w) in (r, mk_shrew (receivers_ w) (opened_devices_ w) s).

(** ** Devices *)
Definition ResolveCaptureDevice (iface : string) : result string :=
  if bool_decide (iface = ""%string) then
    match getPcapLiveDevicesList with
    | [] => Throw (runtime_error "ElephantShrew: no network interfaces found")
    | device :: _ => Ok device
    end
  else
    match getPcapLiveDeviceByName iface with
    | None => Throw (runtime_error ("ElephantShrew: interface '" +:+ iface +:+ "' not found"))
    | Some device => Ok device
    end.

Definition resolve (iface : string) : effect ElephantShrew string := fun w =>
  (ResolveCaptureDevice iface, w).

Definition OpenDevice (device : string) (direction : PcapDirection) : effect devices unit :=
  s ← get_state;
  if isOpened device s then mret tt
  else
    ok ← lift (open_device device direction);
    raise_when (negb ok)
      (runtime_error ("ElephantShrew: failed to open interface '" +:+ device +:+ "'")).

Definition TrackOpenedDevice (device : string) : effect ElephantShrew unit :=
  update (fun w => mk_shrew (receivers_ w)
    (if bool_decide (device ∈ opened_devices_ w) then opened_devices_ w
     else opened_devices_ w ++ [device]) (host_devices w)).

(** [receivers_.clear()]: each receiver's destructor stops it; the state once
    all of them have returned. *)
Definition clear_receivers (w : ElephantShrew) : ElephantShrew :=
  mk_shrew [] (opened_devices_ w) (foldl (fun s r => (Stop r s).2) (host_devices w) (receivers_ w)).

Definition CloseDevices (w : ElephantShrew) : ElephantShrew :=
  mk_shrew (receivers_ w) []
    (foldl (fun s d => if isOpened d s then close_device d s else s)
       (host_devices w) (rev (opened_devices_ w))).

(** The destructor, [~ElephantShrew], once it has returned; [Lifetime.lifetime]
    says when it does. *)
Definition destroy (w : ElephantShrew) : ElephantShrew := CloseDevices (clear_receivers w).

(** ** Init *)

(** [make_shared<PcapReceiver>(...)], [Receive()] and [push_back]. *)
Definition start_receiver (opts : CaptureOptions) (store : bool) (device : string) (route : option string)
    : effect ElephantShrew unit :=
  receiver ← on_devices (Receive (new_receiver store (Some device) route (record_packets opts) (debug_packets opts)));
  update (fun w => mk_shrew (receivers_ w ++ [receiver]) (opened_devices_ w) (host_devices w)).

Definition open_and_track (device : string) (direction : PcapDirection) : effect ElephantShrew unit :=
  on_devices (OpenDevice device direction);; TrackOpenedDevice device.

Definition capture_on (opts : CaptureOptions) (store : bool) (iface : string) : effect ElephantShrew unit :=
  device ← resolve iface;
  open_and_track device PCPP_INOUT;;
  start_receiver opts store device None.

Fixpoint capture_all (opts : CaptureOptions) (store : bool) (l : list string) : effect ElephantShrew unit :=
  match l with
  | [] => mret tt
  | iface :: l => capture_on opts store iface;; capture_all opts store l
  end.

Definition route_traffic (opts : CaptureOptions) (store : bool) (r : RoutingOptions)
    : effect ElephantShrew unit :=
  ingress ← resolve (ingress_iface r);
  egress ← resolve (egress_iface r);
  open_and_track ingress PCPP_IN;;
  open_and_track egress PCPP_IN;;
  start_receiver opts store ingress (Some egress);;
  if bidirectional r then start_receiver opts store egress (Some ingress) else mret tt.

(** [Init]; [make_store] is the constructor of the packet store. *)
Definition Init (make_store : RedisStoreOptions -> result unit) (config : RuntimeConfig)
    : effect ElephantShrew unit :=
  update clear_receivers;;
  update CloseDevices;;
  let opts := capture config in
  (if record_packets opts then fun w => (make_store (redis config), w) else mret tt);;
  let store := record_packets opts in
  if enabled (routing config) then route_traffic opts store (routing config)
  else
    match ifaces opts with
    | [] => capture_on opts store ""
    | l => capture_all opts store l
    end.

(** ** Bootstrapper

    Hypodermic's container makes a new [ElephantShrew] for each [resolve];
    [resolve]'s owner is a local variable until [Init] has returned. *)
Record Bootstrapper := mk_bootstrapper {
  container_ : bool;
  elephantShrew_ : option (list PcapReceiver * list string);
}.

Definition Strap (b : Bootstrapper) : Bootstrapper := mk_bootstrapper true (elephantShrew_ b).

(** Releasing the last owner of an [ElephantShrew] destroys it. *)
Definition reset (o : option (list PcapReceiver * list string)) (s : devices) : devices :=
  match o with
  | None => s
  | Some (rs, ds) => host_devices (destroy (mk_shrew rs ds s))
  end.

Definition Resolve (make_store : RedisStoreOptions -> result unit) (config : RuntimeConfig)
    (b : Bootstrapper) (s : devices) : result unit * Bootstrapper * devices :=
  if negb (container_ b) then
    (Throw (runtime_error "Bootstrapper::Resolve called before Strap"), b, s)
  else
    match Init make_store config (mk_shrew [] [] s) with
    | (Ok _, w) =>
      (Ok tt, mk_bootstrapper true (Some (receivers_ w, opened_devices_ w)),
       reset (elephantShrew_ b) (host_devices w))
    | (Throw e, w) => (Throw e, b, host_devices (destroy w))
    end.

(** [~Bootstrapper]. *)
Definition release (b : Bootstrapper) (s : devices) : devices := reset (elephantShrew_ b) s.

(** One attempt of [RunCaptureService]: its [Bootstrapper] is a local. *)
Definition service_attempt (make_store : RedisStoreOptions -> result unit) (config : RuntimeConfig)
    (s : devices) : result unit * devices :=
  let '(r, b, s) := Resolve make_store config (Strap (mk_bootstrapper false None)) s in
  (r, release b s).

End ElephantShrew.

(** ** Ownership *)
Section Facts.
Context `{HP : Pcap} {HO : PcapOk}.

(** No device is open or capturing. *)
Definition released (s : devices) : Prop := forall x, open_mode x s = None /\ captureActive x s = false.

(** Whatever is open is tracked, whatever captures has a receiver. *)
Definition managed (w : ElephantShrew) : Prop :=
  (forall x, isOpened x (host_devices w) = true -> x ∈ opened_devices_ w) /\
  (forall x, captureActive x (host_devices w) = true ->
     exists r, r ∈ receivers_ w /\ device_ r = Some x /\ capturing_ r = true).

Lemma isOpened_mode x s : isOpened x s = true <-> is_Some (open_mode x s).
Proof. apply bool_decide_eq_true. Qed.

Lemma isOpened_false x s : isOpened x s = false <-> open_mode x s = None.
Proof. unfold isOpened. rewrite bool_decide_eq_false. symmetry. apply eq_None_not_Some. Qed.

(** *** Teardown *)
Lemma Stop_opened x r s : open_mode x (Stop r s).2 = open_mode x s.
Proof. unfold Stop. destruct (device_ r); [|done]. destruct (capturing_ r); [apply stop_opened|done]. Qed.

Lemma Stop_capture x r s :
  captureActive x (Stop r s).2 =
  captureActive x s && negb (bool_decide (device_ r = Some x) && capturing_ r).
Proof.
  unfold Stop. destruct (device_ r) as [d|]; [|by rewrite andb_true_r].
  destruct (capturing_ r); simpl.
  - rewrite stop_capture, andb_true_r. do 2 f_equal. apply bool_decide_ext. split; [by intros ->|by intros [= ->]].
  - by rewrite andb_false_r, andb_true_r.
Qed.

Lemma stop_all_opened x rs s : open_mode x (foldl (fun s r => (Stop r s).2) s rs) = open_mode x s.
Proof. revert s. induction rs as [|r rs IH]; intros s; simpl; [done|]. by rewrite IH, Stop_opened. Qed.

Lemma stop_all_capture x rs s :
  (captureActive x s = true -> exists r, r ∈ rs /\ device_ r = Some x /\ capturing_ r = true) ->
  captureActive x (foldl (fun s r => (Stop r s).2) s rs) = false.
Proof.
  revert s. induction rs as [|r rs IH]; intros s Hs; simpl.
  - destruct (captureActive x s); [|done]. destruct (Hs eq_refl) as (r & Hr & _). by apply elem_of_nil in Hr.
  - apply IH. rewrite Stop_capture. intros [Hx Hr]%andb_prop.
    destruct (Hs Hx) as (r' & [->|Hin]%elem_of_cons & Hd & Hc); [|by exists r'].
    rewrite bool_decide_eq_true_2, Hc in Hr by done. done.
Qed.

Definition close_all (s : devices) (l : list string) : devices :=
  foldl (fun s d => if isOpened d s then close_device d s else s) s l.

Lemma close_all_spec l s : (forall x, captureActive x s = false) ->
  (forall x, captureActive x (close_all s l) = false) /\
  (forall x, open_mode x (close_all s l) = if decide (x ∈ l) then None else open_mode x s).
Proof.
  revert s. induction l as [|d l IH]; intros s Hs; simpl.
  { split; [done|]. intros x. by destruct (decide (x ∈ [])) as [?%elem_of_nil|]. }
  set (s' := if isOpened d s then close_device d s else s).
  assert (Hm : forall x, open_mode x s' = if decide (x = d) then None else open_mode x s).
  { intros x. subst s'. destruct (isOpened d s) eqn:E; [apply close_opened|].
    apply isOpened_false in E. by destruct (decide (x = d)) as [->|]. }
  destruct (IH s') as [Hc Ho].
  { intros x. subst s'. destruct (isOpened d s); [|done]. by rewrite close_capture. }
  split; [done|]. intros x. rewrite Ho, Hm.
  destruct (decide (x ∈ l)) as [Hx|Hx], (decide (x = d)) as [->|Hd];
    destruct (decide (_ ∈ d :: _)) as [Hy|Hy]; try done; exfalso; set_solver.
Qed.

Lemma managed_clear w : managed w -> managed (clear_receivers w) /\
  (forall x, captureActive x (host_devices (clear_receivers w)) = false).
Proof.
  intros [Ho Hc].
  assert (Hx : forall x, captureActive x (host_devices (clear_receivers w)) = false).
  { intros x. apply stop_all_capture, Hc. }
  split; [split|done].
  - intros x. unfold isOpened. simpl. rewrite stop_all_opened. apply Ho.
  - intros x. by rewrite Hx.
Qed.

Lemma destroy_released w : managed w -> released (host_devices (destroy w)).
Proof.
  intros [[Ho _] Hc]%managed_clear x. unfold destroy, CloseDevices. cbn [host_devices].
  destruct (close_all_spec (rev (opened_devices_ (clear_receivers w))) _ Hc) as [H1 H2].
  unfold close_all in H1, H2. split; [|apply H1]. rewrite H2.
  destruct (decide _) as [|Hx]; [done|].
  apply eq_None_not_Some. intros Hs. apply Hx, list_elem_of_In, in_rev, list_elem_of_In.
  rewrite rev_involutive. by apply Ho, isOpened_mode.
Qed.

(** ** The running service *)

(** The receiver started on [d], and what it needs to work. *)
Definition running (opts : CaptureOptions) (p : string * option string) : PcapReceiver :=
  mk_receiver (record_packets opts) (Some p.1) p.2 (record_packets opts) (debug_packets opts) true.

Definition live (dir : PcapDirection) (s : devices) (p : string * option string) : Prop :=
  open_mode p.1 s = Some dir /\ captureActive p.1 s = true /\
  (forall e, p.2 = Some e -> open_mode e s = Some dir).

(** The state of [Init] once the receivers of [ps] run. *)
Definition serving (opts : CaptureOptions) (dir : PcapDirection) (ps : list (string * option string))
    (w : ElephantShrew) : Prop :=
  receivers_ w = running opts <$> ps /\ NoDup ps.*1 /\ Forall (live dir (host_devices w)) ps /\
  (forall x, captureActive x (host_devices w) = true -> x ∈ ps.*1) /\
  (forall x m, open_mode x (host_devices w) = Some m -> m = dir /\ x ∈ opened_devices_ w).

Lemma serving_managed opts dir ps w : serving opts dir ps w -> managed w.
Proof.
  intros (Hr & _ & _ & Hc & Ho). split.
  - intros x [m Hm]%isOpened_mode. by apply (Ho x m).
  - intros x Hx. apply Hc, list_elem_of_fmap in Hx as (p & -> & Hp).
    exists (running opts p). rewrite Hr. split; [by apply list_elem_of_fmap_2|done].
Qed.

Lemma released_serving opts dir ds s : released s -> serving opts dir [] (mk_shrew [] ds s).
Proof.
  intros Hs. split_and!; try done; [constructor| |].
  - intros x. simpl. by rewrite (proj2 (Hs x)).
  - intros x m. simpl. by rewrite (proj1 (Hs x)).
Qed.

(** Every closed device opens, every idle open device starts capturing. *)
Definition healthy : Prop :=
  (forall d dir s, open_mode d s = None -> (open_device d dir s).1 = true) /\
  (forall d s, isOpened d s = true -> captureActive d s = false -> (startCapture d s).1 = true).

Definition open_in (dir : PcapDirection) (xs : list string) (w : ElephantShrew) : Prop :=
  Forall (fun x => open_mode x (host_devices w) = Some dir) xs.

Lemma live_open dir s s' p : (forall x, open_mode x s = Some dir -> open_mode x s' = Some dir) ->
  (forall x, captureActive x s = true -> captureActive x s' = true) -> live dir s p -> live dir s' p.
Proof. intros Ho Hc (H1 & H2 & H3). split_and!; auto. Qed.

Lemma open_and_track_spec opts dir ps xs d :
  hoare (fun w => serving opts dir ps w /\ open_in dir xs w) (open_and_track d dir)
    (fun _ w => serving opts dir ps w /\ open_in dir (d :: xs) w)
    (fun _ w => managed w /\ ~ healthy).
Proof.
  intros w [Hw Hxs]. unfold open_and_track, on_devices, OpenDevice, TrackOpenedDevice, raise_when, raise, get_state, update, lift.
  unfold mbind, effect_bind. destruct (isOpened d (host_devices w)) eqn:Ed.
  - simpl. apply isOpened_mode in Ed as [m Hm].
    destruct Hw as (Hr & Hn & Hl & Hc & Ho). destruct (Ho d m Hm) as [-> Hd].
    rewrite bool_decide_eq_true_2 by done. split; [by split_and!|]. by constructor.
  - apply isOpened_false in Ed. pose proof (fun x => open_opened x d dir (host_devices w) Ed) as Hm.
    pose proof (fun x => open_capture x d dir (host_devices w)) as Hcap.
    destruct (serving_managed _ _ _ _ Hw) as [Hm1 Hm2].
    destruct Hw as (Hr & Hn & Hl & Hc & Ho).
    destruct (open_device d dir (host_devices w)) as [[] s'] eqn:Es; cbn [fst snd] in *; simpl.
    + assert (Hkeep : forall x, open_mode x (host_devices w) = Some dir -> open_mode x s' = Some dir).
      { intros x Hx. rewrite Hm. by destruct (decide (x = d)). }
      split; [split_and!; simpl; [done|done| | |]|constructor; simpl].
      * eapply List.Forall_impl; [|exact Hl]. intros p. apply live_open; [done|]. intros x. by rewrite Hcap.
      * intros x. rewrite Hcap. apply Hc.
      * intros x m. rewrite Hm. destruct (decide (x = d)) as [->|].
        -- intros [= <-]. split; [done|]. case_bool_decide; set_solver.
        -- intros Hx. destruct (Ho x m Hx) as [-> ?]. split; [done|]. case_bool_decide; set_solver.
      * rewrite Hm. by rewrite decide_True by done.
      * eapply List.Forall_impl; [|exact Hxs]. simpl. auto.
    + split; [|intros [Hopen _]; specialize (Hopen d dir (host_devices w) Ed); by rewrite Es in Hopen].
      split; simpl.
      * intros x [m Hx]%isOpened_mode. rewrite Hm in Hx. destruct (decide (x = d)); [done|].
        by apply (Ho x m).
      * intros x. rewrite Hcap. apply Hm2.
Qed.

Lemma start_receiver_spec opts dir ps d route :
  hoare (fun w => serving opts dir ps w /\ open_in dir (d :: option_list route) w)
    (start_receiver opts (record_packets opts) d route)
    (fun _ w => serving opts dir (ps ++ [(d, route)]) w)
    (fun _ w => managed w /\ (healthy -> d ∈ ps.*1)).
Proof.
  intros w [Hw Hop]. apply Forall_cons_1 in Hop as [Hd Hroute].
  assert (Hrt : forall e, route = Some e -> open_mode e (host_devices w) = Some dir).
  { intros e ->. by apply Forall_cons_1 in Hroute as [? _]. }
  assert (Eo : isOpened d (host_devices w) = true) by (apply isOpened_mode; eauto).
  unfold start_receiver, on_devices, Receive. cbn [device_ route_device_ new_receiver].
  unfold mbind, effect_bind, get_state, raise_when, raise, lift, update. rewrite Eo. cbn [negb].
  assert (Er : (match route with
      | Some route => if negb (isOpened route (host_devices w)) then fun s => (Throw (runtime_error
          ("PcapReceiver: route device '" +:+ route +:+ "' is not open")), s) else mret tt
      | None => mret tt end : effect devices unit) (host_devices w) = (Ok tt, host_devices w)).
  { destruct route as [e|]; [|done].
    by rewrite (proj2 (isOpened_mode e _)) by (rewrite (Hrt e eq_refl); eauto). }
  cbn [mret effect_ret]. rewrite Er. clear Er.
  pose proof (fun x => start_opened x d (host_devices w)) as Hm.
  pose proof (fun x => start_capture x d (host_devices w)) as Hcap.
  pose proof (start_idle d (host_devices w)) as Hidle.
  pose proof (serving_managed _ _ _ _ Hw) as [Hm1 Hm2].
  destruct Hw as (Hr & Hn & Hl & Hc & Ho).
  destruct (startCapture d (host_devices w)) as [[] s'] eqn:Es; cbn [fst snd negb] in *; simpl.
  - specialize (Hidle eq_refl). split_and!; simpl.
    + by rewrite Hr, fmap_app.
    + rewrite fmap_app. apply list.NoDup_app. split_and!; [done| |apply list.NoDup_singleton].
      intros x Hx ->%list_elem_of_singleton.
      simpl in Hx. apply list_elem_of_fmap in Hx as (p & E & Hp).
      rewrite Forall_forall in Hl. destruct (Hl p (proj1 (list_elem_of_In _ _) Hp)) as (_ & Hp' & _). congruence.
    + apply Forall_app. split.
      * eapply List.Forall_impl; [|exact Hl]. intros p. apply live_open; [intros x; by rewrite Hm|].
        intros x Hx. by rewrite Hcap, Hx.
      * constructor; [|constructor]. split_and!; simpl.
        -- by rewrite Hm.
        -- rewrite Hcap, bool_decide_eq_true_2 by done. apply orb_true_r.
        -- intros e He. rewrite Hm. auto.
    + intros x. rewrite Hcap, fmap_app. intros [Hx|Hx]%orb_true_iff.
      * apply elem_of_app. left. auto.
      * rewrite andb_true_r in Hx. apply bool_decide_eq_true in Hx as ->. simpl. set_solver.
    + intros x m. rewrite Hm. apply Ho.
  - split.
    + split; simpl.
      * intros x. unfold isOpened. rewrite Hm. apply Hm1.
      * intros x. rewrite Hcap, andb_false_r, orb_false_r. apply Hm2.
    + intros [_ Hst]. destruct (captureActive d (host_devices w)) eqn:Ec; [by apply Hc|].
      specialize (Hst d (host_devices w) Eo Ec). by rewrite Es in Hst.
Qed.

(** ** What [Init] sets up *)

(** The devices of the configuration: capture device and route device of
    each receiver. *)
Definition capture_plan (config : RuntimeConfig) : result (list (string * option string)) :=
  let r := routing config in
  if enabled r then
    i ← ResolveCaptureDevice (ingress_iface r);
    e ← ResolveCaptureDevice (egress_iface r);
    Ok ((i, Some e) :: if bidirectional r then [(e, Some i)] else [])
  else
    ds ← mapM ResolveCaptureDevice
           (match ifaces (capture config) with [] => [""%string] | l => l end);
    Ok ((fun d => (d, None)) <$> ds).

Definition direction (config : RuntimeConfig) : PcapDirection :=
  if enabled (routing config) then PCPP_IN else PCPP_INOUT.

Lemma resolve_spec iface (P : ElephantShrew -> Prop) :
  hoare P (resolve iface) (fun d w => ResolveCaptureDevice iface = Ok d /\ P w)
    (fun e w => ResolveCaptureDevice iface = Throw e /\ P w).
Proof. intros w Hw. unfold resolve. by destruct (ResolveCaptureDevice iface). Qed.

#[local] Abbreviation start_all := (fmap (fun d : string => (d, @None string))).

Lemma start_all_fst ds : (start_all ds).*1 = ds.
Proof. induction ds as [|d ds IH]; [done|]. simpl. by f_equal. Qed.

Lemma capture_on_spec opts ps iface :
  hoare (serving opts PCPP_INOUT ps) (capture_on opts (record_packets opts) iface)
    (fun _ w => exists d, ResolveCaptureDevice iface = Ok d /\ serving opts PCPP_INOUT (ps ++ [(d, None)]) w)
    (fun _ w => managed w /\ (healthy -> forall d, ResolveCaptureDevice iface = Ok d -> d ∈ ps.*1)).
Proof.
  unfold capture_on.
  eapply hoare_bind with (Q := fun d w => ResolveCaptureDevice iface = Ok d /\ serving opts PCPP_INOUT ps w).
  { eapply hoare_conseq; [apply resolve_spec|done|done|].
    intros e w [E Hw%serving_managed]. split; [done|]. congruence. }
  intros d w [Hd Hw].
  eapply (hoare_bind (fun w => serving opts PCPP_INOUT ps w /\ open_in PCPP_INOUT [] w)
    _ _ (fun _ w => serving opts PCPP_INOUT ps w /\ open_in PCPP_INOUT [d] w)).
  - eapply hoare_conseq; [apply open_and_track_spec|exact (fun _ H => H)|exact (fun _ _ H => H)|].
    intros _ w' [? Hn]. split; [done|]. by intros Hh%Hn.
  - intros _. eapply hoare_conseq; [apply start_receiver_spec|exact (fun _ H => H)|by eauto|].
    intros _ w' [? Hn]. split; [done|]. intros Hh d'. rewrite Hd. intros [= <-]. auto.
  - split; [done|constructor].
Qed.

Lemma capture_all_spec opts l : forall ps,
  hoare (serving opts PCPP_INOUT ps) (capture_all opts (record_packets opts) l)
    (fun _ w => exists ds, mapM ResolveCaptureDevice l = Ok ds /\ serving opts PCPP_INOUT (ps ++ start_all ds) w)
    (fun _ w => managed w /\ (healthy -> forall ds, mapM ResolveCaptureDevice l = Ok ds -> ~ NoDup (ps.*1 ++ ds))).
Proof.
  induction l as [|iface l IH]; intros ps; cbn [capture_all mapM].
  { apply hoare_ret. intros w Hw. exists []. split; [done|]. by rewrite app_nil_r. }
  eapply hoare_bind.
  { eapply hoare_conseq; [apply capture_on_spec|done|intros a w Hw; exact Hw|].
    intros e w [Hm Hh]. split; [done|]. intros Hok ds (d & Hd & Hds)%result_bind_Ok Hn.
    apply result_bind_Ok in Hds as (ds' & _ & [= <-]).
    apply list.NoDup_app in Hn as (_ & Hn & _). apply (Hn d); [by apply Hh|]. set_solver. }
  intros _ w (d & Hd & Hw). specialize (IH (ps ++ [(d, None)]) w Hw).
  rewrite Hd. cbn [mbind result_bind].
  destruct (capture_all _ _ _ w) as [[u|e] w'].
  - destruct IH as (ds & -> & IH). exists (d :: ds). split; [done|].
    by rewrite <- app_assoc in IH.
  - destruct IH as [Hm IH]. split; [done|]. intros Hh ds (ds' & E & [= <-])%result_bind_Ok.
    specialize (IH Hh ds' E). by rewrite fmap_app, <- app_assoc in IH.
Qed.

Lemma route_spec opts config : enabled (routing config) = true ->
  hoare (serving opts PCPP_IN []) (route_traffic opts (record_packets opts) (routing config))
    (fun _ w => exists plan, capture_plan config = Ok plan /\ serving opts PCPP_IN plan w)
    (fun _ w => managed w /\ (healthy -> forall plan, capture_plan config = Ok plan -> ~ NoDup plan.*1)).
Proof.
  intros He w Hw. unfold route_traffic, capture_plan. rewrite He. unfold resolve.
  unfold mbind, effect_bind, result_bind.
  destruct (ResolveCaptureDevice (ingress_iface _)) as [i|]; [|split; [by eapply serving_managed|done]].
  destruct (ResolveCaptureDevice (egress_iface _)) as [e|]; [|split; [by eapply serving_managed|done]].
  pose proof (open_and_track_spec opts PCPP_IN [] [] i w (conj Hw (Forall_nil_2 _))) as H1.
  destruct (open_and_track i PCPP_IN w) as [[u|x] w1]; [|destruct H1; split; [done|by intros ?]].
  pose proof (open_and_track_spec opts PCPP_IN [] [i] e w1 H1) as H2.
  destruct (open_and_track e PCPP_IN w1) as [[u2|x] w2]; [|destruct H2; split; [done|by intros ?]].
  destruct H2 as [Hw2 Hop].
  assert (Hop' : open_in PCPP_IN [i; e] w2) 
    by (apply Forall_cons_1 in Hop as [? [? _]%Forall_cons_1]; by repeat constructor).
  pose proof (start_receiver_spec opts PCPP_IN [] i (Some e) w2 (conj Hw2 Hop')) as H3.
  destruct (start_receiver opts (record_packets opts) i (Some e) w2) as [[u3|x] w3].
  2: { destruct H3 as [? Hn]. split; [done|]. intros Hh%Hn. by apply elem_of_nil in Hh. }
  destruct (bidirectional (routing config)).
  2: { exists [(i, Some e)]. by split. }
  assert (Hop3 : open_in PCPP_IN [e; i] w3).
  { destruct H3 as (_ & _ & Hl & _). apply Forall_cons_1 in Hl as [(Hi & _ & Hrt) _].
    constructor; [by apply Hrt|]. by constructor. }
  pose proof (start_receiver_spec opts PCPP_IN [(i, Some e)] e (Some i) w3 (conj H3 Hop3)) as H4.
  destruct (start_receiver opts (record_packets opts) e (Some i) w3) as [[u4|x] w4].
  - exists [(i, Some e); (e, Some i)]. by split.
  - destruct H4 as [? Hn]. split; [done|]. intros Hh plan [= <-] Hnd. specialize (Hn Hh).
    simpl in Hn, Hnd. apply list.NoDup_cons in Hnd as [Hnd _]. set_solver.
Qed.

Lemma Init_spec make_store config :
  hoare managed (Init make_store config)
    (fun _ w => exists plan, capture_plan config = Ok plan /\
       (record_packets (capture config) = true -> make_store (redis config) = Ok tt) /\
       serving (capture config) (direction config) plan w)
    (fun _ w => managed w /\
       (healthy -> (record_packets (capture config) = true -> make_store (redis config) = Ok tt) ->
        forall plan, capture_plan config = Ok plan -> ~ NoDup plan.*1)).
Proof.
  intros w Hw%destroy_released.
  assert (Hs : serving (capture config) (direction config) [] (destroy w)) by (by apply released_serving).
  unfold Init, update. unfold mbind, effect_bind at 1 2. fold (destroy w). revert Hs. generalize (destroy w). clear w Hw.
  intros w Hs.
  set (m := if record_packets (capture config) then _ else _).
  assert (Hm : (m w = (Ok tt, w) /\
      (record_packets (capture config) = true -> make_store (redis config) = Ok tt)) \/
    exists e, m w = (Throw e, w) /\
      ~ (record_packets (capture config) = true -> make_store (redis config) = Ok tt)).
  { subst m. destruct (record_packets (capture config)); [|by left].
    destruct (make_store (redis config)) as [[]|e]; [by left|right; exists e].
    split; [done|]. intros Hx. by specialize (Hx eq_refl). }
  clearbody m. unfold effect_bind.
  destruct Hm as [[-> Hst]|(e & -> & Hst)].
  2: { split; [by eapply serving_managed|]. intros _ Hx. by destruct Hst. }
  unfold direction in *. destruct (enabled (routing config)) eqn:He.
  - pose proof (route_spec (capture config) config He w Hs) as H.
    destruct (route_traffic _ _ _ w) as [[u|e] w'].
    + destruct H as (plan & H1 & H2). exists plan. by split_and!.
    + destruct H as [H1 H2]. split; [done|]. intros Hh _. auto.
  - set (l := match ifaces (capture config) with [] => [""%string] | l => l end).
    assert (E : match ifaces (capture config) with
       | [] => capture_on (capture config) (record_packets (capture config)) ""
       | l => capture_all (capture config) (record_packets (capture config)) l end w =
       capture_all (capture config) (record_packets (capture config)) l w).
    { subst l. destruct (ifaces (capture config)); [|done]. cbn [capture_all].
      unfold mbind, effect_bind. by destruct (capture_on _ _ _ w) as [[[]|] ?]. }
    rewrite E. clear E. pose proof (capture_all_spec (capture config) l [] w Hs) as H.
    unfold capture_plan. rewrite He. fold l.
    destruct (capture_all _ _ _ w) as [[u|e] w'].
    + destruct H as (ds & -> & H). eexists. by split_and!.
    + destruct H as [H1 H2]. split; [done|]. intros Hh _ plan (ds & Hds & [= <-])%result_bind_Ok.
      specialize (H2 Hh ds Hds). by rewrite start_all_fst.
Qed.

(** C25: what a capture service sets up.  When [Init] returns, the configuration's devices all
    resolved, they are pairwise distinct, and there is exactly one receiver per capture device, in
    the configured order and with the configured options; each captures on an open device, with its
    route device open too, and nothing else is open or capturing.  With routing the devices are open
    for inbound traffic only, so a forwarded packet is not captured again. *)
Theorem Init_starts make_store config w w' :
  managed w -> Init make_store config w = (Ok tt, w') ->
  exists plan, capture_plan config = Ok plan /\ NoDup plan.*1 /\
    receivers_ w' = running (capture config) <$> plan /\
    Forall (live (direction config) (host_devices w')) plan /\
    (forall x, captureActive x (host_devices w') = true <-> x ∈ plan.*1) /\
    (forall x m, open_mode x (host_devices w') = Some m -> m = direction config /\ x ∈ opened_devices_ w').
Proof.
  intros Hw E. pose proof (Init_spec make_store config w Hw) as H. rewrite E in H.
  destruct H as (plan & Hp & _ & Hr & Hn & Hl & Hc & Ho). exists plan. split_and!; try done.
  intros x. split; [apply Hc|]. intros (p & -> & Hin)%list_elem_of_fmap.
  rewrite Forall_forall in Hl. apply Hl. by apply list_elem_of_In.
Qed.

(** C38: when the service comes up.  On a host whose devices open and start capturing when asked,
    [Init] succeeds exactly if the packet store (where one is needed) can be made, every configured
    device exists, and no device would capture twice. *)
Theorem Init_succeeds make_store config w :
  managed w -> healthy ->
  (Init make_store config w).1 = Ok tt <->
  (record_packets (capture config) = true -> make_store (redis config) = Ok tt) /\
  exists plan, capture_plan config = Ok plan /\ NoDup plan.*1.
Proof.
  intros Hw Hh. pose proof (Init_spec make_store config w Hw) as H.
  destruct (Init make_store config w) as [[[]|e] w']; simpl.
  - destruct H as (plan & ? & ? & _ & ? & _). split; [|done]. intros _. split; [done|]. by exists plan.
  - destruct H as [_ H]. split; [done|]. intros (Hs & plan & Hp & Hn). by destruct (H Hh Hs plan Hp).
Qed.

(** ** What an attempt has started, whatever becomes of it *)

(** Exactly the receivers of [ps] run, each on a device of its own. *)
Definition started (opts : CaptureOptions) (w : ElephantShrew) : Prop :=
  exists ps, receivers_ w = running opts <$> ps /\ NoDup ps.*1 /\
    Forall (fun d => captureActive d (host_devices w) = true) ps.*1.

Definition keeps {A} (P : ElephantShrew -> Prop) (m : effect ElephantShrew A) : Prop :=
  hoare P m (fun _ => P) (fun _ => P).

Lemma keeps_bind {A B} P (m : effect ElephantShrew A) (k : A -> effect ElephantShrew B) :
  keeps P m -> (forall a, keeps P (k a)) -> keeps P (m ≫= k).
Proof. intros Hm Hk. by eapply hoare_bind. Qed.

Lemma keeps_resolve P iface : keeps P (resolve iface).
Proof. eapply hoare_conseq; [apply resolve_spec|done|by intros ? ? [_ ?]..]. Qed.

Lemma keeps_open_and_track opts d dir : keeps (started opts) (open_and_track d dir).
Proof.
  intros w (ps & Hr & Hn & Hc). unfold open_and_track, on_devices, OpenDevice, TrackOpenedDevice, raise_when, raise, get_state, update, lift.
  unfold mbind, effect_bind. destruct (isOpened d (host_devices w)); cbn.
  { exists ps. by split_and!. }
  pose proof (fun x => open_capture x d dir (host_devices w)) as Hcap.
  assert (Hc' : Forall (fun x => captureActive x (open_device d dir (host_devices w)).2 = true) ps.*1)
    by (eapply List.Forall_impl; [|exact Hc]; intros x; by rewrite Hcap).
  destruct (open_device d dir (host_devices w)) as [[] s']; cbn in *; exists ps; by split_and!.
Qed.

(** [Receive] refuses, or has tried to start the capture. *)
Lemma Receive_cases opts d route s :
  let m := Receive (new_receiver (record_packets opts) (Some d) route (record_packets opts) (debug_packets opts)) in
  (exists e, m s = (Throw e, s)) \/
  (exists e, m s = (if (startCapture d s).1 then Ok (running opts (d, route)) else Throw e, (startCapture d s).2)).
Proof.
  unfold Receive. cbn [device_ route_device_ new_receiver].
  unfold mbind, effect_bind, get_state, raise_when, raise, lift.
  destruct (isOpened d s); [|left; by eexists].
  destruct route as [e|]; [destruct (isOpened e s); [|left; by eexists]|]; cbn; right;
    exists (runtime_error ("PcapReceiver: failed to start capture on '" +:+ d +:+ "'")); by destruct (startCapture d s) as [[] s'].
Qed.

Lemma keeps_start_receiver opts d route : keeps (started opts) (start_receiver opts (record_packets opts) d route).
Proof.
  intros w (ps & Hr & Hn & Hc). unfold start_receiver, on_devices, mbind, effect_bind, update.
  pose proof (fun x => start_capture x d (host_devices w)) as Hcap. pose proof (start_idle d (host_devices w)) as Hidle.
  destruct (Receive_cases opts d route (host_devices w)) as [[e ->]|[e ->]]; [exists ps; by split_and!|].
  assert (Hc' : Forall (fun x => captureActive x (startCapture d (host_devices w)).2 = true) ps.*1).
  { eapply List.Forall_impl; [|exact Hc]. intros x Hx. by rewrite Hcap, Hx. }
  destruct (startCapture d (host_devices w)) as [[] s']; cbn in *; [|exists ps; by split_and!].
  exists (ps ++ [(d, route)]). specialize (Hidle eq_refl). cbn. rewrite Hr, !fmap_app. split_and!; [done| |].
  - apply list.NoDup_app. split_and!; [done| |apply list.NoDup_singleton].
    intros x Hx ->%list_elem_of_singleton. cbn in Hx. rewrite Forall_forall in Hc.
    specialize (Hc d (proj1 (list_elem_of_In _ _) Hx)). congruence.
  - apply Forall_app. split; [done|]. repeat constructor. cbn. rewrite Hcap, bool_decide_eq_true_2 by done. apply orb_true_r.
Qed.

Lemma keeps_capture_all opts l : keeps (started opts) (capture_all opts (record_packets opts) l).
Proof.
  induction l as [|iface l IH]; cbn [capture_all]; [by intros w Hw|]. apply keeps_bind; [|by intros _].
  apply keeps_bind; [apply keeps_resolve|]. intros d. apply keeps_bind; [apply keeps_open_and_track|].
  intros _. apply keeps_start_receiver.
Qed.

Lemma keeps_route_traffic opts r : keeps (started opts) (route_traffic opts (record_packets opts) r).
Proof.
  unfold route_traffic. do 2 (apply keeps_bind; [apply keeps_resolve|intros ?]).
  do 2 (apply keeps_bind; [apply keeps_open_and_track|intros _]).
  apply keeps_bind; [apply keeps_start_receiver|]. intros _. destruct (bidirectional r); [apply keeps_start_receiver|by intros w Hw].
Qed.

Lemma Init_started make_store config w : started (capture config) (Init make_store config w).2.
Proof.
  unfold Init, update. unfold mbind at 1 2, effect_bind at 1 2.
  assert (Hs : started (capture config) (CloseDevices (clear_receivers w))) by (exists []; by split_and!; [..|constructor|constructor]).
  revert Hs. generalize (CloseDevices (clear_receivers w)). clear w. intros w Hs.
  set (m := if record_packets (capture config) then _ else _).
  assert (Hm : keeps (started (capture config)) m)
    by (subst m; destruct (record_packets _); intros w' Hw'; [by destruct (make_store _)|done]).
  set (k := if enabled (routing config) then _ else _).
  assert (Hk : keeps (started (capture config)) (m ≫= fun _ => k)).
  { apply keeps_bind; [done|]. intros _. subst k. destruct (enabled _); [apply keeps_route_traffic|].
    destruct (ifaces _) as [|x l]; [|apply keeps_capture_all].
    pose proof (keeps_capture_all (capture config) [""%string]) as Hone. intros w' Hw'. specialize (Hone w' Hw').
    cbn [capture_all] in Hone. revert Hone. unfold mbind, effect_bind. by destruct (capture_on _ _ _ w') as [[[]|] ?]. }
  specialize (Hk w Hs). by destruct ((m ≫= fun _ => k) w) as [[?|?] ?].
Qed.

(** ** Attempts *)
Lemma reset_released rs ds s : managed (mk_shrew rs ds s) -> released (reset (Some (rs, ds)) s).
Proof. apply destroy_released. Qed.

Lemma released_managed s : released s -> managed (mk_shrew [] [] s).
Proof. intros Hs. eapply serving_managed. by apply (released_serving (mk_capture [] false false) PCPP_IN). Qed.

Lemma service_attempt_spec make_store config s :
  released s ->
  released (service_attempt make_store config s).2 /\
  (service_attempt make_store config s).1 = (Init make_store config (mk_shrew [] [] s)).1.
Proof.
  intros Hs. unfold service_attempt, Resolve, Strap. cbn [container_ negb elephantShrew_].
  pose proof (Init_spec make_store config _ (released_managed s Hs)) as H.
  destruct (Init make_store config (mk_shrew [] [] s)) as [[[]|e] w']; cbn [fst snd].
  - destruct H as (plan & _ & _ & Hw%serving_managed). split; [|done].
    unfold release. cbn [elephantShrew_]. apply reset_released. by destruct w'.
  - destruct H as [Hw _]. split; [|done]. unfold release. cbn [elephantShrew_ reset].
    by apply destroy_released.
Qed.

(** No leak.  Whether an attempt of the supervisor fails anywhere on the way up or runs until it
    is stopped, the destructors then leave every device closed and no capture running, so that the
    next attempt starts from a clean host; and the attempt fails exactly if [Init] does. *)
Theorem service_attempt_releases make_store config s :
  released s ->
  released (service_attempt make_store config s).2 /\
  (service_attempt make_store config s).1 = (Init make_store config (mk_shrew [] [] s)).1.
Proof. apply service_attempt_spec. Qed.

End Facts.

(** ** A simulated host *)
Definition sim_devices : Type := string -> option (PcapDirection * bool).

Definition sim_set (d : string) (v : option (PcapDirection * bool)) (s : sim_devices) : sim_devices :=
  fun x => if decide (x = d) then v else s x.

#[export] Instance sim_pcap : Pcap := {|
  devices := sim_devices;
  open_mode d s := fst <$> s d;
  captureActive d s := match s d with Some (_, b) => b | None => false end;
  open_device d dir s :=
    match s d with Some _ => (true, s) | None => (true, sim_set d (Some (dir, false)) s) end;
  close_device d s := sim_set d None s;
  startCapture d s :=
    match s d with
    | Some (m, false) => (true, sim_set d (Some (m, true)) s)
    | _ => (false, s)
    end;
  stopCapture d s :=
    match s d with
    | Some (m, _) => sim_set d (Some (m, false)) s
    | None => s
    end;
  getPcapLiveDevicesList := ["eth0"; "eth1"; "eth2"]%string;
  getPcapLiveDeviceByName n :=
    if decide (n ∈ ["eth0"; "eth1"; "eth2"]%string) then Some n else None;
|}.

Ltac sim_cases :=
  repeat match goal with
  | |- context [decide (?x = ?y)] => destruct (decide (x = y)); simplify_eq/=
  | |- context [bool_decide (?x = ?y)] => case_bool_decide; simplify_eq/=
  end; simplify_eq/=; auto.

#[export] Instance sim_pcap_ok : PcapOk.
Proof.
  split; simpl; unfold sim_set; intros.
  - destruct (s d) as [[? ?]|]; [done|]. simpl. sim_cases.
  - destruct (s d) as [[? ?]|] eqn:E; simpl; sim_cases. by rewrite E.
  - sim_cases.
  - sim_cases.
  - destruct (s d) as [[? []]|] eqn:E; simpl; sim_cases. by rewrite E.
  - destruct (s d) as [[? []]|] eqn:E; simpl; sim_cases; rewrite ?E, ?andb_false_r, ?orb_false_r; auto.
  - by destruct (s d) as [[? []]|].
  - destruct (s d) as [[? []]|] eqn:E; simpl; sim_cases; by rewrite E.
  - destruct (s d) as [[? []]|] eqn:E; simpl; sim_cases; rewrite ?E, ?andb_false_r, ?andb_true_r; auto.
  - destruct (decide _); by simplify_eq.
Qed.

Definition idle_host : @devices sim_pcap := fun _ => None.

Lemma idle_host_released : released idle_host.
Proof. done. Qed.

Lemma idle_host_managed : managed (mk_shrew [] [] idle_host).
Proof. eapply serving_managed. by apply (released_serving (mk_capture [] false false) PCPP_IN). Qed.

(** Traffic routed both ways between [eth0] and [eth1]. *)
Definition bridge_config : RuntimeConfig :=
  mk_config (mk_capture [] false false) (mk_routing true "eth0" "eth1" true)
    (redis default_config) (supervisor default_config) false.

Definition bridge_result : result unit * ElephantShrew :=
  Init (fun _ => Ok tt) bridge_config (mk_shrew [] [] idle_host).

Example bridge_receivers :
  bridge_result.1 = Ok tt /\
  map (fun r => (device_ r, route_device_ r)) (receivers_ bridge_result.2) =
  [(Some "eth0", Some "eth1"); (Some "eth1", Some "eth0")]%string.
Proof. vm_compute. done. Qed.

Lemma Init_starts_witness :
  exists plan, capture_plan bridge_config = Ok plan /\ NoDup plan.*1.
Proof.
  destruct (Init_starts (fun _ => Ok tt) bridge_config (mk_shrew [] [] idle_host) bridge_result.2
    idle_host_managed eq_refl) as (plan & H1 & H2 & _). by exists plan.
Defined.

Lemma sim_healthy : healthy.
Proof.
  split; simpl.
  - intros d dir s. by destruct (s d).
  - intros d s Ho%isOpened_mode Hc. simpl in *. destruct (s d) as [[? []]|]; [done..|]. by destruct Ho.
Qed.

(** The same interface configured twice: its second receiver cannot start. *)
Lemma Init_succeeds_witness :
  (Init (fun _ => Ok tt) (mk_config (mk_capture ["eth0"; "eth0"] false false) (routing default_config)
     (redis default_config) (supervisor default_config) false)
     (mk_shrew [] [] idle_host)).1 <> Ok tt.
Proof.
  intros (_ & plan & [= <-] & Hn)%Init_succeeds; [|apply idle_host_managed|apply sim_healthy].
  apply list.NoDup_cons in Hn as [Hn _]. apply Hn. simpl. set_solver.
Defined.

Lemma service_attempt_releases_witness :
  released (service_attempt (fun _ => Throw other_exception)
    (mk_config (mk_capture ["eth0"] true false) (routing default_config)
     (redis default_config) (supervisor default_config) false) idle_host).2.
Proof. by apply service_attempt_releases. Defined.
