(* ===== verification/RedisPacketStore.v ===== *)
(** * The packet store ([inc/RedisPacketStore.hpp], [src/RedisPacketStore.cpp])

    Capture threads call [Store]; an I/O thread runs the posted handlers in
    order, each handler starts one Redis command, and Redis completes them.
    [pending_writes_] bounds the packets in between: a thread waits for a free
    slot, or drops the packet once the store shuts down.

    The atomic steps of the threads are events; [step] is what one does to the
    state, [None] if it cannot happen.  Each step is the code between two
    points where another thread can observe it: the critical sections under
    [pending_mutex_], the enqueueing of a handler, a handler, a completion. *)
From stdpp Require Import pretty.
From S2P Require Import Prelude RuntimeConfig PcapReceiver.

(** ** Construction *)

(** What became of the PING: no answer in time, an error code, a reply, or an
    exception while it was being sent. *)
Inductive ping :=
  | ping_timeout
  | ping_error (message : string)
  | ping_reply (reply : string)
  | ping_threw (e : exn).

Definition ValidateConnection (o : RedisStoreOptions) (p : ping) : result unit :=
  match p with
  | ping_timeout =>
    Throw (runtime_error ("RedisPacketStore timed out connecting to " +:+ host o +:+ ":" +:+ port o))
  | ping_error m =>
    Throw (runtime_error ("RedisPacketStore failed to connect to " +:+ host o +:+ ":" +:+ port o +:+ ": " +:+ m))
  | ping_reply r =>
    throw_when (negb (bool_decide (r = "PONG"%string)))
      (runtime_error ("RedisPacketStore received unexpected PING reply: " +:+ r))
  | ping_threw e => Throw e
  end.

(** The checks of the constructor before it starts the I/O thread. *)
Definition check_options (o : RedisStoreOptions) : result unit :=
  throw_when (is_empty (host o)) (runtime_error "RedisPacketStore: host must not be empty");;
  throw_when (is_empty (port o)) (runtime_error "RedisPacketStore: port must not be empty");;
  throw_when (is_empty (stream_key o)) (runtime_error "RedisPacketStore: stream_key must not be empty");;
  throw_when (max_pending_writes o =? 0)
    (runtime_error "RedisPacketStore: max_pending_writes must be greater than 0");;
  throw_when (connect_timeout_ms o =? 0)
    (runtime_error "RedisPacketStore: connect_timeout_ms must be greater than 0");;
  throw_when (drain_timeout_ms o =? 0)
    (runtime_error "RedisPacketStore: drain_timeout_ms must be greater than 0").

(** The constructor: its outcome, and whether the I/O thread runs afterwards
    (a running [std::thread] must not be destroyed). *)
Definition construct (o : RedisStoreOptions) (p : ping) : result unit * bool :=
  match check_options o with
  | Throw e => (Throw e, false)
  | Ok _ =>
    match ValidateConnection o p with
    | Throw e => (Throw e, false)
    | Ok _ => (Ok tt, true)
    end
  end.

(** ** State *)
Abbreviation entry := (nat * PacketInfo)%type.

(** Who waits on [pending_cv_]: a thread in [Store], or the destructor. *)
Abbreviation waiter := (option nat).

(** [asleep] are those that sleep on the condition variable; [storing] the calls
    of [Store] that have a slot and have not posted yet, by thread; [ioc] the
    posted handlers; [exec] the commands Redis has not completed.  The rest is
    history: packets accepted, dropped, lost to an exception, the commands
    issued, and how those completed were: without an error, or with one. *)
Record RedisPacketStore := mk_store {
  options_ : RedisStoreOptions;
  pending_writes_ : Z;
  accepting_writes_ : bool;
  asleep : gset waiter;
  storing : gmap nat PacketInfo;
  ioc : list entry;
  exec : list entry;
  accepted : list entry;
  dropped : list entry;
  lost : list entry;
  issued : list entry;
  commands : list (list string);
  replies : list (entry * bool);
}.

Definition new_store (o : RedisStoreOptions) : RedisPacketStore :=
  mk_store o 0 true ∅ ∅ [] [] [] [] [] [] [] [].

(** ** The condition variable *)
Definition set_asleep (ws : gset waiter) (s : RedisPacketStore) : RedisPacketStore :=
  mk_store (options_ s) (pending_writes_ s) (accepting_writes_ s) ws (storing s) (ioc s) (exec s)
    (accepted s) (dropped s) (lost s) (issued s) (commands s) (replies s).

Definition cv_sleep (w : waiter) (s : RedisPacketStore) : RedisPacketStore := set_asleep ({[w]} ∪ asleep s) s.
Definition cv_wake (w : waiter) (s : RedisPacketStore) : RedisPacketStore := set_asleep (asleep s ∖ {[w]}) s.
Definition cv_notify_all (s : RedisPacketStore) : RedisPacketStore := set_asleep ∅ s.

Lemma sleep_asleep w s : w ∈ asleep (cv_sleep w s).
Proof. apply elem_of_union_l, elem_of_singleton_2. done. Qed.

(** ** Operations *)

Definition set_pending (n : Z) (s : RedisPacketStore) : RedisPacketStore :=
  mk_store (options_ s) n (accepting_writes_ s) (asleep s) (storing s) (ioc s) (exec s)
    (accepted s) (dropped s) (lost s) (issued s) (commands s) (replies s).

(** [ReservePendingWriteSlot], from an evaluation of the predicate on: [None] if
    the thread has to wait. *)
Definition ReservePendingWriteSlot (s : RedisPacketStore) : option (bool * RedisPacketStore) :=
  if (pending_writes_ s <? max_pending_writes (options_ s)) || negb (accepting_writes_ s) then
    if negb (accepting_writes_ s) then Some (false, s)
    else Some (true, set_pending (u64 (pending_writes_ s + 1)) s)
  else None.

(** The decrement under the mutex, then [notify_all].  Who goes to sleep between
    the two is woken without need, as by a spurious wake-up. *)
Definition CompletePendingWrite (s : RedisPacketStore) : RedisPacketStore :=
  cv_notify_all (set_pending (if pending_writes_ s >? 0 then pending_writes_ s - 1 else pending_writes_ s) s).

(** The predicate [WaitForPendingWrites] waits for, and returns. *)
Definition WaitForPendingWrites (s : RedisPacketStore) : bool := pending_writes_ s =? 0.

(** The command of a packet; [std::to_string] is [pretty]. *)
Definition xadd (o : RedisStoreOptions) (p : PacketInfo) : list string :=
  ["XADD"; stream_key o; "*"; "iface"; iface p; "src_ip"; src_ip p; "dst_ip"; dst_ip p;
   "protocol"; protocol p; "length"; pretty (length_ p); "timestamp_us"; pretty (timestamp_us p);
   "data"; data_hex p]%string.

(** The first part of [Store], up to the posting of the handler, from an
    evaluation of the predicate on: the thread gets a slot, drops its packet,
    or goes to sleep. *)
Definition Store_begin (t : nat) (p : PacketInfo) (s : RedisPacketStore) : option RedisPacketStore :=
  Some match ReservePendingWriteSlot s with
  | None => cv_sleep (Some t) s
  | Some (reserved, s) =>
    if negb reserved then
      mk_store (options_ s) (pending_writes_ s) (accepting_writes_ s) (asleep s) (storing s) (ioc s) (exec s)
        (accepted s) (dropped s ++ [(t, p)]) (lost s) (issued s) (commands s) (replies s)
    else
      mk_store (options_ s) (pending_writes_ s) (accepting_writes_ s) (asleep s) (<[t := p]> (storing s)) (ioc s)
        (exec s) (accepted s ++ [(t, p)]) (dropped s) (lost s) (issued s) (commands s) (replies s)
  end.

(** [boost::asio::post]: the handler is enqueued, or an exception is caught. *)
Definition Store_post (t : nat) (ok : bool) (s : RedisPacketStore) : option RedisPacketStore :=
  p ← storing s !! t;
  Some (if ok then
    mk_store (options_ s) (pending_writes_ s) (accepting_writes_ s) (asleep s) (delete t (storing s))
      (ioc s ++ [(t, p)]) (exec s) (accepted s) (dropped s) (lost s) (issued s) (commands s) (replies s)
  else
    CompletePendingWrite
      (mk_store (options_ s) (pending_writes_ s) (accepting_writes_ s) (asleep s) (delete t (storing s))
        (ioc s) (exec s) (accepted s) (dropped s) (lost s ++ [(t, p)]) (issued s) (commands s) (replies s))).

(** The handler: it starts the command, or an exception is caught. *)
Definition Store_handler (ok : bool) (s : RedisPacketStore) : option RedisPacketStore :=
  match ioc s with
  | [] => None
  | (t, p) :: rest =>
    Some (if ok then
      mk_store (options_ s) (pending_writes_ s) (accepting_writes_ s) (asleep s) (storing s) rest
        (exec s ++ [(t, p)]) (accepted s) (dropped s) (lost s) (issued s ++ [(t, p)])
        (commands s ++ [xadd (options_ s) p]) (replies s)
    else
      CompletePendingWrite
        (mk_store (options_ s) (pending_writes_ s) (accepting_writes_ s) (asleep s) (storing s) rest
          (exec s) (accepted s) (dropped s) (lost s ++ [(t, p)]) (issued s) (commands s) (replies s)))
  end.

(** The completion of the [i]-th outstanding command: without an error, or with
    one, which is only logged. *)
Definition Store_completion (i : nat) (ok : bool) (s : RedisPacketStore) : option RedisPacketStore :=
  match exec s !! i with
  | None => None
  | Some x =>
    Some (CompletePendingWrite
      (mk_store (options_ s) (pending_writes_ s) (accepting_writes_ s) (asleep s) (storing s) (ioc s)
        (delete i (exec s)) (accepted s) (dropped s) (lost s) (issued s) (commands s) (replies s ++ [(x, ok)])))
  end.

(** The destructor's first step. *)
Definition stop_accepting (s : RedisPacketStore) : RedisPacketStore :=
  cv_notify_all (mk_store (options_ s) (pending_writes_ s) false (asleep s) (storing s) (ioc s) (exec s)
    (accepted s) (dropped s) (lost s) (issued s) (commands s) (replies s)).

(** The commands completed without an error, or with one. *)
Definition answered (ok : bool) (s : RedisPacketStore) : list (list string) :=
  omap (fun r : entry * bool => if decide (r.2 = ok) then Some (xadd (options_ s) r.1.2) else None) (replies s).

(** ** Runs *)
Inductive event :=
  | Begin (t : nat) (p : PacketInfo)
  | Post (t : nat) (ok : bool)
  | Handler (ok : bool)
  | Completion (i : nat) (ok : bool)
  | Shutdown
  | Drain
  | Spurious (w : waiter).

(** A thread begins a [Store] only after its previous one has returned, and
    evaluates its predicate again only when it has been woken.  [Drain] is the
    destructor evaluating its own, once it has closed the store. *)
Definition step (s : RedisPacketStore) (e : event) : option RedisPacketStore :=
  match e with
  | Begin t p =>
    if decide (is_Some (storing s !! t) \/ Some t ∈ asleep s) then None else Store_begin t p s
  | Post t ok => Store_post t ok s
  | Handler ok => Store_handler ok s
  | Completion i ok => Store_completion i ok s
  | Shutdown => Some (stop_accepting s)
  | Drain =>
    if accepting_writes_ s || bool_decide (None ∈ asleep s) then None
    else Some (if WaitForPendingWrites s then s else cv_sleep None s)
  | Spurious w => if decide (w ∈ asleep s) then Some (cv_wake w s) else None
  end.

Fixpoint run (es : list event) (s : RedisPacketStore) : option RedisPacketStore :=
  match es with
  | [] => Some s
  | e :: es => s' ← step s e; run es s'
  end.

(** ** Accounting *)
Section Facts.
Context (o : RedisStoreOptions).

(** The packets of thread [t], in order. *)
Definition of_thread (t : nat) (l : list entry) : list entry := filter (fun x => x.1 = t) l.

Definition storing_of (t : nat) (s : RedisPacketStore) : list entry :=
  match storing s !! t with Some p => [(t, p)] | None => [] end.

Definition load (s : RedisPacketStore) : nat := (size (storing s) + length (ioc s) + length (exec s))%nat.

(** The packets of [t] on their way to Redis, oldest first. *)
Definition pipeline (t : nat) (s : RedisPacketStore) : list entry :=
  of_thread t (issued s) ++ of_thread t (ioc s) ++ storing_of t s.

(** The predicate a waiter sleeps on is false. *)
Definition must_wait (w : waiter) (s : RedisPacketStore) : Prop :=
  match w with
  | Some _ => accepting_writes_ s = true /\ pending_writes_ s = max_pending_writes (options_ s)
  | None => accepting_writes_ s = false /\ pending_writes_ s <> 0
  end.

Record store_inv (s : RedisPacketStore) : Prop := {
  inv_options : options_ s = o;
  inv_pending : pending_writes_ s = Z.of_nat (load s);
  inv_bound : Z.of_nat (load s) <= max_pending_writes o;
  inv_accepted : accepted s ≡ₚ map_to_list (storing s) ++ ioc s ++ issued s ++ lost s;
  inv_order t : pipeline t s `sublist_of` of_thread t (accepted s);
  inv_exact : lost s = [] -> forall t, pipeline t s = of_thread t (accepted s);
  inv_commands : commands s = xadd o <$> (issued s).*2;
  inv_replies : issued s ≡ₚ exec s ++ (replies s).*1;
  inv_asleep w : w ∈ asleep s -> must_wait w s;
  inv_idle t : Some t ∈ asleep s -> storing s !! t = None;
}.

Lemma of_thread_app t a b : of_thread t (a ++ b) = of_thread t a ++ of_thread t b.
Proof. apply list.filter_app. Qed.

Lemma of_thread_one t u p : of_thread t [(u, p)] = if decide (u = t) then [(u, p)] else [].
Proof. unfold of_thread. by rewrite filter_cons, filter_nil. Qed.

Lemma load_complete s : pending_writes_ s = Z.of_nat (S (load s)) ->
  pending_writes_ (CompletePendingWrite s) = Z.of_nat (load (CompletePendingWrite s)).
Proof.
  intros E. unfold CompletePendingWrite, cv_notify_all, set_asleep, set_pending, load in *. simpl. rewrite E.
  match goal with |- context [?a >? 0] => destruct (Z.gtb_spec a 0) end; lia.
Qed.

Lemma size_delete_storing (m : gmap nat PacketInfo) t p : m !! t = Some p ->
  size m = S (size (delete t m)).
Proof. intros E. rewrite map_size_delete, E. pose proof (map_size_non_empty_iff m). destruct (size m) eqn:Em; [|done].
  apply map_size_empty_inv in Em. by rewrite Em in E. Qed.

Lemma storing_of_delete t u s m : storing s = delete u m ->
  storing_of t s = if decide (u = t) then [] else match m !! t with Some p => [(t, p)] | None => [] end.
Proof.
  unfold storing_of. intros ->. destruct (decide (u = t)) as [->|].
  - by rewrite lookup_delete_eq.
  - by rewrite lookup_delete_ne.
Qed.

Lemma new_store_inv : 0 <= max_pending_writes o -> store_inv (new_store o).
Proof.
  intros Hm. by split.
Qed.

Lemma set_asleep_inv ws s :
  (forall w, w ∈ ws -> must_wait w s) -> (forall t, Some t ∈ ws -> storing s !! t = None) ->
  store_inv s -> store_inv (set_asleep ws s).
Proof. intros Hw Hn [Ho Hp Hb Ha Hs He Hc Hr _ _]. by split. Qed.

Lemma step_begin t p s s' : step s (Begin t p) = Some s' ->
  storing s !! t = None /\ (Some t ∉ asleep s) /\ Store_begin t p s = Some s'.
Proof. cbn [step]. case_decide as H; [done|]. rewrite eq_None_not_Some. tauto. Qed.

Lemma begin_inv t p s s' : max_pending_writes o < 2 ^ 64 -> store_inv s -> step s (Begin t p) = Some s' -> store_inv s'.
Proof.
  intros Hm Hi (Et & _ & Hs')%step_begin. destruct (Hi) as [Ho Hp Hb Ha Hs He Hc Hr Hw Hn].
  unfold Store_begin, ReservePendingWriteSlot in Hs'. rewrite Ho in Hs'.
  destruct (accepting_writes_ s) eqn:Eacc; cbn [negb] in Hs';
    [rewrite orb_false_r in Hs'|rewrite orb_true_r in Hs'; injection Hs' as <-; by split].
  destruct (Z.ltb_spec (pending_writes_ s) (max_pending_writes o)); injection Hs' as <-.
  2: { apply set_asleep_inv; [| |done].
    - intros w [->%elem_of_singleton|?]%elem_of_union; [|by apply Hw]. cbn. rewrite Ho. split; [done|lia].
    - intros u [[= ->]%elem_of_singleton|?]%elem_of_union; [done|by apply Hn]. }
  unfold load in *.
  assert (Hsz : size (<[t:=p]> (storing s)) = S (size (storing s))) by (by rewrite map_size_insert_None).
  split; simpl; try done; unfold load; simpl.
  - rewrite Hp, Hsz, wrap_small; lia.
  - rewrite Hsz. lia.
  - rewrite map_to_list_insert, Ha by done. by rewrite Permutation_app_comm.
  - intros u. rewrite of_thread_app, of_thread_one. specialize (Hs u). unfold pipeline, storing_of in *. simpl.
    destruct (decide (t = u)) as [->|Hu].
    + rewrite lookup_insert_eq. rewrite Et, app_nil_r in Hs. rewrite app_assoc.
      by apply sublist_app.
    + rewrite lookup_insert_ne, app_nil_r by done. done.
  - intros Hlost u. rewrite of_thread_app, of_thread_one, <- He by done. unfold pipeline, storing_of. simpl.
    destruct (decide (t = u)) as [->|Hu].
    + by rewrite lookup_insert_eq, Et, !app_nil_r, <- app_assoc.
    + by rewrite lookup_insert_ne, app_nil_r by done.
  - intros w Hin%Hw. exfalso. destruct w; cbn in Hin; rewrite ?Ho in Hin; [lia|]. destruct Hin. congruence.
  - intros u Hin%Hw. exfalso. cbn in Hin. rewrite Ho in Hin. lia.
Qed.

(** A packet that leaves the store wakes everyone. *)
Lemma complete_inv s : options_ s = o -> pending_writes_ s = Z.of_nat (S (load s)) ->
  pending_writes_ s <= max_pending_writes o ->
  accepted s ≡ₚ map_to_list (storing s) ++ ioc s ++ issued s ++ lost s ->
  (forall t, pipeline t s `sublist_of` of_thread t (accepted s)) ->
  (lost s = [] -> forall t, pipeline t s = of_thread t (accepted s)) ->
  commands s = xadd o <$> (issued s).*2 -> issued s ≡ₚ exec s ++ (replies s).*1 ->
  store_inv (CompletePendingWrite s).
Proof.
  intros. split; try done.
  - by apply load_complete.
  - change (load (CompletePendingWrite s)) with (load s). lia.
Qed.

Lemma post_inv t ok s s' : store_inv s -> step s (Post t ok) = Some s' -> store_inv s'.
Proof.
  intros [Ho Hp Hb Ha Hs He Hc Hr Hw Hn]. cbn [step]. unfold Store_post.
  destruct (storing s !! t) as [p|] eqn:Et; [|done]. cbn [mbind option_bind]. intros [= <-].
  pose proof (size_delete_storing _ _ _ Et) as Hsz. unfold load in *.
  pose proof (map_to_list_delete _ _ _ Et) as Hl.
  destruct ok.
  - split; simpl; try done; unfold load; simpl.
    + rewrite Hp, length_app. simpl. lia.
    + rewrite length_app. simpl. lia.
    + rewrite Ha, <- Hl. simpl. rewrite <- app_assoc. simpl.
      by rewrite <- !Permutation_middle.
    + intros u. specialize (Hs u). unfold pipeline in *. simpl.
      rewrite (storing_of_delete u t _ (storing s)) by done. rewrite of_thread_app, of_thread_one.
      unfold storing_of in Hs. destruct (decide (t = u)) as [->|].
      * rewrite Et in Hs. by rewrite app_nil_r.
      * by rewrite app_nil_r.
    + intros Hlost u. rewrite <- (He Hlost u). unfold pipeline, storing_of. simpl.
      rewrite of_thread_app, of_thread_one. destruct (decide (t = u)) as [->|].
      * by rewrite lookup_delete_eq, Et, app_nil_r.
      * by rewrite lookup_delete_ne, app_nil_r.
    + intros u Hu%Hn. by rewrite lookup_delete_None; right.
  - apply complete_inv; unfold load; simpl; try done; try lia.
    + rewrite Ha, <- Hl. simpl. rewrite !app_assoc. rewrite <- Permutation_cons_append. done.
    + intros u. specialize (Hs u). unfold pipeline in *. simpl.
      rewrite (storing_of_delete u t _ (storing s)) by done. unfold storing_of in Hs.
      etrans; [|exact Hs]. repeat apply sublist_app; try done.
      destruct (decide (t = u)); [apply sublist_nil_l|done].
    + by intros [? ?]%app_nil.
Qed.

Lemma handler_inv ok s s' : store_inv s -> step s (Handler ok) = Some s' -> store_inv s'.
Proof.
  intros [Ho Hp Hb Ha Hs He Hc Hr Hw Hn]. cbn [step]. unfold Store_handler, load in *.
  destruct (ioc s) as [|[t p] rest] eqn:Ei; [done|]. intros [= <-]. cbn [length] in *. destruct ok.
  - split; simpl; try done; unfold load; simpl.
    + rewrite Hp, length_app. simpl. lia.
    + rewrite length_app. simpl. lia.
    + rewrite Ha. simpl. rewrite <- app_assoc. simpl. by rewrite <- !Permutation_middle.
    + intros u. specialize (Hs u). unfold pipeline, storing_of in *. simpl. rewrite Ei in Hs.
      change ((t, p) :: rest) with ([(t, p)] ++ rest) in Hs. rewrite of_thread_app in *.
      by rewrite <- !app_assoc in *.
    + intros Hlost u. rewrite <- (He Hlost u). unfold pipeline, storing_of. simpl. rewrite Ei.
      change ((t, p) :: rest) with ([(t, p)] ++ rest). rewrite !of_thread_app. by rewrite <- !app_assoc.
    + by rewrite Hc, fmap_app, fmap_app, Ho.
    + rewrite Hr. by rewrite <- !app_assoc, (Permutation_app_comm (replies s).*1).
  - apply complete_inv; unfold load; simpl; try done; try lia.
    + rewrite Ha. simpl. by rewrite <- Permutation_middle, !app_assoc, <- Permutation_cons_append.
    + intros u. specialize (Hs u). unfold pipeline, storing_of in *. simpl. rewrite Ei in Hs.
      etrans; [|exact Hs]. repeat apply sublist_app; try done.
      unfold of_thread. rewrite filter_cons. destruct (decide _); [by constructor|done].
    + by intros [? ?]%app_nil.
Qed.

Lemma completion_inv i ok s s' : store_inv s -> step s (Completion i ok) = Some s' -> store_inv s'.
Proof.
  intros [Ho Hp Hb Ha Hs He Hc Hr Hw Hn]. cbn [step]. unfold Store_completion, load in *.
  destruct (exec s !! i) as [x|] eqn:Ei; [|done]. intros [= <-].
  assert (Hl : length (exec s) = S (length (delete i (exec s)))).
  { rewrite (length_delete _ i) by eauto. pose proof (lookup_lt_Some _ _ _ Ei). lia. }
  apply complete_inv; unfold load; simpl; try done; try lia.
  rewrite Hr, fmap_app. cbn. rewrite (app_assoc _ _ [x]), <- Permutation_cons_append.
  by rewrite (delete_Permutation _ _ _ Ei) at 1.
Qed.

(** The destructor's sleep keeps the invariant: it sleeps while something is pending. *)
Lemma sleep_inv s : store_inv s -> accepting_writes_ s = false -> WaitForPendingWrites s = false -> store_inv (cv_sleep None s).
Proof.
  intros Hi Hc Hw. apply set_asleep_inv; [| |done].
  - intros w [->%elem_of_singleton|?]%elem_of_union; [|by apply (inv_asleep _ Hi)]. split; [done|].
    by apply Z.eqb_neq in Hw.
  - intros t [?%elem_of_singleton|?]%elem_of_union; [done|by apply (inv_idle _ Hi)].
Qed.

Lemma step_inv e s s' : max_pending_writes o < 2 ^ 64 -> store_inv s -> step s e = Some s' -> store_inv s'.
Proof.
  intros Hm Hs. destruct e as [t p|t ok|ok|i ok| | |w]; [by apply begin_inv|by apply post_inv|by apply handler_inv|by apply completion_inv| | |].
  - intros [= <-]. destruct Hs as [Ho Hp Hb Ha Hs He Hc Hr Hw Hn]. by split.
  - cbn [step]. destruct (accepting_writes_ s || _) eqn:E; [done|]. apply orb_false_iff in E as [Hc _].
    destruct (WaitForPendingWrites s) eqn:Hw; intros [= <-]; [done|by apply sleep_inv].
  - cbn [step]. case_decide; [|done]. intros [= <-]. apply set_asleep_inv; [| |done].
    + intros w' [Hin _]%elem_of_difference. by apply Hs.
    + intros t [Hin _]%elem_of_difference. by apply Hs.
Qed.

(** Every command issued is outstanding, or answered in one way. *)
Lemma answered_commands s : store_inv s ->
  commands s ≡ₚ (xadd o <$> (exec s).*2) ++ answered true s ++ answered false s.
Proof.
  intros Hi. rewrite (inv_commands _ Hi), (inv_replies _ Hi), !fmap_app. f_equiv. unfold answered.
  rewrite (inv_options _ Hi). induction (replies s) as [|[[t p] b] l IH]; [done|]. cbn. rewrite IH.
  destruct b; cbn; [done|]. by rewrite Permutation_middle.
Qed.

Lemma run_inv es : forall s s', max_pending_writes o < 2 ^ 64 -> store_inv s -> run es s = Some s' -> store_inv s'.
Proof.
  induction es as [|e es IH]; intros s s' Hm Hs; cbn [run]; [by intros [= <-]|].
  destruct (step s e) as [s1|] eqn:E; [|done]. cbn [mbind option_bind].
  apply IH; [done|]. by eapply step_inv.
Qed.

(** ** Progress *)

(** All steps but new calls and shutdown. *)
Definition internal (e : event) : Prop := match e with Begin _ _ | Shutdown => False | _ => True end.

(** The steps of the store's own threads: a capture thread that has a slot posts,
    the I/O thread runs a handler.  Neither waits for Redis. *)
Definition own (e : event) : Prop := match e with Post _ _ | Handler _ => True | _ => False end.

(** Those that take a packet further: the store's own, and Redis's answers. *)
Definition advances (e : event) : Prop := match e with Completion _ _ => True | _ => own e end.

(** The steps of their own that the packets on their way to Redis need, and all the steps they need. *)
Definition own_work (s : RedisPacketStore) : nat := (2 * size (storing s) + length (ioc s))%nat.
Definition work (s : RedisPacketStore) : nat := (own_work s + load s)%nat.

Lemma advances_internal es : Forall advances es -> Forall internal es.
Proof. intros H. eapply List.Forall_impl; [|exact H]. by intros []. Qed.

Lemma own_advances es : Forall own es -> Forall advances es.
Proof. intros H. eapply List.Forall_impl; [|exact H]. by intros []. Qed.

Lemma own_step_work s s' e : own e -> step s e = Some s' -> (own_work s' < own_work s /\ work s' < work s)%nat.
Proof.
  unfold work, own_work, load. destruct e as [t p|t ok|ok|i ok| | |w]; try done; intros _; cbn [step].
  - unfold Store_post. destruct (storing s !! t) as [p|] eqn:Et; [|done]. cbn [mbind option_bind].
    intros [= <-]. pose proof (size_delete_storing _ _ _ Et). destruct ok; simpl; rewrite ?length_app; simpl; lia.
  - unfold Store_handler. destruct (ioc s) as [|[t p] rest] eqn:Ei; [done|]. intros [= <-].
    destruct ok; simpl; rewrite ?length_app; simpl; lia.
Qed.

Lemma advances_work s s' e : advances e -> step s e = Some s' -> (work s' < work s)%nat.
Proof.
  destruct e as [t p|t ok|ok|i ok| | |w]; try done; intros He; try (by intros [_ ?]%own_step_work).
  cbn [step]. unfold Store_completion, work, own_work, load.
  destruct (exec s !! i) as [x|] eqn:Ei; [|done]. intros [= <-]. simpl.
  rewrite length_delete by eauto. apply lookup_lt_Some in Ei. lia.
Qed.

Lemma run_bound (P : event -> Prop) (f : RedisPacketStore -> nat) :
  (forall s s' e, P e -> step s e = Some s' -> (f s' < f s)%nat) ->
  forall es s s', Forall P es -> run es s = Some s' -> (length es + f s' <= f s)%nat.
Proof.
  intros Hf. induction es as [|e es IH]; intros s s' Hi; cbn [run]; [intros [= <-]; simpl; lia|].
  apply Forall_cons_1 in Hi as [He Hi]. destruct (step s e) as [s1|] eqn:E; [|done]. cbn [mbind option_bind].
  intros Hr. pose proof (Hf _ _ _ He E). specialize (IH s1 s' Hi Hr). simpl. lia.
Qed.

Lemma advances_bound es s s' : Forall advances es -> run es s = Some s' -> (length es + work s' <= work s)%nat.
Proof. apply run_bound, advances_work. Qed.

Lemma own_bound es s s' : Forall own es -> run es s = Some s' -> (length es + own_work s' <= own_work s)%nat.
Proof. apply run_bound. intros. by eapply own_step_work. Qed.

(** A packet that has not been issued is taken further by one of the store's own
    threads, which never waits, whether or not an exception occurs. *)
Lemma own_enabled s : (0 < own_work s)%nat ->
  (exists t, forall ok, is_Some (step s (Post t ok))) \/ (forall ok, is_Some (step s (Handler ok))).
Proof.
  unfold own_work. intros Hl. destruct (ioc s) as [|[t p] l] eqn:Ei.
  - simpl in Hl. destruct (map_choose (storing s)) as (t & p & Et).
    { intros E. rewrite E, map_size_empty in Hl. lia. }
    left. exists t. intros ok. cbn [step]. unfold Store_post. rewrite Et. by eexists.
  - right. intros ok. cbn [step]. unfold Store_handler. rewrite Ei. by eexists.
Qed.

Lemma own_step_enabled s : (0 < own_work s)%nat -> exists e s', own e /\ step s e = Some s'.
Proof.
  intros [[t Ht]|Hh]%own_enabled; [destruct (Ht true) as [s' E]; by exists (Post t true), s'|].
  destruct (Hh true) as [s' E]. by exists (Handler true), s'.
Qed.

(** The store's own threads issue everything, or lose it. *)
Lemma own_drain n : forall s, (own_work s <= n)%nat ->
  exists es s', Forall own es /\ run es s = Some s' /\ own_work s' = 0%nat.
Proof.
  induction n as [|n IH]; intros s Hn; [exists [], s; split_and!; [constructor|done|lia]|].
  destruct (own_work s) as [|k] eqn:El; [exists [], s; by split_and!; [constructor| |]|].
  destruct (own_step_enabled s) as (e & s1 & He & Es); [lia|].
  destruct (own_step_work _ _ _ He Es) as [? _]. destruct (IH s1) as (es & s' & H1 & H2 & H3); [lia|].
  exists (e :: es), s'. split_and!; [by constructor| |done]. cbn [run]. by rewrite Es.
Qed.

Lemma advances_enabled s : (0 < load s)%nat -> exists e s', advances e /\ step s e = Some s'.
Proof.
  unfold load. intros Hl. destruct (exec s) as [|x l] eqn:Ex.
  - destruct (own_step_enabled s) as (e & s1 & He & Es); [unfold own_work; simpl in Hl; lia|].
    exists e, s1. split; [|done]. by destruct e.
  - exists (Completion 0 true). eexists. split; [done|]. cbn [step]. unfold Store_completion. by rewrite Ex.
Qed.

Lemma drain n : forall s, (work s <= n)%nat -> exists es s', Forall advances es /\ run es s = Some s' /\ load s' = 0%nat.
Proof.
  induction n as [|n IH]; intros s Hn.
  - exists [], s. split_and!; [constructor|done|]. unfold work in *. lia.
  - destruct (load s) as [|k] eqn:El; [exists [], s; by split_and!; [constructor| |]|].
    destruct (advances_enabled s) as (e & s1 & He & Es); [lia|].
    pose proof (advances_work _ _ _ He Es). destruct (IH s1) as (es & s' & H1 & H2 & H3); [lia|].
    exists (e :: es), s'. split_and!; [by constructor| |done]. cbn [run]. by rewrite Es.
Qed.

Lemma closed_step s e s' : accepting_writes_ s = false -> step s e = Some s' ->
  accepting_writes_ s' = false /\ accepted s' = accepted s.
Proof.
  intros Ha. destruct e as [t p|t ok|ok|i ok| | |w].
  - intros (_ & _ & Hs)%step_begin. unfold Store_begin, ReservePendingWriteSlot in Hs.
    rewrite Ha, orb_true_r in Hs. by injection Hs as <-.
  - cbn [step]. unfold Store_post. destruct (storing s !! t); [|done]. cbn [mbind option_bind]. intros [= <-]. by destruct ok.
  - cbn [step]. unfold Store_handler. destruct (ioc s) as [|[? ?] ?]; [done|]. intros [= <-]. by destruct ok.
  - cbn [step]. unfold Store_completion. destruct (exec s !! i); [|done]. by intros [= <-].
  - by intros [= <-].
  - cbn [step]. destruct (_ || _); [done|]. intros [= <-]. by destruct (WaitForPendingWrites s).
  - cbn [step]. case_decide; [|done]. by intros [= <-].
Qed.

Lemma closed_run es : forall s s', accepting_writes_ s = false -> run es s = Some s' ->
  accepting_writes_ s' = false /\ accepted s' = accepted s.
Proof.
  induction es as [|e es IH]; intros s s' Ha; cbn [run]; [by intros [= <-]|].
  destruct (step s e) as [s1|] eqn:E; [|done]. cbn [mbind option_bind].
  destruct (closed_step _ _ _ Ha E) as [Ha1 <-]. by apply IH.
Qed.

(** A thread that evaluates its predicate goes to sleep exactly if the store accepts and is full. *)
Lemma begin_sleeps s t p : store_inv s -> storing s !! t = None -> Some t ∉ asleep s ->
  exists s', step s (Begin t p) = Some s' /\
    (Some t ∈ asleep s' <-> accepting_writes_ s = true /\ pending_writes_ s = max_pending_writes o).
Proof.
  intros [Ho Hp Hb _ _ _ _ _ _ _] Ht Hw. cbn [step]. rewrite decide_False by (rewrite Ht; intros [[? ?]|?]; done).
  eexists. split; [done|]. unfold ReservePendingWriteSlot. rewrite Ho.
  destruct (accepting_writes_ s); cbn [negb]; rewrite ?orb_true_r, ?orb_false_r.
  - destruct (Z.ltb_spec (pending_writes_ s) (max_pending_writes o)); simpl; [|set_solver by lia].
    split; [done|lia].
  - simpl. split; [done|]. by intros [? _].
Qed.

(** Nobody sleeps in an empty store. *)
Lemma empty_awake s : 0 < max_pending_writes o -> store_inv s -> load s = 0%nat -> asleep s = ∅.
Proof.
  intros Hm Hi Hl. apply set_eq. intros w. split; [|set_solver]. intros Hw%(inv_asleep _ Hi). exfalso.
  destruct w; cbn in Hw; rewrite (inv_pending _ Hi), ?(inv_options _ Hi), Hl in Hw; lia.
Qed.

(** Who wakes others: everything that frees a slot, and the shutdown. *)
Lemma completion_wakes s i ok s' : store_inv s -> step s (Completion i ok) = Some s' ->
  asleep s' = ∅ /\ pending_writes_ s' = pending_writes_ s - 1 /\ storing s' = storing s.
Proof.
  intros Hi. cbn [step]. unfold Store_completion. destruct (exec s !! i) as [x|] eqn:Ei; [|done]. intros [= <-].
  split_and!; try done. simpl. pose proof (inv_pending _ Hi). apply lookup_lt_Some in Ei. unfold load in *.
  match goal with |- context [?a >? 0] => destruct (Z.gtb_spec a 0) end; lia.
Qed.

(** ** Theorems *)
Context (Hmax : 0 < max_pending_writes o < 2 ^ 64).

Lemma reachable_inv es s : run es (new_store o) = Some s -> store_inv s.
Proof. apply run_inv; [lia|]. apply new_store_inv. lia. Qed.

(** C26: accounting of the packet store under every interleaving.  [pending_writes_] is exactly the
    number of packets between reservation and completion, and never exceeds the limit; every accepted
    packet is in exactly one place (with its thread, posted, issued, or lost to an exception), and an
    issued one is outstanding or answered, without an error or with one; each thread's packets are
    issued in the order it stored them, all of them if no exception occurred; and the commands are
    the XADDs of the issued packets. *)
Theorem Store_accounting es s : run es (new_store o) = Some s ->
  pending_writes_ s = Z.of_nat (size (storing s) + length (ioc s) + length (exec s)) /\
  pending_writes_ s <= max_pending_writes o /\
  accepted s ≡ₚ map_to_list (storing s) ++ ioc s ++ issued s ++ lost s /\
  issued s ≡ₚ exec s ++ (replies s).*1 /\
  (forall t, of_thread t (issued s) `sublist_of` of_thread t (accepted s)) /\
  (lost s = [] -> forall t, of_thread t (accepted s) =
     of_thread t (issued s) ++ of_thread t (ioc s) ++ storing_of t s) /\
  commands s = xadd o <$> (issued s).*2.
Proof.
  intros [Ho Hp Hb Ha Hs He Hc Hr Hw Hn]%reachable_inv. split_and!; try done.
  - lia.
  - intros t. etrans; [|apply Hs]. unfold pipeline. apply sublist_inserts_r, reflexivity.
  - intros Hl t. symmetry. by apply He.
Qed.

(** C27: no wake-up is lost, and only Redis can hold the store up.  In every reachable state:
    (1) whoever sleeps on the condition variable sleeps on a predicate that is false - a thread in
    [Store] while the store accepts and is full, the destructor while something is pending; who is
    awake goes to sleep exactly then.  (2) The store's own threads never wait: they can
    always take a packet that is not issued yet one step further, exception or not, and after at most
    two steps per slot every pending packet is a command that Redis has not answered.  (3) So at worst a
    sleeper depends on Redis: any answer, like the shutdown, wakes everyone, and a thread that
    slept on the full store then finds a slot.  (4) With at most three steps per slot, answers
    included, the store is empty and nobody sleeps. *)
Theorem Store_progress es s : run es (new_store o) = Some s ->
  ((forall w, w ∈ asleep s -> must_wait w s) /\
   (forall t p, storing s !! t = None -> Some t ∉ asleep s -> exists s', step s (Begin t p) = Some s' /\
      (Some t ∈ asleep s' <-> accepting_writes_ s = true /\ pending_writes_ s = max_pending_writes o)) /\
   (accepting_writes_ s = false -> None ∉ asleep s -> exists s', step s Drain = Some s' /\
      (None ∈ asleep s' <-> pending_writes_ s <> 0))) /\
  ((pending_writes_ s <> Z.of_nat (length (exec s)) ->
      (exists t, forall ok, is_Some (step s (Post t ok))) \/ (forall ok, is_Some (step s (Handler ok)))) /\
   (forall es' s', Forall own es' -> run es' s = Some s' -> Z.of_nat (length es') <= 2 * max_pending_writes o) /\
   (exists es' s', Forall own es' /\ run es' s = Some s' /\ pending_writes_ s' = Z.of_nat (length (exec s')))) /\
  ((forall i ok s', step s (Completion i ok) = Some s' -> asleep s' = ∅ /\
      (forall t p, Some t ∈ asleep s ->
         exists s'', step s' (Begin t p) = Some s'' /\ accepted s'' = accepted s' ++ [(t, p)])) /\
   asleep (stop_accepting s) = ∅) /\
  ((forall es' s', Forall advances es' -> run es' s = Some s' -> Z.of_nat (length es') <= 3 * max_pending_writes o) /\
   (exists es' s', Forall advances es' /\ run es' s = Some s' /\ WaitForPendingWrites s' = true /\ asleep s' = ∅)).
Proof.
  intros Hr. pose proof (reachable_inv _ _ Hr) as Hi. destruct (Hi) as [Ho Hp Hb _ _ _ _ _ Hw Hn]. split_and!; try done.
  - intros t p. by apply begin_sleeps.
  - intros Hc Hn'. cbn [step]. rewrite Hc, bool_decide_eq_false_2 by done. eexists. split; [done|].
    unfold WaitForPendingWrites. destruct (Z.eqb_spec (pending_writes_ s) 0); [tauto|].
    split; [done|]. intros _. apply sleep_asleep.
  - intros Hne. apply own_enabled. unfold own_work, load in *. lia.
  - intros es' s' Hown Hrun. pose proof (own_bound _ _ _ Hown Hrun). unfold own_work, load in *. lia.
  - destruct (own_drain _ s (le_n _)) as (es' & s' & Hown & Hrun & Hl). exists es', s'. split_and!; try done.
    pose proof (run_inv _ _ _ (proj2 Hmax) Hi Hrun) as Hi'. rewrite (inv_pending _ Hi'). unfold own_work, load in *. lia.
  - intros i ok s' Hs. destruct (completion_wakes s i ok s' Hi Hs) as (Hawake & Hpend & Hsto). split; [done|].
    intros t p Hin. pose proof (Hn t Hin) as Ht. destruct (Hw _ Hin) as [Hacc Hfull]. assert (Hi' : store_inv s') by (by eapply step_inv; [lia| |]).
    cbn [step]. rewrite decide_False by (rewrite Hsto, Ht, Hawake; intros [[? ?]|?]; [done|set_solver]).
    eexists. split; [done|]. unfold ReservePendingWriteSlot. rewrite (inv_options _ Hi').
    assert (accepting_writes_ s' = true) as ->.
    { revert Hs. cbn [step]. unfold Store_completion. destruct (exec s !! i); [|done]. by intros [= <-]. }
    rewrite Ho in Hfull. destruct (Z.ltb_spec (pending_writes_ s') (max_pending_writes o)); [done|lia].
  - intros es' s' Hint Hrun. pose proof (advances_bound _ _ _ Hint Hrun). unfold work, own_work, load in *. lia.
  - destruct (drain _ s (le_n _)) as (es' & s' & Hint & Hrun & Hl). exists es', s'.
    pose proof (run_inv _ _ _ (proj2 Hmax) Hi Hrun) as Hi'. split_and!; try done.
    + unfold WaitForPendingWrites. by rewrite (inv_pending _ Hi'), Hl.
    + apply empty_awake; [lia|done..].
Qed.

(** After shutdown nothing more is accepted: a [Store] returns at once and its packet counts as
    dropped. *)
Theorem Store_shutdown s es s' :
  run es (stop_accepting s) = Some s' ->
  accepted s' = accepted s /\
  (forall t p, storing s' !! t = None -> Some t ∉ asleep s' -> exists s'', step s' (Begin t p) = Some s'' /\
     dropped s'' = dropped s' ++ [(t, p)] /\ pending_writes_ s'' = pending_writes_ s').
Proof.
  intros Hr. destruct (closed_run es (stop_accepting s) s' eq_refl Hr) as [Hacc ->]. split; [done|].
  intros t p Ht Hw. cbn [step]. rewrite decide_False by (rewrite Ht; intros [[? ?]|?]; done).
  unfold Store_begin, ReservePendingWriteSlot. rewrite Hacc, orb_true_r. by eexists.
Qed.

End Facts.

(** ** Construction from a loaded configuration *)
Lemma check_options_Ok o : check_options o = Ok tt <->
  host o <> ""%string /\ port o <> ""%string /\ stream_key o <> ""%string /\
  max_pending_writes o <> 0 /\ connect_timeout_ms o <> 0 /\ drain_timeout_ms o <> 0.
Proof.
  unfold check_options. rewrite !bind_throw, throw_when_Ok, !is_empty_false, !Z.eqb_neq. done.
Qed.

Lemma loaded_options `{HJ : JsonLib} files path c :
  LoadRuntimeConfigFromJson files path = Ok c -> check_options (redis c) = Ok tt.
Proof.
  unfold LoadRuntimeConfigFromJson. destruct (files path); [|done]. destruct (json_parse _); [done|].
  destruct (negb _); [done|]. rewrite result_bind_Ok. intros (d & _ & [_ Hv]%validate_Ok).
  apply check_options_Ok. destruct Hv as [H1 H2 H3 _ _ H6]. repeat apply Forall_cons_1 in H6 as [? H6].
  split_and!; try done; lia.
Qed.

(** Construction.  The store comes up exactly if the six options are usable and Redis answers
    the PING with PONG in time, and only then is its I/O thread left running; a configuration that
    [LoadRuntimeConfigFromJson] returned always has usable options. *)
Theorem construct_spec `{HJ : JsonLib} files path c p :
  LoadRuntimeConfigFromJson files path = Ok c ->
  ((construct (redis c) p).1 = Ok tt <-> p = ping_reply "PONG") /\
  (forall o, (construct o p).2 = true <-> (construct o p).1 = Ok tt) /\
  (forall o, (construct o p).1 = Ok tt -> host o <> ""%string /\ port o <> ""%string /\
     stream_key o <> ""%string /\ max_pending_writes o <> 0).
Proof.
  intros Hc%loaded_options. split_and!.
  - unfold construct. rewrite Hc. destruct p as [|m|r|e]; simpl; try done.
    case_bool_decide as E; simpl; [by subst|]. split; [done|]. congruence.
  - intros o. unfold construct. destruct (check_options o); [|done]. by destruct (ValidateConnection o p) as [[]|].
  - intros o. unfold construct. destruct (check_options o) as [[]|] eqn:E; [|done].
    intros _. apply check_options_Ok in E. tauto.
Qed.

Lemma construct_spec_witness :
  (construct (redis default_config) (ping_reply "PONG")).1 = Ok tt.
Proof.
  apply (construct_spec (HJ := sample_json) Some "shipped" (with_routing (mk_routing true "eth0" "eth1" false) default_config)
           (ping_reply "PONG") shipped_config_routes).
  reflexivity.
Defined.

(** ** A concrete run

    A store of two slots: two threads store three packets, one write is
    completed before the third is accepted. *)
Definition two_slots : RedisStoreOptions := mk_redis "127.0.0.1" "6379" "packets" 2 5000 5000.

Definition sample_packet (n : Z) : PacketInfo := mk_info "eth0" "10.0.0.1" "10.0.0.2" "UDP" n "" 0.

Definition sample_events : list event :=
  [Begin 0 (sample_packet 1); Begin 1 (sample_packet 2); Post 1 true; Post 0 true;
   Handler true; Completion 0 true; Begin 0 (sample_packet 3); Begin 1 (sample_packet 4)].

Definition sample_run : RedisPacketStore := default (new_store two_slots) (run sample_events (new_store two_slots)).

(** Thread 1 sleeps on the full store until a write completes. *)
Example sample_sleeps : asleep sample_run = {[Some 1%nat]}.
Proof. vm_compute. reflexivity. Qed.

Example sample_woken :
  (s ← run [Post 0 true; Handler true; Completion 0 false] sample_run; Some (asleep s, answered false s)) =
  Some (∅, [xadd two_slots (sample_packet 1)]).
Proof. vm_compute. reflexivity. Qed.

Example sample_commands : commands sample_run =
  [["XADD"; "packets"; "*"; "iface"; "eth0"; "src_ip"; "10.0.0.1"; "dst_ip"; "10.0.0.2";
    "protocol"; "UDP"; "length"; "2"; "timestamp_us"; "0"; "data"; ""]]%string.
Proof. vm_compute. reflexivity. Qed.

Lemma two_slots_ok : 0 < max_pending_writes two_slots < 2 ^ 64.
Proof. done. Qed.

Lemma Store_accounting_witness : pending_writes_ sample_run = 2.
Proof.
  refine (proj1 (Store_accounting two_slots two_slots_ok sample_events sample_run _)). vm_compute. reflexivity.
Defined.

Lemma Store_progress_witness : must_wait (Some 1%nat) sample_run.
Proof.
  refine (proj1 (proj1 (Store_progress two_slots two_slots_ok sample_events sample_run _)) (Some 1%nat) _);
    [vm_compute; reflexivity|]. apply (bool_decide_unpack _). vm_compute. exact I.
Defined.

Lemma Store_shutdown_witness :
  accepted (default (stop_accepting sample_run) (run [Handler true] (stop_accepting sample_run))) =
  accepted sample_run.
Proof.
  refine (proj1 (Store_shutdown sample_run [Handler true] _ _)). vm_compute. reflexivity.
Defined.
