(* ===== verification/RedisShutdown.v ===== *)
(** * Shutting the packet store down ([src/RedisPacketStore.cpp], 58-71, 195-206)

    The destructor closes the store to new packets, waits at most
    [drain_timeout_ms] for the pending writes, then cancels the connection,
    stops the I/O context and joins its thread: what has not been written by
    then never is.  [es] are the steps the other threads take while the
    destructor waits, up to the time-out; [late] those they still take until
    the I/O thread has been joined. *)
From S2P Require Import Prelude RuntimeConfig PcapReceiver RedisPacketStore.

(** [pending_cv_.wait_for]: while it is awake the destructor evaluates the
    predicate; it returns if that holds, and goes to sleep otherwise, until it
    is woken; when the time is up it returns the predicate's value. *)
Fixpoint wait_for (es : list event) (s : RedisPacketStore) : option (bool * RedisPacketStore) :=
  if negb (bool_decide (None ∈ asleep s)) && WaitForPendingWrites s then Some (true, s)
  else
    let s := cv_sleep None s in
    match es with
    | [] => Some (WaitForPendingWrites s, cv_wake None s)
    | e :: es => s ← step s e; wait_for es s
    end.

(** The destructor: whether the writes were drained, and what is left. *)
Definition shut_down (es late : list event) (s : RedisPacketStore) : option (bool * RedisPacketStore) :=
  '(drained, s) ← wait_for es (stop_accepting s);
  s ← run late s;
  Some (drained, s).

(** The packets that [ioc_.stop()] and [conn_.cancel()] leave behind. *)
Definition abandoned (s : RedisPacketStore) : list entry := map_to_list (storing s) ++ ioc s ++ exec s.

Section Facts.
Context (o : RedisStoreOptions) (Hmax : 0 < max_pending_writes o < 2 ^ 64).

Lemma abandoned_load s : length (abandoned s) = load s.
Proof. unfold abandoned, load. rewrite !length_app, length_map_to_list. lia. Qed.

Lemma sleep_again s : None ∈ asleep s -> cv_sleep None s = s.
Proof.
  intros H. unfold cv_sleep. assert ({[None]} ∪ asleep s = asleep s) as ->; [|by destruct s].
  by apply subseteq_union_1_L, singleton_subseteq_l.
Qed.

(** What the steps of the others and the destructor's own sleep keep, the wait
    keeps; and its result is the predicate. *)
Lemma wait_for_inv (P : RedisPacketStore -> Prop) (Q : event -> Prop) :
  (forall e s s', Q e -> P s -> step s e = Some s' -> P s') ->
  (forall s, P s -> WaitForPendingWrites s = false -> P (cv_sleep None s)) ->
  (forall s, P s -> P (cv_wake None s)) ->
  forall es s d s', Forall Q es -> P s -> wait_for es s = Some (d, s') -> P s' /\ WaitForPendingWrites s' = d.
Proof.
  intros Hstep Hsleep Hwake. induction es as [|e es IH]; intros s d s' HQ HP; cbn [wait_for];
    destruct (negb _ && _) eqn:E; cbv zeta; try (apply andb_true_iff in E as [_ E]; by intros [= <- <-]).
  all: assert (Hs : P (cv_sleep None s)) by (apply andb_false_iff in E as [E|E]; [|by apply Hsleep];
    apply negb_false_iff, bool_decide_eq_true in E; by rewrite sleep_again).
  - intros [= <- <-]. split; [by apply Hwake|done].
  - apply Forall_cons_1 in HQ as [He HQ]. destruct (step _ e) as [s1|] eqn:Es; [|done]. cbn [mbind option_bind].
    apply IH; [done|]. by eapply Hstep.
Qed.

(** Who sleeps does not matter to the steps that take a packet further. *)
Lemma advance_asleep s ws e s' : advances e -> step s e = Some s' ->
  exists ws', step (set_asleep ws s) e = Some (set_asleep ws' s').
Proof.
  destruct e as [t p|t ok|ok|i ok| | |w]; try done; intros _; cbn [step].
  - unfold Store_post. cbn [storing set_asleep]. destruct (storing s !! t); [|done]. cbn [mbind option_bind].
    intros [= <-]. destruct ok; by eexists.
  - unfold Store_handler. cbn [ioc set_asleep]. destruct (ioc s) as [|[? ?] ?]; [done|]. intros [= <-]. destruct ok; by eexists.
  - unfold Store_completion. cbn [exec set_asleep]. destruct (exec s !! i); [|done]. intros [= <-]. by eexists.
Qed.

(** A closed store that a run empties is drained, and the destructor learns it at once,
    whatever else happens. *)
Lemma run_wait_for es : forall s ws s', store_inv o (set_asleep ws s) -> accepting_writes_ s = false ->
  Forall advances es -> run es s = Some s' -> WaitForPendingWrites s' = true ->
  exists s'', forall more, wait_for (es ++ more) (set_asleep ws s) = Some (true, s'').
Proof.
  induction es as [|e es IH]; intros s ws s' Hi Hc Hadv; cbn [run app].
  - intros [= <-] Hw. exists (set_asleep ws s). intros more.
    assert (Hawake : None ∉ ws).
    { intros [_ Hin]%(inv_asleep o _ Hi None). apply Hin. apply Z.eqb_eq, Hw. }
    destruct more; cbn [wait_for]; rewrite bool_decide_eq_false_2 by done; unfold WaitForPendingWrites in *;
      cbn in *; by rewrite Hw.
  - apply Forall_cons_1 in Hadv as [He Hadv]. destruct (step s e) as [s1|] eqn:Es; [|done]. cbn [mbind option_bind].
    intros Hr Hw. cbn [wait_for]. destruct (negb _ && _) eqn:E; [by eexists|]. cbv zeta.
    assert (Hi' : store_inv o (cv_sleep None (set_asleep ws s))).
    { apply andb_false_iff in E as [E|E]; [|by apply (sleep_inv o)].
      apply negb_false_iff, bool_decide_eq_true in E. by rewrite sleep_again. }
    destruct (advance_asleep s ({[None]} ∪ ws) e s1 He Es) as [ws' Es'].
    change (cv_sleep None (set_asleep ws s)) with (set_asleep ({[None]} ∪ ws) s) in *. rewrite Es'. cbn [mbind option_bind].
    apply (IH s1 ws' s'); try done; [eapply step_inv; [lia|exact Hi'|exact Es']|by eapply closed_step].
Qed.

(** A closed, empty store stays empty: a [Store] then only counts its packet as dropped. *)
Lemma idle_step s e s' : store_inv o s -> accepting_writes_ s = false -> load s = 0%nat -> step s e = Some s' ->
  load s' = 0%nat /\ issued s' = issued s /\ lost s' = lost s.
Proof.
  intros Hi Ha Hl. unfold load in Hl.
  assert (Hioc : ioc s = []) by (destruct (ioc s); [done|simpl in Hl; lia]).
  assert (Hex : exec s = []) by (destruct (exec s); [done|simpl in Hl; lia]).
  destruct e as [t p|t ok|ok|i ok| | |w].
  - intros (_ & _ & Hs)%step_begin. unfold Store_begin, ReservePendingWriteSlot in Hs.
    rewrite Ha, orb_true_r in Hs. injection Hs as <-. unfold load. simpl. split_and!; try done; lia.
  - cbn [step]. unfold Store_post. destruct (storing s !! t) as [p|] eqn:Et; [|done].
    pose proof (size_delete_storing _ _ _ Et). lia.
  - cbn [step]. unfold Store_handler. by rewrite Hioc.
  - cbn [step]. unfold Store_completion. by rewrite Hex.
  - intros [= <-]. by unfold load.
  - cbn [step]. destruct (_ || _); [done|]. intros [= <-]. by destruct (WaitForPendingWrites s).
  - cbn [step]. case_decide; [|done]. intros [= <-]. by unfold load.
Qed.

Lemma idle_run es : forall s s', store_inv o s -> accepting_writes_ s = false -> load s = 0%nat -> run es s = Some s' ->
  load s' = 0%nat /\ issued s' = issued s /\ lost s' = lost s.
Proof.
  induction es as [|e es IH]; intros s s' Hi Ha Hl; cbn [run]; [by intros [= <-]|].
  destruct (step s e) as [s1|] eqn:E; [|done]. cbn [mbind option_bind]. intros Hr.
  destruct (idle_step s e s1 Hi Ha Hl E) as (Hl1 & <- & <-).
  apply (IH s1); try done; [|by eapply closed_step]. eapply step_inv; [lia|exact Hi|exact E].
Qed.

Lemma shut_down_run es late s drained s' : shut_down es late s = Some (drained, s') ->
  exists s1, wait_for es (stop_accepting s) = Some (drained, s1) /\ run late s1 = Some s'.
Proof.
  unfold shut_down. destruct (wait_for es _) as [[d s1]|] eqn:Ew; [|done]. cbn [mbind option_bind].
  destruct (run late s1) as [s2|] eqn:El; [|done]. cbn [mbind option_bind]. intros [= <- <-]. by exists s1.
Qed.

Lemma cv_wake_inv s w : store_inv o s -> store_inv o (cv_wake w s).
Proof.
  intros Hi. apply set_asleep_inv; [| |done].
  - intros w' [? _]%elem_of_difference. by apply (inv_asleep o _ Hi).
  - intros t [? _]%elem_of_difference. by apply (inv_idle o _ Hi).
Qed.

(** The wait of a closed store. *)
Lemma wait_for_closed es s d s' : store_inv o s -> accepting_writes_ s = false -> wait_for es s = Some (d, s') ->
  (store_inv o s' /\ accepting_writes_ s' = false /\ accepted s' = accepted s) /\ WaitForPendingWrites s' = d.
Proof.
  intros Hi Hc. set (P := fun st => store_inv o st /\ accepting_writes_ st = false /\ accepted st = accepted s).
  apply (wait_for_inv P (fun _ => True)); [| | |by apply Forall_true|done]; unfold P.
  - intros e st st' _ (Hi1 & Hc1 & Ha1) Hs. destruct (closed_step _ _ _ Hc1 Hs) as [? ->].
    split_and!; try done. by eapply step_inv; [lia| |].
  - intros st (Hi1 & Hc1 & Ha1) Hw. split_and!; try done. by apply sleep_inv.
  - intros st (Hi1 & Hc1 & Ha1). split_and!; try done. by apply cv_wake_inv.
Qed.

Lemma waited s : store_inv o s -> (WaitForPendingWrites s = true <-> load s = 0%nat).
Proof. intros [_ Hp _ _ _ _ _ _ _ _]. unfold WaitForPendingWrites. rewrite Hp, Z.eqb_eq. lia. Qed.

(** C28: shutdown of the packet store.  Whatever the other threads do while the destructor waits and
    until it has joined the I/O thread: no packet is accepted any more; every packet accepted before
    was issued to Redis, lost to an exception, or is abandoned, at most [max_pending_writes] of them;
    if the writes drained in time, nothing is abandoned and Redis has answered every command; and
    at most three steps per slot - of the store's own threads, and Redis's answers - are needed for
    that, after which the destructor is woken and goes on at once, whatever else may follow. *)
Theorem Store_destructor run_before s es late drained s' :
  run run_before (new_store o) = Some s -> shut_down es late s = Some (drained, s') ->
  accepted s' = accepted s /\
  pending_writes_ s' = Z.of_nat (length (abandoned s')) /\
  Z.of_nat (length (abandoned s')) <= max_pending_writes o /\
  accepted s ≡ₚ issued s' ++ lost s' ++ map_to_list (storing s') ++ ioc s' /\
  (drained = true -> abandoned s' = [] /\ accepted s ≡ₚ issued s' ++ lost s') /\
  (exists es' s'', Forall internal es' /\ Z.of_nat (length es') <= 3 * max_pending_writes o /\
     forall more, shut_down (es' ++ more) [] s = Some (true, s'')).
Proof.
  intros Hr (s1 & Hr1 & Hr2)%shut_down_run.
  assert (Hi : store_inv o (stop_accepting s)) by (destruct (reachable_inv o Hmax _ _ Hr); by split).
  destruct (wait_for_closed es (stop_accepting s) drained s1 Hi eq_refl Hr1) as [(Hi1 & Hc1 & Ha1) Hw].
  pose proof (run_inv o _ _ _ (proj2 Hmax) Hi1 Hr2) as Hi2.
  destruct (closed_run _ _ _ Hc1 Hr2) as [_ Ha2]. rewrite Ha1 in Ha2. cbn [stop_accepting accepted] in Ha2.
  pose proof (inv_accepted _ _ Hi2) as Hperm. rewrite Ha2 in Hperm.
  rewrite abandoned_load. split_and!; try done; try apply Hi2.
  - rewrite Hperm, !(app_assoc _ _ (_ ++ _)). apply Permutation_app_comm.
  - intros ->. rewrite <- (app_nil_r (lost s')). apply (waited s1 Hi1) in Hw.
    destruct (idle_run late s1 s' Hi1 Hc1 Hw Hr2) as (Hl & _ & _). rewrite <- abandoned_load in Hl.
    apply nil_length_inv in Hl. split; [done|]. unfold abandoned in Hl.
    apply app_nil in Hl as [Hs [Hio _]%app_nil]. rewrite Hperm, Hs, Hio. by rewrite app_nil_r.
  - destruct (drain _ (stop_accepting s) (le_n _)) as (es2 & s2 & Hint & Hrun & Hl).
    pose proof (run_inv o _ _ _ (proj2 Hmax) Hi Hrun) as Hi3.
    destruct (run_wait_for es2 (stop_accepting s) ∅ s2 Hi eq_refl Hint Hrun) as [s3 Hwf]; [by apply waited|].
    exists es2, s3. split_and!; [by apply advances_internal| |].
    2: { intros more. unfold shut_down. change (set_asleep ∅ (stop_accepting s)) with (stop_accepting s) in Hwf. by rewrite Hwf. }
    pose proof (advances_bound _ _ _ Hint Hrun). destruct Hi as [_ _ Hb _ _ _ _ _ _ _].
    unfold work, own_work, load in *. lia.
Qed.

End Facts.

(** ** Two shutdowns of the sample store: drained, and timed out *)
Definition drain_events : list event := [Post 0 true; Handler true; Completion 0 true; Spurious None; Handler true; Completion 0 false].

Example shut_down_drains :
  fst <$> shut_down drain_events [] sample_run = Some true.
Proof. vm_compute. reflexivity. Qed.

Example shut_down_times_out :
  (fun x => (x.1, length (abandoned x.2))) <$> shut_down (take 2 drain_events) [Completion 0 false] sample_run = Some (false, 1%nat).
Proof. vm_compute. reflexivity. Qed.

Definition drained_store : RedisPacketStore :=
  from_option snd sample_run (shut_down drain_events [] sample_run).

Lemma Store_destructor_witness : abandoned drained_store = [] /\ accepted sample_run ≡ₚ issued drained_store ++ lost drained_store.
Proof.
  refine (proj1 (proj2 (proj2 (proj2 (proj2 (Store_destructor two_slots two_slots_ok sample_events sample_run
    drain_events [] true drained_store _ _))))) eq_refl); vm_compute; reflexivity.
Defined.
