(* ===== verification/Recording.v ===== *)
(** * From captured packets to the Redis stream: receivers and store together

    The receivers of the capture service share one packet store.  The capture
    thread of a receiver runs [onPacketArrives] for each packet, which forwards
    it and calls [Store]; the store's own threads write the packets as XADD
    commands.  [Store] blocks while the store is full, and never throws: the
    callback is what [onPacketArrives] does up to the call of [Store], then the
    reservation of a slot, then the posting of the write. *)
From stdpp Require Import pretty.
From S2P Require Import Prelude RuntimeConfig PcapReceiver RedisPacketStore.

Section Recording.
Context `{HP : Pcpp}.

(** The shared store, the calls of [Store] that wait for a slot, by thread, what
    each receiver has sent on its route device, and the packets each has
    captured, with whether sending succeeded. *)
Record recording := mk_recording {
  store_ : RedisPacketStore;
  waiting : gmap nat PacketInfo;
  wires : list (nat * bytes);
  captured : list (nat * (bool * RawPacket));
}.

Inductive activity :=
  | Capture (t : nat) (sends : bool) (p : RawPacket)
  | Reserve (t : nat)
  | Internal (e : event).

(** A capture thread handles one packet at a time. *)
Definition busy (t : nat) (s : recording) : bool :=
  bool_decide (is_Some (waiting s !! t)) || bool_decide (is_Some (storing (store_ s) !! t)).

(** The callback, up to the call of [Store] if there is one. *)
Definition capture (receivers : list PcapReceiver) (t : nat) (sends : bool) (p : RawPacket) (s : recording) : option recording :=
  r ← receivers !! t;
  if busy t s then None
  else
    let w := onPacketArrives (fun _ => sends) (fun _ => Ok tt) r p (mk_io [] []) in
    Some (mk_recording (store_ s) (foldr (fun info m => <[t := info]> m) (waiting s) (stored w))
      (wires s ++ ((t,.) <$> sent w)) (captured s ++ [(t, (sends, p))])).

(** The waiting call gets its slot, or drops its packet; or it goes to sleep
    and goes on waiting. *)
Definition reserve (t : nat) (s : recording) : option recording :=
  info ← waiting s !! t;
  st ← step (store_ s) (Begin t info);
  Some (mk_recording st (if decide (Some t ∈ asleep st) then waiting s else delete t (waiting s))
    (wires s) (captured s)).

(** The steps of the store other than new calls of [Store]. *)
Definition act (receivers : list PcapReceiver) (a : activity) (s : recording) : option recording :=
  match a with
  | Capture t sends p => capture receivers t sends p s
  | Reserve t => reserve t s
  | Internal (Begin _ _) => None
  | Internal e => st ← step (store_ s) e; Some (mk_recording st (waiting s) (wires s) (captured s))
  end.

Definition acts (receivers : list PcapReceiver) (l : list activity) (s : recording) : option recording :=
  foldl (fun o a => o ≫= act receivers a) (Some s) l.

(** ** Reading the stream back *)

(** The value of a field of a command: [XADD key * name value name value ...]. *)
Fixpoint pairs_lookup (k : string) (l : list string) : option string :=
  match l with
  | n :: v :: l => if decide (n = k) then Some v else pairs_lookup k l
  | _ => None
  end.

Definition field (k : string) (command : list string) : option string := pairs_lookup k (drop 3 command).

(** The packet a command of device [name] records. *)
Definition decode_command (name : string) (command : list string) : option bytes :=
  n ← field "iface" command;
  d ← field "data" command;
  if decide (n = name) then hex_decode (String.list_ascii_of_string d) else None.

Definition recorded_on (name : string) (l : list (list string)) : list bytes := omap (decode_command name) l.

(** The packets that receiver [t] has captured; of these, those it forwards and
    those it gives to the store. *)
Definition captured_by (t : nat) (s : recording) : list (bool * RawPacket) :=
  omap (fun x => if decide (x.1 = t) then Some x.2 else None) (captured s).

Definition forwarded (r : PcapReceiver) (l : list (bool * RawPacket)) : list bytes :=
  omap (fun x => if bool_decide (is_Some (route_device_ r)) && x.1 then Some (raw_data x.2) else None) l.

Definition to_record (r : PcapReceiver) (l : list (bool * RawPacket)) : list bytes :=
  omap (fun x => if record_packets_ r && has_store r && (negb (bool_decide (is_Some (route_device_ r))) || x.1)
                 then Some (raw_data x.2) else None) l.

End Recording.

(** ** What is decoded *)
Section Facts.
Context `{HP : Pcpp}.

Lemma decode_xadd o name p :
  decode_command name (xadd o p) =
  if decide (iface p = name) then hex_decode (String.list_ascii_of_string (data_hex p)) else None.
Proof. reflexivity. Qed.

(** The callback, as a whole: what it sends and what it stores. *)
Lemma callback_spec sends r p :
  bytes_ok (raw_data p) -> Z.of_nat (length (raw_data p)) < 2 ^ 32 ->
  let w := onPacketArrives (fun _ => sends) (fun _ => Ok tt) r p (mk_io [] []) in
  sent w = forwarded r [(sends, p)] /\
  (exists info, stored w = (if decide (to_record r [(sends, p)] = []) then [] else [info]) /\
     iface info = default "" (device_ r)%string /\
     hex_decode (String.list_ascii_of_string (data_hex info)) = Some (raw_data p)) /\
  (to_record r [(sends, p)] = [] \/ to_record r [(sends, p)] = [raw_data p]).
Proof.
  intros Hb Hl. cbv zeta. unfold onPacketArrives, processPacket, mbind, effect_bind.
  rewrite forward_packet_spec. cbv zeta. unfold to_record, forwarded. cbn [omap list_omap raw_data fst snd sent stored].
  set (rt := bool_decide (is_Some (route_device_ r))).
  destruct (describe_ok (default "" (device_ r)) p Hb Hl) as [_ Hd].
  destruct rt, sends; cbn [andb orb negb fst snd sent stored app]; unfold record_packet, raise_when, mbind, effect_bind, update, raise;
    destruct (record_packets_ r), (has_store r); cbn; (split; [done|]);
    (split; [exists (with_data p (describe (default "" (device_ r)) p)); by split_and!|by auto]).
Qed.


(** ** The invariant *)
Context (o : RedisStoreOptions) (receivers : list PcapReceiver) (names : list string).
Context (Hnames : device_ <$> receivers = Some <$> names) (Hdistinct : NoDup names).
Context (Hmax : 0 < max_pending_writes o < 2 ^ 64).

Definition activity_ok (a : activity) : Prop :=
  match a with
  | Capture _ _ p => bytes_ok (raw_data p) /\ Z.of_nat (length (raw_data p)) < 2 ^ 32
  | _ => True
  end.

Definition data_of (e : entry) : option bytes := hex_decode (String.list_ascii_of_string (data_hex e.2)).

Definition wire_of (t : nat) (l : list (nat * bytes)) : list bytes :=
  omap (fun x => if decide (x.1 = t) then Some x.2 else None) l.

Definition name_of (t : nat) : option string := names !! t.

(** What the waiting call of thread [t] holds. *)
Definition waiting_data (t : nat) (s : recording) : list bytes :=
  match waiting s !! t with Some info => option_list (data_of (t, info)) | None => [] end.

Record recording_inv (s : recording) : Prop := {
  ri_store : store_inv o (store_ s);
  ri_iface : Forall (fun e : entry => name_of e.1 = Some (iface e.2)) (accepted (store_ s));
  ri_waiting t info : waiting s !! t = Some info ->
    name_of t = Some (iface info) /\ storing (store_ s) !! t = None;
  ri_data t r : receivers !! t = Some r ->
    omap data_of (of_thread t (accepted (store_ s))) ++ waiting_data t s `sublist_of` to_record r (captured_by t s) /\
    (dropped (store_ s) = [] ->
     omap data_of (of_thread t (accepted (store_ s))) ++ waiting_data t s = to_record r (captured_by t s));
  ri_wire t r : receivers !! t = Some r -> wire_of t (wires s) = forwarded r (captured_by t s);
}.

Lemma begin_effect t p s s' : step s (Begin t p) = Some s' ->
  s' = cv_sleep (Some t) s \/
  ((Some t ∉ asleep s') /\
   ((accepted s' = accepted s ++ [(t, p)] /\ dropped s' = dropped s) \/
    (accepted s' = accepted s /\ dropped s' = dropped s ++ [(t, p)]))).
Proof.
  intros (_ & Hw & Hs)%step_begin. unfold Store_begin, ReservePendingWriteSlot in Hs.
  destruct (_ || _); [|left; by injection Hs as <-]. destruct (negb _); cbn [negb] in Hs; injection Hs as <-; auto.
Qed.

Lemma begin_storing t p s s' u : step s (Begin t p) = Some s' -> t <> u -> storing s' !! u = storing s !! u.
Proof.
  intros (_ & _ & Hs)%step_begin Hne. unfold Store_begin, ReservePendingWriteSlot in Hs.
  destruct (_ || _); [|by injection Hs as <-]. destruct (negb _); cbn [negb] in Hs; injection Hs as <-; [done|].
  by apply lookup_insert_ne.
Qed.

Lemma internal_effect e s s' : match e with Begin _ _ => False | _ => True end -> step s e = Some s' ->
  accepted s' = accepted s /\ dropped s' = dropped s /\ forall u, storing s !! u = None -> storing s' !! u = None.
Proof.
  destruct e as [t p|t ok|ok|i ok| | |w]; try done; intros _; cbn [step].
  - unfold Store_post. destruct (storing s !! t); [|done]. cbn [mbind option_bind]. intros [= <-].
    destruct ok; (split_and!; [done..|]); intros u Hu; cbn; rewrite lookup_delete_None; auto.
  - unfold Store_handler. destruct (ioc s) as [|[? ?] ?]; [done|]. intros [= <-]. by destruct ok.
  - unfold Store_completion. destruct (exec s !! i); [|done]. by intros [= <-].
  - by intros [= <-].
  - destruct (_ || _); [done|]. intros [= <-]. by destruct (WaitForPendingWrites s).
  - case_decide; [|done]. by intros [= <-].
Qed.

Lemma names_lookup t r : receivers !! t = Some r -> name_of t = Some (default "" (device_ r))%string.
Proof.
  intros E. unfold name_of. assert (H : (device_ <$> receivers) !! t = Some (device_ r)) by (by rewrite list_lookup_fmap, E).
  rewrite Hnames, list_lookup_fmap in H. destruct (names !! t) as [n|]; [|done]. cbn in H.
  by injection H as <-.
Qed.

Lemma captured_by_snoc t u x s st m w : captured_by t (mk_recording st m w (captured s ++ [(u, x)])) =
  captured_by t s ++ if decide (u = t) then [x] else [].
Proof.
  unfold captured_by. cbn [captured]. rewrite omap_app. f_equal. cbn. by destruct (decide (u = t)).
Qed.

Lemma to_record_app r a b : to_record r (a ++ b) = to_record r a ++ to_record r b.
Proof. apply omap_app. Qed.

Lemma forwarded_app r a b : forwarded r (a ++ b) = forwarded r a ++ forwarded r b.
Proof. apply omap_app. Qed.

Lemma wire_of_app t a b : wire_of t (a ++ b) = wire_of t a ++ wire_of t b.
Proof. apply omap_app. Qed.

Lemma wire_of_tagged t u l : wire_of t ((u,.) <$> l) = if decide (u = t) then l else [].
Proof.
  unfold wire_of. induction l as [|x l IH]; cbn; [by destruct (decide _)|]. cbn in IH. rewrite IH.
  by destruct (decide (u = t)).
Qed.

Lemma idle t s : busy t s = false -> waiting s !! t = None /\ storing (store_ s) !! t = None.
Proof.
  unfold busy. intros [Hw Hs]%orb_false_iff. apply bool_decide_eq_false in Hw, Hs.
  by split; apply eq_None_not_Some.
Qed.

(** One capture: its packet is added to the packets to record of its own
    receiver, and its record to what its own thread waits with. *)
Lemma capture_inv t sends p s s' : activity_ok (Capture t sends p) -> recording_inv s ->
  capture receivers t sends p s = Some s' -> recording_inv s'.
Proof.
  intros [Hb Hl] [H1 H2 H3 H4 H5]. unfold capture. destruct (receivers !! t) as [r|] eqn:Er; [|done]. cbn [mbind option_bind].
  destruct (busy t s) eqn:Ebusy; [done|]. apply idle in Ebusy as [Hwn Hsn].
  destruct (callback_spec sends r p Hb Hl) as (Hsent & (info & Hst & Hif & Hdec) & Hrec). rewrite Hsent, Hst.
  intros Hs'%(inj Some). subst s'.
  assert (Hw : forall u r', receivers !! u = Some r' -> wire_of u (wires s ++ ((t,.) <$> forwarded r [(sends, p)])) =
    forwarded r' (captured_by u s ++ if decide (t = u) then [(sends, p)] else [])).
  { intros u r' Hu. rewrite wire_of_app, wire_of_tagged, forwarded_app, (H5 u r' Hu).
    destruct (decide (t = u)) as [->|]; [|done]. by rewrite Er in Hu; injection Hu as <-. }
  destruct (decide (to_record r [(sends, p)] = [])) as [E|E]; cbn [foldr].
  - constructor; cbn [store_ wires waiting]; try done; intros u r' Hu; rewrite captured_by_snoc.
    + rewrite to_record_app. destruct (H4 u r' Hu) as [Ha Hd]. unfold waiting_data in *. cbn [waiting].
      destruct (decide (t = u)) as [->|]; [rewrite Er in Hu; injection Hu as <-; rewrite E|cbn]; by rewrite app_nil_r.
    + by apply Hw.
  - destruct Hrec as [?|Hrec]; [done|].
    assert (Hif' : name_of t = Some (iface info)) by (by rewrite Hif; apply names_lookup).
    constructor; cbn [store_ wires waiting]; try done; try (intros u r' Hu; rewrite captured_by_snoc by done; by apply Hw).
    + intros u i. destruct (decide (t = u)) as [->|Hne].
      * rewrite lookup_insert_eq. by intros [= <-].
      * rewrite lookup_insert_ne by done. apply H3.
    + intros u r' Hu. rewrite captured_by_snoc. rewrite to_record_app. destruct (H4 u r' Hu) as [Ha Hd]. unfold waiting_data in *. cbn [waiting].
      destruct (decide (t = u)) as [->|Hne].
      * rewrite Er in Hu. injection Hu as <-. rewrite Hrec, lookup_insert_eq.
        unfold data_of at 2 4. cbn [snd]. rewrite Hdec. cbn [option_list]. rewrite Hwn, app_nil_r in *.
        split; [by apply sublist_app|]. intros Hdr. by rewrite Hd.
      * rewrite lookup_insert_ne by done. cbn. by rewrite app_nil_r.
Qed.

(** The waiting record of a thread becomes accepted, or dropped. *)
Lemma reserve_inv t s s' : recording_inv s -> reserve t s = Some s' -> recording_inv s'.
Proof.
  intros [H1 H2 H3 H4 H5]. unfold reserve. destruct (waiting s !! t) as [info|] eqn:Ew; [|done]. cbn [mbind option_bind].
  destruct (step (store_ s) (Begin t info)) as [st|] eqn:Est; [|done]. cbn [mbind option_bind]. intros [= <-].
  destruct (H3 t info Ew) as [Hif _].
  assert (Hi : store_inv o st) by (eapply step_inv; [lia|exact H1|exact Est]).
  destruct (begin_effect _ _ _ _ Est) as [->|[Hawake Heff]].
  { rewrite decide_True by apply sleep_asleep. by constructor. }
  rewrite decide_False by done.
  constructor; cbn [store_ wires waiting]; try done.
  - destruct Heff as [[-> _]|[-> _]]; [|done]. apply Forall_app. split; [done|by repeat constructor].
  - intros u i. rewrite lookup_delete_Some. intros [Hne Hu]. destruct (H3 u i Hu) as [? Hs]. split; [done|].
    by rewrite (begin_storing _ _ _ _ u Est).
  - intros u r Hu. destruct (H4 u r Hu) as [Ha Hd]. unfold waiting_data in *. cbn [waiting].
    change (captured_by u (mk_recording _ _ _ _)) with (captured_by u s).
    destruct (decide (t = u)) as [->|Hne].
    + rewrite lookup_delete_eq. rewrite Ew in *. destruct Heff as [[-> ->]|[-> ->]].
      * rewrite of_thread_app, of_thread_one, decide_True, omap_app, app_nil_r by done. cbn [omap list_omap].
        by destruct (data_of (u, info)).
      * rewrite app_nil_r. split; [|by intros [? ?]%app_nil]. etrans; [|exact Ha]. by apply sublist_inserts_r.
    + rewrite lookup_delete_ne by done. destruct Heff as [[-> ->]|[-> ->]].
      * by rewrite of_thread_app, of_thread_one, decide_False, app_nil_r by done.
      * split; [done|]. by intros [? ?]%app_nil.
Qed.

Lemma act_inv a s s' : activity_ok a -> recording_inv s -> act receivers a s = Some s' -> recording_inv s'.
Proof.
  intros Ha Hi. destruct a as [t sends p|t|e]; [by apply capture_inv|by apply reserve_inv|]. intros Hs.
  assert (exists st, match e with Begin _ _ => False | _ => True end /\ step (store_ s) e = Some st /\
    s' = mk_recording st (waiting s) (wires s) (captured s)) as (st & He & Est & ->).
  { unfold act in Hs. destruct e; try done; destruct (step (store_ s) _) as [st|]; try done; cbn [mbind option_bind] in Hs;
      injection Hs as <-; by exists st. }
  destruct Hi as [H1 H2 H3 H4 H5]. destruct (internal_effect e _ _ He Est) as (Hacc & Hdr & Hsto).
  constructor; cbn [store_ wires waiting]; rewrite ?Hacc, ?Hdr; try done.
  - eapply step_inv; [lia|exact H1|exact Est].
  - intros t info Hw. destruct (H3 t info Hw). auto.
Qed.

Definition new_recording : recording := mk_recording (new_store o) ∅ [] [].

Lemma new_recording_inv : recording_inv new_recording.
Proof. constructor; try done. apply new_store_inv. lia. Qed.

Lemma acts_inv l s : Forall activity_ok l -> acts receivers l new_recording = Some s -> recording_inv s.
Proof.
  unfold acts. revert s. induction l as [|a l IH] using rev_ind; intros s Hl.
  - intros [= <-]. apply new_recording_inv.
  - apply Forall_app in Hl as [Hl Ha%Forall_cons_1%proj1]. rewrite foldl_snoc.
    destruct (foldl _ _ l) as [s1|]; [|done]. cbn [mbind option_bind]. by apply act_inv, IH.
Qed.

(** ** The stream *)

(** Among issued packets, those of a device are those of its thread. *)
Lemma recorded_on_issued t name l : name_of t = Some name ->
  Forall (fun e : entry => name_of e.1 = Some (iface e.2)) l ->
  recorded_on name (xadd o <$> l.*2) = omap data_of (of_thread t l).
Proof.
  intros Ht. unfold recorded_on, of_thread. induction 1 as [|[u p] l Hn _ IH]; [done|].
  rewrite filter_cons. cbn [fmap list_fmap omap list_omap fst snd] in *. rewrite decode_xadd, IH.
  destruct (decide (u = t)) as [->|Hu].
  - rewrite Ht in Hn. injection Hn as ->. by rewrite decide_True.
  - rewrite decide_False; [done|]. intros E. subst name. apply Hu.
    eapply NoDup_lookup; [exact Hdistinct|exact Hn|exact Ht].
Qed.

Lemma omap_sublist {A B} (f : A -> option B) l k : l `sublist_of` k -> omap f l `sublist_of` omap f k.
Proof.
  induction 1 as [|x l k _ IH|x l k _ IH]; cbn; [done| |]; destruct (f x); try done; by constructor.
Qed.

(** The stream of a device in a state that satisfies the invariant. *)
Lemma stream_of_inv s t r name :
  recording_inv s -> receivers !! t = Some r -> device_ r = Some name ->
  wire_of t (wires s) = forwarded r (captured_by t s) /\
  recorded_on name (commands (store_ s)) `sublist_of` to_record r (captured_by t s) /\
  (dropped (store_ s) = [] -> lost (store_ s) = [] -> waiting s !! t = None -> WaitForPendingWrites (store_ s) = true ->
   recorded_on name (commands (store_ s)) = to_record r (captured_by t s)).
Proof.
  intros [H1 H2 _ H3 H4] Hr Hd.
  pose proof (names_lookup t r Hr) as Hn. rewrite Hd in Hn. cbn in Hn.
  destruct (H3 t r Hr) as [Ha He]. destruct H1 as [Ho Hp _ Hacc Hord Hex Hc _ _ _].
  assert (Hiss : Forall (fun e : entry => name_of e.1 = Some (iface e.2)) (issued (store_ s))).
  { rewrite Hacc in H2. by apply Forall_app in H2 as [_ [_ [? _]%Forall_app]%Forall_app]. }
  rewrite Hc, (recorded_on_issued t name) by done.
  assert (Hsub : of_thread t (issued (store_ s)) `sublist_of` of_thread t (accepted (store_ s))).
  { etrans; [|apply Hord]. unfold pipeline. apply sublist_inserts_r, reflexivity. }
  split_and!; [by apply H4|etrans; [apply omap_sublist, Hsub|etrans; [by apply sublist_inserts_r|exact Ha]]|].
  intros Hdr Hlo Hwn Hw. rewrite <- (He Hdr), <- (Hex Hlo t). unfold waiting_data. rewrite Hwn, app_nil_r. unfold WaitForPendingWrites in Hw. apply Z.eqb_eq in Hw.
  unfold load in Hp. assert (size (storing (store_ s)) = 0%nat /\ length (ioc (store_ s)) = 0%nat) as [Hs Hi] by lia.
  apply map_size_empty_inv in Hs. apply nil_length_inv in Hi.
  unfold pipeline, storing_of. by rewrite Hs, Hi, lookup_empty, !app_nil_r.
Qed.

(** C22: the Redis stream of a device decodes to what was captured on it.  For receivers of distinct
    devices sharing one store, under every interleaving of captures, writes, failures and shutdown:
    what a receiver sends on its route device are exactly the packets it captured and could send, in
    order; the XADD commands that name its device decode to packets it was to record, byte for byte,
    in the order of capture; and to all of them once no call waits and the store has drained, if no
    packet was dropped at shutdown or lost to an exception. *)
Theorem recorded_stream l s t r name :
  Forall activity_ok l -> acts receivers l new_recording = Some s ->
  receivers !! t = Some r -> device_ r = Some name ->
  wire_of t (wires s) = forwarded r (captured_by t s) /\
  recorded_on name (commands (store_ s)) `sublist_of` to_record r (captured_by t s) /\
  (dropped (store_ s) = [] -> lost (store_ s) = [] -> waiting s !! t = None -> WaitForPendingWrites (store_ s) = true ->
   recorded_on name (commands (store_ s)) = to_record r (captured_by t s)).
Proof. intros Hok Hrun. apply stream_of_inv. by eapply acts_inv. Qed.

End Facts.

(** ** A concrete run: two receivers, one packet each, both written *)
Definition sample_receivers : list PcapReceiver :=
  [sample_receiver; new_receiver true (Some "eth2"%string) None true false].

Definition sample_activities : list activity :=
  [Capture 0 true sample_raw; Capture 1 true (mk_raw [1; 2] 0 0); Reserve 1; Reserve 0; Internal (Post 1 true); Internal (Post 0 true);
   Internal (Handler true); Internal (Handler true); Internal (Completion 0 true); Internal (Completion 0 true)].

Definition sample_recording : recording :=
  default (new_recording two_slots)
    (@acts sample_parse sample_receivers sample_activities (new_recording two_slots)).

Lemma recorded_stream_witness :
  recorded_on "eth0" (commands (store_ sample_recording)) = [[0; 171; 255]].
Proof.
  refine (proj2 (proj2 (@recorded_stream sample_parse two_slots sample_receivers ["eth0"; "eth2"]%string eq_refl _ two_slots_ok
    sample_activities sample_recording 0%nat sample_receiver "eth0"%string _ _ eq_refl eq_refl)) _ _ _ _);
    [by apply (bool_decide_unpack _); vm_compute| |vm_compute; reflexivity..].
  repeat constructor; unfold is_byte; cbn; lia.
Defined.
