(* ===== verification/ServiceShutdown.v ===== *)
(** * Shutting the capture service down with its store
    ([src/ElephantShrew.cpp], 58-62, [src/PcapReceiver.cpp], 28-31, 60-67)

    The destructor of [ElephantShrew] clears [receivers_]: each receiver, in
    order, stops its capture and lets go of the shared store; with the last of
    them the store is destroyed.  [stopCapture] joins the capture thread, so it
    returns when the callback is not running; other receivers go on capturing
    in the meantime.  [vector::clear] destroys its elements from the first to
    the last, as the common standard libraries do; nothing below depends on
    which receiver is the last one. *)
From S2P Require Import Prelude RuntimeConfig PcapReceiver RedisPacketStore RedisShutdown Recording.

Section Service.
Context `{HP : Pcpp} (receivers : list PcapReceiver).

(** The receivers that have been destroyed are the first [destroyed]. *)
Record service := mk_service {
  rec_ : recording;
  destroyed : nat;
}.

Inductive service_event :=
  | Act (a : activity)
  | StopNext.

Definition service_step (s : service) (e : service_event) : option service :=
  match e with
  | Act (Internal Shutdown) => None
  | Act (Capture t _ _ as a) =>
    if decide (destroyed s <= t)%nat then r ← act receivers a (rec_ s); Some (mk_service r (destroyed s)) else None
  | Act a => r ← act receivers a (rec_ s); Some (mk_service r (destroyed s))
  | StopNext =>
    if decide (destroyed s < length receivers)%nat then
      if busy (destroyed s) (rec_ s) then None else Some (mk_service (rec_ s) (S (destroyed s)))
    else None
  end.

Definition service_run (es : list service_event) (s : service) : option service :=
  foldl (fun o e => o ≫= fun s => service_step s e) (Some s) es.

(** The end of the destructor: the last receiver is gone, and the store goes. *)
Definition destroy_service (es late : list event) (s : service) : option (bool * RedisPacketStore) :=
  if decide (destroyed s = length receivers) then shut_down es late (store_ (rec_ s)) else None.

Definition new_service (o : RedisStoreOptions) : service := mk_service (new_recording o) 0.

(** Steps that do not bring in packets; those Redis has no part in. *)
Definition closing (e : service_event) : Prop := match e with Act (Capture _ _ _) => False | _ => True end.
Definition redis_silent (e : service_event) : Prop := match e with Act (Internal (Completion _ _)) => False | _ => True end.

End Service.

Section Facts.
Context `{HP : Pcpp} (receivers : list PcapReceiver) (o : RedisStoreOptions).
Context (Hmax : 0 < max_pending_writes o < 2 ^ 64).

Record service_inv (s : service) : Prop := {
  si_store : store_inv o (store_ (rec_ s));
  si_open : accepting_writes_ (store_ (rec_ s)) = true;
  si_kept : dropped (store_ (rec_ s)) = [];
  si_destroyed : (destroyed s <= length receivers)%nat;
  si_busy t : busy t (rec_ s) = true -> (destroyed s <= t < length receivers)%nat;
  si_waiting t : is_Some (waiting (rec_ s) !! t) -> storing (store_ (rec_ s)) !! t = None;
}.

Lemma new_service_inv : service_inv (new_service o).
Proof.
  constructor; cbn; try done; try lia. apply new_store_inv. lia.
Qed.

Lemma open_begin t p s s' : accepting_writes_ s = true -> step s (Begin t p) = Some s' ->
  s' = cv_sleep (Some t) s \/
  ((Some t ∉ asleep s') /\ accepting_writes_ s' = true /\ dropped s' = dropped s /\ storing s' = <[t := p]> (storing s)).
Proof.
  intros Ha (_ & Hw & Hs)%step_begin. unfold Store_begin, ReservePendingWriteSlot in Hs. rewrite Ha, orb_false_r in Hs.
  destruct (_ <? _); cbn [negb] in Hs; injection Hs as <-; auto.
Qed.

Lemma open_internal e s s' : internal e -> step s e = Some s' ->
  accepting_writes_ s' = accepting_writes_ s /\ dropped s' = dropped s /\
  (forall u, is_Some (storing s' !! u) -> is_Some (storing s !! u)).
Proof.
  destruct e as [t p|t ok|ok|i ok| | |w]; try done; intros _; cbn [step].
  - unfold Store_post. destruct (storing s !! t); [|done]. cbn [mbind option_bind]. intros [= <-].
    destruct ok; (split_and!; [done..|]); intros u; cbn; rewrite lookup_delete_is_Some; tauto.
  - unfold Store_handler. destruct (ioc s) as [|[? ?] ?]; [done|]. intros [= <-]. by destruct ok.
  - unfold Store_completion. destruct (exec s !! i); [|done]. by intros [= <-].
  - destruct (_ || _); [done|]. intros [= <-]. by destruct (WaitForPendingWrites s).
  - case_decide; [|done]. by intros [= <-].
Qed.

(** The three kinds of activity of a service whose store is open. *)
Inductive moved (s : recording) : activity -> recording -> Prop :=
  | Moved_capture t sends p s' : busy t s = false -> (t < length receivers)%nat -> store_ s' = store_ s ->
      (forall u, u <> t -> waiting s' !! u = waiting s !! u) -> moved s (Capture t sends p) s'
  | Moved_reserve t info st : waiting s !! t = Some info -> step (store_ s) (Begin t info) = Some st ->
      moved s (Reserve t) (mk_recording st (if decide (Some t ∈ asleep st) then waiting s else delete t (waiting s))
        (wires s) (captured s))
  | Moved_internal e st : match e with Begin _ _ => False | _ => True end -> step (store_ s) e = Some st ->
      moved s (Internal e) (mk_recording st (waiting s) (wires s) (captured s)).

Lemma act_moved a s s' : act receivers a s = Some s' -> moved s a s'.
Proof.
  destruct a as [t sends p|t|e]; cbn [act].
  - unfold capture. destruct (receivers !! t) as [r|] eqn:Er; [|done]. cbn [mbind option_bind].
    destruct (busy t s) eqn:Eb; [done|]. intros Hs'%(inj Some). subst s'. constructor; try done.
    + by eapply lookup_lt_Some.
    + intros u Hu. cbn [waiting]. generalize (stored (onPacketArrives (fun _ => sends) (fun _ => Ok tt) r p (mk_io [] []))).
      intros l. induction l as [|i l IH]; cbn [foldr]; [done|]. by rewrite lookup_insert_ne.
  - unfold reserve. destruct (waiting s !! t) as [info|] eqn:Ew; [|done]. cbn [mbind option_bind].
    destruct (step _ _) as [st|] eqn:Es; [|done]. cbn [mbind option_bind]. intros [= <-]. by econstructor.
  - destruct e; try done; destruct (step (store_ s) _) as [st|] eqn:Es; try done; cbn [mbind option_bind];
      intros [= <-]; by constructor.
Qed.

Lemma busy_true t s : busy t s = true <-> is_Some (waiting s !! t) \/ is_Some (storing (store_ s) !! t).
Proof. unfold busy. by rewrite orb_true_iff, !bool_decide_eq_true. Qed.

Lemma service_act_inv a s r : service_inv s -> a <> Internal Shutdown ->
  match a with Capture t _ _ => (destroyed s <= t)%nat | _ => True end ->
  act receivers a (rec_ s) = Some r -> service_inv (mk_service r (destroyed s)).
Proof.
  intros [H1 H2 H3 H4 H5 H6] Hns Hcap Hm%act_moved. revert Hns Hcap.
  destruct Hm as [t sends p s' Hb Ht Hst Hw|t info st Hw Hs|e st He Hs]; intros Hns Hcap.
  - constructor; cbn [rec_ destroyed]; rewrite ?Hst; try done.
    + intros u Hu. destruct (decide (u = t)) as [->|Hne]; [lia|]. apply H5. rewrite busy_true in *.
      by rewrite Hst, (Hw u Hne) in Hu.
    + intros u Hu. destruct (decide (u = t)) as [->|Hne].
      * by apply idle in Hb as [_ Hb].
      * apply H6. by rewrite <- (Hw u Hne).
  - assert (Hsi : store_inv o st) by (eapply step_inv; [lia|exact H1|exact Hs]).
    destruct (open_begin _ _ _ _ H2 Hs) as [->|(Hawake & Ha & Hd & Hsto)].
    { rewrite decide_True by apply sleep_asleep. by constructor. }
    rewrite decide_False by done.
    constructor; cbn [rec_ destroyed store_ waiting]; rewrite ?Ha, ?Hd; try done.
    + intros u. rewrite busy_true. cbn [store_ waiting]. rewrite Hsto. intros Hu. apply H5. rewrite busy_true.
      destruct (decide (u = t)) as [->|Hne]; [left; by rewrite Hw|].
      by rewrite lookup_delete_ne, lookup_insert_ne in Hu by congruence.
    + intros u. rewrite lookup_delete_is_Some, Hsto. intros [Hne Hu]. rewrite lookup_insert_ne by done. by apply H6.
  - assert (He' : internal e) by (by destruct e).
    destruct (open_internal _ _ _ He' Hs) as (Ha & Hd & Hsto).
    constructor; cbn [rec_ destroyed store_ waiting]; rewrite ?Ha, ?Hd; try done.
    + eapply step_inv; [lia|exact H1|exact Hs].
    + intros u. rewrite busy_true. cbn [store_ waiting]. intros Hu. apply H5. rewrite busy_true. naive_solver.
    + intros u Hu. specialize (H6 u Hu). apply eq_None_not_Some. rewrite eq_None_not_Some in H6. auto.
Qed.

Lemma service_step_inv s e s' : service_inv s -> service_step receivers s e = Some s' -> service_inv s'.
Proof.
  intros Hi Hs. destruct e as [a|]; cbn [service_step] in Hs.
  - assert (exists r, act receivers a (rec_ s) = Some r /\ s' = mk_service r (destroyed s) /\ a <> Internal Shutdown /\
      match a with Capture t _ _ => (destroyed s <= t)%nat | _ => True end) as (r & E & -> & Hns & Hc).
    { destruct a as [t sends p|t|[]]; try done; try (case_decide; [|done]);
        destruct (act receivers _ (rec_ s)) as [r|]; try done; cbn [mbind option_bind] in Hs;
        injection Hs as <-; by exists r. }
    by eapply service_act_inv.
  - case_decide as Hlt; [|done]. destruct (busy _ _) eqn:Eb; [done|]. injection Hs as <-.
    destruct Hi as [H1 H2 H3 H4 H5 H6]. constructor; cbn [rec_ destroyed]; try done.
    intros t Ht. specialize (H5 t Ht). destruct (decide (t = destroyed s)) as [->|]; [congruence|lia].
Qed.

Lemma service_run_inv es : forall s s', service_inv s -> service_run receivers es s = Some s' -> service_inv s'.
Proof.
  unfold service_run. induction es as [|e es IH] using rev_ind; intros s s' Hi; [by intros [= <-]|].
  rewrite foldl_snoc. destruct (foldl _ _ es) as [s1|] eqn:E; [|done]. cbn [mbind option_bind].
  apply service_step_inv. by eapply IH.
Qed.


(** ** A clean shutdown loses nothing *)
Definition service_event_ok (e : service_event) : Prop := match e with Act a => activity_ok a | StopNext => True end.

Section Stream.
Context (names : list string) (Hnames : device_ <$> receivers = Some <$> names) (Hdistinct : NoDup names).

Lemma service_recording es s : Forall service_event_ok es ->
  service_run receivers es (new_service o) = Some s -> recording_inv o receivers names (rec_ s).
Proof.
  unfold service_run. revert s. induction es as [|e es IH] using rev_ind; intros s.
  - intros _ [= <-]. by apply new_recording_inv.
  - intros [Hes He%Forall_cons_1%proj1]%Forall_app. rewrite foldl_snoc.
    destruct (foldl _ _ es) as [s1|] eqn:E; [|done]. cbn [mbind option_bind]. specialize (IH s1 Hes eq_refl). intros Hs.
    destruct e as [a|]; cbn [service_step] in Hs.
    + assert (exists r, act receivers a (rec_ s1) = Some r /\ rec_ s = r) as (r & Ha & ->).
      { destruct a as [t sends p|t|[]]; try done; try (case_decide; [|done]);
          destruct (act receivers _ (rec_ s1)) as [r|]; try done; cbn [mbind option_bind] in Hs;
          injection Hs as <-; by exists r. }
      by eapply act_inv.
    + case_decide; [|done]. destruct (busy _ _); [done|]. by injection Hs as <-.
Qed.

Definition with_store (st : RedisPacketStore) (s : recording) : recording :=
  mk_recording st (waiting s) (wires s) (captured s).

(** The store's own steps, and the destructor's sleep, keep the recording's invariant. *)
Lemma internal_recording e s st st1 : internal e -> recording_inv o receivers names (with_store st s) ->
  step st e = Some st1 -> recording_inv o receivers names (with_store st1 s).
Proof.
  intros He Hi Hs. eapply (act_inv o receivers names Hnames Hmax (Internal e)); [done|exact Hi|].
  cbn [act store_ with_store]. destruct e; try done; by rewrite Hs.
Qed.

Lemma asleep_recording ws s st : recording_inv o receivers names (with_store st s) -> store_inv o (set_asleep ws st) ->
  recording_inv o receivers names (with_store (set_asleep ws st) s).
Proof. intros [H1 H2 H3 H4 H5] Hs. by constructor. Qed.

Lemma internal_dropped e s s' : internal e -> step s e = Some s' -> dropped s' = dropped s.
Proof. intros He Hs. by apply (open_internal e s s'). Qed.

(** What the destructor of the store finds, keeps and leaves. *)
Definition closing_store (s : recording) (st : RedisPacketStore) : Prop :=
  recording_inv o receivers names (with_store st s) /\ accepting_writes_ st = false /\ dropped st = [].

Lemma closing_store_step e s st st' : internal e -> closing_store s st -> step st e = Some st' -> closing_store s st'.
Proof.
  intros He (Hi & Hc & Hd) Hs. split_and!; [by eapply internal_recording|by eapply closed_step|].
  by rewrite (internal_dropped e st st').
Qed.

Lemma closing_store_run es : forall s st st', Forall internal es -> closing_store s st -> run es st = Some st' ->
  closing_store s st'.
Proof.
  induction es as [|e es IH]; intros s st st' Hes Hi; cbn [run]; [by intros [= <-]|].
  apply Forall_cons_1 in Hes as [He Hes]. destruct (step st e) as [st1|] eqn:Es; [|done]. cbn [mbind option_bind].
  apply IH; [done|]. by eapply closing_store_step.
Qed.

Lemma closing_store_wait es s st d st' : Forall internal es -> closing_store s st -> wait_for es st = Some (d, st') ->
  closing_store s st' /\ WaitForPendingWrites st' = d.
Proof.
  apply (wait_for_inv (closing_store s) internal).
  - intros e st1 st2. by apply closing_store_step.
  - intros st1 (Hi & Hc & Hd) Hw. split_and!; try done. apply asleep_recording; [done|].
    apply sleep_inv; [apply (ri_store _ _ _ _ Hi)|done..].
  - intros st1 (Hi & Hc & Hd). split_and!; try done. apply asleep_recording; [done|].
    apply cv_wake_inv, (ri_store _ _ _ _ Hi).
Qed.

(** A clean shutdown of the capture service loses nothing.  After any run of the service - captures,
    writes, failures, receivers stopping one after the other - when the last receiver is gone no
    thread is in [Store], so the store is destroyed unused; no packet is ever dropped because the
    store was closing; and for each device the commands issued decode, in order, to packets captured
    on it, to all of them if the writes drained in time and none was lost to an exception; those
    that Redis has acknowledged are among them, and with those it answered with an error they are
    then all. *)
Theorem clean_shutdown es s wait late drained st :
  Forall service_event_ok es -> service_run receivers es (new_service o) = Some s ->
  Forall internal wait -> Forall internal late -> destroy_service receivers wait late s = Some (drained, st) ->
  (forall t, busy t (rec_ s) = false) /\ dropped st = [] /\
  (forall t r name, receivers !! t = Some r -> device_ r = Some name ->
     recorded_on name (commands st) `sublist_of` to_record r (captured_by t (rec_ s)) /\
     recorded_on name (answered true st) ⊆+ to_record r (captured_by t (rec_ s)) /\
     (drained = true -> lost st = [] ->
        recorded_on name (commands st) = to_record r (captured_by t (rec_ s)) /\
        recorded_on name (answered true st) ++ recorded_on name (answered false st) ≡ₚ
          to_record r (captured_by t (rec_ s)))).
Proof.
  intros Hes Hrun Hwait Hlate. unfold destroy_service. case_decide as Hd; [|done].
  pose proof (service_run_inv _ _ _ new_service_inv Hrun) as Hi.
  assert (Hidle : forall t, busy t (rec_ s) = false).
  { intros t. destruct (busy t (rec_ s)) eqn:Eb; [|done]. pose proof (si_busy _ Hi t Eb). lia. }
  intros (st1 & Hr1 & Hr2)%shut_down_run.
  pose proof (service_recording es s Hes Hrun) as Hrec.
  assert (H0 : closing_store (rec_ s) (stop_accepting (store_ (rec_ s)))).
  { split_and!; [|done|apply Hi]. by eapply (act_inv o receivers names Hnames Hmax (Internal Shutdown)); [|exact Hrec|]. }
  destruct (closing_store_wait wait _ _ _ _ Hwait H0 Hr1) as [H1 Hw].
  destruct (closing_store_run late _ _ _ Hlate H1 Hr2) as (Hst & _ & Hdrop). destruct H1 as (Hst1 & Hc & _).
  split_and!; [done|done|]. intros t r name Hr Hn.
  destruct (stream_of_inv o receivers names Hnames Hdistinct _ t r name Hst Hr Hn) as (_ & Hsub & Heq).
  cbn [store_ with_store] in *. pose proof (ri_store _ _ _ _ Hst) as Hsi. cbn [store_ with_store] in Hsi.
  pose proof (omap_Permutation (decode_command name) _ _ (answered_commands o st Hsi)) as Hans.
  rewrite !omap_app in Hans. change (recorded_on name (commands st) ≡ₚ
    recorded_on name (xadd o <$> (exec st).*2) ++ recorded_on name (answered true st) ++ recorded_on name (answered false st)) in Hans.
  split_and!; [exact Hsub| |].
  { etrans; [|apply sublist_submseteq, Hsub]. rewrite Hans. by apply submseteq_inserts_l, submseteq_inserts_r. }
  intros Hdr Hlost. subst drained. apply (waited o _ (ri_store _ _ _ _ Hst1)) in Hdr.
  destruct (idle_run o Hmax late st1 st (ri_store _ _ _ _ Hst1) Hc Hdr Hr2) as [Hl _].
  assert (E : recorded_on name (commands st) = to_record r (captured_by t (rec_ s))).
  { apply Heq; try done; [by destruct (idle t (rec_ s) (Hidle t))|by apply (waited o _ Hsi)]. }
  split; [exact E|]. rewrite <- E, Hans. unfold load in Hl.
  assert (exec st = []) as -> by (apply nil_length_inv; lia). done.
Qed.

End Stream.

(** ** Stopping takes Redis *)
Lemma service_run_app es es' s s1 : service_run receivers es s = Some s1 ->
  service_run receivers (es ++ es') s = service_run receivers es' s1.
Proof. unfold service_run. rewrite foldl_app. by intros ->. Qed.

(** The store's own steps, as steps of the service. *)
Lemma lift_internal es : forall s st, Forall internal es -> run es (store_ (rec_ s)) = Some st ->
  service_run receivers (Act ∘ Internal <$> es) s = Some (mk_service (with_store st (rec_ s)) (destroyed s)).
Proof.
  induction es as [|e es IH]; intros s st Hi; cbn [run].
  - intros [= <-]. by destruct s as [[]].
  - apply Forall_cons_1 in Hi as [He Hi]. destruct (step _ e) as [st1|] eqn:Es; [|done]. cbn [mbind option_bind]. intros Hr.
    cbn [fmap list_fmap]. etrans; [|exact (IH (mk_service (with_store st1 (rec_ s)) (destroyed s)) st Hi Hr)].
    unfold service_run. cbn [foldl]. f_equal. cbn [mbind option_bind]. destruct e; try done; cbn [compose service_step act];
      by rewrite Es.
Qed.

(** When no thread is in [Store], the receivers stop one after the other. *)
Lemma idle_stops n : forall s, (forall t, busy t (rec_ s) = false) -> (length receivers - destroyed s <= n)%nat ->
  (destroyed s <= length receivers)%nat ->
  exists es s', Forall closing es /\ service_run receivers es s = Some s' /\ destroyed s' = length receivers.
Proof.
  induction n as [|n IH]; intros s Hidle Hn Hle.
  - exists [], s. split_and!; [constructor|done|lia].
  - destruct (decide (destroyed s = length receivers)) as [E|E]; [exists [], s; by split_and!; [constructor|..]|].
    destruct (IH (mk_service (rec_ s) (S (destroyed s)))) as (es & s' & Hc & Hr & Hd); cbn [rec_ destroyed]; try done; try lia.
    exists (StopNext :: es), s'. split_and!; [by constructor| |done].
    etrans; [|exact Hr]. unfold service_run. cbn [foldl]. f_equal. cbn [mbind option_bind service_step].
    rewrite decide_True by lia. by rewrite Hidle.
Qed.

Lemma waiting_stops n : forall s, service_inv s -> (size (waiting (rec_ s)) <= n)%nat ->
  exists es s', Forall closing es /\ service_run receivers es s = Some s' /\ destroyed s' = length receivers.
Proof.
  induction n as [|n IH]; intros s Hi Hn;
    destruct (drain _ (store_ (rec_ s)) (le_n _)) as (es0 & st & Hint & Hr & Hl);
    pose proof (lift_internal es0 s st (advances_internal _ Hint) Hr) as Hr0;
    assert (Hc0 : Forall closing (Act ∘ Internal <$> es0))
      by (apply Forall_fmap; eapply List.Forall_impl; [|exact Hint]; by intros []);
    pose proof (service_run_inv _ _ _ Hi Hr0) as Hi0;
    assert (Hsto : storing st = ∅) by (apply map_size_empty_inv; unfold load in Hl; lia).
  - destruct (idle_stops (length receivers) (mk_service (with_store st (rec_ s)) (destroyed s)))
      as (es & s' & Hc & Hr1 & Hd); cbn [rec_ destroyed]; [|lia|apply Hi|].
    + intros t. apply not_true_iff_false. rewrite busy_true. cbn [with_store waiting store_]. rewrite Hsto, lookup_empty.
      assert (Hw : waiting (rec_ s) = ∅) by (apply map_size_empty_inv; lia). rewrite Hw, lookup_empty.
      by intros [[? ?]|[? ?]].
    + exists ((Act ∘ Internal <$> es0) ++ es), s'. split_and!; [by apply Forall_app| |done].
      by rewrite (service_run_app _ _ _ _ Hr0).
  - destruct (decide (waiting (rec_ s) = ∅)) as [Hw|Hw]; [apply IH; [done|]; rewrite Hw, map_size_empty; lia|].
    apply map_choose in Hw as (t & info & Hw).
    assert (Hb : exists st', step st (Begin t info) = Some st' /\ Some t ∉ asleep st').
    { pose proof (si_store _ Hi0) as Hsi. cbn [rec_ with_store store_] in Hsi.
      pose proof (empty_awake o st ltac:(lia) Hsi Hl) as Hawake.
      destruct (begin_sleeps o st t info Hsi) as (st' & Hb & Hsl); [by rewrite Hsto|by rewrite Hawake; set_solver|].
      exists st'. split; [done|]. rewrite Hsl, (inv_pending o _ Hsi), Hl. lia. }
    destruct Hb as (st' & Hb & Hsl).
    set (s1 := mk_service (mk_recording st' (delete t (waiting (rec_ s))) (wires (rec_ s)) (captured (rec_ s))) (destroyed s)).
    assert (Hs1 : service_run receivers [Act (Reserve t)] (mk_service (with_store st (rec_ s)) (destroyed s)) = Some s1).
    { unfold service_run. cbn. unfold reserve. cbn [waiting with_store store_]. rewrite Hw. cbn [mbind option_bind]. rewrite Hb. cbn [mbind option_bind].
      by rewrite decide_False. }
    destruct (IH s1) as (es & s' & Hc & Hr1 & Hd).
    + by eapply service_run_inv.
    + subst s1. cbn [rec_ waiting]. rewrite map_size_delete, Hw. lia.
    + exists ((Act ∘ Internal <$> es0) ++ [Act (Reserve t)] ++ es), s'. split_and!; [|
        by rewrite (service_run_app _ _ _ _ Hr0), (service_run_app _ _ _ _ Hs1)|done].
      apply Forall_app. split; [done|]. apply Forall_app. split; [by repeat constructor|done].
Qed.

(** Every slot is a command that Redis has not answered, and thread [t] waits for one. *)
Definition stalled (t : nat) (s : service) : Prop :=
  service_inv s /\ Z.of_nat (length (exec (store_ (rec_ s)))) = max_pending_writes o /\ is_Some (waiting (rec_ s) !! t).

Lemma stalled_step t s e s' : stalled t s -> redis_silent e -> service_step receivers s e = Some s' -> stalled t s'.
Proof.
  intros (Hi & Hex & Hw) Hsil Hs. pose proof (service_step_inv s e s' Hi Hs) as Hi'. split; [done|].
  pose proof (si_store _ Hi) as [Ho Hp Hb _ _ _ _ _ _ _]. unfold load in *.
  assert (Hz : size (storing (store_ (rec_ s))) = 0%nat /\ length (ioc (store_ (rec_ s))) = 0%nat) by lia.
  destruct Hz as [Hsto%map_size_empty_inv Hioc%nil_length_inv].
  destruct e as [a|]; cbn [service_step] in Hs.
  2: { case_decide; [|done]. destruct (busy _ _); [done|]. by injection Hs as <-. }
  assert (exists r, act receivers a (rec_ s) = Some r /\ rec_ s' = r /\ a <> Internal Shutdown) as (r & Ha & -> & Hns).
  { destruct a as [u sends p|u|[]]; try done; try (case_decide; [|done]);
      destruct (act receivers _ (rec_ s)) as [r|]; try done; cbn [mbind option_bind] in Hs;
      injection Hs as <-; by exists r. }
  apply act_moved in Ha. destruct Ha as [u sends p r Hbu _ Hst Hwu|u info st Hwu Hbe|e st He Hse].
  - rewrite Hst. split; [done|]. destruct (decide (t = u)) as [->|Hne]; [|by rewrite Hwu].
    apply idle in Hbu as [Hn _]. rewrite Hn in Hw. by destruct Hw.
  - apply step_begin in Hbe as (_ & _ & Hbe). unfold Store_begin, ReservePendingWriteSlot in Hbe.
    rewrite (si_open _ Hi), Ho in Hbe. rewrite (proj2 (Z.ltb_ge _ _)) in Hbe by lia. injection Hbe as <-.
    rewrite decide_True by apply sleep_asleep. by split.
  - destruct e as [v q|v ok|ok|i ok| | |w]; try done; cbn [step] in Hse.
    + unfold Store_post in Hse. by rewrite Hsto, lookup_empty in Hse.
    + unfold Store_handler in Hse. by rewrite Hioc in Hse.
    + by rewrite (si_open _ Hi) in Hse.
    + case_decide; [|done]. injection Hse as <-. by split.
Qed.

Lemma stalled_forever t es : forall s s', stalled t s -> Forall redis_silent es -> service_run receivers es s = Some s' ->
  stalled t s'.
Proof.
  unfold service_run. induction es as [|e es' IH] using rev_ind; intros s s' Hst; [by intros _ [= <-]|].
  intros [Hsil He%Forall_cons_1%proj1]%Forall_app. rewrite foldl_snoc.
  destruct (foldl _ _ es') as [s1|] eqn:E; [|done]. cbn [mbind option_bind]. apply stalled_step; [|done]. by eapply IH.
Qed.

Lemma stalled_busy t s : stalled t s -> (destroyed s <= t < length receivers)%nat.
Proof. intros (Hi & _ & Hw). apply (si_busy _ Hi), busy_true. by left. Qed.

(** C24: the service stops exactly as Redis lets it.  From every reachable state some steps - writes,
    completions, waiting calls - bring the destructor through all receivers.  But while every
    slot is a command Redis has not answered and a capture thread waits for one, nothing but an
    answer of Redis helps: without one the destructor does not get past that thread's receiver,
    whatever happens and however long - the store that would release the thread is closed only
    after the last receiver. *)
Theorem service_stops es s : service_run receivers es (new_service o) = Some s ->
  (exists es' s', Forall closing es' /\ service_run receivers es' s = Some s' /\ destroyed s' = length receivers) /\
  (forall t, Z.of_nat (length (exec (store_ (rec_ s)))) = max_pending_writes o -> is_Some (waiting (rec_ s) !! t) ->
     forall es' s', Forall redis_silent es' -> service_run receivers es' s = Some s' ->
       (destroyed s' <= t < length receivers)%nat).
Proof.
  intros Hrun. pose proof (service_run_inv _ _ _ new_service_inv Hrun) as Hi. split; [by eapply waiting_stops|].
  intros t Hex Hw es' s' Hsil Hr. by eapply stalled_busy, (stalled_forever t es' s s').
Qed.

End Facts.

(** ** Two services of two receivers: one stops cleanly, one is stuck *)
Definition clean_events : list service_event := (Act <$> sample_activities) ++ [StopNext; StopNext].

Definition clean_service : service :=
  default (new_service two_slots) (@service_run sample_parse sample_receivers clean_events (new_service two_slots)).

Definition clean_store : RedisPacketStore := from_option snd (new_store two_slots) (destroy_service sample_receivers [] [] clean_service).

Lemma clean_shutdown_witness : recorded_on "eth0" (commands clean_store) = [[0; 171; 255]].
Proof.
  refine (proj1 (proj2 (proj2 (proj2 (proj2 (@clean_shutdown sample_parse sample_receivers two_slots two_slots_ok ["eth0"; "eth2"]%string
    eq_refl _ clean_events clean_service [] [] true clean_store _ _ _ _ _)) 0%nat sample_receiver "eth0"%string eq_refl eq_refl)) eq_refl _));
    [by apply (bool_decide_unpack _); vm_compute| |vm_compute; reflexivity|by constructor|by constructor|vm_compute; reflexivity..].
  repeat constructor; unfold is_byte; cbn; lia.
Defined.

(** Both slots are unanswered commands, and the first capture thread waits. *)
Definition stuck_events : list service_event := Act <$>
  [Capture 0 true sample_raw; Reserve 0; Internal (Post 0 true); Capture 1 true sample_raw; Reserve 1; Internal (Post 1 true);
   Internal (Handler true); Internal (Handler true); Capture 0 true sample_raw].

Definition stuck_service : service :=
  default (new_service two_slots) (@service_run sample_parse sample_receivers stuck_events (new_service two_slots)).

Lemma service_stops_witness :
  (exists es s, Forall closing es /\ @service_run sample_parse sample_receivers es stuck_service = Some s /\ destroyed s = 2%nat) /\
  ~ exists es s, Forall redis_silent es /\ @service_run sample_parse sample_receivers es stuck_service = Some s /\ destroyed s = 2%nat.
Proof.
  assert (H : @service_run sample_parse sample_receivers stuck_events (new_service two_slots) = Some stuck_service)
    by (vm_compute; reflexivity).
  destruct (@service_stops sample_parse sample_receivers two_slots two_slots_ok stuck_events stuck_service H) as [H1 H2].
  split; [exact H1|]. intros (es & s & Hes & Hr & Hd).
  specialize (H2 0%nat eq_refl ltac:(by eexists) es s Hes Hr). lia.
Defined.
