(* ===== verification/Lifetime.v ===== *)
(** * An attempt of the supervisor, with its threads and its store
    ([src/ElephantShrewMain.cpp], 244-277, [src/ElephantShrew.cpp])

    [RunCaptureService] brings the service up, waits for the stop, and takes it
    down again - also when [Init] has thrown.  The receivers of an attempt are
    those [Init] has started, the store is the one it has made, and the
    destructor stops the receivers one after the other, each time waiting for
    the capture thread: [ServiceShutdown].  So an attempt may not return.  The
    receivers may capture from the moment they are started; the service below
    lets them capture from the beginning, which includes every such run. *)
From S2P Require Import Prelude Cli PcapReceiver RedisPacketStore RedisShutdown Recording ElephantShrew.
From S2P Require Import ServiceShutdown RuntimeConfig.

(** What the capture threads, the I/O thread, Redis and the destructor do while
    an attempt lasts, while the store's destructor waits, and after that. *)
Record life := mk_life {
  l_events : list service_event;
  l_wait : list event;
  l_late : list event;
}.

(** How far a life gets: some receiver has not been stopped, so the destructor
    is not through; or it is over, with what the store, if there was one, did. *)
Inductive lifetime_end :=
  | Stopping (sv : service)
  | Over (sv : service) (stored : option (bool * RedisPacketStore)).

Section Lifetime.
Context `{HP : Pcap} `{HC : Pcpp}.

(** How far an attempt gets: it has returned with an outcome, at observation [k],
    or its teardown waits for a capture thread. *)
Inductive attempt_end :=
  | Returned (r : result unit) (k : nat) (s : devices) (sv : service) (stored : option (bool * RedisPacketStore))
  | TearingDown (sv : service).
(** [make_shared<RedisPacketStore>]. *)
Definition make_store (p : ping) (o : RedisStoreOptions) : result unit := (construct o p).1.

(** Whether [Init] makes a store. *)
Definition makes_store (cfg : RuntimeConfig) (p : ping) : bool :=
  record_packets (capture cfg) && match make_store p (redis cfg) with Ok _ => true | Throw _ => false end.

(** The life of an [ElephantShrew] with these receivers; [None] if it is not one
    its threads can have. *)
Definition lifetime (cfg : RuntimeConfig) (p : ping) (lf : life) (receivers : list PcapReceiver) : option lifetime_end :=
  sv ← service_run receivers (l_events lf) (new_service (redis cfg));
  if decide (destroyed sv = length receivers) then
    if makes_store cfg p then
      st ← destroy_service receivers (l_wait lf) (l_late lf) sv;
      Some (Over sv (Some st))
    else Some (Over sv None)
  else Some (Stopping sv).

(** [WaitUntilStopRequested], for at most [fuel] sleeps; [stop k] is what the
    [k]-th call of [StopRequested] sees. *)
Fixpoint WaitUntilStopRequested (stop : nat -> bool) (fuel : nat) (k : nat) : option nat :=
  if stop k then Some (S k)
  else match fuel with O => None | S fuel => WaitUntilStopRequested stop fuel (S k) end.

(** [RunCaptureService].  The [Bootstrapper] it straps makes one [ElephantShrew]
    and calls [Init]; whoever owns it then - [Resolve] if [Init] throws, else the
    [Bootstrapper] - destroys it.  [None]: the fuel or the life is not enough. *)
Definition RunCaptureService (stop : nat -> bool) (cfg : RuntimeConfig) (p : ping) (lf : life) (fuel k : nat) (s : devices)
    : option attempt_end :=
  let '(r, w) := Init (make_store p) cfg (mk_shrew [] [] s) in
  k ← (match r with Throw _ => Some k | Ok _ => WaitUntilStopRequested stop fuel k end);
  e ← lifetime cfg p lf (receivers_ w);
  Some match e with
       | Stopping sv => TearingDown sv
       | Over sv stored => Returned r k (host_devices (destroy w)) sv stored
       end.

End Lifetime.

Section Facts.
Context `{HP : Pcap} {HO : PcapOk} `{HC : Pcpp}.
Context (stop : nat -> bool) (cfg : RuntimeConfig) (p : ping).

(** What the attempt finds when it begins to go down. *)
Definition attempt_life (lf : life) (s : devices) : option lifetime_end :=
  lifetime cfg p lf (receivers_ (Init (make_store p) cfg (mk_shrew [] [] s)).2).

(** An attempt that returns is one of [ElephantShrew.service_attempt], with the wait
    in the middle. *)
Lemma attempt_service lf fuel k s :
  RunCaptureService stop cfg p lf fuel k s =
  (let '(r, s') := service_attempt (make_store p) cfg s in
   k ← (match r with Throw _ => Some k | Ok _ => WaitUntilStopRequested stop fuel k end);
   e ← attempt_life lf s;
   Some match e with
        | Stopping sv => TearingDown sv
        | Over sv stored => Returned r k s' sv stored
        end).
Proof.
  unfold RunCaptureService, attempt_life, service_attempt, Resolve, Strap. cbn [container_ negb elephantShrew_].
  destruct (Init _ _ _) as [[[]|e] w]; [|done]. unfold release. cbn. by destruct w.
Qed.

(** The receivers of an attempt, and the host it leaves. *)
Lemma attempt_receivers s : released s ->
  let m := Init (make_store p) cfg (mk_shrew [] [] s) in
  released (host_devices (destroy m.2)) /\
  exists ps, receivers_ m.2 = running (capture cfg) <$> ps /\ NoDup ps.*1 /\
    (m.1 = Ok tt -> capture_plan cfg = Ok ps /\ (record_packets (capture cfg) = true -> make_store p (redis cfg) = Ok tt)).
Proof.
  intros Hs. cbv zeta. pose proof (Init_spec (make_store p) cfg _ (released_managed s Hs)) as H.
  pose proof (Init_started (make_store p) cfg (mk_shrew [] [] s)) as Hst.
  destruct (Init (make_store p) cfg (mk_shrew [] [] s)) as [[[]|e] w]; cbn [fst snd] in *.
  - destruct H as (plan & Hp & Hm & Hw). split; [by eapply destroy_released, serving_managed|].
    destruct Hw as (Hr & Hn & _). exists plan. by split_and!.
  - split; [apply destroy_released, H|]. destruct Hst as (ps & Hr & Hn & _). exists ps. split_and!; [done|done|by intros [=]].
Qed.

Lemma running_devices opts (ps : list (string * option string)) : device_ <$> (running opts <$> ps) = Some <$> ps.*1.
Proof. rewrite <- !list_fmap_compose. by apply list_fmap_ext. Qed.

Context (Hmax : 0 < max_pending_writes (redis cfg) < 2 ^ 64).

(** The packets of one receiver, in a service that has got to [sv] and issued [cmds]. *)
Definition stream_ok (sv : service) (rcv : PcapReceiver) (t : nat) (d : string) (cmds : list (list string)) : Prop :=
  wire_of t (wires (rec_ sv)) = forwarded rcv (captured_by t (rec_ sv)) /\
  recorded_on d cmds `sublist_of` to_record rcv (captured_by t (rec_ sv)).

(** What the store leaves: Redis has acknowledged packets to record, and if the
    writes drained and none was lost, it has answered all of them. *)
Definition stored_ok (sv : service) (rcv : PcapReceiver) (t : nat) (d : string) (drained : bool) (st : RedisPacketStore) : Prop :=
  recorded_on d (answered true st) ⊆+ to_record rcv (captured_by t (rec_ sv)) /\
  (drained = true -> lost st = [] ->
     recorded_on d (commands st) = to_record rcv (captured_by t (rec_ sv)) /\
     recorded_on d (answered true st) ++ recorded_on d (answered false st) ≡ₚ to_record rcv (captured_by t (rec_ sv))).

(** Any life, however far it gets. *)
Lemma life_spec lf ps e :
  NoDup ps.*1 -> Forall service_event_ok (l_events lf) -> Forall internal (l_wait lf) -> Forall internal (l_late lf) ->
  lifetime cfg p lf (running (capture cfg) <$> ps) = Some e ->
  match e with
  | Stopping sv =>
    (destroyed sv < length ps)%nat /\ dropped (store_ (rec_ sv)) = [] /\
    forall t d route, ps !! t = Some (d, route) ->
      stream_ok sv (running (capture cfg) (d, route)) t d (commands (store_ (rec_ sv)))
  | Over sv stored =>
    (forall t, busy t (rec_ sv) = false) /\ (stored = None <-> makes_store cfg p = false) /\
    forall t d route, ps !! t = Some (d, route) ->
      stream_ok sv (running (capture cfg) (d, route)) t d (commands (from_option snd (store_ (rec_ sv)) stored)) /\
      forall drained st, stored = Some (drained, st) ->
        dropped st = [] /\ stored_ok sv (running (capture cfg) (d, route)) t d drained st
  end.
Proof.
  intros Hn Hes Hw Hl. set (rs := running (capture cfg) <$> ps). unfold lifetime.
  destruct (service_run rs (l_events lf) (new_service (redis cfg))) as [sv|] eqn:Er; [|done]. cbn [mbind option_bind].
  pose proof (running_devices (capture cfg) ps) as Hdev. fold rs in Hdev.
  pose proof (service_run_inv rs (redis cfg) Hmax _ _ _ (new_service_inv rs (redis cfg) Hmax) Er) as Hi.
  pose proof (service_recording rs (redis cfg) Hmax ps.*1 Hdev _ _ Hes Er) as Hrec.
  assert (Hlen : length rs = length ps) by (subst rs; apply length_fmap).
  assert (Hstream : forall t d route, ps !! t = Some (d, route) ->
    rs !! t = Some (running (capture cfg) (d, route)) /\
    stream_ok sv (running (capture cfg) (d, route)) t d (commands (store_ (rec_ sv)))).
  { intros t d route Ht. assert (Hr : rs !! t = Some (running (capture cfg) (d, route)))
      by (subst rs; by rewrite list_lookup_fmap, Ht).
    split; [done|]. destruct (stream_of_inv (redis cfg) rs ps.*1 Hdev Hn _ t _ d Hrec Hr eq_refl) as (H1 & H2 & _). by split. }
  case_decide as Hd.
  2: { intros [= <-]. pose proof (si_destroyed _ _ _ Hi). split_and!; [lia|apply Hi|]. intros t d route Ht. by apply Hstream. }
  assert (Hidle : forall t, busy t (rec_ sv) = false).
  { intros t. destruct (busy t (rec_ sv)) eqn:Eb; [|done]. pose proof (si_busy _ _ _ Hi t Eb). lia. }
  destruct (makes_store cfg p).
  2: { intros [= <-]. split_and!; [done|done|]. intros t d route Ht. by split; [apply Hstream|]. }
  destruct (destroy_service rs (l_wait lf) (l_late lf) sv) as [[b st]|] eqn:Eds; [|done]. cbn [mbind option_bind].
  intros [= <-]. split_and!; [done|done|]. intros t d route Ht. destruct (Hstream t d route Ht) as [Hr [Hwire _]].
  destruct (clean_shutdown rs (redis cfg) Hmax ps.*1 Hdev Hn _ sv _ _ b st Hes Er Hw Hl Eds) as (_ & Hdr & Hsto).
  destruct (Hsto t _ d Hr eq_refl) as (H1 & H2 & H3). split; [by split|]. intros drained st' [= <- <-]. by split_and!.
Qed.

(** C23: one attempt of the supervisor, with everything that runs in it.  Whatever the capture threads, the
    I/O thread and Redis do, and whether the service comes up or fails on the way: if the attempt
    returns, its outcome is that of [Init], and the host is released; no thread is in [Store] when the
    store is destroyed and no packet is dropped because the store was closing; each receiver, one per
    device, has sent on its route exactly the packets it captured whose sending succeeded; the commands
    issued for its device decode, in order, to packets captured there, and those Redis has
    acknowledged are among them; if the writes drained in time and none was lost to an exception,
    the commands issued are all the packets to record, each acknowledged or answered with an error.
    An attempt that does not return, because a receiver cannot be stopped yet, has dropped nothing and
    forwarded and issued in the same order.  A service that came up has the receivers of the
    configuration, and a store exactly if packets are to be recorded. *)
Theorem attempt_records lf fuel k s e :
  released s -> Forall service_event_ok (l_events lf) -> Forall internal (l_wait lf) -> Forall internal (l_late lf) ->
  RunCaptureService stop cfg p lf fuel k s = Some e ->
  exists ps, NoDup ps.*1 /\
    let m := Init (make_store p) cfg (mk_shrew [] [] s) in
    receivers_ m.2 = running (capture cfg) <$> ps /\ (m.1 = Ok tt -> capture_plan cfg = Ok ps) /\
    match e with
    | Returned r k' s' sv stored =>
      r = m.1 /\ released s' /\ (forall t, busy t (rec_ sv) = false) /\
      (r = Ok tt -> (stored = None <-> record_packets (capture cfg) = false)) /\
      forall t d route, ps !! t = Some (d, route) ->
        stream_ok sv (running (capture cfg) (d, route)) t d (commands (from_option snd (store_ (rec_ sv)) stored)) /\
        forall drained st, stored = Some (drained, st) ->
          dropped st = [] /\ stored_ok sv (running (capture cfg) (d, route)) t d drained st
    | TearingDown sv =>
      (destroyed sv < length ps)%nat /\ dropped (store_ (rec_ sv)) = [] /\
      forall t d route, ps !! t = Some (d, route) ->
        stream_ok sv (running (capture cfg) (d, route)) t d (commands (store_ (rec_ sv)))
    end.
Proof.
  intros Hs Hes Hw Hl. unfold RunCaptureService. destruct (attempt_receivers s Hs) as (Hrel & ps & Hr & Hn & Hok).
  destruct (Init (make_store p) cfg (mk_shrew [] [] s)) as [r w]. cbn [fst snd] in *. rewrite Hr.
  destruct (match r with Ok _ => _ | Throw _ => _ end) as [k1|]; [|done]. cbn [mbind option_bind].
  destruct (lifetime cfg p lf (running (capture cfg) <$> ps)) as [le|] eqn:El; [|done]. cbn [mbind option_bind].
  pose proof (life_spec lf ps le Hn Hes Hw Hl El) as Hlife. intros [= <-].
  exists ps. split_and!; [done|done|by intros [? _]%Hok|].
  destruct le as [sv|sv stored]; [done|]. destruct Hlife as (Hidle & Hst & Hstream). split_and!; try done.
  intros [_ Hmake]%Hok. rewrite Hst. unfold makes_store. destruct (record_packets (capture cfg)); [|done]. by rewrite Hmake.
Qed.

(** ** Whether an attempt returns *)
Lemma lifetime_run lf more w l rs sv : service_run rs (l_events lf) (new_service (redis cfg)) = Some sv ->
  lifetime cfg p (mk_life (l_events lf ++ more) w l) rs =
  (sv' ← service_run rs more sv;
   if decide (destroyed sv' = length rs) then
     if makes_store cfg p then st ← destroy_service rs w l sv'; Some (Over sv' (Some st)) else Some (Over sv' None)
   else Some (Stopping sv')).
Proof. intros Hsv. unfold lifetime. cbn [l_events l_wait l_late]. by rewrite (service_run_app rs _ _ _ _ Hsv). Qed.

Lemma lifetime_stopping lf rs sv : lifetime cfg p lf rs = Some (Stopping sv) ->
  service_run rs (l_events lf) (new_service (redis cfg)) = Some sv.
Proof.
  unfold lifetime. destruct (service_run _ _ _) as [sv'|]; [|done]. cbn [mbind option_bind].
  case_decide; [destruct (makes_store _ _); [destruct (destroy_service _ _ _ _)|]; done|]. by intros [= <-].
Qed.

(** An attempt that is stopping needs Redis, in the worst case, and nothing but
    Redis: some continuation of its life brings it to its end; but while every
    slot is a command without an answer and a capture thread waits, none does
    without one. *)
Lemma stopping_spec lf rs sv : lifetime cfg p lf rs = Some (Stopping sv) ->
  (exists more sv' stored, Forall closing more /\
     lifetime cfg p (mk_life (l_events lf ++ more) [] []) rs = Some (Over sv' stored)) /\
  (forall t, Z.of_nat (length (exec (store_ (rec_ sv)))) = max_pending_writes (redis cfg) -> is_Some (waiting (rec_ sv) !! t) ->
     forall more w l sv' stored, Forall redis_silent more ->
       lifetime cfg p (mk_life (l_events lf ++ more) w l) rs <> Some (Over sv' stored)).
Proof.
  intros Hsv%lifetime_stopping.
  pose proof (service_run_inv rs (redis cfg) Hmax _ _ _ (new_service_inv rs (redis cfg) Hmax) Hsv) as Hi. split.
  - destruct (waiting_stops rs (redis cfg) Hmax _ sv Hi (le_n _)) as (more & sv' & Hc & Hr & Hd). exists more, sv'.
    rewrite (lifetime_run lf more [] [] rs sv Hsv), Hr. cbn [mbind option_bind]. rewrite decide_True by done.
    destruct (makes_store cfg p); [|by eexists].
    unfold destroy_service, shut_down. rewrite decide_True by done. cbn [wait_for].
    destruct (negb _ && _); cbn; by eexists.
  - intros t Hex Hw more w l sv' stored Hsil. rewrite (lifetime_run lf more w l rs sv Hsv).
    destruct (service_run rs more sv) as [sv1|] eqn:Er; [|done]. cbn [mbind option_bind].
    assert (Hst : stalled rs (redis cfg) t sv) by (split_and!; done).
    pose proof (stalled_busy _ _ _ _ (stalled_forever rs (redis cfg) Hmax t more sv sv1 Hst Hsil Er)).
    by rewrite decide_False by lia.
Qed.

End Facts.

(** ** A service that routes and records one packet *)
Definition routed_config : RuntimeConfig :=
  mk_config (mk_capture [] true false) (mk_routing true "eth0" "eth1" false) two_slots (supervisor default_config) false.

Definition one_packet : life :=
  mk_life [Act (Capture 0 true sample_raw); Act (Reserve 0); Act (Internal (Post 0 true)); StopNext]
    [Handler true; Completion 0 true] [].

(** The stop is seen by the call [n] and by every later one. *)
Definition stop_from (n : nat) (k : nat) : bool := bool_decide (n <= k)%nat.

Definition routed_attempt (lf : life) := @RunCaptureService sim_pcap sample_parse (stop_from 3) routed_config (ping_reply "PONG")
  lf 5 0 idle_host.

Lemma attempt_records_witness : exists k s sv st,
  routed_attempt one_packet = Some (Returned (Ok tt) k s sv (Some (true, st))) /\ released s /\
  recorded_on "eth0" (answered true st) = [[0; 171; 255]].
Proof.
  assert (H : exists k s sv st, routed_attempt one_packet = Some (Returned (Ok tt) k s sv (Some (true, st))) /\ lost st = [] /\
    recorded_on "eth0" (answered false st) = [] /\
    to_record (running (capture routed_config) ("eth0", Some "eth1")%string) (captured_by 0 (rec_ sv)) = [[0; 171; 255]])
    by (eexists _, _, _, _; split_and!; vm_compute; reflexivity).
  destruct H as (k & s & sv & st & E & Hl & Hf & Hc). exists k, s, sv, st. split; [exact E|].
  destruct (@attempt_records sim_pcap sim_pcap_ok sample_parse (stop_from 3) routed_config (ping_reply "PONG") two_slots_ok
    one_packet 5 0 idle_host _ idle_host_released
    ltac:(repeat constructor; unfold is_byte; cbn; lia) ltac:(repeat constructor) ltac:(repeat constructor) E)
    as (ps & _ & _ & Hok & _ & Hrel & _ & _ & Hstream). split; [exact Hrel|].
  specialize (Hok eq_refl). vm_compute in Hok. injection Hok as <-.
  destruct (Hstream 0%nat "eth0"%string (Some "eth1"%string) eq_refl) as [_ Hst].
  destruct (Hst true st eq_refl) as (_ & _ & Hall). destruct (Hall eq_refl Hl) as [_ Hans].
  apply Permutation_singleton_r. rewrite <- Hc, <- Hans, Hf. by rewrite app_nil_r.
Defined.

(** Redis answers nothing, both slots are taken and the capture thread waits for
    a third: the attempt does not return. *)
Definition third_packet : life :=
  mk_life [Act (Capture 0 true sample_raw); Act (Reserve 0); Act (Internal (Post 0 true)); Act (Internal (Handler true));
           Act (Capture 0 true sample_raw); Act (Reserve 0); Act (Internal (Post 0 true)); Act (Internal (Handler true));
           Act (Capture 0 true sample_raw); Act (Reserve 0)] [] [].

Example attempt_hangs : exists sv, routed_attempt third_packet = Some (TearingDown sv) /\
  asleep (store_ (rec_ sv)) = {[Some 0%nat]} /\ length (exec (store_ (rec_ sv))) = 2%nat.
Proof. eexists. split_and!; vm_compute; reflexivity. Qed.
