(* ===== verification/Supervisor.v ===== *)
(** * The supervisor ([src/ElephantShrewMain.cpp], second half)

    [main] parses, loads, and keeps the capture service running until a stop
    is requested.  The stop flag is set asynchronously by a signal handler:
    [raised k] says whether one ran before the [k]-th call of [StopRequested]
    and after the one before it, and [stop k] is what that call sees.  [pings i] is
    what became of the PING with which the packet store of attempt [i] tests
    its connection, [lives i] what the threads of attempt [i] and Redis do; the
    devices are those of the class [Pcap].  An attempt may not return
    ([Lifetime]), and then neither does [main]. *)
From S2P Require Import Prelude Cli PcapReceiver RedisPacketStore Recording ElephantShrew ServiceShutdown Lifetime.
From S2P Require Import RuntimeConfig.

(** [std::chrono::milliseconds(x)] of an unsigned 64-bit count. *)
Definition milliseconds (x : Z) : Z := s64 x.

(** ** Signals: [RequestStop], installed for SIGINT and SIGTERM, sets
    [g_stopRequested]; nothing clears it. *)
Fixpoint g_stopRequested (raised : nat -> bool) (k : nat) : bool :=
  match k with O => raised 0%nat | S k' => g_stopRequested raised k' || raised k end.

Definition StopRequested (raised : nat -> bool) (k : nat) : bool := g_stopRequested raised k.

(** ** Console output, line by line *)
Definition PrintUsage (program : string) : list string :=
  ["Usage: " +:+ program +:+ " [-s] [-r] [-d] [-c <config.json>] [-i <iface>]...";
   "       " +:+ program +:+ " [options] --route <ingress:egress> [--bidirectional]"]%string.

Definition PrintStartupArt : list string :=
  ["███████╗██╗     ███████╗██████╗ ██╗  ██╗ █████╗ ███╗   ██╗████████╗";
    "██╔════╝██║     ██╔════╝██╔══██╗██║  ██║██╔══██╗████╗  ██║╚══██╔══╝";
    "█████╗  ██║     █████╗  ██████╔╝███████║███████║██╔██╗ ██║   ██║";
    "██╔══╝  ██║     ██╔══╝  ██╔═══╝ ██╔══██║██╔══██║██║╚██╗██║   ██║";
    "███████╗███████╗███████╗██║     ██║  ██║██║  ██║██║ ╚████║   ██║";
    "╚══════╝╚══════╝╚══════╝╚═╝     ╚═╝  ╚═╝╚═╝  ╚═╝╚═╝  ╚═══╝   ╚═╝";
    "";
    " ███████╗██╗  ██╗██████╗ ███████╗██╗    ██╗";
    " ██╔════╝██║  ██║██╔══██╗██╔════╝██║    ██║";
    " ███████╗███████║██████╔╝█████╗  ██║ █╗ ██║";
    " ╚════██║██╔══██║██╔══██╗██╔══╝  ██║███╗██║";
    " ███████║██║  ██║██║  ██║███████╗╚███╔███╔╝";
    " ╚══════╝╚═╝  ╚═╝╚═╝  ╚═╝╚══════╝ ╚══╝╚══╝"]%string.

(** [LogUnhandledException]: [what] is the text of an exception, [None] if it
    is not a [std::exception]. *)
Definition LogUnhandledException (what : exn -> option string) (context : string) (e : exn) : string :=
  (context +:+ ": " +:+ default "unknown exception" (what e))%string.

Section Supervisor.
Context `{HP : Pcap} `{HC : Pcpp} (stop : nat -> bool).

(** [if (poll_interval <= 0) poll_interval = 1ms;]. *)
Definition clamp_poll (poll : Z) : Z := if poll <=? 0 then 1 else poll.

(** The loop of [SleepWithStopCheck] from observation [k]: the sleeps, and
    the next observation. *)
Fixpoint sleep_loop (fuel : nat) (remaining poll : Z) (k : nat) : option (list Z * nat) :=
  if remaining <=? 0 then Some ([], k)
  else if stop k then Some ([], S k)
  else
    match fuel with
    | O => None
    | S fuel =>
      let sleepFor := if poll <? remaining then poll else remaining in
      '(sleeps, k) ← sleep_loop fuel (remaining - sleepFor) poll (S k);
      Some (sleepFor :: sleeps, k)
    end.

Definition SleepWithStopCheck (delay poll_interval : Z) (k : nat) : option (list Z * nat) :=
  sleep_loop (Z.to_nat delay) delay (clamp_poll poll_interval) k.

Context (pings : nat -> ping) (lives : nat -> life) (cfg : RuntimeConfig).

(** How the loop of [main] ends: a stop was seen, or it has not, because the
    teardown of an attempt has not. *)
Inductive loop_end :=
  | Ended (s : devices)
  | Unfinished (sv : service).

(** The loop of [main], from attempt [i] on: the outcomes of the attempts that
    returned, the delays slept between attempts, and its end.  [None]: the fuel,
    or a life, is not enough. *)
Fixpoint service_loop (fuel : nat) (i k : nat) (s : devices)
    : option (list (result unit) * list (list Z) * loop_end) :=
  if stop k then Some ([], [], Ended s)
  else
    match fuel with
    | O => None
    | S fuel' =>
      e ← RunCaptureService stop cfg (pings i) (lives i) fuel (S k) s;
      match e with
      | TearingDown sv => Some ([], [], Unfinished sv)
      | Returned outcome k s _ _ =>
        if stop k then Some ([outcome], [], Ended s)
        else
          '(slept, k) ← SleepWithStopCheck (milliseconds (restart_delay_ms (supervisor cfg)))
                          (milliseconds (poll_interval_ms (supervisor cfg))) (S k);
          '(outcomes, delays, e) ← service_loop fuel' (S i) k s;
          Some (outcome :: outcomes, slept :: delays, e)
      end
    end.

End Supervisor.

(** [ListInterfaces], given what libpcap listed: exit code and output. *)
Definition ListInterfaces (devices : list string) : Z * list string :=
  match devices with
  | [] => (1, ["No network interfaces found."%string])
  | _ => (0, "Available interfaces:"%string :: map (fun d => (" - " +:+ d)%string) devices)
  end.

(** What the service loop logs as critical: one line for each crash. *)
Definition crash_lines (what : exn -> option string) (outcomes : list (result unit)) : list string :=
  omap (fun r => match r with
                 | Throw e => Some (LogUnhandledException what "Capture service crashed" e)
                 | Ok _ => None
                 end) outcomes.

(** How far the program gets: it has returned from [main], or a teardown has not;
    with its standard output and its critical log lines so far. *)
Inductive program_end `{Pcap} :=
  | Exited (rc : Z) (out log : list string) (s : devices)
  | Hanging (out log : list string) (sv : service).

(** [main]; [scan] is what listing the devices gives. *)
Definition main `{JsonLib} `{Pcap} `{Pcpp} (what : exn -> option string) (program : string) (args : list string)
    (files : string -> option string) (scan : result (list string)) (raised : nat -> bool)
    (pings : nat -> ping) (lives : nat -> life) (fuel : nat) (s : devices) : option program_end :=
  match ParseArguments args default_options with
  | (false, _) => Some (Exited 1 (PrintUsage program) [] s)
  | (true, options) =>
    match LoadEffectiveConfig files options with
    | Throw e => Some (Exited 1 [] [LogUnhandledException what "Failed to load runtime config" e] s)
    | Ok cfg =>
      let out := if show_startup_art cfg then PrintStartupArt else [] in
      if scan_only options then
        match scan with
        | Throw e => Some (Exited 1 out [LogUnhandledException what "Interface scan failed" e] s)
        | Ok l => let '(rc, listing) := ListInterfaces l in Some (Exited rc (out ++ listing) [] s)
        end
      else
        '(outcomes, _, e) ← service_loop (StopRequested raised) pings lives cfg fuel 0 0 s;
        Some match e with
             | Ended s => Exited 0 out (crash_lines what outcomes) s
             | Unfinished sv => Hanging out (crash_lines what outcomes) sv
             end
    end
  end.

(** ** Sleeping *)
Definition total (sleeps : list Z) : Z := foldr Z.add 0 sleeps.

Section Facts.
Context (stop : nat -> bool).

Lemma sleep_loop_spec poll : 0 < poll -> forall fuel remaining k, remaining <= Z.of_nat fuel ->
  exists sleeps k', sleep_loop stop fuel remaining poll k = Some (sleeps, k') /\
    Forall (fun s => 0 < s <= poll) sleeps /\
    (total sleeps = Z.max 0 remaining /\ k' = (k + length sleeps)%nat \/
     total sleeps < remaining /\ stop (k + length sleeps) = true /\ k' = S (k + length sleeps)) /\
    (forall i, (i < length sleeps)%nat -> stop (k + i) = false).
Proof.
  intros Hp. induction fuel as [|fuel IH]; intros remaining k Hf; cbn [sleep_loop].
  - destruct (Z.leb_spec remaining 0); [|lia]. exists [], k. split_and!; try done; [|simpl; lia].
    left. simpl. lia.
  - destruct (Z.leb_spec remaining 0).
    { exists [], k. split_and!; try done; [|simpl; lia]. left. simpl. lia. }
    destruct (stop k) eqn:Ek.
    { exists [], (S k). split_and!; try done; [|simpl; lia]. right.
      cbn [total foldr length]. rewrite Nat.add_0_r. split_and!; [lia|done|done]. }
    set (s := if poll <? remaining then poll else remaining).
    assert (Hs : 0 < s <= poll /\ s <= remaining) by (subst s; destruct (Z.ltb_spec poll remaining); lia).
    destruct (IH (remaining - s) (S k)) as (sleeps & k' & -> & Hall & Hend & Hno); [lia|].
    cbn [mbind option_bind]. exists (s :: sleeps), k'. split_and!; [done|constructor; [apply Hs|done]| |].
    + cbn [total foldr length] in *. fold (total sleeps) in *. rewrite <- plus_n_Sm.
      destruct Hend as [[E ->]|(E & Hst & ->)]; [left|right].
      * split; [lia|done].
      * split_and!; [lia|done|done].
    + intros [|i] Hi; [by rewrite Nat.add_0_r|]. cbn [length] in Hi. rewrite <- plus_n_Sm.
      apply (Hno i). lia.
Qed.

(** The restart delay.  [SleepWithStopCheck] returns; it sleeps in steps of at most the poll
    interval (one millisecond if that is not positive), checks the flag before each, and sleeps
    exactly the delay in all unless a check sees a stop, in which case it sleeps no more. *)
Theorem SleepWithStopCheck_spec delay poll k :
  exists sleeps k', SleepWithStopCheck stop delay poll k = Some (sleeps, k') /\
    Forall (fun s => 0 < s <= Z.max 1 poll) sleeps /\
    (forall i, (i < length sleeps)%nat -> stop (k + i) = false) /\
    (total sleeps = Z.max 0 delay \/
     total sleeps < delay /\ stop (k + length sleeps) = true).
Proof.
  unfold SleepWithStopCheck.
  assert (Hc : clamp_poll poll = Z.max 1 poll)
    by (unfold clamp_poll; destruct (Z.leb_spec poll 0); lia).
  destruct (sleep_loop_spec (clamp_poll poll) ltac:(lia) (Z.to_nat delay) delay k ltac:(lia))
    as (sleeps & k' & E & Hall & Hend & Hno).
  exists sleeps, k'. rewrite Hc in Hall. split_and!; try done. destruct Hend as [[? _]|(? & ? & _)]; auto.
Qed.

(** ** The service loop *)
Context `{HP : Pcap} {HO : PcapOk} `{HC : Pcpp} (pings : nat -> ping) (lives : nat -> life) (cfg : RuntimeConfig).

(** The flag is first seen by call [n], and then by every later one. *)
Definition stops_at (n : nat) : Prop := forall k, stop k = true <-> (n <= k)%nat.

Lemma stop_false n k : stops_at n -> stop k = false <-> (k < n)%nat.
Proof.
  intros H. split.
  - intros E. destruct (le_lt_dec n k) as [Hk|]; [|done]. apply H in Hk. congruence.
  - intros Hk. destruct (stop k) eqn:E; [|done]. apply H in E. lia.
Qed.

Lemma wait_spec n fuel k : stops_at n -> (n <= k + fuel)%nat ->
  WaitUntilStopRequested stop fuel k = Some (S (Nat.max n k)).
Proof.
  intros H. revert k. induction fuel as [|fuel IH]; intros k Hf; simpl.
  - rewrite (proj2 (H k)) by lia. f_equal. lia.
  - destruct (stop k) eqn:E.
    + apply H in E. f_equal. lia.
    + apply (stop_false n k H) in E. rewrite IH by lia. f_equal. lia.
Qed.

(** What bringing the service up on host [s] gives in attempt [i], and how far
    the life of that attempt gets. *)
Definition brought_up (i : nat) (s : devices) : result unit :=
  (Init (make_store (pings i)) cfg (mk_shrew [] [] s)).1.

Definition life_of (i : nat) (s : devices) : option lifetime_end := attempt_life cfg (pings i) (lives i) s.

(** One attempt. *)
Lemma RunCaptureService_spec n fuel i k s : stops_at n -> (n <= k + fuel)%nat -> released s ->
  exists s', released s' /\
  RunCaptureService stop cfg (pings i) (lives i) fuel k s =
    (e ← life_of i s;
     Some match e with
          | Stopping sv => TearingDown sv
          | Over sv stored =>
            Returned (brought_up i s) (match brought_up i s with Ok _ => S (Nat.max n k) | Throw _ => k end) s' sv stored
          end).
Proof.
  intros H Hf Hs. destruct (service_attempt_spec (make_store (pings i)) cfg s Hs) as [H1 H2].
  rewrite attempt_service. unfold brought_up, life_of. rewrite <- H2.
  destruct (service_attempt _ _ s) as [r s']. exists s'. split; [done|]. cbn [fst snd].
  destruct r as [[]|e]; [rewrite (wait_spec n) by done|]; cbn [mbind option_bind]; by destruct (attempt_life _ _ _ _) as [[]|].
Qed.

(** An attempt that returned: made on a clean host, with the outcome of [Init]
    there, and a life that came to its end. *)
Definition attempt_over (i : nat) (r : result unit) : Prop :=
  exists s sv stored, released s /\ r = brought_up i s /\ life_of i s = Some (Over sv stored).

Definition attempts_over (i : nat) (outcomes : list (result unit)) : Prop :=
  forall j r, outcomes !! j = Some r -> attempt_over (i + j) r.

(** An attempt whose teardown has not ended. *)
Definition attempt_stuck (i : nat) (sv : service) : Prop := exists s, released s /\ life_of i s = Some (Stopping sv).

Definition impossible_life : Prop := exists i s, released s /\ life_of i s = None.

Definition restart_delay : Z := Z.max 0 (milliseconds (restart_delay_ms (supervisor cfg))).

(** How many attempts were made. *)
Definition attempts_made (outcomes : list (result unit)) (e : loop_end) : nat :=
  match e with Ended _ => length outcomes | Unfinished _ => S (length outcomes) end.

(** The loop from attempt [i] and observation [k] on. *)
Record supervised (n i k : nat) (outcomes : list (result unit)) (delays : list (list Z)) (e : loop_end) : Prop := {
  sup_over : attempts_over i outcomes;
  sup_failed j : (S j < attempts_made outcomes e)%nat -> outcomes !! j <> Some (Ok tt);
  sup_delays j : (S j < attempts_made outcomes e)%nat -> exists d, delays !! j = Some d /\ total d = restart_delay;
  sup_end : match e with
    | Ended s => released s /\ (list.last outcomes = Some (Ok tt) \/ (n <= k + length outcomes * (3 + Z.to_nat restart_delay))%nat)
    | Unfinished sv => attempt_stuck (i + length outcomes) sv
    end;
}.

Lemma attempts_over_cons i r outcomes : attempt_over i r -> attempts_over (S i) outcomes -> attempts_over i (r :: outcomes).
Proof.
  intros Hr Ho [|j] r'; cbn [lookup list_lookup].
  - intros [= <-]. by rewrite Nat.add_0_r.
  - intros Hj%Ho. by rewrite <- plus_n_Sm.
Qed.

Lemma supervised_stopped n i k s : stops_at n -> stop k = true -> released s -> supervised n i k [] [] (Ended s).
Proof.
  intros H Hk%H Hs. constructor; try done; cbn; try lia. split; [done|right; lia].
Qed.

(** The last attempt has returned, and a stop is seen. *)
Lemma supervised_last n i k r s : attempt_over i r -> released s -> (r = Ok tt \/ (n <= S k)%nat) ->
  supervised n i k [r] [] (Ended s).
Proof.
  intros Hr Hs Hn. constructor; cbn; try lia.
  - by apply attempts_over_cons.
  - split; [done|]. destruct Hn as [->|Hn]; [by left|right; lia].
Qed.

Lemma total_length sleeps b : Forall (fun s => 0 < s <= b) sleeps -> (length sleeps <= Z.to_nat (total sleeps))%nat.
Proof.
  intros H. enough (Z.of_nat (length sleeps) <= total sleeps) by lia.
  induction H as [|s l [Hs _] _ IH]; cbn [length total foldr]; [lia|]. unfold total in IH. lia.
Qed.

(** A failed attempt, the delay - cut short only by a stop - and the rest. *)
Lemma supervised_cons n i k k' err slept outcomes delays e :
  attempt_over i (Throw err) -> (k' <= k + (3 + Z.to_nat restart_delay))%nat ->
  (total slept = restart_delay \/ (outcomes = [] /\ exists s, e = Ended s)) ->
  supervised n (S i) k' outcomes delays e -> supervised n i k (Throw err :: outcomes) (slept :: delays) e.
Proof.
  intros Hr Hk Htot [H1 H2 H3 H4]. constructor.
  - by apply attempts_over_cons.
  - intros [|j]; [done|]. cbn. intros Hj. apply H2. destruct e; cbn in *; lia.
  - intros [|j]; cbn.
    + intros Hj. exists slept. split; [done|]. destruct Htot as [?|(-> & s & ->)]; [done|]. cbn in Hj. lia.
    + intros Hj. apply H3. destruct e; cbn in *; lia.
  - destruct e as [s|sv]; cbn [length].
    + destruct H4 as [Hs Hn]. split; [done|]. destruct Hn as [Hl|Hn]; [left|right; lia].
      by rewrite last_cons, Hl.
    + by rewrite <- plus_n_Sm.
Qed.

Lemma service_loop_stopped fuel i k s : stop k = true ->
  service_loop stop pings lives cfg fuel i k s = Some ([], [], Ended s).
Proof. intros E. destruct fuel; cbn [service_loop]; by rewrite E. Qed.

Lemma service_loop_spec n : stops_at n -> forall fuel i k s, (n <= k + fuel)%nat -> released s ->
  match service_loop stop pings lives cfg fuel i k s with
  | None => impossible_life
  | Some (outcomes, delays, e) => supervised n i k outcomes delays e
  end.
Proof.
  intros H. induction fuel as [|fuel IH]; intros i k s Hf Hs; cbn [service_loop].
  { rewrite (proj2 (H k)) by lia. apply supervised_stopped; [done|apply H; lia|done]. }
  destruct (stop k) eqn:Ek; [by apply supervised_stopped|].
  destruct (RunCaptureService_spec n (S fuel) i (S k) s H ltac:(lia) Hs) as (s1 & Hs1 & ->).
  destruct (life_of i s) as [[sv|sv stored]|] eqn:El; cbn [mbind option_bind]; [| |by exists i, s].
  { constructor; try done; cbn; try lia. rewrite Nat.add_0_r. by exists s. }
  assert (Hover : attempt_over i (brought_up i s)) by (by exists s, sv, stored).
  destruct (brought_up i s) as [[]|err].
  { rewrite (proj2 (H _)) by lia. apply supervised_last; auto. }
  destruct (stop (S k)) eqn:Es; [apply supervised_last; [done|done|right; by apply H]|].
  unfold SleepWithStopCheck. set (delay := milliseconds (restart_delay_ms (supervisor cfg))). set (poll := clamp_poll _).
  assert (Hp : 0 < poll) by (subst poll; unfold clamp_poll; case_match; lia).
  destruct (sleep_loop_spec poll Hp (Z.to_nat delay) delay (S (S k)) ltac:(lia))
    as (slept & k' & -> & Hall & Hend & _). cbn [mbind option_bind].
  apply total_length in Hall. assert (Hrd : restart_delay = Z.max 0 delay) by done.
  apply (stop_false n _ H) in Es.
  specialize (IH (S i) k' s1 ltac:(destruct Hend as [[_ ->]|(_ & _ & ->)]; lia) Hs1).
  destruct (service_loop stop pings lives cfg fuel (S i) k' s1) as [[[outcomes delays] e]|] eqn:E; [|done]. cbn [mbind option_bind].
  apply (supervised_cons n i k k'); [done| | |done].
  - rewrite Hrd. destruct Hend as [[Ht ->]|(Ht & _ & ->)]; lia.
  - destruct Hend as [[Htot _]|(_ & Hst & ->)]; [by left|right].
    rewrite service_loop_stopped in E by (apply H; apply H in Hst; lia). injection E as <- _ <-. split; [done|by exists s1].
Qed.

(** C39: supervision.  When a stop is requested at some point, [main]'s loop ends exactly if the
    teardown of every attempt it makes does.  Every attempt is made on a clean host; the outcome of
    one that returns is that of [Init] there, and its life came to its end; every attempt but the last
    had failed to come up (a service that has come up is kept until the stop), and after it the full
    restart delay was slept.  If the loop ends, every device is closed and no capture runs, and it
    did not give up before the stop: the last attempt came up, or there were enough attempts for the
    stop to be seen.  If it does not, it is in the teardown of the last attempt, where a receiver is
    yet to be stopped: some continuation of the life of that attempt brings it to its end, but while
    every slot of the store is a command without an answer and a capture thread waits, none does
    without an answer of Redis.  (There is no third case, unless a given life is one that the
    threads of its attempt cannot have.) *)
Theorem service_loop_supervises n fuel s :
  stops_at n -> (n <= fuel)%nat -> released s ->
  match service_loop stop pings lives cfg fuel 0 0 s with
  | None => exists j sj, released sj /\ life_of j sj = None
  | Some (outcomes, delays, e) =>
    (forall j r, outcomes !! j = Some r -> exists sj sv stored,
       released sj /\ r = brought_up j sj /\ life_of j sj = Some (Over sv stored)) /\
    (forall j, (S j < attempts_made outcomes e)%nat -> outcomes !! j <> Some (Ok tt) /\
       exists d, delays !! j = Some d /\ total d = Z.max 0 (milliseconds (restart_delay_ms (supervisor cfg)))) /\
    match e with
    | Ended s' => released s' /\
      (list.last outcomes = Some (Ok tt) \/ (n <= length outcomes * (3 + Z.to_nat restart_delay))%nat)
    | Unfinished sv => exists sj, released sj /\
      let rs := receivers_ (Init (make_store (pings (length outcomes))) cfg (mk_shrew [] [] sj)).2 in
      let continued more w l := lifetime cfg (pings (length outcomes))
        (mk_life (l_events (lives (length outcomes)) ++ more) w l) rs in
      life_of (length outcomes) sj = Some (Stopping sv) /\
      (0 < max_pending_writes (redis cfg) < 2 ^ 64 ->
       (exists more sv' stored, Forall closing more /\ continued more [] [] = Some (Over sv' stored)) /\
       (forall t, Z.of_nat (length (exec (store_ (rec_ sv)))) = max_pending_writes (redis cfg) ->
          is_Some (waiting (rec_ sv) !! t) ->
          forall more w l sv' stored, Forall redis_silent more -> continued more w l <> Some (Over sv' stored)))
    end
  end.
Proof.
  intros H Hf Hs. pose proof (service_loop_spec n H fuel 0 0 s ltac:(lia) Hs) as Hsup.
  destruct (service_loop stop pings lives cfg fuel 0 0 s) as [[[outcomes delays] e]|]; [|done].
  destruct Hsup as [H1 H2 H3 H4]. split_and!; [exact H1|intros j Hj; split; auto|].
  destruct e as [s'|sv]; [done|]. destruct H4 as (sj & Hsj & Hl). exists sj. split; [done|]. cbv zeta. split; [done|].
  intros Hmax. by apply (stopping_spec cfg (pings (length outcomes)) Hmax).
Qed.
End Facts.

(** A signal between two calls is seen from the next call on. *)
Lemma signal_stops raised n : raised n = true -> (forall j, (j < n)%nat -> raised j = false) ->
  stops_at (StopRequested raised) n.
Proof.
  intros Hn Hlt k. unfold StopRequested. split.
  - intros E. destruct (le_lt_dec n k) as [|Hk]; [done|]. exfalso.
    enough (g_stopRequested raised k = false) by congruence.
    clear E. induction k as [|k IH]; cbn; [by apply Hlt|]. rewrite IH, Hlt by lia. done.
  - intros Hk. induction Hk as [|k Hk IH]; [|cbn; by rewrite IH].
    destruct n as [|n]; cbn; [done|]. by rewrite Hn, orb_true_r.
Qed.

(** ** The program *)

(** Since every attempt but the last failed, each crash has its own line. *)
Lemma crash_lines_lookup what outcomes :
  (forall j, (S j < length outcomes)%nat -> outcomes !! j <> Some (Ok tt)) ->
  forall j line, crash_lines what outcomes !! j = Some line <->
    exists e, outcomes !! j = Some (Throw e) /\
      line = ("Capture service crashed" +:+ ": " +:+ default "unknown exception" (what e))%string.
Proof.
  induction outcomes as [|r l IH]; intros Hne j line; [split; [by destruct j|by intros (? & [=] & _)]|].
  destruct r as [[]|err]; cbn.
  - destruct l as [|r' l]; [|exfalso; by apply (Hne 0%nat); [simpl; lia|]].
    split; [by destruct j|]. destruct j; by intros (? & [=] & _).
  - destruct j as [|j]; cbn.
    + split; [intros [= <-]; by exists err|]. by intros (e & [= ->] & ->).
    + apply IH. intros i Hi. apply (Hne (S i)). simpl. lia.
Qed.

Section Program.
Context `{HJ : JsonLib} `{HP : Pcap} {HO : PcapOk} `{HC : Pcpp}.
Context (what : exn -> option string) (pings : nat -> ping) (lives : nat -> life).

(** The critical log of a service with these attempts: the attempts are as
    [service_loop_supervises] says, and line [j] is the crash of attempt [j]. *)
Definition service_log (cfg : RuntimeConfig) (outcomes : list (result unit)) (log : list string) : Prop :=
  (forall j r, outcomes !! j = Some r -> exists sj sv stored,
     released sj /\ r = brought_up pings cfg j sj /\ life_of pings lives cfg j sj = Some (Over sv stored)) /\
  (forall j line, log !! j = Some line <-> exists e, outcomes !! j = Some (Throw e) /\
     line = ("Capture service crashed" +:+ ": " +:+ default "unknown exception" (what e))%string).

Lemma supervised_log n cfg outcomes delays e : supervised pings lives cfg n 0 0 outcomes delays e ->
  service_log cfg outcomes (crash_lines what outcomes).
Proof.
  intros [H1 H2 _ _]. split; [exact H1|]. apply crash_lines_lookup.
  intros j Hj. apply H2. destruct e; cbn; lia.
Qed.

(** With a configuration that loads, only a scan can fail. *)
Lemma fails_scan args files scan o cfg : accepts args o -> (forall o', accepts args o' -> o' = o) ->
  LoadEffectiveConfig files o = Ok cfg ->
  ((forall o', ~ accepts args o') \/ exists o', accepts args o' /\
     ((exists e, LoadEffectiveConfig files o' = Throw e) \/
      (scan_only o' = true /\ (scan = Ok [] \/ exists e : exn, scan = Throw e)))) <->
  scan_only o = true /\ (scan = Ok ([] : list string) \/ exists e, scan = Throw e).
Proof.
  intros Hacc Huniq Ec. split; [|intros ?; right; exists o; auto].
  intros [Hno|(o' & Ho & [[e He]|Hscan])]; [by apply Hno in Hacc|apply Huniq in Ho as ->; congruence|].
  by apply Huniq in Ho as ->.
Qed.

(** C40: what the program does.  If [main] returns, it returns 1 exactly when the arguments are not an
    accepted command line, the configuration does not load, or a scan was asked for and fails or
    finds nothing, and 0 otherwise; every device is closed and no capture runs.  A rejected command
    line prints the usage and logs nothing; a configuration that does not load prints nothing and
    logs why.  Otherwise the startup art comes first, if the configuration has it on; then a scan
    lists what it finds, one line each.  Without a scan the log has one line for each attempt that
    failed to come up, in order, with the exception of that attempt, and [main] returns after an
    attempt that came up or after enough attempts for the signal to be seen; or it does not return,
    because the teardown of the attempt after those has not ended. *)
Theorem main_exit_code program args files scan raised n fuel s :
  raised n = true -> (forall j, (j < n)%nat -> raised j = false) -> (n <= fuel)%nat -> released s ->
  match main what program args files scan raised pings lives fuel s with
  | None => exists o cfg j sj, accepts args o /\ LoadEffectiveConfig files o = Ok cfg /\
      released sj /\ life_of pings lives cfg j sj = None
  | Some (Exited rc out log s') =>
    released s' /\ (rc = 0 \/ rc = 1) /\
    (rc = 1 <-> (forall o, ~ accepts args o) \/ exists o, accepts args o /\
       ((exists e, LoadEffectiveConfig files o = Throw e) \/
        (scan_only o = true /\ (scan = Ok [] \/ exists e, scan = Throw e)))) /\
    ((forall o, ~ accepts args o) -> out = PrintUsage program /\ log = []) /\
    (forall o e, accepts args o -> LoadEffectiveConfig files o = Throw e ->
       out = [] /\ log = ["Failed to load runtime config" +:+ ": " +:+ default "unknown exception" (what e)]%string) /\
    (forall o cfg, accepts args o -> LoadEffectiveConfig files o = Ok cfg ->
       exists listing, out = ((if show_startup_art cfg then PrintStartupArt else []) ++ listing)%list /\
       (scan_only o = true -> listing = match scan with Ok ds => (ListInterfaces ds).2 | Throw _ => [] end /\
          log = match scan with
                | Ok _ => []
                | Throw e => ["Interface scan failed" +:+ ": " +:+ default "unknown exception" (what e)]%string
                end) /\
       (scan_only o = false -> listing = [] /\ exists outcomes, service_log cfg outcomes log /\
          (list.last outcomes = Some (Ok tt) \/ (n <= length outcomes * (3 + Z.to_nat (restart_delay cfg)))%nat)))
  | Some (Hanging out log sv) =>
    exists o cfg outcomes, accepts args o /\ LoadEffectiveConfig files o = Ok cfg /\ scan_only o = false /\
      out = (if show_startup_art cfg then PrintStartupArt else []) /\ service_log cfg outcomes log /\
      (Ok tt ∉ outcomes) /\ attempt_stuck pings lives cfg (length outcomes) sv
  end.
Proof.
  intros Hn Hlt Hf Hr. pose proof (signal_stops raised n Hn Hlt) as Hs. unfold main.
  destruct (ParseArguments args default_options) as [ok o] eqn:Ep.
  destruct (accepts_unique args ok o Ep) as [Huniq Hacc].
  destruct ok; [specialize (Hacc eq_refl)|].
  2: { assert (Hno : forall o', ~ accepts args o') by (intros o' [? _]%Huniq; done).
    split_and!; [done|by right|split; [by intros _; left|done]|done|by intros o' e' ?%Hno|by intros o' cfg ?%Hno]. }
  assert (Hrej : ~ forall o', ~ accepts args o') by (intros Hno; by apply (Hno o)).
  destruct (LoadEffectiveConfig files o) as [cfg|e] eqn:Ec.
  2: { split_and!; [done|by right| |done| |].
    - split; [|done]. intros _. right. exists o. eauto.
    - intros o' e' [_ ->]%Huniq Ee. rewrite Ec in Ee. by injection Ee as <-.
    - intros o' cfg [_ ->]%Huniq Ee. by rewrite Ec in Ee. }
  assert (Hload : forall o' e', accepts args o' -> LoadEffectiveConfig files o' <> Throw e')
    by (intros o' e' [_ ->]%Huniq; by rewrite Ec).
  assert (Hcfg : forall (Q : CliOptions -> RuntimeConfig -> Prop), Q o cfg ->
    forall o' cfg', accepts args o' -> LoadEffectiveConfig files o' = Ok cfg' -> Q o' cfg')
    by (intros Q HQ o' cfg' [_ ->]%Huniq E; rewrite Ec in E; by injection E as <-).
  pose proof (fails_scan args files scan o cfg Hacc (fun o' Ho => proj2 (Huniq o' Ho)) Ec) as Hone.
  destruct (scan_only o) eqn:Eo.
  - destruct scan as [ds|e] eqn:Escan.
    + destruct (ListInterfaces ds) as [rc listing] eqn:El. rewrite Hone. split_and!; [done| | |done|by intros ? ? ? ?%Hload|].
      * destruct ds; injection El as <- <-; auto.
      * destruct ds; injection El as <- <-; (split; [auto; done|]); [done|]. by intros [_ [?|[? ?]]].
      * apply Hcfg. exists listing. rewrite Eo. split_and!; done.
    + rewrite Hone. split_and!; [done|by right|split; [by eauto|done]|done|by intros ? ? ? ?%Hload|].
      apply Hcfg. exists []. rewrite Eo. split_and!; [by rewrite app_nil_r|done|done].
  - pose proof (service_loop_spec (StopRequested raised) pings lives cfg n Hs fuel 0 0 s ltac:(lia) Hr) as Hsup.
    destruct (service_loop (StopRequested raised) pings lives cfg fuel 0 0 s) as [[[outcomes delays] e]|]; cbn [mbind option_bind].
    2: { destruct Hsup as (j & sj & Hsj & Hl). by exists o, cfg, j, sj. }
    pose proof (supervised_log n cfg outcomes delays e Hsup) as Hlog. pose proof (sup_end _ _ _ _ _ _ _ _ _ Hsup) as Hend.
    destruct e as [s'|sv]; [destruct Hend as [Hs' Hend]; rewrite Hone|].
    + split_and!; [done|by left|split; [done|by intros [? _]]|done|by intros ? ? ? ?%Hload|].
      apply Hcfg. exists []. rewrite Eo. split_and!; [by rewrite app_nil_r|done|]. intros _. split; [done|]. by exists outcomes.
    + exists o, cfg, outcomes. split_and!; try done. intros [j Hj]%list_elem_of_lookup_1.
      apply (sup_failed _ _ _ _ _ _ _ _ _ Hsup j); [|done]. apply lookup_lt_Some in Hj. cbn. lia.
Qed.

End Program.

(** ** Instances *)
Lemma stop_from_stops n : stops_at (stop_from n) n.
Proof. intros k. unfold stop_from. by rewrite bool_decide_eq_true. Qed.

(** Recording to a store whose first PING times out: the second attempt comes
    up, and the stop comes during it. *)
Definition sample_pings (i : nat) : ping := match i with O => ping_timeout | _ => ping_reply "PONG" end.

Definition recording_config : RuntimeConfig :=
  mk_config (mk_capture ["eth0"%string] true false) (routing default_config)
    (redis default_config) (supervisor default_config) false.

(** A service of one receiver that captures nothing and is stopped at once. *)
Definition quiet_life (i : nat) : life := match i with O => mk_life [] [] [] | _ => mk_life [StopNext] [] [] end.

(** One whose second attempt fills the store, of a Redis that does not answer. *)
Definition stuck_life (i : nat) : life := match i with O => mk_life [] [] [] | _ => third_packet end.

Definition loop_of (lives : nat -> life) (cfg : RuntimeConfig) :=
  @service_loop sim_pcap sample_parse (stop_from 20) sample_pings lives cfg 20 0 0 idle_host.

Definition loop_outcomes (lives : nat -> life) (cfg : RuntimeConfig) : option (list (result unit) * bool) :=
  match loop_of lives cfg with
  | Some (outcomes, _, Ended _) => Some (outcomes, true)
  | Some (outcomes, _, Unfinished _) => Some (outcomes, false)
  | None => None
  end.

Definition first_crash : result unit := Throw (runtime_error "RedisPacketStore timed out connecting to 127.0.0.1:6379").

Example loop_ends : loop_outcomes quiet_life recording_config = Some ([first_crash; Ok tt], true).
Proof. vm_compute. reflexivity. Qed.

(** The stop comes, and the loop does not end. *)
Example loop_hangs :
  loop_outcomes stuck_life (mk_config (capture routed_config) (routing routed_config) two_slots (supervisor default_config) false) =
  Some ([first_crash], false).
Proof. vm_compute. reflexivity. Qed.

Lemma service_loop_supervises_witness :
  exists delays s, loop_of quiet_life recording_config = Some ([first_crash; Ok tt], delays, Ended s) /\ released s.
Proof.
  pose proof (@service_loop_supervises (stop_from 20) sim_pcap sim_pcap_ok sample_parse sample_pings quiet_life recording_config
    20 20 idle_host (stop_from_stops 20) (le_n _) idle_host_released) as H.
  pose proof loop_ends as Ho. unfold loop_outcomes, loop_of in *.
  destruct (service_loop _ _ _ _ _ _ _ _) as [[[outcomes delays] [s|sv]]|]; [|discriminate Ho..].
  injection Ho as ->. destruct H as (_ & _ & Hs & _). by exists delays, s.
Defined.

(** The signal comes before the thirtieth look at the flag. *)
Definition signal_at (n k : nat) : bool := (k =? n)%nat.

Definition sample_what (e : exn) : option string :=
  match e with runtime_error w | invalid_argument w | logic_error w | system_error _ w => Some w | other_exception => None end.

Definition sample_main (args : list string) : option program_end :=
  @main sample_json sim_pcap sample_parse sample_what "es" args Some (Ok []) (signal_at 30) sample_pings quiet_life 30 idle_host.

Definition crash_log : list string :=
  ["Capture service crashed: RedisPacketStore timed out connecting to 127.0.0.1:6379"%string].

Example first_attempt_crashes :
  match sample_main ["-r"; "-c"; "shipped"]%string with
  | Some (Exited rc out log _) => Some (rc, out, log)
  | _ => None
  end = Some (0, PrintStartupArt, crash_log).
Proof. vm_compute. reflexivity. Qed.

Lemma main_exit_code_witness :
  exists s, sample_main ["-r"; "-c"; "shipped"]%string = Some (Exited 0 PrintStartupArt crash_log s) /\ released s.
Proof.
  pose proof (@main_exit_code sample_json sim_pcap sim_pcap_ok sample_parse sample_what sample_pings quiet_life "es"
    ["-r"; "-c"; "shipped"]%string Some (Ok []) (signal_at 30) 30 30 idle_host eq_refl
    ltac:(intros j Hj; unfold signal_at; apply Nat.eqb_neq; lia) (le_n _) idle_host_released) as H.
  pose proof first_attempt_crashes as E. unfold sample_main in *.
  destruct (main _ _ _ _ _ _ _ _ _ _) as [[rc out log s|out log sv]|]; [|discriminate E..].
  injection E as -> -> ->. exists s. split; [reflexivity|exact (proj1 H)].
Defined.

(** A restart delay of 2^63 milliseconds or more is negative once converted:
    the supervisor then restarts without any delay. *)
Example huge_delay_is_no_delay :
  SleepWithStopCheck (fun _ => false) (milliseconds (2 ^ 63)) (milliseconds 200) 0 = Some ([], 0%nat).
Proof. reflexivity. Qed.
