(* ===== verification/ThreadPool.v ===== *)
(** * The thread pool ([inc/ThreadPool.hpp], [src/ThreadPool.cpp])

    Workers loop over a deque of jobs guarded by a mutex and a condition
    variable; [Post] adds a job, the destructor asks the workers to stop and
    joins them.  A worker's position is its [pc]; an event is one atomic action
    of one thread, and [step] its effect, [None] while the thread is blocked.
    A condition variable may also wake a thread without a notification; the
    event [Wakes] is such a spurious wake-up. *)
From S2P Require Import Prelude.

Section Pool.
Context {job : Type}.

(** Where a worker is in [Run()]. *)
Inductive pc :=
  | Testing              (* [while (m_is_active)] *)
  | Locking              (* [std::unique_lock lock(guard)] *)
  | Predicate            (* holds the lock, evaluates the predicate of [wait] *)
  | Blocking             (* holds the lock, the predicate was false *)
  | Waiting              (* blocked in [m_cv.wait] *)
  | Woken                (* notified, needs the lock again *)
  | Taking               (* holds the lock, [wait] has returned *)
  | Working (j : job)    (* [job()] *)
  | Exited.

Inductive destructor := Alive | Stopped | Notified | Joined.

Record ThreadPool := mk_pool {
  m_is_active : bool;
  m_pool : list pc;
  guard : option nat;
  m_pending_jobs : list job;
  dtor : destructor;
  posted : list job;
  taken : list job;
  finished : list job;
}.

(** The pool the constructor makes.  Its workers run before it has returned;
    until then nothing can be posted. *)
Definition new_pool (num_threads : nat) : ThreadPool :=
  mk_pool true (replicate num_threads Testing) None [] Alive [] [] [].

(** How the constructor ends: [spawn i] says whether the thread [i] can be
    started.  If it cannot, [emplace_back] throws and [m_pool] is destroyed;
    destroying a thread that has not been joined terminates the program. *)
Inductive construction :=
  | Constructed (p : ThreadPool)
  | Thrown (e : exn)
  | Terminated.

(** [resource_unavailable_try_again], what [std::thread] throws. *)
Definition EAGAIN : Z := 11.

Fixpoint start_threads (spawn : nat -> bool) (i more : nat) : construction :=
  match more with
  | O => Constructed (new_pool i)
  | S more =>
    if spawn i then start_threads spawn (S i) more
    else match i with
         | O => Thrown (system_error EAGAIN "Resource temporarily unavailable")
         | S _ => Terminated
         end
  end.

(** [ThreadPool(num_threads)]; a negative number starts no thread. *)
Definition ThreadPool_new (spawn : nat -> bool) (num_threads : Z) : construction :=
  start_threads spawn 0 (Z.to_nat num_threads).

Definition move (t : nat) (p : pc) (g : option nat) (s : ThreadPool) : ThreadPool :=
  mk_pool (m_is_active s) (<[t := p]> (m_pool s)) g (m_pending_jobs s) (dtor s)
    (posted s) (taken s) (finished s).

Definition wait_predicate (s : ThreadPool) : bool :=
  match m_pending_jobs s with [] => negb (m_is_active s) | _ => true end.

(** One step of worker [t] of [Run()]. *)
Definition Run (t : nat) (s : ThreadPool) : option ThreadPool :=
  p ← m_pool s !! t;
  match p with
  | Testing => Some (move t (if m_is_active s then Locking else Exited) (guard s) s)
  | Locking | Woken => match guard s with None => Some (move t Predicate (Some t) s) | Some _ => None end
  | Predicate => Some (move t (if wait_predicate s then Taking else Blocking) (guard s) s)
  | Blocking => Some (move t Waiting None s)
  | Waiting => None
  | Taking =>
    if negb (m_is_active s) then Some (move t Exited None s)
    else
      match m_pending_jobs s with
      | [] => None
      | j :: rest =>
        Some (mk_pool (m_is_active s) (<[t := Working j]> (m_pool s)) None rest (dtor s)
                (posted s) (taken s ++ [j]) (finished s))
      end
  | Working j =>
    Some (mk_pool (m_is_active s) (<[t := Testing]> (m_pool s)) (guard s) (m_pending_jobs s) (dtor s)
            (posted s) (taken s) (finished s ++ [j]))
  | Exited => None
  end.

Definition is_waiting (p : pc) : bool := match p with Waiting => true | _ => false end.

(** [notify_one()]: a waiting thread of the library's choice, if there is one. *)
Definition notify_one (w : option nat) (l : list pc) : option (list pc) :=
  match w with
  | None => if existsb is_waiting l then None else Some l
  | Some t => match l !! t with Some Waiting => Some (<[t := Woken]> l) | _ => None end
  end.

Definition notify_all (l : list pc) : list pc :=
  map (fun p => if is_waiting p then Woken else p) l.

Definition Post (j : job) (w : option nat) (s : ThreadPool) : option ThreadPool :=
  match guard s with
  | Some _ => None
  | None =>
    l ← notify_one w (m_pool s);
    Some (mk_pool (m_is_active s) l None (m_pending_jobs s ++ [j]) (dtor s)
            (posted s ++ [j]) (taken s) (finished s))
  end.

(** A spurious wake-up. *)
Definition wake (t : nat) (s : ThreadPool) : option ThreadPool :=
  match m_pool s !! t with
  | Some Waiting => Some (move t Woken (guard s) s)
  | _ => None
  end.

Definition is_exited (p : pc) : bool := match p with Exited => true | _ => false end.

(** The steps of the destructor: the flag, the notification, the joins. *)
Definition destroy_step (s : ThreadPool) : option ThreadPool :=
  match dtor s with
  | Alive => Some (mk_pool false (m_pool s) (guard s) (m_pending_jobs s) Stopped (posted s) (taken s) (finished s))
  | Stopped => Some (mk_pool (m_is_active s) (notify_all (m_pool s)) (guard s) (m_pending_jobs s) Notified
                       (posted s) (taken s) (finished s))
  | Notified =>
    if forallb is_exited (m_pool s) then
      Some (mk_pool (m_is_active s) (m_pool s) (guard s) (m_pending_jobs s) Joined (posted s) (taken s) (finished s))
    else None
  | Joined => None
  end.

Inductive event :=
  | Worker (t : nat)
  | Posting (j : job) (w : option nat)
  | Destroying
  | Wakes (t : nat).

Definition step (s : ThreadPool) (e : event) : option ThreadPool :=
  match e with
  | Worker t => Run t s
  | Posting j w => match dtor s with Alive => Post j w s | _ => None end
  | Destroying => destroy_step s
  | Wakes t => wake t s
  end.

Definition notified (e : event) : Prop := match e with Wakes _ => False | _ => True end.

Fixpoint run (es : list event) (s : ThreadPool) : option ThreadPool :=
  match es with
  | [] => Some s
  | e :: es => s' ← step s e; run es s'
  end.

End Pool.

(** The constructor starts all threads, throws when it can start none, and
    terminates the program when only some can be started. *)
Lemma start_threads_spec {job} spawn more : forall i,
  @start_threads job spawn i more =
  match list_find (fun j => spawn j = false) (seq i more) with
  | None => Constructed (new_pool (i + more))
  | Some (_, O) => Thrown (system_error EAGAIN "Resource temporarily unavailable")
  | Some (_, S _) => Terminated
  end.
Proof.
  induction more as [|more IH]; intros i; cbn [start_threads seq list_find]; [by rewrite Nat.add_0_r|].
  destruct (spawn i) eqn:E.
  - rewrite decide_False by congruence. rewrite IH, Nat.add_succ_comm.
    by destruct (list_find _ (seq (S i) more)) as [[k [|j]]|].
  - rewrite decide_True by done. by destruct i.
Qed.

(** ** The invariant *)
Section Facts.
Context {job : Type}.
Implicit Types (s : @ThreadPool job) (l : list (@pc job)).

Definition holds (p : @pc job) : bool := match p with Predicate | Blocking | Taking => true | _ => false end.

(** A worker that will look at the deque again without being notified. *)
Definition alert (p : @pc job) : bool := match p with Blocking | Waiting | Exited => false | _ => true end.

Definition working (p : @pc job) : option job := match p with Working j => Some j | _ => None end.

Definition owned (g : option nat) l : Prop :=
  forall t, g = Some t <-> exists p, l !! t = Some p /\ holds p = true.

Definition local_ok s (p : @pc job) : Prop :=
  match p with
  | Taking => m_pending_jobs s <> [] \/ m_is_active s = false
  | Blocking => m_pending_jobs s = []
  | Exited => m_is_active s = false
  | _ => True
  end.

#[export] Instance destructor_eq_dec : EqDecision destructor.
Proof. solve_decision. Defined.

Record pool_inv s : Prop := {
  inv_owned : owned (guard s) (m_pool s);
  inv_local t p : m_pool s !! t = Some p -> local_ok s p;
  inv_fifo : posted s = taken s ++ m_pending_jobs s;
  inv_jobs : taken s ≡ₚ finished s ++ omap working (m_pool s);
  inv_alert : m_is_active s = true -> m_pending_jobs s <> [] -> m_pool s <> [] ->
    exists t p, m_pool s !! t = Some p /\ alert p = true;
  inv_dtor : m_is_active s = bool_decide (dtor s = Alive);
}.

Lemma omap_insert l t p p' : l !! t = Some p ->
  omap working (<[t := p']> l) ++ option_list (working p) ≡ₚ option_list (working p') ++ omap working l.
Proof.
  revert t. induction l as [|q l IH]; intros [|t] Ht; simplify_eq/=.
  - destruct (working p') as [j'|], (working p) as [j|]; simpl; rewrite ?app_nil_r; try done.
    + by rewrite <- Permutation_cons_append.
    + by rewrite <- Permutation_cons_append.
  - specialize (IH t Ht). destruct (working q) as [j|]; [|done].
    simpl. rewrite IH. by rewrite Permutation_middle.
Qed.

Lemma owned_insert g g' l t p p' : owned g l -> l !! t = Some p ->
  (holds p = false -> holds p' = true -> g = None) ->
  g' = (if holds p' then Some t else if holds p then None else g) ->
  owned g' (<[t := p']> l).
Proof.
  intros Ho Ht Hacq -> u.
  assert (Hlt : (t < length l)%nat) by (by eapply lookup_lt_Some).
  assert (Hu : u <> t -> (exists q, <[t := p']> l !! u = Some q /\ holds q = true) <-> g = Some u).
  { intros Hne. by rewrite list_lookup_insert_ne, (Ho u). }
  destruct (decide (u = t)) as [->|Hne].
  - rewrite list_lookup_insert_eq by done. destruct (holds p') eqn:E'.
    + split; [by exists p'|done].
    + split; [|intros (q & [= <-] & ?); congruence]. destruct (holds p) eqn:E; [done|].
      intros (q & Hq & ?)%Ho. congruence.
  - rewrite Hu by done. destruct (holds p') eqn:E'.
    + split; [congruence|]. intros Hg. destruct (holds p) eqn:E; [|by rewrite Hacq in Hg].
      assert (g = Some t) by (apply Ho; by exists p). congruence.
    + destruct (holds p) eqn:E; [|done]. split; [done|]. intros Hg.
      assert (g = Some t) by (apply Ho; by exists p). congruence.
Qed.

Lemma owned_same g l l' : owned g l ->
  (forall t, (exists p, l' !! t = Some p /\ holds p = true) <-> exists p, l !! t = Some p /\ holds p = true) ->
  owned g l'.
Proof. intros Ho H t. by rewrite H. Qed.

(** Two workers never hold the lock at once. *)
Lemma owned_unique s t u p q : owned (guard s) (m_pool s) ->
  m_pool s !! t = Some p -> m_pool s !! u = Some q -> holds p = true -> holds q = true -> t = u.
Proof.
  intros Ho Ht Hu Hp Hq. assert (guard s = Some t) by (apply Ho; by exists p).
  assert (guard s = Some u) by (apply Ho; by exists q). congruence.
Qed.

Lemma local_free s p : holds p = false -> (p = Exited -> m_is_active s = false) -> local_ok s p.
Proof. destruct p; simpl; auto; done. Qed.

(** A worker's move that leaves the jobs alone. *)
Lemma move_inv s t p p' g : pool_inv s -> m_pool s !! t = Some p ->
  (holds p = false -> holds p' = true -> guard s = None) ->
  g = (if holds p' then Some t else if holds p then None else guard s) ->
  local_ok s p' -> working p = working p' ->
  (alert p' = false -> m_is_active s = true -> m_pending_jobs s = []) ->
  pool_inv (move t p' g s).
Proof.
  intros [H1 H2 H3 H4 H5 H6] Ht Hacq Hg Hl Hw Ha.
  assert (Hlt : (t < length (m_pool s))%nat) by (by eapply lookup_lt_Some).
  split; simpl; try done.
  - by eapply owned_insert.
  - intros u q. rewrite list_lookup_insert_Some. intros [(<- & <- & _)|[_ Hq]]; [done|by apply (H2 u)].
  - pose proof (omap_insert (m_pool s) t p p' Ht) as Hp. rewrite Hw in Hp.
    rewrite (Permutation_app_comm _ (option_list _)) in Hp. apply Permutation_app_inv_l in Hp. by rewrite Hp.
  - intros Hact Hj _. exists t, p'. rewrite list_lookup_insert_eq by done. split; [done|].
    destruct (alert p') eqn:E; [done|]. by rewrite Ha in Hj.
Qed.

Lemma Run_inv t s s' : pool_inv s -> Run t s = Some s' -> pool_inv s'.
Proof.
  intros Hs. unfold Run. destruct (m_pool s !! t) as [p|] eqn:Ht; [|done]. cbn [mbind option_bind].
  pose proof (inv_local _ Hs t p Ht) as Hloc.
  destruct p; cbn [local_ok] in Hloc; try done.
  - intros [= <-]. eapply move_inv; try done; destruct (m_is_active s) eqn:E; simpl; try done.
  - destruct (guard s) eqn:Eg; [done|]. intros [= <-]. by eapply move_inv.
  - intros [= <-].
    assert (Hg : guard s = Some t) by (apply (inv_owned _ Hs); by exists Predicate).
    unfold wait_predicate. eapply move_inv; try done;
      destruct (m_pending_jobs s) eqn:Ej, (m_is_active s) eqn:Ea; simpl; try done; auto; rewrite Ej, ?Ea; auto.
  - intros [= <-]. by eapply move_inv.
  - destruct (guard s) eqn:Eg; [done|]. intros [= <-]. by eapply move_inv.
  - destruct (m_is_active s) eqn:Ea; cbn [negb].
    2: { intros [= <-]. eapply move_inv; try done. by rewrite Ea. }
    destruct (m_pending_jobs s) as [|j rest] eqn:Ej; [done|]. intros [= <-].
    assert (Hlt : (t < length (m_pool s))%nat) by (by eapply lookup_lt_Some).
    destruct Hs as [H1 H2 H3 H4 H5 H6]. split; simpl; try done.
    + by eapply owned_insert.
    + intros u q. rewrite list_lookup_insert_Some. intros [(_ & <- & _)|[Hne Hq]]; [done|].
      apply local_free; [|intros ->; specialize (H2 u Exited Hq); simpl in *; congruence].
      destruct (holds q) eqn:Eq; [|done]. by destruct (Hne (owned_unique s t u Taking q H1 Ht Hq eq_refl Eq)).
    + rewrite H3, Ej, <- app_assoc. done.
    + pose proof (omap_insert (m_pool s) t Taking (Working j) Ht) as Hp. simpl in Hp. rewrite app_nil_r in Hp.
      rewrite Hp, H4. by rewrite <- Permutation_cons_append, Permutation_middle.
    + intros _ _ _. exists t, (Working j). by rewrite list_lookup_insert_eq.
    + congruence.
  - intros [= <-]. assert (Hlt : (t < length (m_pool s))%nat) by (by eapply lookup_lt_Some).
    destruct Hs as [H1 H2 H3 H4 H5 H6]. split; simpl; try done.
    + by eapply owned_insert.
    + intros u q. rewrite list_lookup_insert_Some. intros [(_ & <- & _)|[_ Hq]]; [done|by apply (H2 u)].
    + pose proof (omap_insert (m_pool s) t (Working j) Testing Ht) as Hp. simpl in Hp.
      rewrite H4, <- Hp, <- app_assoc. by rewrite <- (Permutation_app_comm _ [j]).
    + intros _ _ _. exists t, Testing. by rewrite list_lookup_insert_eq.
Qed.

Lemma notify_one_lookup w l l' t p : notify_one w l = Some l' -> l' !! t = Some p ->
  l !! t = Some p \/ p = Woken.
Proof.
  unfold notify_one. destruct w as [u|].
  - destruct (l !! u) as [[]|]; try done. intros [= <-].
    rewrite list_lookup_insert_Some. intros [(_ & <- & _)|[_ ?]]; auto.
  - destruct (existsb _ _); [done|]. intros [= <-]. auto.
Qed.

Lemma notify_one_working w l l' : notify_one w l = Some l' -> omap working l' ≡ₚ omap working l.
Proof.
  unfold notify_one. destruct w as [u|].
  - destruct (l !! u) as [[]|] eqn:Eu; try done. intros [= <-].
    pose proof (omap_insert l u Waiting Woken Eu) as Hp. simpl in Hp. by rewrite app_nil_r in Hp.
  - destruct (existsb _ _); [done|]. by intros [= <-].
Qed.

Lemma notify_one_owned g w l l' : owned g l -> notify_one w l = Some l' -> owned g l'.
Proof.
  unfold notify_one. intros Ho. destruct w as [u|].
  - destruct (l !! u) as [[]|] eqn:Eu; try done. intros [= <-]. by eapply owned_insert.
  - destruct (existsb _ _); [done|]. by intros [= <-].
Qed.

(** After a notification some worker is alert, or there is nobody asleep. *)
Lemma notify_one_alert w l l' : notify_one w l = Some l' ->
  (exists t p, l' !! t = Some p /\ alert p = true) \/ (l' = l /\ forall t, l !! t <> Some Waiting).
Proof.
  unfold notify_one. destruct w as [u|].
  - destruct (l !! u) as [[]|] eqn:Eu; try done. intros [= <-]. left. exists u, Woken.
    split; [|done]. apply list_lookup_insert_eq. by eapply lookup_lt_Some.
  - destruct (existsb is_waiting l) eqn:E; [done|]. intros [= <-]. right. split; [done|].
    intros t Ht. assert (Hx : existsb is_waiting l = true); [|congruence].
    apply existsb_exists. exists Waiting. split; [|done]. eapply list_elem_of_In, list_elem_of_lookup_2, Ht.
Qed.

Lemma Post_inv j w s s' : pool_inv s -> m_is_active s = true -> Post j w s = Some s' -> pool_inv s'.
Proof.
  intros [H1 H2 H3 H4 H5 H6] Ha. unfold Post. destruct (guard s) eqn:Eg; [done|].
  destruct (notify_one w (m_pool s)) as [l|] eqn:El; [|done]. cbn [mbind option_bind]. intros [= <-].
  assert (Hfree : forall t p, m_pool s !! t = Some p -> holds p = false).
  { intros t p Ht. destruct (holds p) eqn:E; [|done]. assert (None = Some t); [|done]. apply H1. by exists p. }
  split; simpl; try done.
  - by eapply notify_one_owned.
  - intros t p Hp. destruct (notify_one_lookup _ _ _ _ _ El Hp) as [Ht| ->]; [|done].
    apply local_free; [by apply (Hfree t)|]. intros ->. by apply (H2 t Exited).
  - by rewrite H3, app_assoc.
  - rewrite H4. by rewrite (notify_one_working _ _ _ El).
  - intros _ _ Hne. destruct (notify_one_alert _ _ _ El) as [?|[-> Hno]]; [done|].
    destruct (m_pool s) as [|p l'] eqn:Ep; [done|]. exists 0%nat, p. split; [done|].
    specialize (Hfree 0%nat p eq_refl). specialize (H2 0%nat p eq_refl).
    specialize (Hno 0%nat). destruct p; simpl in *; congruence.
Qed.

Lemma notify_all_lookup l t p : notify_all l !! t = Some p ->
  exists q, l !! t = Some q /\ p = if is_waiting q then Woken else q.
Proof. unfold notify_all. rewrite list_lookup_fmap. intros (q & -> & ->)%fmap_Some. by exists q. Qed.

Lemma destroy_inv s s' : pool_inv s -> destroy_step s = Some s' -> pool_inv s'.
Proof.
  intros [H1 H2 H3 H4 H5 H6]. unfold destroy_step. destruct (dtor s) eqn:Ed; try done.
  - intros [= <-]. split; simpl; try done.
    intros t p Ht. specialize (H2 t p Ht). destruct p; simpl in *; auto.
  - intros [= <-]. split; simpl; try done.
    + eapply owned_same; [done|]. intros t. unfold notify_all. rewrite list_lookup_fmap. split.
      * intros (p & (q & -> & ->)%fmap_Some & Hp). exists q. split; [done|]. by destruct q.
      * intros (p & -> & Hp). exists p. split; [|done]. by destruct p.
    + intros t p (q & Hq & ->)%notify_all_lookup. specialize (H2 t q Hq). by destruct q.
    + rewrite H4. f_equiv. unfold notify_all. clear. induction (m_pool s) as [|[] l IH]; simpl; try done. by f_equiv.
    + intros Ha. rewrite H6 in Ha. by apply bool_decide_eq_true in Ha.
  - destruct (forallb _ _); [|done]. intros [= <-]. split; simpl; try done.
Qed.

Lemma wake_inv t s s' : pool_inv s -> wake t s = Some s' -> pool_inv s'.
Proof.
  intros Hs. unfold wake. destruct (m_pool s !! t) as [[]|] eqn:Ht; try done. intros [= <-].
  by eapply move_inv.
Qed.

Lemma pool_step_inv s e s' : pool_inv s -> step s e = Some s' -> pool_inv s'.
Proof.
  intros Hs. destruct e as [t|j w| |t]; cbn [step]; [by apply Run_inv| |by apply destroy_inv|by apply wake_inv].
  destruct (dtor s) eqn:Ed; try done. apply Post_inv; [done|]. by rewrite (inv_dtor _ Hs), Ed.
Qed.

Lemma pool_run_inv es : forall s s', pool_inv s -> run es s = Some s' -> pool_inv s'.
Proof.
  induction es as [|e es IH]; intros s s' Hs; cbn [run]; [by intros [= <-]|].
  destruct (step s e) as [s1|] eqn:E; [|done]. cbn [mbind option_bind]. by eapply IH, pool_step_inv.
Qed.

Lemma new_pool_inv n : pool_inv (new_pool n).
Proof.
  split; simpl; try done.
  - intros t. split; [done|]. intros (p & [-> _]%lookup_replicate & ?). done.
  - by intros t p [-> _]%lookup_replicate.
  - by induction n.
Qed.

(** A worker that holds the lock can go on; so some worker can go on when
    one is alert. *)
Lemma holder_runs s t p : pool_inv s -> m_pool s !! t = Some p -> holds p = true -> exists s', Run t s = Some s'.
Proof.
  intros Hs Ht Hp. unfold Run. rewrite Ht. cbn [mbind option_bind].
  destruct p; try done; try by eexists.
  pose proof (inv_local _ Hs t Taking Ht) as Hl. simpl in Hl.
  destruct (m_is_active s); simpl; [|by eexists]. destruct (m_pending_jobs s); [|by eexists]. by destruct Hl.
Qed.

Lemma alert_runs s t p : pool_inv s -> m_pool s !! t = Some p -> alert p = true -> exists u s', Run u s = Some s'.
Proof.
  intros Hs Ht Hp. destruct (guard s) as [u|] eqn:Eg.
  - apply (inv_owned _ Hs) in Eg as (q & Hu & Hq). exists u. by eapply holder_runs.
  - destruct (holds p) eqn:Eh; [exists t; by eapply holder_runs|].
    exists t. unfold Run. rewrite Ht, Eg. cbn [mbind option_bind]. destruct p; try done; by eexists.
Qed.

(** C29: the thread pool runs every job once, in order, under every interleaving of its workers, of
    [Post] and of the destructor.  Jobs are taken in the order they were posted, each taken job is
    running on one worker or finished; the lock has one holder; no worker pops an empty deque; and
    while the pool is active and jobs are pending some worker can go on, so no job is forgotten. *)
Theorem ThreadPool_jobs n es s : run es (new_pool n) = Some s ->
  posted s = taken s ++ m_pending_jobs s /\
  taken s ≡ₚ finished s ++ omap working (m_pool s) /\
  (forall t u p q, m_pool s !! t = Some p -> m_pool s !! u = Some q ->
     holds p = true -> holds q = true -> t = u) /\
  (forall t, m_pool s !! t = Some Taking -> Run t s <> None) /\
  (m_is_active s = true -> m_pending_jobs s <> [] -> m_pool s <> [] -> exists t s', Run t s = Some s').
Proof.
  intros Hs%pool_run_inv; [|apply new_pool_inv]. split_and!; [apply Hs|apply Hs| | |].
  - intros t u p q. apply owned_unique, Hs.
  - intros t Ht. destruct (holder_runs _ _ _ Hs Ht eq_refl) as [s' ->]. done.
  - intros Ha Hj Hn. destruct (inv_alert _ Hs Ha Hj Hn) as (t & p & Ht & Hp). by eapply alert_runs.
Qed.

(** ** Shutdown *)

(** A worker asleep, or about to be: its predicate was false. *)
Definition asleep (p : @pc job) : bool := match p with Blocking | Waiting => true | _ => false end.

Definition sleeper s : Prop := exists t p, m_pool s !! t = Some p /\ asleep p = true.

(** Steps a worker still needs to leave [Run] once the pool is stopped. *)
Definition to_exit (p : @pc job) : nat :=
  match p with
  | Exited => 0 | Testing | Taking => 1
  | Predicate | Working _ => 2 | Locking | Woken => 3
  | Waiting => 4 | Blocking => 5
  end.

Definition remaining s : nat :=
  (sum_list_with to_exit (m_pool s) + match dtor s with Joined => 0 | _ => 1 end)%nat.

Lemma sum_insert l t p p' : l !! t = Some p ->
  (sum_list_with to_exit (<[t := p']> l) + to_exit p = sum_list_with to_exit l + to_exit p')%nat.
Proof.
  revert t. induction l as [|q l IH]; intros [|t] Ht; simplify_eq/=; [lia|]. specialize (IH t Ht). lia.
Qed.

(** A move of a worker of a stopped pool. *)
Lemma stopped_move s s' : m_is_active s = false -> forall e, step s e = Some s' -> dtor s = Notified ->
  match e with Worker _ | Wakes _ => True | _ => False end ->
  exists t p p', m_pool s !! t = Some p /\ m_pool s' = <[t := p']> (m_pool s) /\ dtor s' = dtor s /\
    (to_exit p' < to_exit p)%nat /\ (notified e -> asleep p' = asleep p).
Proof.
  intros Ha e Hr Hd He. destruct e as [t|j w| |t]; try done; cbn [step] in Hr; exists t.
  - unfold Run in Hr. destruct (m_pool s !! t) as [p|] eqn:Ht; [|done]. cbn [mbind option_bind] in Hr.
    exists p. unfold wait_predicate in Hr. rewrite Ha in Hr. cbn [negb] in Hr.
    destruct p; simpl in Hr; try done; destruct (guard s) eqn:Eg; simplify_eq/=;
      try (by eexists; split_and!; simpl; [done|done|done|simpl; lia|done]).
    all: destruct (m_pending_jobs s); by eexists; split_and!; simpl; [done|done|done|simpl; lia|done].
  - unfold wake in Hr. destruct (m_pool s !! t) as [[]|] eqn:Ht; try done. injection Hr as <-.
    by eexists _, _; split_and!; simpl; [done|done|done|simpl; lia|].
Qed.

Lemma sleeper_insert s s' t p p' : m_pool s !! t = Some p -> m_pool s' = <[t := p']> (m_pool s) ->
  asleep p' = asleep p -> sleeper s' <-> sleeper s.
Proof.
  intros Ht El Hsl. assert (Hlt : (t < length (m_pool s))%nat) by (by eapply lookup_lt_Some).
  unfold sleeper. rewrite El. split.
  - intros (u & q & Hq & Hqs). apply list_lookup_insert_Some in Hq as [(<- & <- & _)|[_ Hq]].
    + exists t, p. split; [done|congruence].
    + by exists u, q.
  - intros (u & q & Hq & Hqs). destruct (decide (u = t)) as [->|].
    + exists t, p'. rewrite list_lookup_insert_eq by done. split; [done|congruence].
    + exists u, q. by rewrite list_lookup_insert_ne.
Qed.

(** What a step of a stopped pool does: only workers move, each towards its
    exit, nobody falls asleep, and no sleeper wakes without a notification. *)
Lemma stopped_step s e s' : pool_inv s -> dtor s = Notified -> step s e = Some s' ->
  (remaining s' < remaining s)%nat /\ (dtor s' = Notified \/ dtor s' = Joined) /\
  (notified e -> sleeper s' <-> sleeper s).
Proof.
  intros Hs Hd. pose proof (inv_dtor _ Hs) as Ha. rewrite Hd in Ha. change (m_is_active s = false) in Ha.
  assert (Hmove : match e with Worker _ | Wakes _ => True | _ => False end -> step s e = Some s' ->
    (remaining s' < remaining s)%nat /\ (dtor s' = Notified \/ dtor s' = Joined) /\
    (notified e -> sleeper s' <-> sleeper s)).
  { intros He Hr. destruct (stopped_move s s' Ha e Hr Hd He) as (t & p & p' & Ht & El & Edt & Hw & Hsl).
    pose proof (sum_insert _ _ _ p' Ht). unfold remaining. rewrite El, Edt. split_and!; [lia|by left|].
    intros He'. eapply sleeper_insert; eauto. }
  destruct e as [t|j w| |t]; [by apply Hmove|cbn [step]; by rewrite Hd| |by apply Hmove]. clear Hmove.
  cbn [step]. unfold destroy_step. rewrite Hd. destruct (forallb _ _); [|done]. intros [= <-].
  unfold remaining. simpl. rewrite Hd. split_and!; [lia|by right|done].
Qed.

Lemma joined_stays es : forall s s', dtor s = Joined -> run es s = Some s' -> pool_inv s ->
  dtor s' = Joined.
Proof.
  intros s s' Hd Hr Hs. assert (H : forall s e s', dtor s = Joined -> step s e = Some s' -> dtor s' = Joined).
  { clear. intros s e s' Hd. destruct e as [t|j w| |t]; cbn [step]; [|by rewrite Hd|unfold destroy_step; by rewrite Hd|].
    2: { unfold wake. destruct (m_pool s !! t) as [[]|]; try done. by intros [= <-]. }
    unfold Run. destruct (m_pool s !! t) as [p|]; [|done]. cbn [mbind option_bind].
    destruct p; try done; try (by intros [= <-]).
    - destruct (guard s); [done|]. by intros [= <-].
    - destruct (guard s); [done|]. by intros [= <-].
    - destruct (negb _); [by intros [= <-]|]. destruct (m_pending_jobs s); [done|]. by intros [= <-]. }
  clear Hs. revert s Hd Hr. induction es as [|e es IH]; intros s Hd; cbn [run]; [by intros [= <-]|].
  destruct (step s e) as [s1|] eqn:E; [|done]. cbn [mbind option_bind]. apply IH. by eapply H.
Qed.

(** The joins end only when every worker has left. *)
Lemma joined_exited s e s' : dtor s = Notified -> step s e = Some s' -> dtor s' = Joined ->
  forallb is_exited (m_pool s) = true.
Proof.
  intros Hd. destruct e as [t|j w| |t]; cbn [step].
  - unfold Run. destruct (m_pool s !! t) as [p|]; [|done]. cbn [mbind option_bind].
    destruct p; intros; simplify_eq; simpl in *; try congruence; repeat case_match; simplify_eq; simpl in *; congruence.
  - by rewrite Hd.
  - unfold destroy_step. rewrite Hd. by destruct (forallb _ _).
  - unfold wake. destruct (m_pool s !! t) as [[]|]; try done. intros [= <-]. simpl. congruence.
Qed.

Lemma sleeper_not_exited s : sleeper s -> forallb is_exited (m_pool s) = true -> False.
Proof.
  intros (t & p & Ht & Hp) Ef. rewrite forallb_forall in Ef.
  specialize (Ef p ltac:(by eapply list_elem_of_In, list_elem_of_lookup_2)). by destruct p.
Qed.

Lemma sleeper_stuck es : forall s s', pool_inv s -> dtor s = Notified -> sleeper s -> Forall notified es ->
  run es s = Some s' -> dtor s' <> Joined.
Proof.
  induction es as [|e es IH]; intros s s' Hs Hd Hsl Hes; cbn [run]; [intros [= <-]; congruence|].
  apply Forall_cons_1 in Hes as [He Hes].
  destruct (step s e) as [s1|] eqn:E; [|done]. cbn [mbind option_bind].
  destruct (stopped_step _ _ _ Hs Hd E) as (_ & [Hd1|Hd1] & Hsl1).
  - apply IH; [by eapply pool_step_inv|done|by apply Hsl1|done].
  - exfalso. by eapply sleeper_not_exited, joined_exited.
Qed.

(** A stopped pool can always go on until it is joined, and needs no spurious
    wake-up when there is no sleeper. *)
Lemma awake_step s : pool_inv s -> dtor s = Notified ->
  exists e s', step s e = Some s' /\ (~ sleeper s -> notified e).
Proof.
  intros Hs Hd. destruct (forallb is_exited (m_pool s)) eqn:Ef.
  { exists Destroying. cbn [step]. unfold destroy_step. rewrite Hd, Ef. by eexists. }
  assert (Hex : exists t p, m_pool s !! t = Some p /\ is_exited p = false).
  { apply not_true_iff_false in Ef. destruct (decide (Exists (fun p => is_exited p = false) (m_pool s))) as [H|H].
    - apply Exists_exists in H as (p & Hp & ?). apply list_elem_of_In, list_elem_of_lookup in Hp as [t Ht].
      by exists t, p.
    - destruct Ef. apply forallb_forall. intros p Hp. destruct (is_exited p) eqn:E; [done|].
      destruct H. apply Exists_exists. by exists p. }
  destruct Hex as (t & p & Ht & Hp). destruct (alert p) eqn:Hal.
  { destruct (alert_runs _ _ _ Hs Ht Hal) as (u & s' & Hu). by exists (Worker u), s'. }
  assert (Hsl : sleeper s) by (exists t, p; split; [done|by destruct p]).
  destruct p; try done.
  - destruct (holder_runs _ _ _ Hs Ht eq_refl) as [s' E]. exists (Worker t), s'. by split.
  - exists (Wakes t). cbn [step]. unfold wake. rewrite Ht. by eexists.
Qed.

Lemma awake_joins k : forall s, (remaining s <= k)%nat -> pool_inv s -> dtor s = Notified ->
  exists es s', run es s = Some s' /\ dtor s' = Joined /\ (~ sleeper s -> Forall notified es).
Proof.
  induction k as [|k IH]; intros s Hk Hs Hd.
  { unfold remaining in Hk. rewrite Hd in Hk. lia. }
  destruct (awake_step s Hs Hd) as (e & s1 & E & Hn).
  destruct (stopped_step _ _ _ Hs Hd E) as (Hlt & [Hd1|Hd1] & Hsl).
  - destruct (IH s1) as (es & s' & Hr & Hj & Hes); [lia|by eapply pool_step_inv|done|].
    exists (e :: es), s'. cbn [run]. rewrite E. split_and!; [done|done|]. intros Hno.
    constructor; [by apply Hn|]. apply Hes. by rewrite Hsl by (by apply Hn).
  - exists [e], s1. cbn [run]. rewrite E. split_and!; [done|done|]. intros Hno. constructor; [by apply Hn|done].
Qed.

(** C30: when the destructor returns.  Once it has set the flag and notified, the workers make finitely
    many steps, spurious wake-ups included; the joins can finish without a spurious wake-up exactly if
    no worker was, at that moment, asleep or between evaluating its predicate and falling asleep -
    the flag is set and the notification sent without holding the mutex, so such a worker never
    hears of it; and only a spurious wake-up then lets the destructor return. *)
Theorem ThreadPool_joins n es s : run es (new_pool n) = Some s -> dtor s = Notified ->
  ((exists es' s', Forall notified es' /\ run es' s = Some s' /\ dtor s' = Joined) <-> ~ sleeper s) /\
  (exists es' s', run es' s = Some s' /\ dtor s' = Joined) /\
  (forall es' s', run es' s = Some s' -> dtor s' = Notified -> (length es' <= remaining s)%nat).
Proof.
  intros Hs%pool_run_inv Hd; [|apply new_pool_inv]. destruct (awake_joins _ s (le_n _) Hs Hd) as (es1 & s1 & Hr1 & Hj1 & Hn1).
  split_and!; [split| |].
  - intros (es' & s' & Hes & Hr & Hj) Hsl. by destruct (sleeper_stuck es' s s' Hs Hd Hsl Hes Hr).
  - intros Hno. exists es1, s1. auto.
  - by exists es1, s1.
  - clear es1 s1 Hr1 Hj1 Hn1.
    intros es'. revert s Hs Hd. induction es' as [|e es' IH]; intros s Hs Hd s'; cbn [run]; [simpl; lia|].
    destruct (step s e) as [s1|] eqn:E; [|done]. cbn [mbind option_bind]. intros Hr Hn.
    destruct (stopped_step _ _ _ Hs Hd E) as (Hlt & [Hd1|Hd1] & _).
    + pose proof (pool_step_inv _ _ _ Hs E) as Hs1. specialize (IH s1 Hs1 Hd1 s' Hr Hn). simpl. lia.
    + rewrite (joined_stays es' s1 s' Hd1 Hr (pool_step_inv _ _ _ Hs E)) in Hn. done.
Qed.

End Facts.

(** ** Concrete runs *)

(** One worker takes one job and leaves after the destructor asks it to. *)
Definition clean_events : list (@event nat) :=
  [Posting 7 None; Worker 0; Worker 0; Worker 0; Worker 0; Worker 0; Destroying; Destroying]%nat.

Definition clean_pool : @ThreadPool nat := default (new_pool 1) (run clean_events (new_pool 1)).

Lemma ThreadPool_jobs_witness : posted clean_pool = taken clean_pool ++ m_pending_jobs clean_pool.
Proof. refine (proj1 (ThreadPool_jobs 1 clean_events clean_pool _)). reflexivity. Defined.

(** The lost wake-up: a worker finds no job, the destructor sets the flag and
    notifies, and only then the worker goes to sleep. *)
Definition hang_events : list (@event nat) := [Worker 0; Worker 0; Worker 0; Destroying; Destroying; Worker 0]%nat.

Definition hang_pool : @ThreadPool nat := default (new_pool 1) (run hang_events (new_pool 1)).

Example hang_pool_sleeps : m_pool hang_pool = [Waiting] /\ dtor hang_pool = Notified.
Proof. done. Qed.

Lemma ThreadPool_joins_witness :
  (exists es s, Forall notified es /\ run es clean_pool = Some s /\ dtor s = Joined) /\
  (~ exists es s, Forall notified es /\ run es hang_pool = Some s /\ dtor s = Joined) /\
  exists es s, run es hang_pool = Some s /\ dtor s = Joined.
Proof.
  split_and!.
  - refine (proj2 (proj1 (ThreadPool_joins 1 clean_events clean_pool _ _)) _); try reflexivity.
    intros (t & p & Ht & Hp). destruct t; [|done]. injection Ht as <-. done.
  - intros H. refine (proj1 (proj1 (ThreadPool_joins 1 hang_events hang_pool _ _)) H _); try reflexivity.
    exists 0%nat, Waiting. by split.
  - refine (proj1 (proj2 (ThreadPool_joins 1 hang_events hang_pool _ _))); reflexivity.
Defined.

(** Starting the second of two threads fails: the first has not been joined. *)
Example second_thread_fails : @ThreadPool_new nat (fun i => (i =? 0)%nat) 2 = Terminated.
Proof. reflexivity. Qed.
