(* ===== verification/Executor.v ===== *)
(** * Posting work with futures ([inc/Executor.hpp], on [src/ThreadPool.cpp])

    [post] wraps a function in a [std::packaged_task<void()>] and hands it to an
    executor; with [use_future] it returns the future of the result.  The
    futures' shared states of the standard library are a heap of cells; a cell
    is settled once.  [exec_step] runs the front end together with the pool: a
    worker at [job()] invokes the task it has taken, and the pool's destructor
    destroys the tasks that were never taken.

    [Executor.hpp] calls the executor's [post]; the method of [ThreadPool] is
    [Post], and it is what the instance below supplies. *)
From S2P Require Import Prelude ThreadPool.

Section Front.
Context {V : Type}.

(** ** Shared states and tasks *)

(** [Returned None] is the completion of a [void] function. *)
Inductive shared :=
  | Unsettled
  | Returned (v : option V)
  | Raised (e : exn)
  | Broken_promise.

Abbreviation heap := (list shared).

(** What a task calls: the function itself, or the [forwarder_t] of the
    function with its promise.  A function is what it does: return or throw. *)
Inductive callable :=
  | Void (r : result unit)
  | Forward (promise : nat) (r : result V).

(** A [std::packaged_task<void()>]: its callable and its own shared state. *)
Record task := mk_task {
  call : callable;
  own : nat;
}.

Definition settled {A} (v : A -> option V) (r : result A) : shared :=
  match r with Ok a => Returned (v a) | Throw e => Raised e end.

(** Settling a shared state; a second time throws [std::future_error], and
    here every such throw meets a [noexcept]. *)
Definition set_state (p : nat) (v : shared) (h : heap) : option heap :=
  match h !! p with Some Unsettled => Some (<[p := v]> h) | _ => None end.

(** [job()].  [None] is [std::terminate]: [forwarder_t::operator()] and
    [ThreadPool::Run] are [noexcept]. *)
Definition invoke (j : task) (h : heap) : option heap :=
  match call j with
  | Void r => set_state (own j) (settled (fun _ => None) r) h
  | Forward p (Ok v) => h ← set_state p (Returned (Some v)) h; set_state (own j) (Returned None) h
  | Forward _ (Throw _) => None
  end.

(** The destructor of a promise or task that was never settled. *)
Definition abandon_state (p : nat) (h : heap) : heap :=
  match h !! p with Some Unsettled => <[p := Broken_promise]> h | _ => h end.

Definition cells (j : task) : list nat :=
  match call j with Void _ => [own j] | Forward p _ => [p; own j] end.

Definition abandon (j : task) (h : heap) : heap := foldr abandon_state h (cells j).

(** ** [post] *)

(** The three instantiations of [post]. *)
Inductive request :=
  | post_void (r : result unit)
  | post_future_void (r : result unit)
  | post_future_value (r : result V).

(** The task of a request, the shared states it allocates, and the future the
    caller gets. *)
Definition package (q : request) (h : heap) : task * heap * option nat :=
  match q with
  | post_void r => (mk_task (Void r) (length h), h ++ [Unsettled], None)
  | post_future_void r => (mk_task (Void r) (length h), h ++ [Unsettled], Some (length h))
  | post_future_value r =>
    (mk_task (Forward (length h) r) (S (length h)), h ++ [Unsettled; Unsettled], Some (length h))
  end.

(** What [post] needs of its template parameter. *)
Class Executor (E : Type) := exec_post : task -> E -> option E.

Definition post `{Executor E} (q : request) (x : E * heap) : option (E * heap * option nat) :=
  let '(j, h, fut) := package q x.2 in
  e ← exec_post j x.1;
  Some (e, h, fut).

(** [w] is the worker that [notify_one] picks. *)
Definition pool_executor (w : option nat) : Executor (@ThreadPool task) := fun j s => ThreadPool.step s (Posting j w).

(** ** Front end and pool together *)
Record executor := mk_executor {
  pool : @ThreadPool task;
  states : heap;
  terminated : bool;
}.

Inductive exec_event :=
  | Request (q : request) (w : option nat)
  | Work (t : nat)
  | Destroy
  | Stir (t : nat).        (* a spurious wake-up *)

Definition exec_step (s : executor) (e : exec_event) : option executor :=
  if terminated s then None
  else match e with
  | Request q w =>
    '(p, h, _) ← @post _ (pool_executor w) q (pool s, states s);
    Some (mk_executor p h false)
  | Work t =>
    p ← ThreadPool.step (pool s) (Worker t);
    match m_pool (pool s) !! t with
    | Some (Working j) =>
      Some (match invoke j (states s) with
            | Some h => mk_executor p h false
            | None => mk_executor (pool s) (states s) true
            end)
    | _ => Some (mk_executor p (states s) false)
    end
  | Destroy =>
    p ← ThreadPool.step (pool s) Destroying;
    Some (mk_executor p
      (match dtor p with Joined => foldr abandon (states s) (m_pending_jobs p) | _ => states s end) false)
  | Stir t =>
    p ← ThreadPool.step (pool s) (Wakes t);
    Some (mk_executor p (states s) false)
  end.

Definition exec_run (es : list exec_event) (s : executor) : option executor :=
  foldl (fun o e => o ≫= fun s => exec_step s e) (Some s) es.

Definition new_executor (num_threads : nat) : executor := mk_executor (new_pool num_threads) [] false.

(** The state a future of task [j] refers to, and what it should come to hold. *)
Definition future_of (j : task) : nat := match call j with Void _ => own j | Forward p _ => p end.

Definition outcome (j : task) : shared :=
  match call j with
  | Void r => settled (fun _ => None) r
  | Forward _ r => settled Some r
  end.

Definition value_throws (j : task) : bool := match call j with Forward _ (Throw _) => true | _ => false end.

(** ** Facts *)
Lemma future_in_cells j : future_of j ∈ cells j.
Proof. unfold future_of, cells. destruct (call j); set_solver. Qed.

Lemma set_state_spec p v h : h !! p = Some Unsettled -> set_state p v h = Some (<[p := v]> h).
Proof. unfold set_state. by intros ->. Qed.

(** The cells of a task before it runs. *)
Definition fresh_cells (h : heap) (j : task) : Prop := NoDup (cells j) /\ Forall (fun p => h !! p = Some Unsettled) (cells j).

Lemma invoke_spec j h : fresh_cells h j ->
  match invoke j h with
  | Some h' => value_throws j = false /\ h' !! future_of j = Some (outcome j) /\
      length h' = length h /\ (forall p, p ∉ cells j -> h' !! p = h !! p)
  | None => value_throws j = true
  end.
Proof.
  intros [Hn Hu]. unfold invoke, value_throws, future_of, outcome, cells in *.
  destruct (call j) as [r|p [v|e]]; [| |done].
  - apply Forall_cons_1 in Hu as [Hu _]. rewrite set_state_spec by done. split_and!; try done.
    + by apply list_lookup_insert_eq, lookup_lt_Some in Hu || (apply list_lookup_insert_eq; by eapply lookup_lt_Some).
    + apply length_insert.
    + intros p Hp. apply list_lookup_insert_ne. set_solver.
  - apply Forall_cons_1 in Hu as [Hp Ho]. apply Forall_cons_1 in Ho as [Ho _].
    assert (Hne : p <> own j) by (apply list.NoDup_cons in Hn as [Hn _]; set_solver).
    rewrite set_state_spec by done. cbn [mbind option_bind].
    rewrite set_state_spec by (by rewrite list_lookup_insert_ne). split_and!; try done.
    + rewrite list_lookup_insert_ne by done. apply list_lookup_insert_eq. by eapply lookup_lt_Some.
    + by rewrite !length_insert.
    + intros q Hq. rewrite !list_lookup_insert_ne by set_solver. done.
Qed.

Lemma abandon_state_eq p h : h !! p = Some Unsettled -> abandon_state p h !! p = Some Broken_promise.
Proof. intros E. unfold abandon_state. rewrite E. apply list_lookup_insert_eq. by eapply lookup_lt_Some. Qed.

Lemma abandon_state_other p q h : p <> q \/ h !! q <> Some Unsettled -> abandon_state p h !! q = h !! q.
Proof.
  intros Hne. unfold abandon_state. destruct (h !! p) as [[]|] eqn:E; try done.
  apply list_lookup_insert_ne. by destruct Hne; congruence.
Qed.

(** Abandoning cells breaks those of them that were not settled. *)
Lemma abandon_states_other ps q h : q ∉ ps \/ h !! q <> Some Unsettled -> foldr abandon_state h ps !! q = h !! q.
Proof.
  intros Hq. induction ps as [|p ps IH]; cbn [foldr]; [done|].
  assert (E : foldr abandon_state h ps !! q = h !! q) by (apply IH; set_solver).
  rewrite abandon_state_other; [done|]. rewrite E. set_solver.
Qed.

Lemma abandon_states_eq ps q h : q ∈ ps -> h !! q = Some Unsettled -> foldr abandon_state h ps !! q = Some Broken_promise.
Proof.
  intros Hq Hu. induction ps as [|p ps IH]; [by apply not_elem_of_nil in Hq|]. cbn [foldr].
  destruct (decide (q ∈ ps)) as [Hin|Hin].
  - rewrite abandon_state_other; [by apply IH|]. right. by rewrite IH.
  - apply elem_of_cons in Hq as [->|?]; [|done]. apply abandon_state_eq. by rewrite abandon_states_other by auto.
Qed.

Lemma abandon_all h js : foldr abandon h js = foldr abandon_state h (js ≫= cells).
Proof. induction js as [|j js IH]; [done|]. cbn [foldr mbind list_bind]. by rewrite foldr_app, <- IH. Qed.

(** ** The pool's side *)
Implicit Types (p : @ThreadPool task).

Definition unfinished p : list task := omap working (m_pool p) ++ m_pending_jobs p.

Lemma posted_split p : pool_inv p -> posted p ≡ₚ finished p ++ unfinished p.
Proof. intros Hi. rewrite (inv_fifo _ Hi), (inv_jobs _ Hi). unfold unfinished. by rewrite <- app_assoc. Qed.

(** The job a step of worker [t] runs. *)
Definition run_by (t : nat) p : list task := match m_pool p !! t with Some (Working j) => [j] | _ => [] end.

Lemma worker_effect t p p' : ThreadPool.step p (Worker t) = Some p' ->
  posted p' = posted p /\ finished p' = finished p ++ run_by t p /\ dtor p' = dtor p.
Proof.
  cbn [ThreadPool.step]. unfold Run, run_by. destruct (m_pool p !! t) as [q|]; [|done]. cbn [mbind option_bind].
  destruct q; repeat case_match; intros ?; simplify_eq/=; rewrite ?app_nil_r; done.
Qed.

Lemma posting_effect j w p p' : ThreadPool.step p (Posting j w) = Some p' ->
  dtor p = Alive /\ posted p' = posted p ++ [j] /\ finished p' = finished p /\ dtor p' = Alive.
Proof.
  cbn [ThreadPool.step]. destruct (dtor p) eqn:E; try done. unfold Post. destruct (guard p); [done|].
  destruct (notify_one _ _); [|done]. cbn [mbind option_bind]. by intros [= <-].
Qed.

Lemma destroying_effect p p' : ThreadPool.step p Destroying = Some p' ->
  posted p' = posted p /\ finished p' = finished p /\ dtor p <> Joined /\
  (dtor p' = Joined -> forallb is_exited (m_pool p') = true).
Proof.
  cbn [ThreadPool.step]. unfold destroy_step. destruct (dtor p); repeat case_match; intros ?; simplify_eq/=; done.
Qed.

Lemma exited_working l : forallb is_exited l = true -> omap (working (job := task)) l = [].
Proof. induction l as [|[] l IH]; cbn; try done. Qed.

Lemma exited_stops t p : forallb is_exited (m_pool p) = true -> ThreadPool.step p (Worker t) = None.
Proof.
  intros Hf. cbn. unfold Run. destruct (m_pool p !! t) as [q|] eqn:E; [|done]. cbn [mbind option_bind].
  rewrite forallb_forall in Hf. specialize (Hf q ltac:(by eapply list_elem_of_In, list_elem_of_lookup_2)). by destruct q.
Qed.

Lemma wakes_effect t p p' : ThreadPool.step p (Wakes t) = Some p' ->
  posted p' = posted p /\ finished p' = finished p /\ dtor p' = dtor p /\ forallb is_exited (m_pool p) = false.
Proof.
  cbn. unfold wake. destruct (m_pool p !! t) as [q|] eqn:E; [|done]. destruct q; try done. intros [= <-].
  split_and!; try done. apply not_true_iff_false. rewrite forallb_forall. intros Hf.
  by specialize (Hf Waiting ltac:(by eapply list_elem_of_In, list_elem_of_lookup_2)).
Qed.

(** ** The invariant of front end and pool *)
Record exec_inv (s : executor) : Prop := {
  xi_pool : pool_inv (pool s);
  xi_cells : NoDup (posted (pool s) ≫= cells);
  xi_bound : Forall (fun c => (c < length (states s))%nat) (posted (pool s) ≫= cells);
  xi_done j : j ∈ finished (pool s) -> states s !! future_of j = Some (outcome j);
  xi_todo j : dtor (pool s) <> Joined -> j ∈ unfinished (pool s) ->
    Forall (fun c => states s !! c = Some Unsettled) (cells j);
  xi_joined : dtor (pool s) = Joined -> forallb is_exited (m_pool (pool s)) = true;
  xi_broken j : dtor (pool s) = Joined -> j ∈ unfinished (pool s) -> states s !! future_of j = Some Broken_promise;
}.

Lemma new_executor_inv n : exec_inv (new_executor n).
Proof.
  constructor; cbn; try done; try constructor; try by intros j ?%not_elem_of_nil.
  1-6: apply new_pool_inv.
  intros j _. unfold unfinished. cbn. replace (omap working (replicate n Testing)) with (@nil task) by (by induction n).
  by intros ?%not_elem_of_nil.
Qed.

(** The cells of two different entries of [posted] are disjoint. *)
Lemma cells_apart j l c : NoDup ((j :: l) ≫= cells) -> c ∈ cells j -> forall k, k ∈ l -> c ∉ cells k.
Proof.
  cbn [mbind list_bind]. intros (_ & Hd & _)%list.NoDup_app Hc k Hk Hck. apply (Hd c Hc).
  apply list_elem_of_bind. by exists k.
Qed.

Lemma package_spec q h : let '(j, h', fut) := package q h in
  exists new, h' = h ++ new /\ NoDup (cells j) /\
    Forall (fun c => (length h <= c < length h')%nat /\ h' !! c = Some Unsettled) (cells j) /\
    (fut = None \/ fut = Some (future_of j)).
Proof.
  destruct q as [r|r|r]; cbn; eexists; (split; [done|]); rewrite length_app; cbn.
  1-2: split_and!; [apply NoDup_singleton| |by auto]; apply Forall_singleton; split; [lia|];
    by rewrite lookup_app_r, Nat.sub_diag.
  split_and!; [| |by auto].
  - apply list.NoDup_cons. split; [rewrite list_elem_of_singleton; lia|apply NoDup_singleton].
  - apply Forall_cons_2; [|apply Forall_singleton]; (split; [lia|]); rewrite lookup_app_r by lia;
      [by rewrite Nat.sub_diag|by replace (S (length h) - length h)%nat with 1%nat by lia].
Qed.

Lemma request_inv s q w s' : exec_inv s -> terminated s = false -> exec_step s (Request q w) = Some s' -> exec_inv s'.
Proof.
  intros [H1 H2 H3 H4 H5 H6 H7] Ht. unfold exec_step. rewrite Ht. unfold post, exec_post, pool_executor.
  cbn [fst snd]. pose proof (package_spec q (states s)) as Hp. destruct (package q (states s)) as [[j h] fut].
  destruct Hp as (new & -> & Hn & Hc & _).
  destruct (ThreadPool.step (pool s) (Posting j w)) as [p|] eqn:Es; [|done]. cbn [mbind option_bind]. intros [= <-].
  destruct (posting_effect _ _ _ _ Es) as (Hal & Hpo & Hfi & Hal'). pose proof (pool_step_inv _ _ _ H1 Es) as Hi.
  assert (Hun : unfinished p ≡ₚ j :: unfinished (pool s)).
  { apply (Permutation_app_inv_l (finished p)). rewrite <- (posted_split p Hi), Hpo, Hfi, (posted_split _ H1).
    rewrite <- Permutation_cons_append. apply Permutation_middle. }
  rewrite Forall_forall in H3, Hc.
  assert (Hold : forall c x, states s !! c = Some x -> (states s ++ new) !! c = Some x) by (by intros; apply lookup_app_l_Some).
  constructor; cbn [pool states]; rewrite ?Hpo, ?Hal', ?Hfi; try done.
  - rewrite bind_app. cbn [mbind list_bind]. rewrite app_nil_r. apply list.NoDup_app. split_and!; try done.
    intros c Hc1%list_elem_of_In Hc2%list_elem_of_In. specialize (H3 c Hc1). specialize (Hc c Hc2). lia.
  - rewrite bind_app. cbn [mbind list_bind]. rewrite app_nil_r. apply Forall_app. split; apply Forall_forall; intros c Hin.
    + specialize (H3 c Hin). rewrite length_app. lia.
    + apply (Hc c Hin).
  - intros k Hk. by apply Hold, H4.
  - intros k _. rewrite Hun, elem_of_cons. intros [->|Hk]; apply Forall_forall; intros c Hin.
    + apply (Hc c Hin).
    + apply Hold. specialize (H5 k ltac:(congruence) Hk). rewrite Forall_forall in H5. by apply H5.
Qed.

(** Running a job: it is unfinished, and its cells are fresh and its own. *)
Lemma running_job s t j : exec_inv s -> m_pool (pool s) !! t = Some (Working j) ->
  exists rest, posted (pool s) ≡ₚ j :: rest /\ finished (pool s) ⊆ rest /\ fresh_cells (states s) j /\ dtor (pool s) <> Joined.
Proof.
  intros [H1 H2 H3 H4 H5 H6 H7] Hj.
  assert (Hd : dtor (pool s) <> Joined).
  { intros Hd. specialize (H6 Hd). rewrite forallb_forall in H6.
    specialize (H6 (Working j) ltac:(by eapply list_elem_of_In, list_elem_of_lookup_2)). done. }
  assert (Hin : j ∈ unfinished (pool s)).
  { apply elem_of_app. left. apply list_elem_of_omap. exists (Working j). split; [by eapply list_elem_of_lookup_2|done]. }
  pose proof (posted_split _ H1) as Hs. apply elem_of_Permutation in Hin as [l Hl]. rewrite Hl in Hs.
  exists (finished (pool s) ++ l). split_and!; try done.
  - by rewrite Hs, Permutation_middle.
  - set_solver.
  - split.
    + rewrite Hs, <- Permutation_middle in H2. cbn [mbind list_bind] in H2. by apply list.NoDup_app in H2 as [? _].
    + apply H5; [done|]. rewrite Hl. by left.
Qed.

Lemma work_cases s t s' : terminated s = false -> exec_step s (Work t) = Some s' ->
  exists p, ThreadPool.step (pool s) (Worker t) = Some p /\
    ((run_by t (pool s) = [] /\ s' = mk_executor p (states s) false) \/
     (exists j, m_pool (pool s) !! t = Some (Working j) /\
        s' = match invoke j (states s) with
             | Some h => mk_executor p h false
             | None => mk_executor (pool s) (states s) true
             end)).
Proof.
  intros Ht. unfold exec_step, run_by. rewrite Ht.
  destruct (ThreadPool.step (pool s) (Worker t)) as [p|]; [|done]. cbn [mbind option_bind]. intros Hs. exists p.
  split; [done|]. destruct (m_pool (pool s) !! t) as [[| | | | | | |j|]|]; simplify_eq; auto. right. by exists j.
Qed.

Lemma work_inv s t s' : exec_inv s -> terminated s = false -> exec_step s (Work t) = Some s' -> exec_inv s'.
Proof.
  intros Hinv Ht Hs. destruct (work_cases s t s' Ht Hs) as (p & Es & Hcase). clear Hs.
  destruct (worker_effect _ _ _ Es) as (Hpo & Hfi & Hd). pose proof (pool_step_inv _ _ _ (xi_pool _ Hinv) Es) as Hi.
  assert (Hnj : dtor (pool s) <> Joined).
  { intros E. by rewrite (exited_stops t _ (xi_joined _ Hinv E)) in Es. }
  assert (Hun : run_by t (pool s) ++ unfinished p ≡ₚ unfinished (pool s)).
  { apply (Permutation_app_inv_l (finished (pool s))). rewrite app_assoc, <- Hfi, <- (posted_split p Hi), Hpo.
    apply posted_split, Hinv. }
  destruct Hcase as [[Hr ->]|(j & Hj & ->)].
  - rewrite Hr, ?app_nil_r in *. cbn [app] in Hun. destruct Hinv as [H1 H2 H3 H4 H5 H6 H7].
    constructor; cbn [pool states]; rewrite ?Hpo, ?Hfi, ?Hd; try done.
    intros k _. rewrite Hun. by apply H5.
  - destruct (running_job s t j Hinv Hj) as (rest & Hp & Hsub & Hfresh & _). pose proof (invoke_spec j _ Hfresh) as Hv.
    destruct (invoke j (states s)) as [h|]; [|by destruct Hinv].
    destruct Hv as (_ & Hout & Hlen & Hother). unfold run_by in *. rewrite Hj in *. cbn [app] in Hun.
    destruct Hinv as [H1 H2 H3 H4 H5 H6 H7].
    assert (Hap : forall k c, k ∈ rest -> c ∈ cells k -> h !! c = states s !! c).
    { intros k c Hk Hc. apply Hother. intros Hcj. rewrite Hp in H2. by apply (cells_apart j rest c H2 Hcj k Hk). }
    assert (Hrest : unfinished p ⊆ rest).
    { pose proof (posted_split p Hi) as Hsp. rewrite Hpo, Hp, Hfi, <- app_assoc in Hsp. cbn [app] in Hsp.
      rewrite <- Permutation_middle in Hsp. apply Permutation_cons_inv in Hsp. rewrite Hsp. set_solver. }
    constructor; cbn [pool states]; rewrite ?Hpo, ?Hfi, ?Hd, ?Hlen; try done.
    + intros k [Hk| ->%list_elem_of_singleton]%elem_of_app; [|done].
      rewrite (Hap k); [by apply H4|by apply Hsub|apply future_in_cells].
    + intros k _ Hk. specialize (H5 k Hnj ltac:(rewrite <- Hun; set_solver)). rewrite Forall_forall in H5 |- *.
      intros c Hc. rewrite (Hap k c); [by apply H5|by apply Hrest|by apply list_elem_of_In].
Qed.

Lemma destroy_step_inv s s' : exec_inv s -> terminated s = false -> exec_step s Destroy = Some s' -> exec_inv s'.
Proof.
  intros [H1 H2 H3 H4 H5 H6 H7] Ht. unfold exec_step. rewrite Ht.
  destruct (ThreadPool.step (pool s) Destroying) as [p|] eqn:Es; [|done]. cbn [mbind option_bind]. intros [= <-].
  destruct (destroying_effect _ _ Es) as (Hpo & Hfi & Hnj & Hex). pose proof (pool_step_inv _ _ _ H1 Es) as Hi.
  assert (Hun : unfinished p ≡ₚ unfinished (pool s)).
  { apply (Permutation_app_inv_l (finished (pool s))). rewrite <- Hfi at 1.
    by rewrite <- (posted_split p Hi), Hpo, (posted_split _ H1). }
  destruct (decide (dtor p = Joined)) as [Hj|Hj].
  - rewrite Hj. specialize (Hex Hj).
    assert (Hpend : m_pending_jobs p = unfinished p) by (unfold unfinished; by rewrite exited_working).
    rewrite Hpend, abandon_all. constructor; cbn [pool states]; rewrite ?Hpo, ?Hfi, ?Hj; try done.
    + assert (Hlen : forall ps (h : heap), length (foldr abandon_state h ps) = length h).
      { induction ps as [|c ps IH]; intros h; [done|]. cbn [foldr]. unfold abandon_state.
        destruct (_ !! c) as [[]|]; rewrite ?length_insert; apply IH. }
      by rewrite Hlen.
    + intros k Hk. rewrite abandon_states_other; [by apply H4|]. right. rewrite (H4 k Hk).
      unfold outcome, settled. by destruct (call k) as [[]|? []].
    + intros k _ Hk. apply abandon_states_eq.
      * apply list_elem_of_bind. exists k. split; [apply future_in_cells|done].
      * rewrite Hun in Hk. specialize (H5 k Hnj Hk). rewrite Forall_forall in H5. apply H5, list_elem_of_In, future_in_cells.
  - replace (match dtor p with Joined => _ | _ => _ end) with (states s) by (by destruct (dtor p)).
    constructor; cbn [pool states]; rewrite ?Hpo, ?Hfi; try done.
    intros k _. rewrite Hun. by apply H5.
Qed.

Lemma stir_inv s t s' : exec_inv s -> terminated s = false -> exec_step s (Stir t) = Some s' -> exec_inv s'.
Proof.
  intros [H1 H2 H3 H4 H5 H6 H7] Ht. unfold exec_step. rewrite Ht.
  destruct (ThreadPool.step (pool s) (Wakes t)) as [p|] eqn:Es; [|done]. cbn [mbind option_bind]. intros [= <-].
  pose proof (pool_step_inv _ _ _ H1 Es) as Hi. destruct (wakes_effect _ _ _ Es) as (Hpo & Hfi & Hd & Hnj).
  assert (Hun : unfinished p ≡ₚ unfinished (pool s)).
  { apply (Permutation_app_inv_l (finished (pool s))). rewrite <- Hfi at 1.
    by rewrite <- (posted_split p Hi), Hpo, (posted_split _ H1). }
  constructor; cbn [pool states]; rewrite ?Hpo, ?Hfi, ?Hd; try done.
  - intros k Hj. rewrite Hun. by apply H5.
  - intros E. by rewrite (H6 E) in Hnj.
  - intros k E. by rewrite (H6 E) in Hnj.
Qed.

Lemma exec_step_inv s e s' : exec_inv s -> exec_step s e = Some s' -> exec_inv s'.
Proof.
  intros Hi Hs. destruct (terminated s) eqn:Ht; [unfold exec_step in Hs; by rewrite Ht in Hs|].
  destruct e; [by eapply request_inv|by eapply work_inv|by eapply destroy_step_inv|by eapply stir_inv].
Qed.

Lemma exec_run_inv n es s : exec_run es (new_executor n) = Some s -> exec_inv s.
Proof.
  unfold exec_run. revert s. induction es as [|e es IH] using rev_ind; intros s.
  - intros [= <-]. apply new_executor_inv.
  - rewrite foldl_snoc. destruct (foldl _ _ es) as [s1|]; [|done]. cbn [mbind option_bind]. by apply exec_step_inv, IH.
Qed.

(** C31: every future is settled, once.  For any number of workers and any interleaving of posts,
    workers and the destructor: the future of a job that has run holds the function's value or
    exception; that of a job that has not is empty, and becomes a broken promise when the pool is
    destroyed; no two jobs share a future; and a worker that runs a job terminates the process
    exactly if the job was posted for a value and its function throws, so no shared state is ever
    settled twice. *)
Theorem futures_settle n es s : exec_run es (new_executor n) = Some s ->
  (forall j, j ∈ finished (pool s) -> states s !! future_of j = Some (outcome j)) /\
  (forall j, j ∈ unfinished (pool s) -> states s !! future_of j =
     Some (match dtor (pool s) with Joined => Broken_promise | _ => Unsettled end)) /\
  posted (pool s) ≡ₚ finished (pool s) ++ unfinished (pool s) /\
  NoDup (future_of <$> posted (pool s)) /\
  (forall t j s', m_pool (pool s) !! t = Some (Working j) -> exec_step s (Work t) = Some s' ->
     terminated s' = value_throws j).
Proof.
  intros Hi%exec_run_inv. pose proof Hi as [H1 H2 H3 H4 H5 H6 H7]. split_and!; try done.
  - intros j Hj. destruct (dtor (pool s)) eqn:Ed; try (specialize (H5 j ltac:(done) Hj); rewrite Forall_forall in H5;
      apply H5, list_elem_of_In, future_in_cells). by apply H7.
  - by apply posted_split.
  - clear -H2. induction (posted (pool s)) as [|j l IH]; [constructor|]. cbn [fmap list_fmap]. apply list.NoDup_cons. split.
    + intros (k & E & Hk)%list_elem_of_fmap. apply (cells_apart j l (future_of j) H2 (future_in_cells j) k Hk).
      rewrite E. apply future_in_cells.
    + apply IH. cbn [mbind list_bind] in H2. by apply list.NoDup_app in H2 as (_ & _ & ?).
  - intros t j s' Hj Hs. assert (Ht : terminated s = false).
    { destruct (terminated s) eqn:E; [|done]. unfold exec_step in Hs. by rewrite E in Hs. }
    destruct (work_cases s t s' Ht Hs) as (p & _ & [[Hr _]|(j' & Hj' & ->)]).
    + unfold run_by in Hr. by rewrite Hj in Hr.
    + rewrite Hj in Hj'. injection Hj' as <-. destruct (running_job s t j Hi Hj) as (_ & _ & _ & Hfresh & _).
      pose proof (invoke_spec j _ Hfresh) as Hv. by destruct (invoke j (states s)); [destruct Hv as [-> _]|].
Qed.

End Front.

(** ** Concrete runs *)

(** Two jobs for one worker: the first has run when the pool is destroyed. *)
Definition future_events : list (@exec_event nat) :=
  [Request (post_future_value (Ok 2%nat)) None; Request (post_future_void (Ok tt)) None;
   Work 0; Work 0; Work 0; Work 0; Work 0; Destroy; Destroy; Work 0; Destroy].

Definition future_run : executor := default (new_executor 1) (exec_run future_events (new_executor 1)).

Example future_run_states : states future_run =
  [Returned (Some 2%nat); Returned None; Broken_promise].
Proof. vm_compute. reflexivity. Qed.

Lemma futures_settle_witness :
  NoDup (future_of <$> posted (pool future_run)).
Proof.
  refine (proj1 (proj2 (proj2 (proj2 (futures_settle 1 future_events future_run _))))). vm_compute. reflexivity.
Defined.

(** A function that throws through [use_future]: with a value the process
    ends, without one the future holds the exception. *)
Definition throwing_events (q : @request nat) : list exec_event :=
  [Request q None; Work 0; Work 0; Work 0; Work 0; Work 0].

Example throwing_value_terminates :
  terminated <$> exec_run (throwing_events (post_future_value (Throw (runtime_error "x")))) (new_executor 1) = Some true.
Proof. vm_compute. reflexivity. Qed.

Example throwing_void_is_stored :
  states <$> exec_run (throwing_events (post_future_void (Throw (runtime_error "x")))) (new_executor 1) =
  Some [Raised (runtime_error "x")].
Proof. vm_compute. reflexivity. Qed.
