(* ===== verification/Endpoints.v ===== *)
(** * Endpoints: handlers, their supervisor, and the host's own probes
    ([src/InboundHandler.cpp], [src/OutboundHandler.cpp], [src/UdpReceiver.cpp],
    [src/UdpTransmitter.cpp], [src/DataProcessor.cpp], [src/ElephantShrewSuper.cpp],
    [src/NetworkInterfaceScanner.cpp], [src/EbpfCapabilities.cpp])

    The handlers forward to an interface; the UDP endpoints and the processor
    implement theirs with empty bodies.  [ElephantShrewSuper] starts one thread
    per handler and joins both; the bodies of the two threads are commented
    out in the source, so [Start] never reaches a handler. *)
From S2P Require Import Prelude PcapReceiver.

(** ** Interfaces ([int/IReceiver.hpp], [int/ITransmitter.hpp], [int/ITask.hpp]) *)
Class IReceiver (S : Type) := Receive_ : effect S unit.
Class ITransmitter (S : Type) := Transmit_ : effect S unit.
Record ITask (S : Type) := mk_task_ops {
  DoTask : effect S unit;
  GetTaskStatus : effect S unit;
  KillTask : effect S unit;
  RestartTask : effect S unit;
}.

Definition GetInbound {S} `{IReceiver S} : effect S unit := Receive_.
Definition SendOutbound {S} `{ITransmitter S} : effect S unit := Transmit_.

Definition UdpReceiver {S} : IReceiver S := mret tt.
Definition UdpTransmitter {S} : ITransmitter S := mret tt.
Definition DataProcessor {S} : ITask S := mk_task_ops S (mret tt) (mret tt) (mret tt) (mret tt).

(** A [PcapReceiver] with its devices is a receiver. *)
Definition PcapEndpoint `{Pcap} : IReceiver (PcapReceiver * devices) := fun '(r, s) =>
  match Receive r s with
  | (Ok r', s') => (Ok tt, (r', s'))
  | (Throw e, s') => (Throw e, (r, s'))
  end.

(** Through a handler, a receiver that cannot start fails as it does alone,
    and stays as it was. *)
Lemma GetInbound_pcap `{Pcap} r s :
  let '(res, (r', s')) := @GetInbound _ PcapEndpoint (r, s) in
  (res = Ok tt <-> exists r'', (Receive r s).1 = Ok r'') /\ s' = (Receive r s).2 /\
  (res <> Ok tt -> r' = r).
Proof.
  unfold GetInbound, Receive_, PcapEndpoint. destruct (Receive r s) as [[r1|e] s1]; simpl.
  - split_and!; try done. split; [by eexists|done].
  - split_and!; try done. split; [done|by intros [? ?]].
Qed.

(** ** [ElephantShrewSuper] *)
Record ElephantShrewSuper := mk_super {
  m_processingOutputs : list Z;
  m_isInboundStopped : bool;
  m_isOutboundStopped : bool;
}.

Definition new_super : ElephantShrewSuper := mk_super [] false false.

(** [Stop()] sets the two flags; any thread may call it. *)
Definition Super_Stop (s : ElephantShrewSuper) : ElephantShrewSuper := mk_super (m_processingOutputs s) true true.

Definition inboundThreadFunction (s : ElephantShrewSuper) : ElephantShrewSuper := s.
Definition outboundThreadFunction (s : ElephantShrewSuper) : ElephantShrewSuper := s.

(** [Start()]: how far the caller is, and which threads have ended. *)
Inductive start_pc := Spawn_in | Spawn_out | Join_in | Join_out | Returned.

Record starting := mk_starting {
  super : ElephantShrewSuper;
  caller : start_pc;
  in_done : option bool;
  out_done : option bool;
}.

Inductive start_event := Caller | In_thread | Out_thread | Stopping.

Definition start_step (s : starting) (e : start_event) : option starting :=
  match e with
  | Caller =>
    match caller s with
    | Spawn_in => Some (mk_starting (super s) Spawn_out (Some false) (out_done s))
    | Spawn_out => Some (mk_starting (super s) Join_in (in_done s) (Some false))
    | Join_in => if decide (in_done s = Some true) then Some (mk_starting (super s) Join_out (in_done s) (out_done s)) else None
    | Join_out => if decide (out_done s = Some true) then Some (mk_starting (super s) Returned (in_done s) (out_done s)) else None
    | Returned => None
    end
  | In_thread =>
    if decide (in_done s = Some false)
    then Some (mk_starting (inboundThreadFunction (super s)) (caller s) (Some true) (out_done s)) else None
  | Out_thread =>
    if decide (out_done s = Some false)
    then Some (mk_starting (outboundThreadFunction (super s)) (caller s) (in_done s) (Some true)) else None
  | Stopping => Some (mk_starting (Super_Stop (super s)) (caller s) (in_done s) (out_done s))
  end.

Definition start_run (es : list start_event) (s : starting) : option starting :=
  foldl (fun o e => o ≫= fun s => start_step s e) (Some s) es.

Definition start_new : starting := mk_starting new_super Spawn_in None None.

(** The threads exist from their creation on. *)
Definition start_ok (s : starting) : Prop :=
  m_processingOutputs (super s) = [] /\
  match caller s with
  | Spawn_in => in_done s = None /\ out_done s = None
  | Spawn_out => is_Some (in_done s) /\ out_done s = None
  | Join_in => is_Some (in_done s) /\ is_Some (out_done s)
  | Join_out | Returned => in_done s = Some true /\ is_Some (out_done s)
  end.

Lemma start_step_ok s e s' : start_ok s -> start_step s e = Some s' -> start_ok s'.
Proof.
  intros [Hq Hp]. unfold start_step, start_ok in *. destruct e; [destruct (caller s) eqn:Ec|..];
    repeat case_decide; intros ?; simplify_eq/=; rewrite ?Ec in *; destruct (caller s) eqn:Ec'; simplify_eq/=; naive_solver.
Qed.

(** Whatever the order of steps, [Start] is never stuck: until it has returned
    some thread can go on; and nothing is ever queued for output. *)
Lemma Start_progress es s : start_run es start_new = Some s ->
  m_processingOutputs (super s) = [] /\
  (caller s <> Returned -> exists e s', e <> Stopping /\ start_step s e = Some s').
Proof.
  intros Hr. assert (Hok : start_ok s).
  { revert s Hr. unfold start_run. induction es as [|e es IH] using rev_ind; intros s; [by intros [= <-]|].
    rewrite foldl_snoc. destruct (foldl _ _ es) as [s1|]; [|done]. cbn [mbind option_bind]. by apply start_step_ok, IH. }
  destruct Hok as [Hq Hp]. split; [done|]. intros Hc. destruct s as [su pc i o]. cbn [caller in_done out_done] in *.
  destruct pc; try done.
  - exists Caller. by eexists.
  - exists Caller. by eexists.
  - destruct Hp as [[[] ->] _]; [exists Caller|exists In_thread]; by eexists.
  - destruct Hp as [-> [[] ->]]; [exists Caller|exists Out_thread]; by eexists.
Qed.

(** ** [NetworkInterfaceScanner::Scan] *)

(** A device as PcapPlusPlus describes it: the addresses as text, nothing for
    [Zero]; [device_type] is the number of the enumerator [getDeviceType]
    returns. *)
Record device_info := mk_device {
  device_name : string;
  ipv4_address : option string;
  ipv6_address : option string;
  mac_address : string;
  device_type : nat;
}.

(** ["  Type: " + dev->getDeviceType()] adds a number to a pointer: it logs
    the literal from that position on. *)
Definition type_line (d : device_info) : string :=
  String.substring (device_type d) (String.length "  Type: " - device_type d) "  Type: ".

Definition scan_device (d : device_info) : list string :=
  ["Interface: " +:+ device_name d] ++
  option_list ((fun a => "  IPv4 Address: " +:+ a) <$> ipv4_address d) ++
  option_list ((fun a => "  IPv6 Address: " +:+ a) <$> ipv6_address d) ++
  ["  Mac Address: " +:+ mac_address d; type_line d].

(** The log of [Scan()]. *)
Definition Scan (l : list device_info) : list string := l ≫= scan_device.

Definition SavePackets : Z := 0.

(** Devices of the first two types: the type is not in the log. *)
Example scan_type :
  Scan [mk_device "eth0" (Some "10.0.0.1") None "02:00:00:00:00:01" 0;
        mk_device "eth1" None None "02:00:00:00:00:02" 1]%string =
  ["Interface: eth0"; "  IPv4 Address: 10.0.0.1"; "  Mac Address: 02:00:00:00:00:01"; "  Type: ";
   "Interface: eth1"; "  Mac Address: 02:00:00:00:00:02"; " Type: "]%string.
Proof. vm_compute. reflexivity. Qed.

(** ** [co_main] of [boost_redis_tester.cpp], of which the scanner's file has a copy

    The calls on the connection are recorded; [async_exec] gives the response
    of a request, which may hold an error that [value()] throws. *)
Inductive conn_call := Async_run | Async_exec (req : list (list string)) | Cancel.

Definition conn (c : conn_call) : effect (list conn_call) unit := update (fun l => l ++ [c]).

Definition co_main (async_exec : list (list string) -> result (result string)) : effect (list conn_call) (list string) :=
  conn Async_run;;
  let req := [["PING"; "Hello world"]]%string in
  conn (Async_exec req);;
  resp ← (match async_exec req with Ok r => mret r | Throw e => raise e end);
  conn Cancel;;
  v ← (match resp with Ok v => mret v | Throw e => raise e end);
  mret ["PING: " +:+ v]%string.

Definition scanner_co_main := co_main.

(** A server that echoes prints its argument; the connection is cancelled
    exactly when the request has been answered, with an error or not. *)
Lemma co_main_spec async_exec :
  co_main async_exec [] =
    let req := [["PING"; "Hello world"]]%string in
    match async_exec req with
    | Throw e => (Throw e, [Async_run; Async_exec req])
    | Ok (Throw e) => (Throw e, [Async_run; Async_exec req; Cancel])
    | Ok (Ok v) => (Ok ["PING: " +:+ v]%string, [Async_run; Async_exec req; Cancel])
    end.
Proof. unfold co_main. cbn. by destruct (async_exec _) as [[]|]. Qed.

(** ** [ProbeEbpfCapabilities] *)

(** libbpf's three probes, by the number of the type or helper. *)
Class LibbpfProbe := {
  probe_bpf_prog_type : string -> Z;
  probe_bpf_map_type : string -> Z;
  probe_bpf_helper : string -> string -> Z;
}.

Record CapabilityResult := mk_capability {
  capability : string;
  probe_result : Z;
}.

Definition ProbeEbpfCapabilities `{LibbpfProbe} : list CapabilityResult :=
  [mk_capability "sched_cls" (probe_bpf_prog_type "BPF_PROG_TYPE_SCHED_CLS");
   mk_capability "ringbuf" (probe_bpf_map_type "BPF_MAP_TYPE_RINGBUF");
   mk_capability "percpu_array" (probe_bpf_map_type "BPF_MAP_TYPE_PERCPU_ARRAY");
   mk_capability "lru_percpu_hash" (probe_bpf_map_type "BPF_MAP_TYPE_LRU_PERCPU_HASH");
   mk_capability "tc_ringbuf_reserve" (probe_bpf_helper "BPF_PROG_TYPE_SCHED_CLS" "BPF_FUNC_ringbuf_reserve");
   mk_capability "tc_skb_load_bytes" (probe_bpf_helper "BPF_PROG_TYPE_SCHED_CLS" "BPF_FUNC_skb_load_bytes")].
